(* ===== verification/_CoqProject ===== *)
-Q . S2P
Prelude.v
Memory.v
ElfFormat.v
Sample.v
ElfTables.v
ElfStrings.v
ElfDynamic.v
ElfLoader.v
ElfRelocate.v
ElfObject.v
X86.v
Stub.v
StubConfig.v
PushPop.v
Posix.v
NamedMemory.v
ProtectedMemory.v
Resolve.v
Kernel.v
Queue.v
QueueSpec.v
TailQueue.v
LinkedLists.v
QueuePairs.v
QueueFamily.v
BufRing.v
BufRingSteps.v
BitSet.v
CpuSet.v
SigSet.v
TimeArith.v
IfQueue.v
IfQueueSpec.v
Mbuf.v
Libkern.v
Atomic.v
Smp.v
Locks.v
LockSteps.v
LockKinds.v
Socket.v
Inet.v
Bits.v
Stdio.v
ThreadState.v
Codecs.v
Vmparam.v
Fenv.v
EventHandler.v
Ctype.v
Kobj.v
Giant.v
MbufTags.v
Jail.v
Brackets.v
Percpu.v
