(* ===== verification/Prelude.v ===== *)
(** * libps4: a verification library

    libps4 is a C library for code on a PlayStation 4: it loads ELF images,
    finds the functions of the console's modules and kernel when they are
    first called, hands out shared and executable memory, and carries the
    FreeBSD headers its users compile against, several of which hold code of
    their own (queues, ring buffers, sets, time arithmetic, network queues).
    This library models that code and proves what it does.

    ** Conventions

    C code is a function in the monad [C] of this file: a state, a result, and
    the outcomes [UB] (no meaning in C: a bad access, a signed overflow, an
    uninitialised read) and [Timeout] (fuel used up).  A theorem that a
    function gives [Done r s] therefore says that it returns and that nothing
    undefined happens.  Integers are [Z] with the wrap-around of their width
    written out ([u64], [u32], [u16]); addresses are numbers, 0 is NULL.  What
    is not in the repository (system calls, the kernel, malloc, the zone
    allocator, handlers of the library's user) is a class with the documented
    behaviour as laws: [Allocator], [Posix], [System], [KernelEntry],
    [Network], [Zones], [LockImpl]'s blocking functions, [Swbuf], [Srget],
    [Faultin], [Handlers], [Prunes], [SlowLookup], [GiantUsers], [Locates]; each has
    instances that the witnesses run.  Names are
    those of the source.

    ** The ELF loader (source/ps4/elfloader.c, include/ps4/elfloader.h,
       include/sys/elf64.h)

    Memory.v is the address space, ElfFormat.v the structures and their
    bytes, ElfTables.v, ElfStrings.v and ElfDynamic.v the accessors,
    ElfObject.v the life of an [Elf] object, ElfLoader.v instantiation and the
    code of relocation and loading, ElfRelocate.v their specification; Sample.v
    is an image on which the theorems are evaluated.  Accessors work on an
    image in memory ([elf_at] ties it to the list of its headers).
    Instantiation and relocation are proved to refine functions on byte maps
    written from the tables alone, error paths included; loading is their
    composition and changes nothing outside the target.  From this follow the
    contents of each segment and of each relocated slot, the latter with the
    mapping read off the program headers, and that the size elfMemorySize
    gives is enough for an image with sound segments.  Searches are proved
    exact where the code is, and their limits are theorems of their own.
    elfLargestAlignment and elfDynamicsLength have loops without a bound in
    the data: theorems show that the fuel (the number of bits of a word, the
    number of dynamic entries addresses leave room for) is never used up.

    ** Stubs and the resolver (include/ps4/internal/stub.h, stub/,
       source/ps4/internal/pushpop.s, source/ps4/internal/resolve.c)

    X86.v has the instructions the assembly parts use, with encoding and
    semantics; Stub.v the five stub macros as programs, and the reader of
    their operands; StubConfig.v the macro layer that picks a stub in each
    configuration; PushPop.v the save and restore routines, and the whole way
    of a stub through them and the resolver; Resolve.v resolve.c.  A stub is
    read back exactly (roundtrip); run with an empty cache it calls the
    resolver with its operands in the right registers (all kinds but one,
    whose defect is a theorem) and then starts again or returns with the
    registers of its caller; after a successful resolution a second run jumps
    to the resolved address with these registers.  Handlers may change the
    resolver's variables; calling the loader before it is known is undefined.

    ** Memory objects (source/ps4/namedmemory.c, protectedmemory.c)

    Posix.v is the ledger of resources (heap blocks of the size they were
    allocated with, handles, shared objects, mappings with their length,
    protection, flags and file) and the calls on it, NamedMemory.v and
    ProtectedMemory.v the code.  Whatever call the system fails, nothing leaks
    but what munmap refuses to remove; the one undefined outcome, an out
    parameter that a failing JIT call leaves unassigned, is part of the
    statement.  Open and close, and create and destroy, are inverse; sizes are
    exact: whole pages, and the least that hold what was asked for or found.

    ** Kernel access (source/ps4/kernel.c)

    Kernel.v: initialisation, the search for the kernel image, symbol lookup
    in kernel mode and through the system call from user mode, the bump
    allocator of executable memory.

    ** Lists (include/sys/queue.h)

    Queue.v has every macro on a memory of pointer variables; QueueSpec.v the
    representation of a list, with insertion and removal proved once for all
    kinds; TailQueue.v and LinkedLists.v the four families, QueuePairs.v the
    macros on two heads; QueueFamily.v clients: any sequence of the macros of
    a family on any number of heads refines the operations on mathematical
    lists, and draining with FOREACH_SAFE visits every element once.
    Traversals take fuel; one more round than the list is long is enough.

    ** Ring buffer (include/sys/buf_ring.h)

    BufRing.v: run by one thread it refines a bounded queue.  BufRingSteps.v:
    a step relation of any number of threads with every shared access one
    step; an invariant with ghost counters gives first-in first-out order as
    long as no thread is overtaken by a whole lap, and a run shows that the
    condition is needed.

    ** Sets (include/sys/cpuset.h, select.h, signalvar.h, smp.h) and reference
       counts (refcount.h)

    BitSet.v: arrays of words as finite sets of numbers, for every word size.
    CpuSet.v, SigSet.v: each macro refines the set operation of its name, for
    any sequence of operations.  Smp.v: enumeration of the CPUs (256 rounds of
    fuel cover two passes over a set of 128), and reference counts, where
    exactly the last release reports true.

    ** Times (include/sys/time.h, timespec.h)

    TimeArith.v: sums, differences, products, comparisons and conversions
    against rational values, carries included, with pointers that may be equal.

    ** Network queues and buffers (include/net/if_var.h, altq/if_altq.h,
       sys/mbuf.h) and helpers (sys/libkern.h, sys/param.h, machine/endian.h)

    IfQueue.v has the IF, IFQ and IFQ_DRV macros with their locks, and the
    drbr functions on top of the ring buffer; IfQueueSpec.v shows that output
    queue and driver queue are one first-in first-out queue, that accepted
    packets are delivered once and in order, and that the drbr functions are a
    bounded queue.  Mbuf.v: allocation, space before and after the data,
    alignment, flag fields.  Libkern.v: the checksum against its bitwise
    definition, byte order, rounding, bit maps.

    ** Atomic operations and locks (include/machine/atomic.h, sys/mutex.h,
       sys/rwlock.h, sys/sx.h)

    Atomic.v: the operations as the instructions they execute.  Locks.v: the
    inline lock operations as programs of atomic actions; LockSteps.v: threads
    that run such programs interleaved, and the interface [LockImpl] between
    a lock and its users (the code keeps the encoding of the lock word, and
    each call takes effect at exactly one of its actions); LockKinds.v: the
    four kinds of locks implement it, hence they exclude.  The blocking
    functions, which are outside the headers, are a relation with a contract.
    Programs are finite trees, so every call takes finitely many actions
    between its waits.
    Giant.v: the macros that give up the mutex Giant however often it is held
    and take it back, on these programs, while other threads act on the mutex;
    its loops need one round more than the thread has holds.

    ** Kernel structures (include/sys/kobj.h, sys/jail.h, sys/pcpu.h,
       machine/cpufunc.h, sys/sched.h, net/vnet.h, the tags of sys/mbuf.h)

    Kobj.v: method lookup through a cache is the slow search.  Jail.v: the
    loops over the tree of prisons, which walk links of Queue.v without a
    stack, are the recursive preorder traversal, with the locks of the path
    held and the level right; two rounds for each prison are enough.
    MbufTags.v: the tags of a packet are a list, and what is tagged is found.
    Brackets.v: sections with interrupts disabled, flags set, the thread
    pinned or another network stack, nested in any way, restore what they
    change, in kernels with and without VIMAGE.  Percpu.v: sums over the CPUs of Smp.v, and registers in halves.

    ** Words and addresses (include/sys/systm.h, machine/cpufunc.h,
       sys/ioccom.h, sys/wait.h, sys/types.h, sys/stat.h, machine/segments.h,
       machine/pmap.h, machine/vmparam.h, machine/param.h, netinet/in.h,
       netinet6/in6.h, sys/socket.h)

    Bits.v: the parallel bit counts against the number of bits set, the bit
    searches.  Codecs.v: ioctl requests, wait status, device numbers, file
    types and selectors are read back as they were made.  Vmparam.v: addresses
    and page table indices, the direct map and the recursive map of the page
    tables, rounding to pages.  Inet.v: the classes and kinds of addresses.
    Socket.v: control messages; a receiver's loop visits what was put in, and
    ends on every buffer whose headers have a length (its fuel is the number
    of messages the buffer has room for).

    ** Streams, threads, events, floating point (include/stdio.h, sys/proc.h,
       sys/eventhandler.h, fenv.h)

    Stdio.v: getc and putc on a stream's buffer, against the contracts
    [Swbuf] and [Srget] of the C library's part; output and input are
    sequences, and the modes of a stream are kept apart as the comment in the
    header says.  ThreadState.v: the states of a thread as a transition
    relation over events, with the reasons that keep it from running; holds on
    a process.  EventHandler.v: the invocation of handlers on the tail queue of
    Queue.v, with entries that are deregistered meanwhile.  Fenv.v: rounding
    direction and exception flags in the two units.  Ctype.v: classes, case and
    width of characters (_ctype.h), and the page counters (sys/vmmeter.h).

    ** Not modelled

    - source/ps4/internal/kernelexploit*.c and the payload wrappers of kernel.c
      (root, jail, privileges): they rely on the layout and the faults of one
      kernel binary that is not part of the repository.
    - crt0.s and kerncall.s, entry glue around system calls.
    - the declarations, generated argument structures and constant tables of
      the system headers (sysproto.h, audit_kevents.h, elf_common.h beyond what
      the loader compares with, ...): they hold no code.
    - debugging variants that are off by default (DEBUG_BUFRING,
      QUEUE_MACRO_DEBUG; INVARIANTS except for the checks of Queue.v, Giant.v
      and Brackets.v).
    - assembly of the headers that only the hardware gives a meaning to (port
      and control register accesses, accesses through the gs segment), and
      macros that only declare data for the linker (sysctl.h, kernel.h,
      module.h).
    - small helpers without a contract of their own (the byte swaps of db.h,
      EV_SET of event.h, accessors of vm_map.h, filedesc.h and signalvar.h).
    What is left of the headers beyond these is declarations.  *)

From stdpp Require Export base gmap list numbers option strings.
From Stdlib Require Strings.Byte.
From coqutil Require Export Byte.
From coqutil Require Export Word.LittleEndianList.
#[global] Open Scope Z_scope.

#[export] Instance byte_eq_dec : EqDecision Byte.byte := Stdlib.Strings.Byte.byte_eq_dec.

(** ** Computations

    C code is modelled in a state monad with two abnormal outcomes: [UB], an
    execution the C standard gives no meaning to (a NULL or unmapped access,
    a signed overflow, a read of an uninitialised object, a division by
    zero), and [Timeout], a loop that has used up its fuel. *)

Inductive outcome (S A : Type) : Type :=
| Done (a : A) (s : S)
| UB
| Timeout.

Arguments Done {S A} _ _.
Arguments UB {S A}.
Arguments Timeout {S A}.

Definition C (S A : Type) : Type := S → outcome S A.

#[export] Instance C_ret (S : Type) : MRet (C S) := λ _ a s, Done a s.

#[export] Instance C_bind (S : Type) : MBind (C S) := λ _ _ k c s,
  match c s with
  | Done a s' => k a s'
  | UB => UB
  | Timeout => Timeout
  end.

Definition ub {S A : Type} : C S A := λ _, UB.
Definition timeout {S A : Type} : C S A := λ _, Timeout.
Definition getS {S : Type} : C S S := λ s, Done s s.
Definition putS {S : Type} (s : S) : C S () := λ _, Done () s.
Definition gets {S A : Type} (f : S → A) : C S A := λ s, Done (f s) s.
Definition modifyS {S : Type} (f : S → S) : C S () := λ s, Done () (f s).

(** Reading an object that may still be uninitialised. *)
Definition init {S A : Type} (o : option A) : C S A :=
  match o with Some a => mret a | None => ub end.

(** [for (i = lo; i < hi; ++i)] with a loop-carried value: the body goes on
    with [inl acc] or leaves the enclosing function with [inr r].  The
    counters of the modelled loops are compared with a bound of their own
    type, so [++i] never wraps and [hi - lo] rounds are enough. *)
Fixpoint for_up {S A R : Type} (n : nat) (i : Z) (acc : A)
    (body : Z → A → C S (A + R)) : C S (A + R) :=
  match n with
  | O => mret (inl acc)
  | Datatypes.S n =>
      x ← body i acc;
      match x with
      | inl acc => for_up n (i + 1) acc body
      | inr r => mret (inr r)
      end
  end.

Definition for_range {S A R : Type} (lo hi : Z) (acc : A)
    (body : Z → A → C S (A + R)) : C S (A + R) :=
  for_up (Z.to_nat (hi - lo)) lo acc body.

(** The same loop when its body never leaves the function. *)
Fixpoint fold_up {S A : Type} (n : nat) (i : Z) (acc : A) (body : Z → A → C S A) : C S A :=
  match n with
  | O => mret acc
  | Datatypes.S n => acc ← body i acc; fold_up n (i + 1) acc body
  end.

Definition fold_range {S A : Type} (lo hi : Z) (acc : A) (body : Z → A → C S A) : C S A :=
  fold_up (Z.to_nat (hi - lo)) lo acc body.

(** A [while] loop without a counter, with fuel. *)
Fixpoint while {S A R : Type} (fuel : nat) (acc : A)
    (body : A → C S (A + R)) : C S R :=
  match fuel with
  | O => timeout
  | Datatypes.S fuel =>
      x ← body acc;
      match x with
      | inl acc => while fuel acc body
      | inr r => mret r
      end
  end.

(** ** Machine integers *)

Definition u8 (z : Z) : Z := z mod 2 ^ 8.
Definition u16 (z : Z) : Z := z mod 2 ^ 16.
Definition u32 (z : Z) : Z := z mod 2 ^ 32.
Definition u64 (z : Z) : Z := z mod 2 ^ 64.

(** The two's complement reading of the low [w] bits. *)
Definition signed (w : Z) (z : Z) : Z :=
  let r := z mod 2 ^ w in if r <? 2 ^ (w - 1) then r else r - 2 ^ w.

Definition i8 : Z → Z := signed 8.
Definition i32 : Z → Z := signed 32.
Definition i64 : Z → Z := signed 64.

Definition INT_MAX : Z := 2 ^ 31 - 1.

(** The product of two operands promoted to [int]: overflow is undefined. *)
Definition mul_int {S : Type} (a b : Z) : C S Z :=
  if (a * b <=? INT_MAX) && (- INT_MAX - 1 <=? a * b) then mret (a * b) else ub.

(** Unsigned division; dividing by zero is undefined. *)
Definition div_u {S : Type} (a b : Z) : C S Z :=
  if b =? 0 then ub else mret (a / b).

(** A C truth value. *)
Definition c_true (z : Z) : bool := negb (z =? 0).

(** ** Automation *)

Create HintDb cdb discriminated.
#[export] Hint Constants Opaque : cdb.
Create HintDb cbounds.

Ltac c_unfold :=
  unfold mbind, C_bind, mret, C_ret, ub, timeout, getS, putS, gets, modifyS in *; cbn beta iota in *.

(** Destruct the innermost scrutinee of the goal's matches. *)
Ltac case_goal :=
  match goal with
  | |- context [match ?x with _ => _ end] =>
      lazymatch x with
      | context [match _ with _ => _ end] => fail
      | _ => destruct x eqn:?
      end
  end.

(** Turn boolean comparisons on Z into propositions, then use lia. *)
Ltac zb :=
  repeat match goal with
  | H : (_ =? _)%Z = true |- _ => apply Z.eqb_eq in H
  | H : (_ =? _)%Z = false |- _ => apply Z.eqb_neq in H
  | H : (_ <? _)%Z = true |- _ => apply Z.ltb_lt in H
  | H : (_ <? _)%Z = false |- _ => apply Z.ltb_ge in H
  | H : (_ <=? _)%Z = true |- _ => apply Z.leb_le in H
  | H : (_ <=? _)%Z = false |- _ => apply Z.leb_gt in H
  | H : (_ && _)%bool = true |- _ => apply andb_prop in H; destruct H
  | H : negb _ = true |- _ => apply negb_true_iff in H
  | H : negb _ = false |- _ => apply negb_false_iff in H
  end.

(** ** Monad laws and evaluation *)

Lemma bind_done {S A B : Type} (c : C S A) (k : A → C S B) (s s' : S) (a : A) :
  c s = Done a s' → (x ← c; k x) s = k a s'.
Proof. intros H. unfold mbind, C_bind. by rewrite H. Qed.

Lemma bind_ret {S A B : Type} (a : A) (k : A → C S B) (s : S) : (x ← mret a; k x) s = k a s.
Proof. done. Qed.

Lemma bind_ub {S A B : Type} (c : C S A) (k : A → C S B) (s : S) :
  c s = UB → (x ← c; k x) s = UB.
Proof. intros H. unfold mbind, C_bind. by rewrite H. Qed.

Lemma bind_assoc {S A B D : Type} (c : C S A) (f : A → C S B) (g : B → C S D) (s : S) :
  (y ← (x ← c; f x); g y) s = (x ← c; y ← f x; g y) s.
Proof. unfold mbind, C_bind. by destruct (c s). Qed.

Lemma bind_inv {S A B : Type} (c : C S A) (k : A → C S B) (s s' : S) (b : B) :
  (x ← c; k x) s = Done b s' → ∃ a t, c s = Done a t ∧ k a t = Done b s'.
Proof. unfold mbind, C_bind. destruct (c s); naive_solver. Qed.

Lemma mret_done {S A : Type} (a : A) (s : S) : (mret a : C S A) s = Done a s.
Proof. done. Qed.

Lemma init_some {S A : Type} (a : A) (s : S) : init (Some a) s = Done a s.
Proof. done. Qed.

(** One step of a sequence whose head evaluates by the hint database. *)
Ltac cstep :=
  erewrite bind_done; [| solve [reflexivity | eauto 4 with cdb]]; cbn beta iota.

(** A computation that cannot run out of fuel. *)
Definition returns {S A : Type} (c : C S A) (s : S) : Prop :=
  ∃ a s', c s = Done a s'.

(** A computation that leaves the state as it found it. *)
Definition read_only {S A : Type} (c : C S A) : Prop :=
  ∀ s a s', c s = Done a s' → s' = s.

Lemma read_only_ret {S A : Type} (a : A) : read_only (mret a : C S A).
Proof. by intros s ? ? [= <- <-]. Qed.

Lemma read_only_ub {S A : Type} : read_only (ub : C S A).
Proof. by intros s ? ? [=]. Qed.

Lemma read_only_init {S A : Type} (o : option A) : read_only (init o : C S A).
Proof. destruct o; [apply read_only_ret | apply read_only_ub]. Qed.

Lemma read_only_gets {S A : Type} (f : S → A) : read_only (gets f).
Proof. by intros s ? ? [= <- <-]. Qed.

Lemma read_only_mul_int {S : Type} (a b : Z) : read_only (mul_int a b : C S Z).
Proof. unfold mul_int. case_match; [apply read_only_ret | apply read_only_ub]. Qed.

Lemma read_only_div_u {S : Type} (a b : Z) : read_only (div_u a b : C S Z).
Proof. unfold div_u. case_match; [apply read_only_ub | apply read_only_ret]. Qed.

Lemma read_only_bind {S A B : Type} (c : C S A) (k : A → C S B) :
  read_only c → (∀ a, read_only (k a)) → read_only (x ← c; k x).
Proof.
  intros Hc Hk s b s' (a & t & H1 & H2)%bind_inv.
  apply Hk in H2. apply Hc in H1. congruence.
Qed.

Lemma read_only_for_up {S A R : Type} (body : Z → A → C S (A + R)) n i acc :
  (∀ i acc, read_only (body i acc)) → read_only (for_up n i acc body).
Proof.
  intros Hb. revert i acc. induction n as [|n IH]; intros i acc; simpl.
  - apply read_only_ret.
  - apply read_only_bind; [apply Hb|].
    intros [?|?]; [apply IH | apply read_only_ret].
Qed.

Lemma read_only_for_range {S A R : Type} (body : Z → A → C S (A + R)) lo hi acc :
  (∀ i acc, read_only (body i acc)) → read_only (for_range lo hi acc body).
Proof. apply read_only_for_up. Qed.

Lemma read_only_fold_range {S A : Type} (body : Z → A → C S A) lo hi acc :
  (∀ i acc, read_only (body i acc)) → read_only (fold_range lo hi acc body).
Proof.
  intros Hb. unfold fold_range. generalize (Z.to_nat (hi - lo)) as n. intros n.
  revert lo acc. induction n as [|n IH]; intros i acc; simpl; [apply read_only_ret|].
  apply read_only_bind; [apply Hb|]. intros. apply IH.
Qed.

Lemma read_only_while {S A R : Type} (body : A → C S (A + R)) fuel acc :
  (∀ acc, read_only (body acc)) → read_only (while fuel acc body).
Proof.
  intros Hb. revert acc. induction fuel as [|fuel IH]; intros acc; simpl.
  - by intros s ? ? [=].
  - apply read_only_bind; [apply Hb|].
    intros [?|?]; [apply IH | apply read_only_ret].
Qed.

#[export] Hint Resolve read_only_ret read_only_ub read_only_init read_only_gets
  read_only_mul_int read_only_div_u read_only_bind read_only_for_range
  read_only_fold_range read_only_while : cdb.

(** Structural proof that a computation is read-only. *)
Ltac solve_read_only :=
  repeat (intros; first
    [ apply read_only_ret | apply read_only_ub | apply read_only_init
    | apply read_only_gets | apply read_only_mul_int | apply read_only_div_u
    | solve [auto with cdb nocore]
    | apply read_only_bind | apply read_only_for_range | apply read_only_fold_range
    | apply read_only_while
    | case_match ]).

(** ** Loops *)

Lemma for_up_inv {S A R : Type} (P : Z → A → S → Prop)
    (body : Z → A → C S (A + R)) n i acc s :
  P i acc s →
  (∀ j a t, i ≤ j < i + Z.of_nat n → P j a t →
     ∃ a' t', body j a t = Done (inl a') t' ∧ P (j + 1) a' t') →
  ∃ a' s', for_up n i acc body s = Done (inl a') s' ∧ P (i + Z.of_nat n) a' s'.
Proof.
  revert i acc s. induction n as [|n IH]; intros i acc s HP Hstep.
  - exists acc, s. split; [done|]. by rewrite Z.add_0_r.
  - destruct (Hstep i acc s) as (a' & t' & Hb & HP'); [lia|done|].
    destruct (IH (i + 1) a' t') as (a2 & s2 & Hf & HP2); [done| |].
    { intros j a t Hj. apply Hstep. lia. }
    exists a2, s2. split.
    + simpl. by rewrite (bind_done _ _ _ _ _ Hb).
    + by replace (i + Z.of_nat (Datatypes.S n)) with (i + 1 + Z.of_nat n) by lia.
Qed.

(** A loop that always runs to its end, by an invariant. *)
Lemma for_range_inv {S A R : Type} (P : Z → A → S → Prop)
    (body : Z → A → C S (A + R)) lo hi acc s :
  lo ≤ hi → P lo acc s →
  (∀ j a t, lo ≤ j < hi → P j a t →
     ∃ a' t', body j a t = Done (inl a') t' ∧ P (j + 1) a' t') →
  ∃ a' s', for_range lo hi acc body s = Done (inl a') s' ∧ P hi a' s'.
Proof.
  intros Hle HP Hstep. unfold for_range.
  destruct (for_up_inv P body (Z.to_nat (hi - lo)) lo acc s) as (a' & s' & ? & ?); [done| |].
  - intros j a t Hj. apply Hstep. lia.
  - exists a', s'. split; [done|]. by replace hi with (lo + Z.of_nat (Z.to_nat (hi - lo))) by lia.
Qed.

Lemma for_range_empty {S A R : Type} lo hi acc (body : Z → A → C S (A + R)) s :
  hi ≤ lo → for_range lo hi acc body s = Done (inl acc) s.
Proof. intros ?. unfold for_range. by replace (Z.to_nat (hi - lo)) with O by lia. Qed.

Lemma for_range_step {S A R : Type} lo hi acc (body : Z → A → C S (A + R)) s :
  lo < hi →
  for_range lo hi acc body s =
    (x ← body lo acc;
     match x with
     | inl acc => for_range (lo + 1) hi acc body
     | inr r => mret (inr r)
     end) s.
Proof.
  intros ?. unfold for_range.
  replace (Z.to_nat (hi - lo)) with (Datatypes.S (Z.to_nat (hi - (lo + 1)))) by lia.
  done.
Qed.

Lemma fold_up_inv {S A : Type} (P : Z → A → S → Prop) (body : Z → A → C S A) n i acc s :
  P i acc s →
  (∀ j a t, i ≤ j < i + Z.of_nat n → P j a t →
     ∃ a' t', body j a t = Done a' t' ∧ P (j + 1) a' t') →
  ∃ a' s', fold_up n i acc body s = Done a' s' ∧ P (i + Z.of_nat n) a' s'.
Proof.
  revert i acc s. induction n as [|n IH]; intros i acc s HP Hstep.
  - exists acc, s. split; [done|]. by rewrite Z.add_0_r.
  - destruct (Hstep i acc s) as (a' & t' & Hb & HP'); [lia|done|].
    destruct (IH (i + 1) a' t') as (a2 & s2 & Hf & HP2); [done| |].
    { intros j a t Hj. apply Hstep. lia. }
    exists a2, s2. split.
    + simpl. by rewrite (bind_done _ _ _ _ _ Hb).
    + by replace (i + Z.of_nat (Datatypes.S n)) with (i + 1 + Z.of_nat n) by lia.
Qed.

Lemma fold_range_inv {S A : Type} (P : Z → A → S → Prop) (body : Z → A → C S A) lo hi acc s :
  lo ≤ hi → P lo acc s →
  (∀ j a t, lo ≤ j < hi → P j a t →
     ∃ a' t', body j a t = Done a' t' ∧ P (j + 1) a' t') →
  ∃ a' s', fold_range lo hi acc body s = Done a' s' ∧ P hi a' s'.
Proof.
  intros Hle HP Hstep. unfold fold_range.
  destruct (fold_up_inv P body (Z.to_nat (hi - lo)) lo acc s) as (a' & s' & ? & ?); [done| |].
  - intros j a t Hj. apply Hstep. lia.
  - exists a', s'. split; [done|]. by replace hi with (lo + Z.of_nat (Z.to_nat (hi - lo))) by lia.
Qed.

(** A read-only loop over the entries of a list is a left fold. *)
Lemma fold_range_foldl {S A T : Type} (l : list T) (f : A → T → A)
    (body : Z → A → C S A) acc s :
  (∀ (i : nat) x a, l !! i = Some x → body (Z.of_nat i) a s = Done (f a x) s) →
  fold_range 0 (Z.of_nat (length l)) acc body s = Done (foldl f acc l) s.
Proof.
  unfold fold_range. rewrite Z.sub_0_r, Nat2Z.id. intros Hb.
  assert (Hb' : ∀ (i : nat) x a, l !! i = Some x →
    body (0 + Z.of_nat i) a s = Done (f a x) s) by (intros; rewrite Z.add_0_l; auto).
  clear Hb. revert Hb'. generalize 0 as k. revert acc.
  induction l as [|x l IH]; intros acc k Hb; simpl; [done|].
  rewrite (bind_done _ _ s s (f acc x)).
  - apply IH. intros i y a Hi. rewrite <- Z.add_assoc, Z.add_1_l, <- Nat2Z.inj_succ. by apply Hb.
  - rewrite <- (Hb O x acc eq_refl). by rewrite Z.add_0_r.
Qed.

(** The first index of [lo, hi) whose entry satisfies [p]. *)
Fixpoint first_up (n : nat) (i : Z) (p : Z → bool) : option Z :=
  match n with
  | O => None
  | Datatypes.S n => if p i then Some i else first_up n (i + 1) p
  end.

Definition first_in (lo hi : Z) (p : Z → bool) : option Z :=
  first_up (Z.to_nat (hi - lo)) lo p.

Lemma first_up_spec n i p :
  match first_up n i p with
  | Some j => i ≤ j < i + Z.of_nat n ∧ p j = true ∧ ∀ k, i ≤ k < j → p k = false
  | None => ∀ k, i ≤ k < i + Z.of_nat n → p k = false
  end.
Proof.
  revert i. induction n as [|n IH]; intros i; simpl; [lia|].
  destruct (p i) eqn:Hp; [split_and!; [lia..|done|lia]|].
  specialize (IH (i + 1)). destruct (first_up n (i + 1) p) as [j|].
  - destruct IH as (? & ? & Hk). split_and!; [lia..|done|].
    intros k ?. destruct (decide (k = i)) as [->|]; [done|]. apply Hk. lia.
  - intros k ?. destruct (decide (k = i)) as [->|]; [done|]. apply IH. lia.
Qed.

Lemma first_in_spec lo hi p :
  match first_in lo hi p with
  | Some j => lo ≤ j < hi ∧ p j = true ∧ ∀ k, lo ≤ k < j → p k = false
  | None => ∀ k, lo ≤ k < hi → p k = false
  end.
Proof.
  unfold first_in. pose proof (first_up_spec (Z.to_nat (hi - lo)) lo p) as H.
  destruct (first_up _ lo p); [destruct H as (? & ? & ?); split_and!; [lia..|done|done]|].
  intros k ?. apply H. lia.
Qed.

Lemma first_in_unique lo hi p i :
  lo ≤ i < hi → p i = true → (∀ k, lo ≤ k < i → p k = false) → first_in lo hi p = Some i.
Proof.
  intros Hi Hp Hb. pose proof (first_in_spec lo hi p) as H. destruct (first_in lo hi p) as [j|].
  - destruct H as (Hj & Hpj & Hbj). f_equal. destruct (Z.lt_trichotomy j i) as [Hlt|[->|Hlt]]; [|done|].
    + rewrite Hb in Hpj by lia. done.
    + rewrite Hbj in Hp by lia. done.
  - rewrite H in Hp by lia. done.
Qed.

(** A search loop with a read-only body returns at the first hit. *)
Lemma for_range_first {S R : Type} (body : Z → () → C S (() + R)) lo hi s
    (p : Z → bool) (f : Z → R) :
  (∀ i, lo ≤ i < hi →
     body i () s = Done (if p i then inr (f i) else inl ()) s) →
  for_range lo hi () body s =
    Done (match first_in lo hi p with Some i => inr (f i) | None => inl () end) s.
Proof.
  unfold for_range, first_in. intros Hb.
  assert (Hb' : ∀ i, lo ≤ i < lo + Z.of_nat (Z.to_nat (hi - lo)) →
     body i () s = Done (if p i then inr (f i) else inl ()) s)
    by (intros; apply Hb; lia).
  clear Hb. revert Hb'. generalize (Z.to_nat (hi - lo)) as n. intros n. revert lo.
  induction n as [|n IH]; intros lo Hb; simpl; [done|].
  rewrite (bind_done _ _ _ _ _ (Hb lo ltac:(lia))).
  destruct (p lo); [done|]. apply IH. intros; apply Hb; lia.
Qed.

(** A search that hits at [k], or nowhere if [k] is the end; nothing is known
    of the rounds after [k]. *)
Lemma for_range_upto {S R : Type} (body : Z → () → C S (() + R)) lo hi k s (f : Z → R) :
  lo ≤ k ≤ hi →
  (∀ i, lo ≤ i < hi → i ≤ k → body i () s = Done (if i =? k then inr (f i) else inl ()) s) →
  for_range lo hi () body s = Done (if k =? hi then inl () else inr (f k)) s.
Proof.
  unfold for_range. intros Hk Hb. remember (Z.to_nat (hi - lo)) as n eqn:Hn.
  revert lo Hk Hb Hn. induction n as [|n IH]; intros lo Hk Hb Hn; simpl.
  - by rewrite (proj2 (Z.eqb_eq k hi)) by lia.
  - rewrite (bind_done _ _ _ _ _ (Hb lo ltac:(lia) ltac:(lia))).
    destruct (Z.eqb_spec lo k) as [->|].
    + by rewrite (proj2 (Z.eqb_neq k hi)) by lia.
    + apply IH; [lia|intros; apply Hb; lia|lia].
Qed.

(** ** Termination without a precondition

    [halts c s Q]: from [s] the computation does not run out of fuel, and
    if it is defined then [Q] holds of its result. *)

Definition halts {S A : Type} (c : C S A) (s : S) (Q : A → S → Prop) : Prop :=
  match c s with
  | Done a s' => Q a s'
  | UB => True
  | Timeout => False
  end.

Lemma halts_ret {S A : Type} (a : A) (s : S) (Q : A → S → Prop) : Q a s → halts (mret a) s Q.
Proof. done. Qed.

Lemma halts_not_timeout {S A : Type} (c : C S A) s (Q : A → S → Prop) :
  halts c s Q → c s ≠ Timeout.
Proof. unfold halts. by destruct (c s). Qed.

Lemma halts_ub {S A : Type} (s : S) (Q : A → S → Prop) : halts ub s Q.
Proof. done. Qed.

Lemma halts_weaken {S A : Type} (c : C S A) s (P Q : A → S → Prop) :
  halts c s P → (∀ a s', P a s' → Q a s') → halts c s Q.
Proof. unfold halts. destruct (c s); auto. Qed.

Lemma halts_bind {S A B : Type} (c : C S A) (k : A → C S B) s (P : A → S → Prop) Q :
  halts c s P → (∀ a s', P a s' → halts (k a) s' Q) → halts (x ← c; k x) s Q.
Proof. unfold halts, mbind, C_bind. destruct (c s); [intros H1 H2; by apply H2|done|done]. Qed.

Lemma halts_init {S A : Type} (o : option A) (s : S) (Q : A → S → Prop) :
  (∀ a, o = Some a → Q a s) → halts (init o) s Q.
Proof. destruct o; simpl; [intros H; apply halts_ret; auto|done]. Qed.

Lemma halts_mul_int {S : Type} a b (s : S) (Q : Z → S → Prop) :
  Q (a * b) s → halts (mul_int a b) s Q.
Proof. unfold mul_int. by case_match. Qed.

Lemma halts_for_range {S A R : Type} (P : Z → A → S → Prop) (Q : A + R → S → Prop)
    (body : Z → A → C S (A + R)) lo hi acc s :
  P lo acc s →
  (∀ j a t, lo ≤ j < hi → P j a t → halts (body j a) t (λ r t',
     match r with inl a' => P (j + 1) a' t' | inr r => Q (inr r) t' end)) →
  (∀ a t, P (Z.max lo hi) a t → Q (inl a) t) →
  halts (for_range lo hi acc body) s Q.
Proof.
  unfold for_range. intros HP Hb HQ.
  remember (Z.to_nat (hi - lo)) as n eqn:Hn. revert lo acc s Hn HP Hb HQ.
  induction n as [|n IH]; intros lo acc s Hn HP Hb HQ; simpl.
  - apply halts_ret, HQ. by replace (Z.max lo hi) with lo by lia.
  - eapply halts_bind; [apply Hb; [lia|done]|]. intros [a|r] t Ht; [|done].
    apply IH; [lia|done| |].
    + intros j a' t' Hj. apply Hb. lia.
    + intros a' t'. replace (Z.max (lo + 1) hi) with (Z.max lo hi) by lia. apply HQ.
Qed.

(** A loop whose measure decreases in every round has fuel enough. *)
Lemma halts_while {S A R : Type} (P : A → S → Prop) (Q : R → S → Prop) (measure : A → nat)
    (body : A → C S (A + R)) fuel acc s :
  P acc s → (measure acc < fuel)%nat →
  (∀ a t, P a t → halts (body a) t (λ r t',
     match r with inl a' => P a' t' ∧ (measure a' < measure a)%nat | inr r => Q r t' end)) →
  halts (while fuel acc body) s Q.
Proof.
  intros HP Hf Hb. revert acc s HP Hf. induction fuel as [|fuel IH]; intros acc s HP Hf; [lia|].
  simpl. eapply halts_bind; [by apply Hb|]. intros [a|r] t Ht; [|by apply halts_ret].
  destruct Ht as [? ?]. apply IH; [done|lia].
Qed.

(** ** Integer lemmas *)

Lemma u64_small z : 0 ≤ z < 2 ^ 64 → u64 z = z.
Proof. apply Z.mod_small. Qed.
Lemma u32_small z : 0 ≤ z < 2 ^ 32 → u32 z = z.
Proof. apply Z.mod_small. Qed.
Lemma u16_small z : 0 ≤ z < 2 ^ 16 → u16 z = z.
Proof. apply Z.mod_small. Qed.
Lemma u8_small z : 0 ≤ z < 2 ^ 8 → u8 z = z.
Proof. apply Z.mod_small. Qed.
Lemma u64_range z : 0 ≤ u64 z < 2 ^ 64.
Proof. by apply Z.mod_pos_bound. Qed.
Lemma u32_range z : 0 ≤ u32 z < 2 ^ 32.
Proof. by apply Z.mod_pos_bound. Qed.
Lemma u16_range z : 0 ≤ u16 z < 2 ^ 16.
Proof. by apply Z.mod_pos_bound. Qed.
Lemma u8_range z : 0 ≤ u8 z < 2 ^ 8.
Proof. by apply Z.mod_pos_bound. Qed.

Lemma u64_add_l a b : u64 (u64 a + b) = u64 (a + b).
Proof. apply Zplus_mod_idemp_l. Qed.
Lemma u64_add_r a b : u64 (a + u64 b) = u64 (a + b).
Proof. apply Zplus_mod_idemp_r. Qed.
Lemma u64_idemp a : u64 (u64 a) = u64 a.
Proof. apply Zmod_mod. Qed.

#[export] Hint Resolve u64_small u32_small u16_small u8_small
  u64_range u32_range u16_range u8_range : cbounds.

(** A number split at bit [k]. *)
Lemma split_testbit k q f n : 0 ≤ k → 0 ≤ f < 2 ^ k → 0 ≤ n →
  Z.testbit (2 ^ k * q + f) n = if n <? k then Z.testbit f n else Z.testbit q (n - k).
Proof.
  intros Hk Hf Hn. assert (Hp : 0 < 2 ^ k) by (apply Z.pow_pos_nonneg; lia). destruct (Z.ltb_spec n k).
  - rewrite <- (Z.mod_pow2_bits_low (2 ^ k * q + f) k n) by lia. f_equal.
    replace (2 ^ k * q + f) with (f + q * 2 ^ k) by lia. rewrite Z.mod_add by lia. by apply Z.mod_small.
  - replace n with ((n - k) + k) at 1 by lia. rewrite <- Z.div_pow2_bits by lia. f_equal.
    rewrite Z.mul_comm, Z.div_add_l by lia. rewrite Z.div_small by done. lia.
Qed.

Lemma land_low k f g : 0 ≤ k → 0 ≤ f < 2 ^ k → 0 ≤ g → 0 ≤ Z.land f g < 2 ^ k.
Proof.
  intros Hk Hf Hg. assert (Ef : f = Z.land f (Z.ones k)) by (rewrite Z.land_ones by lia; symmetry; by apply Z.mod_small).
  rewrite Ef, (Z.land_comm _ g), Z.land_assoc, Z.land_ones by lia. apply Z.mod_pos_bound, Z.pow_pos_nonneg; lia.
Qed.

Lemma land_split k q f p g : 0 ≤ k → 0 ≤ f < 2 ^ k → 0 ≤ g < 2 ^ k →
  Z.land (2 ^ k * q + f) (2 ^ k * p + g) = 2 ^ k * Z.land q p + Z.land f g.
Proof.
  intros Hk Hf Hg. pose proof (land_low k f g Hk Hf ltac:(lia)) as Hl.
  apply Z.bits_inj'. intros n Hn. rewrite Z.land_spec, !split_testbit by done. destruct (n <? k); by rewrite Z.land_spec.
Qed.

(** int and u_int: the conversions between them. *)
Lemma u32_i32 x : u32 (i32 x) = u32 x.
Proof.
  unfold i32, signed, u32. cbv zeta. destruct (_ <? _); [by rewrite Z.mod_mod by lia|].
  rewrite Zminus_mod, Z.mod_same, Z.sub_0_r, !Z.mod_mod by lia. done.
Qed.

Lemma i32_small x : - 2 ^ 31 ≤ x < 2 ^ 31 → i32 x = x.
Proof.
  intros Hx. unfold i32, signed. cbv zeta. change (32 - 1) with 31. destruct (Z.ltb_spec (x mod 2 ^ 32) (2 ^ 31)); Z.div_mod_to_equations; lia.
Qed.

Lemma i32_u32 x : i32 (u32 x) = i32 x.
Proof. unfold i32, signed, u32. by rewrite Z.mod_mod by lia. Qed.

(** Two numbers that share no bit. *)
Lemma lor_low k q f : 0 ≤ k → 0 ≤ f < 2 ^ k → Z.lor (q * 2 ^ k) f = q * 2 ^ k + f.
Proof.
  intros Hk Hf. pose proof (Z.add_lor_land (q * 2 ^ k) f) as E. assert (Z.land (q * 2 ^ k) f = 0) as E0; [|lia].
  apply Z.bits_inj'. intros i Hi. rewrite Z.land_spec, Z.bits_0. destruct (decide (i < k)).
  - by rewrite Z.mul_pow2_bits_low by lia.
  - rewrite <- (Z.mod_small f (2 ^ k)) by done. rewrite Z.mod_pow2_bits_high by lia. apply andb_false_r.
Qed.

Lemma mul_int_ok {S : Type} a b (s : S) :
  0 ≤ a * b ≤ INT_MAX → mul_int a b s = Done (a * b) s.
Proof.
  unfold mul_int. intros H.
  replace (a * b <=? INT_MAX) with true by lia.
  replace (- INT_MAX - 1 <=? a * b) with true by (unfold INT_MAX in *; lia). done.
Qed.

Lemma div_u_ok {S : Type} a b (s : S) : b ≠ 0 → div_u a b s = Done (a / b) s.
Proof. intros H. unfold div_u. by replace (b =? 0) with false by lia. Qed.

(** Rounding up to a multiple of a page. *)
Lemma round_up_spec x p :
  0 < x → 0 < p → x ≤ ((x - 1) / p + 1) * p < x + p ∧ (((x - 1) / p + 1) * p) mod p = 0.
Proof.
  intros Hx Hp. pose proof (Z.div_mod (x - 1) p) as Hd.
  pose proof (Z.mod_pos_bound (x - 1) p). split; [nia|]. apply Z.mod_mul. lia.
Qed.

(** ** Results *)

(** The value of an outcome, without the state. *)
Definition value {S A} (o : outcome S A) : option A := match o with Done a _ => Some a | _ => None end.

Lemma value_done {S A} (o : outcome S A) a : value o = Some a → ∃ s, o = Done a s.
Proof. destruct o; intros [= <-]. by eexists. Qed.

(** ** Fresh keys *)

(** The least address above all keys. *)
Definition above {A} (lo : Z) (m : gmap Z A) : Z := map_fold (λ k _ a, Z.max (k + 1) a) lo m.

Lemma above_spec {A} lo (m : gmap Z A) : lo ≤ above lo m ∧ ∀ x, is_Some (m !! x) → x < above lo m.
Proof.
  unfold above. apply (map_fold_weak_ind (λ r m, lo ≤ r ∧ ∀ x, is_Some (m !! x) → x < r)).
  - split; [done|]. intros x [? Hx]. by rewrite lookup_empty in Hx.
  - intros i b m' r _ [IH1 IH2]. split; [lia|]. intros x Hx.
    destruct (decide (x = i)) as [->|]; [lia|]. rewrite lookup_insert_ne in Hx by done.
    specialize (IH2 x Hx). lia.
Qed.

Lemma above_fresh {A} lo (m : gmap Z A) : m !! above lo m = None.
Proof.
  apply eq_None_not_Some. intros Hs. destruct (above_spec lo m) as [_ Ha]. specialize (Ha _ Hs). lia.
Qed.
