(* ===== verification/Memory.v ===== *)
(** * Byte-addressed memory

    The flat address space the C code runs in: a finite map from 64-bit
    addresses to bytes (an address that is not a key is not mapped), typed
    little-endian loads and stores, [memcpy] and [memset] with the undefined
    cases of the C standard, and NUL-terminated strings. *)

From S2P Require Import Prelude.

Abbreviation mem := (gmap Z byte).

(** ** Operations *)

Fixpoint load_bytes (m : mem) (a : Z) (n : nat) : option (list byte) :=
  match n with
  | O => Some []
  | S n => b ← m !! a; bs ← load_bytes m (a + 1) n; Some (b :: bs)
  end.

Fixpoint store_bytes (m : mem) (a : Z) (bs : list byte) : option mem :=
  match bs with
  | [] => Some m
  | b :: bs => _ ← m !! a; store_bytes (<[a:=b]> m) (a + 1) bs
  end.

(** The [n]-byte little-endian integer at [a]. *)
Definition peek (m : mem) (n : nat) (a : Z) : option Z :=
  le_combine <$> load_bytes m a n.

Definition read (n : nat) (a : Z) : C mem Z := λ m,
  match peek m n a with Some v => Done v m | None => UB end.

Definition write (n : nat) (a v : Z) : C mem () := λ m,
  match store_bytes m a (le_split n v) with Some m' => Done () m' | None => UB end.

(** [p + off] on a byte pointer; [p->field]: a NULL dereference is undefined. *)
Definition ptr_add (p off : Z) : Z := u64 (p + off).

Definition field (n : nat) (p off : Z) : C mem Z :=
  if p =? 0 then ub else read n (ptr_add p off).

Definition set_field (n : nat) (p off v : Z) : C mem () :=
  if p =? 0 then ub else write n (ptr_add p off) v.

Definition overlap (a b n : Z) : bool := (a <? b + n) && (b <? a + n).

Definition memcpy (dst src n : Z) : C mem () := λ m,
  if overlap dst src n then UB else
  match load_bytes m src (Z.to_nat n) with
  | None => UB
  | Some bs => match store_bytes m dst bs with Some m' => Done () m' | None => UB end
  end.

Definition memset (dst c n : Z) : C mem () := λ m,
  match store_bytes m dst (replicate (Z.to_nat n) (byte.of_Z c)) with
  | Some m' => Done () m'
  | None => UB
  end.

(** The character [s[j]] of a NUL-terminated string; past the terminator the
    read is undefined. *)
Definition cstr_get {S : Type} (s : list byte) (j : Z) : C S byte :=
  if j =? Z.of_nat (length s) then mret Byte.x00
  else init (s !! Z.to_nat j).

(** ** Ranges *)

Definition mapped (m : mem) (a n : Z) : Prop := ∀ x, a ≤ x < a + n → is_Some (m !! x).

Definition same_on (m m' : mem) (a n : Z) : Prop := ∀ x, a ≤ x < a + n → m' !! x = m !! x.

Definition same_off (m m' : mem) (a n : Z) : Prop := ∀ x, ¬ (a ≤ x < a + n) → m' !! x = m !! x.

Definition disjoint (a n b k : Z) : Prop := a + n ≤ b ∨ b + k ≤ a.

(** Every key is a valid non-NULL 64-bit address. *)
Definition mem_wf (m : mem) : Prop := ∀ x, is_Some (m !! x) → 0 < x < 2 ^ 64.

(** ** Loads *)

Lemma load_bytes_spec m a n bs :
  load_bytes m a n = Some bs ↔
  length bs = n ∧ ∀ i : nat, (i < n)%nat → m !! (a + Z.of_nat i) = bs !! i.
Proof.
  revert a bs. induction n as [|n IH]; intros a bs; simpl.
  - split; [intros [= <-]; split; [done|lia]|]. intros [->%nil_length_inv _]. done.
  - rewrite bind_Some. split.
    + intros (b & Hb & (bs' & (Hl & Hi)%IH & [= <-])%bind_Some). split; [by simpl; f_equal|].
      intros [|i] ?; simpl; [by rewrite Z.add_0_r|].
      rewrite <- Hi by lia. f_equal; lia.
    + intros [Hl Hi]. destruct bs as [|b bs]; [done|]. exists b. split.
      { specialize (Hi O). rewrite Z.add_0_r in Hi. apply Hi. lia. }
      apply bind_Some. exists bs. split; [|done]. apply IH. split; [by simpl in Hl; lia|].
      intros i ?. specialize (Hi (S i)). simpl in Hi. rewrite <- Hi by lia. f_equal; lia.
Qed.

Lemma load_bytes_length m a n bs : load_bytes m a n = Some bs → length bs = n.
Proof. by intros [? _]%load_bytes_spec. Qed.

Lemma load_bytes_mapped m a n :
  mapped m a (Z.of_nat n) → ∃ bs, load_bytes m a n = Some bs.
Proof.
  revert a. induction n as [|n IH]; intros a Hm; simpl; [by eexists|].
  destruct (Hm a) as [b ->]; [lia|].
  destruct (IH (a + 1)) as [bs ->]; [|by eexists].
  intros x ?. apply Hm. lia.
Qed.

Lemma load_bytes_is_mapped m a n bs :
  load_bytes m a n = Some bs → mapped m a (Z.of_nat n).
Proof.
  intros [Hl Hi]%load_bytes_spec x Hx.
  replace x with (a + Z.of_nat (Z.to_nat (x - a))) by lia.
  rewrite Hi by lia. apply lookup_lt_is_Some. lia.
Qed.

Lemma load_bytes_same m m' a n :
  same_on m m' a (Z.of_nat n) → load_bytes m' a n = load_bytes m a n.
Proof.
  revert a. induction n as [|n IH]; intros a Hs; simpl; [done|].
  rewrite (Hs a) by lia. destruct (m !! a); [simpl|done].
  rewrite IH; [done|]. intros x ?. apply Hs. lia.
Qed.

Lemma load_bytes_app m a n k bs :
  load_bytes m a (n + k) = Some bs →
  load_bytes m a n = Some (take n bs) ∧ load_bytes m (a + Z.of_nat n) k = Some (drop n bs).
Proof.
  intros [Hl Hi]%load_bytes_spec. split; apply load_bytes_spec; split.
  - rewrite length_take. lia.
  - intros i ?. rewrite lookup_take_lt by lia. apply Hi. lia.
  - rewrite length_drop. lia.
  - intros i ?. rewrite lookup_drop, <- Hi by lia. f_equal; lia.
Qed.

Lemma peek_range m n a v : peek m n a = Some v → 0 ≤ v < 2 ^ (8 * Z.of_nat n).
Proof.
  unfold peek. intros (bs & Hl%load_bytes_length & ->)%fmap_Some.
  rewrite <- Hl. apply le_combine_bound.
Qed.

Lemma peek_same m m' n a :
  same_on m m' a (Z.of_nat n) → peek m' n a = peek m n a.
Proof. intros H. unfold peek. by rewrite (load_bytes_same m m'). Qed.

Lemma peek_is_mapped m n a v : peek m n a = Some v → mapped m a (Z.of_nat n).
Proof. unfold peek. intros (bs & H & _)%fmap_Some. by eapply load_bytes_is_mapped. Qed.

Lemma read_peek m n a v : peek m n a = Some v → read n a m = Done v m.
Proof. intros H. unfold read. by rewrite H. Qed.

Lemma read_inv m m' n a v : read n a m = Done v m' → peek m n a = Some v ∧ m' = m.
Proof. unfold read. destruct (peek m n a); naive_solver. Qed.

Lemma field_peek m n p off v :
  p ≠ 0 → peek m n (ptr_add p off) = Some v → field n p off m = Done v m.
Proof.
  intros Hp H. unfold field. replace (p =? 0) with false by lia. by apply read_peek.
Qed.

Lemma field_null n off m : field n 0 off m = UB.
Proof. done. Qed.

Lemma read_only_read n a : read_only (read n a).
Proof. intros m v m' H. unfold read in H. destruct (peek m n a); naive_solver. Qed.

Lemma read_only_field n p off : read_only (field n p off).
Proof. unfold field. case_match; [apply read_only_ub | apply read_only_read]. Qed.

Lemma read_only_cstr_get {S : Type} s j : read_only (cstr_get s j : C S byte).
Proof. unfold cstr_get. case_match; [apply read_only_ret | apply read_only_init]. Qed.

Lemma halts_read n a m (Q : Z → mem → Prop) :
  (∀ v, 0 ≤ v < 2 ^ (8 * Z.of_nat n) → Q v m) → halts (read n a) m Q.
Proof.
  intros H. unfold halts, read. destruct (peek m n a) eqn:Hp; [|done].
  by eapply H, peek_range.
Qed.

Lemma halts_field n p off m (Q : Z → mem → Prop) :
  (∀ v, 0 ≤ v < 2 ^ (8 * Z.of_nat n) → Q v m) → halts (field n p off) m Q.
Proof. unfold field. case_match; [done|]. apply halts_read. Qed.

#[export] Hint Resolve read_only_read read_only_field read_only_cstr_get : cdb.

(** ** Stores *)

Lemma store_bytes_lookup m a bs m' x :
  store_bytes m a bs = Some m' →
  m' !! x = if decide (a ≤ x < a + Z.of_nat (length bs))
            then bs !! Z.to_nat (x - a) else m !! x.
Proof.
  revert m a. induction bs as [|b bs IH]; intros m a; simpl.
  - intros [= <-]. by rewrite decide_False by lia.
  - intros (b0 & Hb0 & H)%bind_Some. rewrite (IH _ _ H). clear IH.
    destruct (decide (x = a)) as [->|Hne].
    + rewrite decide_False, decide_True by lia. rewrite lookup_insert_eq.
      by replace (Z.to_nat (a - a)) with O by lia.
    + rewrite lookup_insert_ne by done. repeat case_decide; try lia; [|done].
      by replace (Z.to_nat (x - a)) with (S (Z.to_nat (x - (a + 1)))) by lia.
Qed.

Lemma store_bytes_mapped m a bs :
  mapped m a (Z.of_nat (length bs)) → ∃ m', store_bytes m a bs = Some m'.
Proof.
  revert m a. induction bs as [|b bs IH]; intros m a Hm; simpl; [by eexists|].
  destruct (Hm a) as [b0 ->]; [simpl; lia|]. simpl. apply IH.
  intros x ?. destruct (decide (x = a)) as [->|]; [rewrite lookup_insert_eq; eauto|].
  rewrite lookup_insert_ne by done. apply Hm. simpl. lia.
Qed.

Lemma store_bytes_is_mapped m a bs m' :
  store_bytes m a bs = Some m' → mapped m a (Z.of_nat (length bs)).
Proof.
  revert m a. induction bs as [|b bs IH]; intros m a; simpl; [intros _ x ?; lia|].
  intros (b0 & Hb0 & H)%bind_Some x ?. apply IH in H.
  destruct (decide (x = a)) as [->|]; [eauto|].
  rewrite <- (lookup_insert_ne m a x b) by done. apply H. lia.
Qed.

Lemma store_bytes_off m a bs m' :
  store_bytes m a bs = Some m' → same_off m m' a (Z.of_nat (length bs)).
Proof. intros H x Hx. rewrite (store_bytes_lookup _ _ _ _ x H). by rewrite decide_False. Qed.

Lemma store_bytes_load m a bs m' :
  store_bytes m a bs = Some m' → load_bytes m' a (length bs) = Some bs.
Proof.
  intros H. apply load_bytes_spec. split; [done|]. intros i ?.
  rewrite (store_bytes_lookup _ _ _ _ _ H), decide_True by lia. f_equal; lia.
Qed.

(** A store changes no mapping. *)
Lemma store_bytes_dom m a bs m' x :
  store_bytes m a bs = Some m' → is_Some (m' !! x) ↔ is_Some (m !! x).
Proof.
  intros H. rewrite (store_bytes_lookup _ _ _ _ x H). case_decide; [|done].
  split; intros _.
  - by eapply store_bytes_is_mapped.
  - apply lookup_lt_is_Some. lia.
Qed.

Lemma same_off_on m m' a n b k :
  same_off m m' a n → disjoint a n b k → same_on m m' b k.
Proof. intros Ho Hd x Hx. apply Ho. destruct Hd; lia. Qed.

Lemma same_on_refl m a n : same_on m m a n.
Proof. done. Qed.

Lemma same_on_trans m1 m2 m3 a n : same_on m1 m2 a n → same_on m2 m3 a n → same_on m1 m3 a n.
Proof. intros H1 H2 x Hx. by rewrite H2, H1. Qed.

Lemma same_on_sub m m' a n b k :
  same_on m m' a n → a ≤ b → b + k ≤ a + n → same_on m m' b k.
Proof. intros H ? ? x ?. apply H. lia. Qed.

Lemma mapped_sub m a n b k : mapped m a n → a ≤ b → b + k ≤ a + n → mapped m b k.
Proof. intros H ? ? x ?. apply H. lia. Qed.

Lemma write_spec m n a v :
  mapped m a (Z.of_nat n) →
  ∃ m', write n a v m = Done () m' ∧ same_off m m' a (Z.of_nat n) ∧
        peek m' n a = Some (v mod 2 ^ (Z.of_nat n * 8)) ∧
        (∀ x, is_Some (m' !! x) ↔ is_Some (m !! x)).
Proof.
  intros Hm. destruct (store_bytes_mapped m a (le_split n v)) as [m' Hs];
    [by rewrite length_le_split|].
  exists m'. unfold write. rewrite Hs. split_and!; [done| | |].
  - apply store_bytes_off in Hs. by rewrite length_le_split in Hs.
  - unfold peek. pose proof (store_bytes_load _ _ _ _ Hs) as Hl.
    rewrite length_le_split in Hl. rewrite Hl. simpl. by rewrite le_combine_split.
  - intros x. by eapply store_bytes_dom.
Qed.

Lemma write_unmapped m n a v m' :
  write n a v m = Done () m' → mapped m a (Z.of_nat n).
Proof.
  unfold write. destruct (store_bytes _ _ _) eqn:Hs; [|done]. intros _.
  apply store_bytes_is_mapped in Hs. by rewrite length_le_split in Hs.
Qed.

Lemma memcpy_spec m dst src n bs :
  load_bytes m src (Z.to_nat n) = Some bs → 0 ≤ n →
  mapped m dst n → disjoint dst n src n →
  ∃ m', memcpy dst src n m = Done () m' ∧ same_off m m' dst n ∧
        load_bytes m' dst (Z.to_nat n) = Some bs ∧
        (∀ x, is_Some (m' !! x) ↔ is_Some (m !! x)).
Proof.
  intros Hl Hn Hm Hd. pose proof (load_bytes_length _ _ _ _ Hl) as Hlen.
  destruct (store_bytes_mapped m dst bs) as [m' Hs];
    [by rewrite Hlen, Z2Nat.id by done|].
  exists m'. unfold memcpy.
  replace (overlap dst src n) with false by (unfold overlap; destruct Hd; lia).
  rewrite Hl, Hs. split_and!; [done| | |].
  - apply store_bytes_off in Hs. by rewrite Hlen, Z2Nat.id in Hs by done.
  - apply store_bytes_load in Hs. by rewrite Hlen in Hs.
  - intros x. by eapply store_bytes_dom.
Qed.

Lemma memset_spec m dst c n :
  0 ≤ n → mapped m dst n →
  ∃ m', memset dst c n m = Done () m' ∧ same_off m m' dst n ∧
        load_bytes m' dst (Z.to_nat n) = Some (replicate (Z.to_nat n) (byte.of_Z c)) ∧
        (∀ x, is_Some (m' !! x) ↔ is_Some (m !! x)).
Proof.
  intros Hn Hm.
  destruct (store_bytes_mapped m dst (replicate (Z.to_nat n) (byte.of_Z c))) as [m' Hs];
    [by rewrite length_replicate, Z2Nat.id by done|].
  exists m'. unfold memset. rewrite Hs. split_and!; [done| | |].
  - apply store_bytes_off in Hs. by rewrite length_replicate, Z2Nat.id in Hs by done.
  - apply store_bytes_load in Hs. by rewrite length_replicate in Hs.
  - intros x. by eapply store_bytes_dom.
Qed.

(** The memory that holds exactly the bytes [bs] at [a]. *)
Fixpoint bytes_at (a : Z) (bs : list byte) : mem :=
  match bs with
  | [] => ∅
  | b :: bs => <[a:=b]> (bytes_at (a + 1) bs)
  end.
