(* ===== verification/ElfFormat.v ===== *)
(** * The ELF64 file format

    The constants of include/sys/elf_common.h the loader compares with, the
    structures of include/sys/elf64.h as records with their layout, and the
    codecs between a record and its bytes in memory. *)

From S2P Require Import Prelude.
From S2P Require Import Memory.

(** ** Constants *)

Definition EI_MAG0 : Z := 0.
Definition EI_MAG1 : Z := 1.
Definition EI_MAG2 : Z := 2.
Definition EI_MAG3 : Z := 3.
Definition EI_NIDENT : Z := 16.
Definition ELFMAG0 : Z := 127.
Definition ELFMAG1 : Z := 69.
Definition ELFMAG2 : Z := 76.
Definition ELFMAG3 : Z := 70.
Definition EV_CURRENT : Z := 1.
Definition ELFCLASS64 : Z := 2.
Definition ELFDATA2LSB : Z := 1.
Definition ELFOSABI_NONE : Z := 0.
Definition ELFOSABI_FREEBSD : Z := 9.
Definition ELFOSABI_SYSV : Z := ELFOSABI_NONE.
Definition ET_DYN : Z := 3.
Definition EM_X86_64 : Z := 62.
Definition SHT_NULL : Z := 0.
Definition SHT_SYMTAB : Z := 2.
Definition SHT_RELA : Z := 4.
Definition SHT_DYNAMIC : Z := 6.
Definition SHT_DYNSYM : Z := 11.
Definition SHF_ALLOC : Z := 2.
Definition SHF_EXECINSTR : Z := 4.
Definition PT_LOAD : Z := 1.
Definition PT_DYNAMIC : Z := 2.
Definition PF_X : Z := 1.
Definition DT_NULL : Z := 0.
Definition DT_STRTAB : Z := 5.
Definition DT_SYMTAB : Z := 6.
Definition R_X86_64_64 : Z := 1.
Definition R_X86_64_GLOB_DAT : Z := 6.
Definition R_X86_64_JMP_SLOT : Z := 7.
Definition R_X86_64_RELATIVE : Z := 8.

(** ** Structures *)

Record Elf64_Ehdr := {
  e_ident : list byte;
  e_type : Z; e_machine : Z; e_version : Z; e_entry : Z; e_phoff : Z;
  e_shoff : Z; e_flags : Z; e_ehsize : Z; e_phentsize : Z; e_phnum : Z;
  e_shentsize : Z; e_shnum : Z; e_shstrndx : Z }.

Record Elf64_Shdr := {
  sh_name : Z; sh_type : Z; sh_flags : Z; sh_addr : Z; sh_offset : Z;
  sh_size : Z; sh_link : Z; sh_info : Z; sh_addralign : Z; sh_entsize : Z }.

Record Elf64_Phdr := {
  p_type : Z; p_flags : Z; p_offset : Z; p_vaddr : Z; p_paddr : Z;
  p_filesz : Z; p_memsz : Z; p_align : Z }.

(** [d_un] is a union of two 64-bit members. *)
Record Elf64_Dyn := { d_tag : Z; d_un : Z }.

Record Elf64_Rela := { r_offset : Z; r_info : Z; r_addend : Z }.

Record Elf64_Sym := {
  st_name : Z; st_info : Z; st_other : Z; st_shndx : Z; st_value : Z; st_size : Z }.

(** The widths of the fields after [e_ident], in order. *)
Definition ehdr_widths : list nat := [2; 2; 4; 8; 8; 8; 4; 2; 2; 2; 2; 2; 2]%nat.
Definition shdr_widths : list nat := [4; 4; 8; 8; 8; 8; 4; 4; 8; 8]%nat.
Definition phdr_widths : list nat := [4; 4; 8; 8; 8; 8; 8; 8]%nat.
Definition dyn_widths : list nat := [8; 8]%nat.
Definition rela_widths : list nat := [8; 8; 8]%nat.
Definition sym_widths : list nat := [4; 1; 1; 2; 8; 8]%nat.

Definition total (ws : list nat) : Z := Z.of_nat (list_sum ws).

Definition sizeof_ElfDynamic : Z := total dyn_widths.

(** Macros for the packed words of elf64.h. *)
Definition ELF64_R_SYM (info : Z) : Z := Z.shiftr info 32.
Definition ELF64_R_TYPE (info : Z) : Z := Z.land info 0xffffffff.
Definition ELF64_R_INFO (sym type : Z) : Z :=
  u64 (u64 (Z.shiftl sym 32) + Z.land type 0xffffffff).
Definition ELF64_ST_BIND (info : Z) : Z := Z.shiftr info 4.
Definition ELF64_ST_TYPE (info : Z) : Z := Z.land info 0xf.
Definition ELF64_ST_INFO (bind type : Z) : Z := Z.shiftl bind 4 + Z.land type 0xf.

(** ** Codecs *)

Fixpoint decode_fields (m : mem) (a off : Z) (ws : list nat) : option (list Z) :=
  match ws with
  | [] => Some []
  | w :: ws =>
      v ← peek m w (ptr_add a off);
      vs ← decode_fields m a (off + Z.of_nat w) ws;
      Some (v :: vs)
  end.

Fixpoint encode_fields (ws : list nat) (vs : list Z) : list byte :=
  match ws, vs with
  | w :: ws, v :: vs => le_split w v ++ encode_fields ws vs
  | _, _ => []
  end.

Definition phdr_fields (h : Elf64_Phdr) : list Z :=
  [h.(p_type); h.(p_flags); h.(p_offset); h.(p_vaddr); h.(p_paddr);
   h.(p_filesz); h.(p_memsz); h.(p_align)].

Definition shdr_fields (h : Elf64_Shdr) : list Z :=
  [h.(sh_name); h.(sh_type); h.(sh_flags); h.(sh_addr); h.(sh_offset);
   h.(sh_size); h.(sh_link); h.(sh_info); h.(sh_addralign); h.(sh_entsize)].

Definition ehdr_fields (h : Elf64_Ehdr) : list Z :=
  [h.(e_type); h.(e_machine); h.(e_version); h.(e_entry); h.(e_phoff);
   h.(e_shoff); h.(e_flags); h.(e_ehsize); h.(e_phentsize); h.(e_phnum);
   h.(e_shentsize); h.(e_shnum); h.(e_shstrndx)].

Definition dyn_fields (d : Elf64_Dyn) : list Z := [d.(d_tag); d.(d_un)].
Definition rela_fields (r : Elf64_Rela) : list Z := [r.(r_offset); r.(r_info); r.(r_addend)].
Definition sym_fields (s : Elf64_Sym) : list Z :=
  [s.(st_name); s.(st_info); s.(st_other); s.(st_shndx); s.(st_value); s.(st_size)].

Definition decode_ehdr (m : mem) (a : Z) : option Elf64_Ehdr :=
  ident ← load_bytes m a (Z.to_nat EI_NIDENT);
  vs ← decode_fields m a EI_NIDENT ehdr_widths;
  match vs with
  | [t; ma; v; en; ph; sh; fl; eh; pe; pn; se; sn; sx] =>
      Some {| e_ident := ident; e_type := t; e_machine := ma; e_version := v;
              e_entry := en; e_phoff := ph; e_shoff := sh; e_flags := fl;
              e_ehsize := eh; e_phentsize := pe; e_phnum := pn;
              e_shentsize := se; e_shnum := sn; e_shstrndx := sx |}
  | _ => None
  end.

Definition decode_shdr (m : mem) (a : Z) : option Elf64_Shdr :=
  vs ← decode_fields m a 0 shdr_widths;
  match vs with
  | [n; t; f; ad; o; s; l; i; al; e] =>
      Some {| sh_name := n; sh_type := t; sh_flags := f; sh_addr := ad; sh_offset := o;
              sh_size := s; sh_link := l; sh_info := i; sh_addralign := al; sh_entsize := e |}
  | _ => None
  end.

Definition decode_phdr (m : mem) (a : Z) : option Elf64_Phdr :=
  vs ← decode_fields m a 0 phdr_widths;
  match vs with
  | [t; f; o; v; p; fs; ms; al] =>
      Some {| p_type := t; p_flags := f; p_offset := o; p_vaddr := v; p_paddr := p;
              p_filesz := fs; p_memsz := ms; p_align := al |}
  | _ => None
  end.

Definition decode_dyn (m : mem) (a : Z) : option Elf64_Dyn :=
  vs ← decode_fields m a 0 dyn_widths;
  match vs with [t; v] => Some {| d_tag := t; d_un := v |} | _ => None end.

Definition decode_rela (m : mem) (a : Z) : option Elf64_Rela :=
  vs ← decode_fields m a 0 rela_widths;
  match vs with
  | [o; i; d] => Some {| r_offset := o; r_info := i; r_addend := d |}
  | _ => None
  end.

Definition decode_sym (m : mem) (a : Z) : option Elf64_Sym :=
  vs ← decode_fields m a 0 sym_widths;
  match vs with
  | [n; i; o; x; v; s] =>
      Some {| st_name := n; st_info := i; st_other := o; st_shndx := x;
              st_value := v; st_size := s |}
  | _ => None
  end.

Definition encode_phdr (h : Elf64_Phdr) : list byte := encode_fields phdr_widths (phdr_fields h).
Definition encode_shdr (h : Elf64_Shdr) : list byte := encode_fields shdr_widths (shdr_fields h).
Definition encode_ehdr (h : Elf64_Ehdr) : list byte :=
  h.(e_ident) ++ encode_fields ehdr_widths (ehdr_fields h).
Definition encode_dyn (d : Elf64_Dyn) : list byte := encode_fields dyn_widths (dyn_fields d).
Definition encode_rela (r : Elf64_Rela) : list byte := encode_fields rela_widths (rela_fields r).
Definition encode_sym (s : Elf64_Sym) : list byte := encode_fields sym_widths (sym_fields s).

(** The fields fit their widths. *)
Definition fits (ws : list nat) (vs : list Z) : Prop :=
  Forall2 (λ w v, 0 ≤ v < 2 ^ (8 * Z.of_nat w)) ws vs.

#[export] Instance fits_dec ws vs : Decision (fits ws vs).
Proof. apply Forall2_dec. intros w v. apply _. Defined.

Lemma fits_lookup ws vs (i w : nat) v :
  fits ws vs → ws !! i = Some w → vs !! i = Some v → 0 ≤ v < 2 ^ (8 * Z.of_nat w).
Proof. intros H Hw Hv. exact (Forall2_lookup_lr _ _ _ i w v H Hw Hv). Qed.

(** ** Field accessors: [p->field] *)

Definition get_e_type (h : Z) : C mem Z := field 2 h 16.
Definition get_e_machine (h : Z) : C mem Z := field 2 h 18.
Definition get_e_version (h : Z) : C mem Z := field 4 h 20.
Definition get_e_entry (h : Z) : C mem Z := field 8 h 24.
Definition get_e_phoff (h : Z) : C mem Z := field 8 h 32.
Definition get_e_shoff (h : Z) : C mem Z := field 8 h 40.
Definition get_e_phentsize (h : Z) : C mem Z := field 2 h 54.
Definition get_e_phnum (h : Z) : C mem Z := field 2 h 56.
Definition get_e_shentsize (h : Z) : C mem Z := field 2 h 58.
Definition get_e_shnum (h : Z) : C mem Z := field 2 h 60.
Definition get_e_shstrndx (h : Z) : C mem Z := field 2 h 62.

Definition get_sh_name (s : Z) : C mem Z := field 4 s 0.
Definition get_sh_type (s : Z) : C mem Z := field 4 s 4.
Definition get_sh_flags (s : Z) : C mem Z := field 8 s 8.
Definition get_sh_addr (s : Z) : C mem Z := field 8 s 16.
Definition get_sh_offset (s : Z) : C mem Z := field 8 s 24.
Definition get_sh_size (s : Z) : C mem Z := field 8 s 32.
Definition get_sh_link (s : Z) : C mem Z := field 4 s 40.
Definition get_sh_info (s : Z) : C mem Z := field 4 s 44.
Definition get_sh_addralign (s : Z) : C mem Z := field 8 s 48.
Definition get_sh_entsize (s : Z) : C mem Z := field 8 s 56.

Definition get_p_type (s : Z) : C mem Z := field 4 s 0.
Definition get_p_flags (s : Z) : C mem Z := field 4 s 4.
Definition get_p_offset (s : Z) : C mem Z := field 8 s 8.
Definition get_p_vaddr (s : Z) : C mem Z := field 8 s 16.
Definition get_p_paddr (s : Z) : C mem Z := field 8 s 24.
Definition get_p_filesz (s : Z) : C mem Z := field 8 s 32.
Definition get_p_memsz (s : Z) : C mem Z := field 8 s 40.
Definition get_p_align (s : Z) : C mem Z := field 8 s 48.

Definition get_d_tag (d : Z) : C mem Z := field 8 d 0.
Definition get_d_val (d : Z) : C mem Z := field 8 d 8.
Definition get_d_ptr (d : Z) : C mem Z := field 8 d 8.

Definition get_r_offset (r : Z) : C mem Z := field 8 r 0.
Definition get_r_info (r : Z) : C mem Z := field 8 r 8.
Definition get_r_addend (r : Z) : C mem Z := field 8 r 16.

Definition get_st_name (s : Z) : C mem Z := field 4 s 0.
Definition get_st_info (s : Z) : C mem Z := field 1 s 4.
Definition get_st_other (s : Z) : C mem Z := field 1 s 5.
Definition get_st_shndx (s : Z) : C mem Z := field 2 s 6.
Definition get_st_value (s : Z) : C mem Z := field 8 s 8.
Definition get_st_size (s : Z) : C mem Z := field 8 s 16.

(** ** Decoding *)

Lemma decode_fields_range m a off ws vs : decode_fields m a off ws = Some vs → fits ws vs.
Proof.
  revert off vs. induction ws as [|w ws IH]; intros off vs; simpl.
  - intros [= <-]. constructor.
  - intros (v & Hv & (vs' & H & [= <-])%bind_Some)%bind_Some.
    constructor; [by eapply peek_range|]. by eapply IH.
Qed.

Lemma decode_fields_same m m' a off ws :
  0 ≤ a → 0 ≤ off → a + off + total ws ≤ 2 ^ 64 →
  same_on m m' (a + off) (total ws) →
  decode_fields m' a off ws = decode_fields m a off ws.
Proof.
  unfold total. revert off. induction ws as [|w ws IH]; intros off Ha Hoff Hle Hs; simpl in *; [done|].
  destruct (decide (w + list_sum ws = 0)%nat) as [Hz|Hz].
  { assert (w = O) as -> by lia. unfold peek; simpl. rewrite Z.add_0_r.
    rewrite IH; [done|lia..|]. intros x ?. apply Hs. lia. }
  rewrite (peek_same m m').
  - destruct (peek m w _); simpl; [|done]. rewrite IH; [done|lia..|].
    intros x ?. apply Hs. lia.
  - unfold ptr_add. rewrite u64_small by lia. intros x ?. apply Hs. lia.
Qed.

(** A record is decoded from its own bytes only. *)
Lemma decode_rela_same m m' a :
  0 ≤ a → a + 24 ≤ 2 ^ 64 → same_on m m' a 24 → decode_rela m' a = decode_rela m a.
Proof.
  intros Ha Hle Hs. unfold decode_rela.
  rewrite (decode_fields_same m m'); [done|done|done|by rewrite Z.add_0_r|by rewrite Z.add_0_r].
Qed.

Lemma decode_sym_same m m' a :
  0 ≤ a → a + 24 ≤ 2 ^ 64 → same_on m m' a 24 → decode_sym m' a = decode_sym m a.
Proof.
  intros Ha Hle Hs. unfold decode_sym.
  rewrite (decode_fields_same m m'); [done|done|done|by rewrite Z.add_0_r|by rewrite Z.add_0_r].
Qed.

(** Bytes laid out by [encode_fields] decode to the encoded values. *)
Lemma decode_encode_fields m a off ws vs :
  0 ≤ a → 0 ≤ off → a + off + total ws < 2 ^ 64 → fits ws vs →
  load_bytes m (a + off) (list_sum ws) = Some (encode_fields ws vs) →
  decode_fields m a off ws = Some vs.
Proof.
  unfold total. intros Ha Hoff Hle Hf. revert off Hoff Hle.
  induction Hf as [|w v ws vs Hv Hf IH]; intros off Hoff Hle Hl; simpl in *; [done|].
  destruct (load_bytes_app _ _ _ _ _ Hl) as [H1 H2].
  assert (Hlen : length (le_split w v) = w) by apply length_le_split.
  rewrite take_app_length' in H1 by done. rewrite drop_app_length' in H2 by done.
  unfold peek, ptr_add. rewrite u64_small by lia. rewrite H1. simpl.
  rewrite le_combine_split, Z.mod_small by (rewrite Z.mul_comm; lia).
  rewrite IH; [done|lia..|]. by rewrite Z.add_assoc.
Qed.

Lemma length_encode_fields ws vs : fits ws vs → length (encode_fields ws vs) = list_sum ws.
Proof.
  induction 1 as [|w v ws vs _ _ IH]; simpl; [done|].
  rewrite length_app, IH. f_equal. apply length_le_split.
Qed.

(** Decoding a record gives the value of each of its fields. *)
Lemma decode_fields_lookup m a off ws vs i w v :
  decode_fields m a off ws = Some vs → ws !! i = Some w → vs !! i = Some v →
  peek m w (ptr_add a (off + total (take i ws))) = Some v.
Proof.
  unfold total. revert off vs i. induction ws as [|w' ws IH]; intros off vs i; simpl; [done|].
  intros (v' & Hv & (vs' & H & [= <-])%bind_Some)%bind_Some Hw Hi.
  destruct i as [|i]; simplify_eq/=; [by rewrite Z.add_0_r|].
  rewrite Nat2Z.inj_add, Z.add_assoc. by eapply IH.
Qed.

Ltac solve_decode_inv :=
  intros (vs & H & H')%bind_Some; rewrite H; repeat case_match; by simplify_eq/=.

Lemma decode_phdr_fields m a h :
  decode_phdr m a = Some h → decode_fields m a 0 phdr_widths = Some (phdr_fields h).
Proof. solve_decode_inv. Qed.

Lemma decode_shdr_fields m a h :
  decode_shdr m a = Some h → decode_fields m a 0 shdr_widths = Some (shdr_fields h).
Proof. solve_decode_inv. Qed.

Lemma decode_rela_fields m a h :
  decode_rela m a = Some h → decode_fields m a 0 rela_widths = Some (rela_fields h).
Proof. solve_decode_inv. Qed.

Lemma decode_sym_fields m a h :
  decode_sym m a = Some h → decode_fields m a 0 sym_widths = Some (sym_fields h).
Proof. solve_decode_inv. Qed.

Lemma decode_dyn_fields m a h :
  decode_dyn m a = Some h → decode_fields m a 0 dyn_widths = Some (dyn_fields h).
Proof. solve_decode_inv. Qed.

Lemma decode_ehdr_fields m a h :
  decode_ehdr m a = Some h →
  load_bytes m a 16 = Some h.(e_ident) ∧
  decode_fields m a EI_NIDENT ehdr_widths = Some (ehdr_fields h).
Proof.
  unfold decode_ehdr. intros (bs & Hb & (vs & Hv & H)%bind_Some)%bind_Some.
  rewrite Hv. change (Z.to_nat EI_NIDENT) with 16%nat in Hb. rewrite Hb.
  repeat case_match; by simplify_eq/=.
Qed.

(** [p->field] is entry [i] of the decoded record. *)
Ltac getter i :=
  intros Hnz H; apply field_peek; [done|];
  first [ apply decode_phdr_fields in H | apply decode_shdr_fields in H
        | apply decode_rela_fields in H | apply decode_sym_fields in H
        | apply decode_dyn_fields in H | apply decode_ehdr_fields in H as [_ H] ];
  exact (decode_fields_lookup _ _ _ _ _ i _ _ H eq_refl eq_refl).

Section getters.
Context (m : mem) (a : Z).

Lemma get_e_type_ok h : a ≠ 0 → decode_ehdr m a = Some h → get_e_type a m = Done h.(e_type) m.
Proof. getter 0%nat. Qed.

Lemma get_e_machine_ok h : a ≠ 0 → decode_ehdr m a = Some h → get_e_machine a m = Done h.(e_machine) m.
Proof. getter 1%nat. Qed.

Lemma get_e_version_ok h : a ≠ 0 → decode_ehdr m a = Some h → get_e_version a m = Done h.(e_version) m.
Proof. getter 2%nat. Qed.

Lemma get_e_entry_ok h : a ≠ 0 → decode_ehdr m a = Some h → get_e_entry a m = Done h.(e_entry) m.
Proof. getter 3%nat. Qed.

Lemma get_e_phoff_ok h : a ≠ 0 → decode_ehdr m a = Some h → get_e_phoff a m = Done h.(e_phoff) m.
Proof. getter 4%nat. Qed.

Lemma get_e_shoff_ok h : a ≠ 0 → decode_ehdr m a = Some h → get_e_shoff a m = Done h.(e_shoff) m.
Proof. getter 5%nat. Qed.

Lemma get_e_phentsize_ok h : a ≠ 0 → decode_ehdr m a = Some h → get_e_phentsize a m = Done h.(e_phentsize) m.
Proof. getter 8%nat. Qed.

Lemma get_e_phnum_ok h : a ≠ 0 → decode_ehdr m a = Some h → get_e_phnum a m = Done h.(e_phnum) m.
Proof. getter 9%nat. Qed.

Lemma get_e_shentsize_ok h : a ≠ 0 → decode_ehdr m a = Some h → get_e_shentsize a m = Done h.(e_shentsize) m.
Proof. getter 10%nat. Qed.

Lemma get_e_shnum_ok h : a ≠ 0 → decode_ehdr m a = Some h → get_e_shnum a m = Done h.(e_shnum) m.
Proof. getter 11%nat. Qed.

Lemma get_e_shstrndx_ok h : a ≠ 0 → decode_ehdr m a = Some h → get_e_shstrndx a m = Done h.(e_shstrndx) m.
Proof. getter 12%nat. Qed.

Lemma get_sh_name_ok h : a ≠ 0 → decode_shdr m a = Some h → get_sh_name a m = Done h.(sh_name) m.
Proof. getter 0%nat. Qed.

Lemma get_sh_type_ok h : a ≠ 0 → decode_shdr m a = Some h → get_sh_type a m = Done h.(sh_type) m.
Proof. getter 1%nat. Qed.

Lemma get_sh_flags_ok h : a ≠ 0 → decode_shdr m a = Some h → get_sh_flags a m = Done h.(sh_flags) m.
Proof. getter 2%nat. Qed.

Lemma get_sh_addr_ok h : a ≠ 0 → decode_shdr m a = Some h → get_sh_addr a m = Done h.(sh_addr) m.
Proof. getter 3%nat. Qed.

Lemma get_sh_offset_ok h : a ≠ 0 → decode_shdr m a = Some h → get_sh_offset a m = Done h.(sh_offset) m.
Proof. getter 4%nat. Qed.

Lemma get_sh_size_ok h : a ≠ 0 → decode_shdr m a = Some h → get_sh_size a m = Done h.(sh_size) m.
Proof. getter 5%nat. Qed.

Lemma get_sh_link_ok h : a ≠ 0 → decode_shdr m a = Some h → get_sh_link a m = Done h.(sh_link) m.
Proof. getter 6%nat. Qed.

Lemma get_sh_info_ok h : a ≠ 0 → decode_shdr m a = Some h → get_sh_info a m = Done h.(sh_info) m.
Proof. getter 7%nat. Qed.

Lemma get_sh_addralign_ok h : a ≠ 0 → decode_shdr m a = Some h → get_sh_addralign a m = Done h.(sh_addralign) m.
Proof. getter 8%nat. Qed.

Lemma get_sh_entsize_ok h : a ≠ 0 → decode_shdr m a = Some h → get_sh_entsize a m = Done h.(sh_entsize) m.
Proof. getter 9%nat. Qed.

Lemma get_p_type_ok h : a ≠ 0 → decode_phdr m a = Some h → get_p_type a m = Done h.(p_type) m.
Proof. getter 0%nat. Qed.

Lemma get_p_flags_ok h : a ≠ 0 → decode_phdr m a = Some h → get_p_flags a m = Done h.(p_flags) m.
Proof. getter 1%nat. Qed.

Lemma get_p_offset_ok h : a ≠ 0 → decode_phdr m a = Some h → get_p_offset a m = Done h.(p_offset) m.
Proof. getter 2%nat. Qed.

Lemma get_p_vaddr_ok h : a ≠ 0 → decode_phdr m a = Some h → get_p_vaddr a m = Done h.(p_vaddr) m.
Proof. getter 3%nat. Qed.

Lemma get_p_paddr_ok h : a ≠ 0 → decode_phdr m a = Some h → get_p_paddr a m = Done h.(p_paddr) m.
Proof. getter 4%nat. Qed.

Lemma get_p_filesz_ok h : a ≠ 0 → decode_phdr m a = Some h → get_p_filesz a m = Done h.(p_filesz) m.
Proof. getter 5%nat. Qed.

Lemma get_p_memsz_ok h : a ≠ 0 → decode_phdr m a = Some h → get_p_memsz a m = Done h.(p_memsz) m.
Proof. getter 6%nat. Qed.

Lemma get_p_align_ok h : a ≠ 0 → decode_phdr m a = Some h → get_p_align a m = Done h.(p_align) m.
Proof. getter 7%nat. Qed.

Lemma get_r_offset_ok h : a ≠ 0 → decode_rela m a = Some h → get_r_offset a m = Done h.(r_offset) m.
Proof. getter 0%nat. Qed.

Lemma get_r_info_ok h : a ≠ 0 → decode_rela m a = Some h → get_r_info a m = Done h.(r_info) m.
Proof. getter 1%nat. Qed.

Lemma get_r_addend_ok h : a ≠ 0 → decode_rela m a = Some h → get_r_addend a m = Done h.(r_addend) m.
Proof. getter 2%nat. Qed.

Lemma get_st_name_ok h : a ≠ 0 → decode_sym m a = Some h → get_st_name a m = Done h.(st_name) m.
Proof. getter 0%nat. Qed.

Lemma get_st_info_ok h : a ≠ 0 → decode_sym m a = Some h → get_st_info a m = Done h.(st_info) m.
Proof. getter 1%nat. Qed.

Lemma get_st_other_ok h : a ≠ 0 → decode_sym m a = Some h → get_st_other a m = Done h.(st_other) m.
Proof. getter 2%nat. Qed.

Lemma get_st_shndx_ok h : a ≠ 0 → decode_sym m a = Some h → get_st_shndx a m = Done h.(st_shndx) m.
Proof. getter 3%nat. Qed.

Lemma get_st_value_ok h : a ≠ 0 → decode_sym m a = Some h → get_st_value a m = Done h.(st_value) m.
Proof. getter 4%nat. Qed.

Lemma get_st_size_ok h : a ≠ 0 → decode_sym m a = Some h → get_st_size a m = Done h.(st_size) m.
Proof. getter 5%nat. Qed.

Lemma get_d_tag_ok h : a ≠ 0 → decode_dyn m a = Some h → get_d_tag a m = Done h.(d_tag) m.
Proof. getter 0%nat. Qed.

Lemma get_d_val_ok h : a ≠ 0 → decode_dyn m a = Some h → get_d_val a m = Done h.(d_un) m.
Proof. getter 1%nat. Qed.

Lemma get_d_ptr_ok h : a ≠ 0 → decode_dyn m a = Some h → get_d_ptr a m = Done h.(d_un) m.
Proof. getter 1%nat. Qed.
End getters.

#[export] Hint Resolve
  get_e_type_ok get_e_machine_ok get_e_version_ok get_e_entry_ok get_e_phoff_ok
  get_e_shoff_ok get_e_phentsize_ok get_e_phnum_ok get_e_shentsize_ok
  get_e_shnum_ok get_e_shstrndx_ok get_sh_name_ok get_sh_type_ok get_sh_flags_ok
  get_sh_addr_ok get_sh_offset_ok get_sh_size_ok get_sh_link_ok get_sh_info_ok
  get_sh_addralign_ok get_sh_entsize_ok get_p_type_ok get_p_flags_ok
  get_p_offset_ok get_p_vaddr_ok get_p_paddr_ok get_p_filesz_ok get_p_memsz_ok
  get_p_align_ok get_r_offset_ok get_r_info_ok get_r_addend_ok get_st_name_ok
  get_st_info_ok get_st_other_ok get_st_shndx_ok get_st_value_ok get_st_size_ok
  get_d_tag_ok get_d_val_ok get_d_ptr_ok : cdb.

(** Every accessor is a plain load. *)
Ltac unfold_getters :=
  unfold get_e_type, get_e_machine, get_e_version, get_e_entry, get_e_phoff,
    get_e_shoff, get_e_phentsize, get_e_phnum, get_e_shentsize, get_e_shnum,
    get_e_shstrndx, get_sh_name, get_sh_type, get_sh_flags, get_sh_addr,
    get_sh_offset, get_sh_size, get_sh_link, get_sh_info, get_sh_addralign,
    get_sh_entsize, get_p_type, get_p_flags, get_p_offset, get_p_vaddr,
    get_p_paddr, get_p_filesz, get_p_memsz, get_p_align, get_r_offset,
    get_r_info, get_r_addend, get_st_name, get_st_info, get_st_other,
    get_st_shndx, get_st_value, get_st_size, get_d_tag, get_d_val,
    get_d_ptr in *.

(** The entries a pointer walks over: [n] records of [size] bytes apart. *)
Definition table_at {T : Type} (decode : mem → Z → option T) (m : mem)
    (base size : Z) (l : list T) : Prop :=
  ∀ (i : nat) (x : T), l !! i = Some x →
    ptr_add base (Z.of_nat i * size) ≠ 0 ∧
    decode m (ptr_add base (Z.of_nat i * size)) = Some x.

(** ** Round trips *)

Section roundtrip.
Context (m : mem) (a : Z).
Context (Ha : 0 ≤ a).

Lemma decode_encode_phdr h :
  a + total phdr_widths < 2 ^ 64 → fits phdr_widths (phdr_fields h) →
  load_bytes m a (list_sum phdr_widths) = Some (encode_phdr h) → decode_phdr m a = Some h.
Proof using Ha.
  intros Hle Hf Hl. unfold decode_phdr.
  rewrite (decode_encode_fields _ _ _ _ (phdr_fields h)); [|lia..|done|by rewrite Z.add_0_r].
  by destruct h.
Qed.

Lemma decode_encode_shdr h :
  a + total shdr_widths < 2 ^ 64 → fits shdr_widths (shdr_fields h) →
  load_bytes m a (list_sum shdr_widths) = Some (encode_shdr h) → decode_shdr m a = Some h.
Proof using Ha.
  intros Hle Hf Hl. unfold decode_shdr.
  rewrite (decode_encode_fields _ _ _ _ (shdr_fields h)); [|lia..|done|by rewrite Z.add_0_r].
  by destruct h.
Qed.

Lemma decode_encode_rela r :
  a + total rela_widths < 2 ^ 64 → fits rela_widths (rela_fields r) →
  load_bytes m a (list_sum rela_widths) = Some (encode_rela r) → decode_rela m a = Some r.
Proof using Ha.
  intros Hle Hf Hl. unfold decode_rela.
  rewrite (decode_encode_fields _ _ _ _ (rela_fields r)); [|lia..|done|by rewrite Z.add_0_r].
  by destruct r.
Qed.

Lemma decode_encode_sym s :
  a + total sym_widths < 2 ^ 64 → fits sym_widths (sym_fields s) →
  load_bytes m a (list_sum sym_widths) = Some (encode_sym s) → decode_sym m a = Some s.
Proof using Ha.
  intros Hle Hf Hl. unfold decode_sym.
  rewrite (decode_encode_fields _ _ _ _ (sym_fields s)); [|lia..|done|by rewrite Z.add_0_r].
  by destruct s.
Qed.

Lemma decode_encode_ehdr h :
  length h.(e_ident) = 16%nat →
  a + 64 < 2 ^ 64 → fits ehdr_widths (ehdr_fields h) →
  load_bytes m a 64 = Some (encode_ehdr h) → decode_ehdr m a = Some h.
Proof using Ha.
  intros Hi Hle Hf Hl. apply (load_bytes_app _ _ 16 48) in Hl as [H1 H2].
  unfold encode_ehdr in H1, H2.
  rewrite take_app_length' in H1 by done. rewrite drop_app_length' in H2 by done.
  unfold decode_ehdr, EI_NIDENT. change (Z.to_nat 16) with 16%nat. rewrite H1.
  change (mbind ?f (Some ?x)) with (f x). cbv beta.
  rewrite (decode_encode_fields m a 16 ehdr_widths (ehdr_fields h)); [by destruct h|lia|lia|change (total ehdr_widths) with 48; lia|done|done].
Qed.
End roundtrip.
