(* ===== verification/Sample.v ===== *)
(** * A concrete image

    A small shared object laid out in memory, on which the theorems of the
    loader are evaluated: three segments (text, data with a zero-filled tail,
    dynamic), five sections, two dynamic symbols and three relocations. *)

From S2P Require Import Prelude.
From S2P Require Import Memory.
From S2P Require Import ElfFormat.

Definition bytes_of (l : list Z) : list byte := map byte.of_Z l.

(** A NUL-free name as its bytes. *)
Fixpoint name_bytes (s : string) : list byte :=
  match s with
  | EmptyString => []
  | String c s => Ascii.byte_of_ascii c :: name_bytes s
  end.

Definition s_dynsym : list byte := name_bytes ".dynsym".
Definition s_rela_dyn : list byte := name_bytes ".rela.dyn".
Definition s_rela_plt : list byte := name_bytes ".rela.plt".

Definition sample_ehdr : Elf64_Ehdr :=
  {| e_ident := bytes_of [127; 69; 76; 70; 2; 1; 1; 9; 0; 0; 0; 0; 0; 0; 0; 0];
     e_type := ET_DYN; e_machine := EM_X86_64; e_version := EV_CURRENT;
     e_entry := 4; e_phoff := 64; e_shoff := 0x1F0; e_flags := 0; e_ehsize := 64;
     e_phentsize := 56; e_phnum := 3; e_shentsize := 64; e_shnum := 5; e_shstrndx := 4 |}.

Definition sample_phdrs : list Elf64_Phdr :=
  [ {| p_type := PT_LOAD; p_flags := 5; p_offset := 0x100; p_vaddr := 0; p_paddr := 0;
       p_filesz := 16; p_memsz := 16; p_align := 16 |};
    {| p_type := PT_LOAD; p_flags := 6; p_offset := 0x110; p_vaddr := 0x40; p_paddr := 0x40;
       p_filesz := 16; p_memsz := 32; p_align := 0x200000 |};
    {| p_type := PT_DYNAMIC; p_flags := 6; p_offset := 0x120; p_vaddr := 0x400120;
       p_paddr := 0x80; p_filesz := 48; p_memsz := 48; p_align := 8 |} ].

Definition sample_dyns : list Elf64_Dyn :=
  [ {| d_tag := DT_STRTAB; d_un := 0x4001C8 |};
    {| d_tag := DT_SYMTAB; d_un := 0x400150 |};
    {| d_tag := DT_NULL; d_un := 0 |} ].

Definition sample_syms : list Elf64_Sym :=
  [ {| st_name := 0; st_info := 0; st_other := 0; st_shndx := 0; st_value := 0; st_size := 0 |};
    {| st_name := 1; st_info := 18; st_other := 0; st_shndx := 1; st_value := 8; st_size := 4 |} ].

Definition sample_relas_dyn : list Elf64_Rela :=
  [ {| r_offset := 0x40; r_info := ELF64_R_INFO 0 R_X86_64_RELATIVE; r_addend := 4 |};
    {| r_offset := 0x50; r_info := ELF64_R_INFO 1 R_X86_64_64; r_addend := 0x44 |} ].

Definition sample_relas_plt : list Elf64_Rela :=
  [ {| r_offset := 0x48; r_info := ELF64_R_INFO 1 R_X86_64_JMP_SLOT; r_addend := 0 |} ].

Definition sample_strtab : list byte :=
  [Byte.x00] ++ name_bytes ".dynsym" ++ [Byte.x00] ++ name_bytes ".rela.dyn" ++ [Byte.x00]
  ++ name_bytes ".rela.plt" ++ [Byte.x00] ++ name_bytes ".shstrtab" ++ [Byte.x00].

Definition sample_shdrs : list Elf64_Shdr :=
  [ {| sh_name := 0; sh_type := SHT_NULL; sh_flags := 0; sh_addr := 0; sh_offset := 0;
       sh_size := 0; sh_link := 0; sh_info := 0; sh_addralign := 0; sh_entsize := 0 |};
    {| sh_name := 1; sh_type := SHT_DYNSYM; sh_flags := 2; sh_addr := 0xB0; sh_offset := 0x150;
       sh_size := 48; sh_link := 0; sh_info := 0; sh_addralign := 8; sh_entsize := 24 |};
    {| sh_name := 9; sh_type := SHT_RELA; sh_flags := 2; sh_addr := 0xE0; sh_offset := 0x180;
       sh_size := 48; sh_link := 1; sh_info := 0; sh_addralign := 8; sh_entsize := 24 |};
    {| sh_name := 19; sh_type := SHT_RELA; sh_flags := 2; sh_addr := 0x110; sh_offset := 0x1B0;
       sh_size := 24; sh_link := 1; sh_info := 0; sh_addralign := 8; sh_entsize := 24 |};
    {| sh_name := 29; sh_type := 3; sh_flags := 0; sh_addr := 0; sh_offset := 0x1C8;
       sh_size := 39; sh_link := 0; sh_info := 0; sh_addralign := 1; sh_entsize := 0 |} ].

Definition sample_file : list byte :=
  encode_ehdr sample_ehdr ++ concat (map encode_phdr sample_phdrs)
  ++ replicate 24 Byte.x00
  ++ bytes_of [0; 1; 2; 3; 4; 5; 6; 7; 8; 9; 10; 11; 12; 13; 14; 15]
  ++ bytes_of [16; 17; 18; 19; 20; 21; 22; 23; 24; 25; 26; 27; 28; 29; 30; 31]
  ++ concat (map encode_dyn sample_dyns)
  ++ concat (map encode_sym sample_syms)
  ++ concat (map encode_rela sample_relas_dyn)
  ++ concat (map encode_rela sample_relas_plt)
  ++ sample_strtab ++ [Byte.x00]
  ++ concat (map encode_shdr sample_shdrs).

Definition sample_elf : Z := 0x1000.
Definition sample_data : Z := 0x400000.
Definition sample_writable : Z := 0x500000.
Definition sample_executable : Z := 0x900000.

(** [struct Elf] at 0x1000, the file at 0x400000, 256 writable bytes at 0x500000. *)
Definition sample_mem : mem :=
  bytes_at sample_elf (le_split 8 sample_data ++ le_split 8 (Z.of_nat (length sample_file)))
  ∪ bytes_at sample_data sample_file
  ∪ bytes_at sample_writable (replicate 256 Byte.xff).
