(* ===== verification/ElfTables.v ===== *)
(** * Header, section and segment tables of an ELF image

    The accessors of source/ps4/elfloader.c over the file header, the section
    headers and the segment headers.  An [Elf *] is the address of a
    [struct Elf] in memory, [0] is NULL; pointers to table entries are
    addresses too.  An out-parameter is a flag (the pointer is not NULL) and
    an optional result, [None] for an object the callee did not write; the
    [uint16_t *index] of a search is [None] for NULL and the search returns
    the index it stopped at. *)

From S2P Require Import Prelude.
From S2P Require Import Memory.
From S2P Require Import ElfFormat.
From S2P Require Import Sample.

(** ** struct Elf *)

Definition get_data (elf : Z) : C mem Z := field 8 elf 0.
Definition get_size (elf : Z) : C mem Z := field 8 elf 8.

Definition sizeof_Elf : Z := 16.

(** ** Attribute selectors *)

Inductive ElfSectionAttribute :=
| ElfSectionAttributeNone
| ElfSectionAttributeName
| ElfSectionAttributeType
| ElfSectionAttributeFlags
| ElfSectionAttributeAddress
| ElfSectionAttributeOffset
| ElfSectionAttributeSize
| ElfSectionAttributeLink
| ElfSectionAttributeInfo
| ElfSectionAttributeMemoryAlignment
| ElfSectionAttributeEntrySize.

Inductive ElfSegmentAttribute :=
| ElfSegmentAttributeNone
| ElfSegmentAttributeType
| ElfSegmentAttributeFlags
| ElfSegmentAttributeOffset
| ElfSegmentAttributeVirtualAddress
| ElfSegmentAttributePhysicalAddress
| ElfSegmentAttributeFileSize
| ElfSegmentAttributeMemorySize
| ElfSegmentAttributeAlignment.

#[export] Instance ElfSectionAttribute_eq_dec : EqDecision ElfSectionAttribute.
Proof. solve_decision. Defined.
#[export] Instance ElfSegmentAttribute_eq_dec : EqDecision ElfSegmentAttribute.
Proof. solve_decision. Defined.

(** ** The ELF header *)

Definition elfHeader (elf : Z) : C mem Z :=
  if elf =? 0 then mret 0 else get_data elf.

(** The comparisons of IS_ELF short-circuit. *)
Definition IS_ELF (h : Z) : C mem bool :=
  b0 ← field 1 h EI_MAG0;
  if negb (b0 =? ELFMAG0) then mret false else
  b1 ← field 1 h EI_MAG1;
  if negb (b1 =? ELFMAG1) then mret false else
  b2 ← field 1 h EI_MAG2;
  if negb (b2 =? ELFMAG2) then mret false else
  b3 ← field 1 h EI_MAG3;
  mret (b3 =? ELFMAG3).

Definition elfIsElf (elf : Z) : C mem bool :=
  h ← elfHeader elf;
  IS_ELF h.

(** [e == NULL ? 0 : e->data[i]] *)
Definition elfIdent (elf i : Z) : C mem Z :=
  if elf =? 0 then mret 0 else d ← get_data elf; field 1 d i.

Definition elfClass (elf : Z) : C mem Z := elfIdent elf 4.
Definition elfEncoding (elf : Z) : C mem Z := elfIdent elf 5.
Definition elfVersion (elf : Z) : C mem Z := elfIdent elf 6.
Definition elfABI (elf : Z) : C mem Z := elfIdent elf 7.

Definition elfEntry (elf : Z) : C mem Z :=
  if elf =? 0 then mret 0 else
  h ← elfHeader elf;
  if h =? 0 then mret 0 else get_e_entry h.

(** ** Tables *)

Definition out (wanted : bool) (v : Z) : option Z := if wanted then Some v else None.

(** The entry [index * size] bytes after [h]: the product is an [int]. *)
Definition entry (h index size : Z) : C mem Z :=
  o ← mul_int index size; mret (ptr_add h o).

(** The search loop shared by elfSection, elfSegment, elfDynamic and
    elfLoadedDynamic. *)
Definition table_find (none : bool) (attribute : Z → C mem Z) (value : Z)
    (h size length index : Z) : C mem (Z * Z) :=
  r ← for_range index length () (λ i _,
    t ← entry h i size;
    if none then mret (inr (t, i)) else
    v ← attribute t;
    if v =? value then mret (inr (t, i)) else mret (inl ()));
  match r with
  | inr ti => mret ti
  | inl _ => mret (0, Z.max index length)
  end.

Definition elfSectionAttribute (s : Z) (attribute : ElfSectionAttribute) : C mem Z :=
  match attribute with
  | ElfSectionAttributeName => get_sh_name s
  | ElfSectionAttributeType => get_sh_type s
  | ElfSectionAttributeFlags => get_sh_flags s
  | ElfSectionAttributeAddress => get_sh_addr s
  | ElfSectionAttributeOffset => get_sh_offset s
  | ElfSectionAttributeSize => get_sh_size s
  | ElfSectionAttributeLink => get_sh_link s
  | ElfSectionAttributeInfo => get_sh_info s
  | ElfSectionAttributeMemoryAlignment => get_sh_addralign s
  | ElfSectionAttributeEntrySize => get_sh_entsize s
  | ElfSectionAttributeNone => mret 0
  end.

Definition elfSections (elf : Z) (size length : bool) : C mem (Z * (option Z * option Z)) :=
  if elf =? 0 then mret (0, (None, None)) else
  h ← elfHeader elf;
  off ← get_e_shoff h;
  if off =? 0 then mret (0, (None, None)) else
  es ← get_e_shentsize h;
  n ← get_e_shnum h;
  d ← get_data elf;
  mret (ptr_add d off, (out size es, out length n)).

Definition elfSection (elf : Z) (index : option Z) (attribute : ElfSectionAttribute)
    (value : Z) : C mem (Z * Z) :=
  let i := default 0 index in
  '(h, (size, length)) ← elfSections elf true true;
  if h =? 0 then mret (0, i) else
  size ← init size;
  length ← init length;
  table_find (bool_decide (attribute = ElfSectionAttributeNone))
    (λ t, elfSectionAttribute t attribute) value h size length i.

Definition elfSegmentAttribute (s : Z) (attribute : ElfSegmentAttribute) : C mem Z :=
  match attribute with
  | ElfSegmentAttributeType => get_p_type s
  | ElfSegmentAttributeFlags => get_p_flags s
  | ElfSegmentAttributeOffset => get_p_offset s
  | ElfSegmentAttributeVirtualAddress => get_p_vaddr s
  | ElfSegmentAttributePhysicalAddress => get_p_paddr s
  | ElfSegmentAttributeFileSize => get_p_filesz s
  | ElfSegmentAttributeMemorySize => get_p_memsz s
  | ElfSegmentAttributeAlignment => get_p_align s
  | ElfSegmentAttributeNone => mret 0
  end.

Definition elfSegments (elf : Z) (size length : bool) : C mem (Z * (option Z * option Z)) :=
  if elf =? 0 then mret (0, (None, None)) else
  h ← elfHeader elf;
  off ← get_e_phoff h;
  if off =? 0 then mret (0, (None, None)) else
  es ← get_e_phentsize h;
  n ← get_e_phnum h;
  d ← get_data elf;
  mret (ptr_add d off, (out size es, out length n)).

Definition elfSegment (elf : Z) (index : option Z) (attribute : ElfSegmentAttribute)
    (value : Z) : C mem (Z * Z) :=
  let i := default 0 index in
  '(h, (size, length)) ← elfSegments elf true true;
  if h =? 0 then mret (0, i) else
  size ← init size;
  length ← init length;
  table_find (bool_decide (attribute = ElfSegmentAttributeNone))
    (λ t, elfSegmentAttribute t attribute) value h size length i.

(** [while(1)]: every round finds a later segment, so 2^16 rounds are enough. *)
Definition largest_fuel : nat := Z.to_nat (2 ^ 16).

Definition largest_round (elf : Z) (st : Z * Z) : C mem (Z * Z + Z) :=
  let '(index, alignment) := st in
  '(h, index) ← elfSegment elf (Some index) ElfSegmentAttributeType PT_LOAD;
  if h =? 0 then mret (inr alignment) else
  a ← get_p_align h;
  let alignment := if (alignment <? a) && (a <? 0x200000) then a else alignment in
  mret (inl (u16 (index + 1), alignment)).

Definition elfLargestAlignment (elf : Z) : C mem Z :=
  while largest_fuel (0, 0) (largest_round elf).

Definition elfMemorySize (elf : Z) : C mem Z :=
  if elf =? 0 then mret 0 else
  '(segments, (size, length)) ← elfSegments elf true true;
  if negb (segments =? 0) then
    size ← init size;
    length ← init length;
    fold_range 0 length 0 (λ index memorySize,
      s ← entry segments index size;
      p ← get_p_paddr s;
      n ← get_p_memsz s;
      mret (if memorySize <? u64 (p + n) then u64 (p + n) else memorySize))
  else
    '(sections, (size, length)) ← elfSections elf true true;
    if sections =? 0 then mret 0 else
    size ← init size;
    length ← init length;
    fold_range 0 length 0 (λ index memorySize,
      s ← entry sections index size;
      p ← get_sh_addr s;
      n ← get_sh_size s;
      mret (if memorySize <? u64 (p + n) then u64 (p + n) else memorySize)).

(** ** The abstract view of an image *)

Record elf_view := ElfView {
  v_data : Z;
  v_size : Z;
  v_hdr : Elf64_Ehdr;
  v_segs : list Elf64_Phdr;
  v_secs : list Elf64_Shdr }.

Definition seg_base (v : elf_view) : Z := ptr_add v.(v_data) v.(v_hdr).(e_phoff).
Definition sec_base (v : elf_view) : Z := ptr_add v.(v_data) v.(v_hdr).(e_shoff).

Definition seg_addr (v : elf_view) (i : Z) : Z :=
  ptr_add (seg_base v) (i * v.(v_hdr).(e_phentsize)).
Definition sec_addr (v : elf_view) (i : Z) : Z :=
  ptr_add (sec_base v) (i * v.(v_hdr).(e_shentsize)).

(** A table of [n] entries of [size] bytes, whose offsets fit an [int]. *)
Record table_ok {T : Type} (decode : mem → Z → option T) (m : mem)
    (base size n : Z) (l : list T) : Prop := {
  tab_base : base ≠ 0;
  tab_size : 0 ≤ size;
  tab_len : n = Z.of_nat (length l);
  tab_int : n * size ≤ INT_MAX;
  tab_at : table_at decode m base size l }.

Record elf_at (m : mem) (elf : Z) (v : elf_view) : Prop := {
  at_elf : elf ≠ 0;
  at_data : peek m 8 (ptr_add elf 0) = Some v.(v_data);
  at_size : peek m 8 (ptr_add elf 8) = Some v.(v_size);
  at_data_nz : v.(v_data) ≠ 0;
  at_hdr : decode_ehdr m v.(v_data) = Some v.(v_hdr);
  at_segs : v.(v_hdr).(e_phoff) ≠ 0 →
    table_ok decode_phdr m (seg_base v) v.(v_hdr).(e_phentsize) v.(v_hdr).(e_phnum) v.(v_segs);
  at_secs : v.(v_hdr).(e_shoff) ≠ 0 →
    table_ok decode_shdr m (sec_base v) v.(v_hdr).(e_shentsize) v.(v_hdr).(e_shnum) v.(v_secs) }.

(** The attribute of a decoded entry. *)
Definition shdr_attribute (h : Elf64_Shdr) (a : ElfSectionAttribute) : Z :=
  match a with
  | ElfSectionAttributeName => h.(sh_name)
  | ElfSectionAttributeType => h.(sh_type)
  | ElfSectionAttributeFlags => h.(sh_flags)
  | ElfSectionAttributeAddress => h.(sh_addr)
  | ElfSectionAttributeOffset => h.(sh_offset)
  | ElfSectionAttributeSize => h.(sh_size)
  | ElfSectionAttributeLink => h.(sh_link)
  | ElfSectionAttributeInfo => h.(sh_info)
  | ElfSectionAttributeMemoryAlignment => h.(sh_addralign)
  | ElfSectionAttributeEntrySize => h.(sh_entsize)
  | ElfSectionAttributeNone => 0
  end.

Definition phdr_attribute (h : Elf64_Phdr) (a : ElfSegmentAttribute) : Z :=
  match a with
  | ElfSegmentAttributeType => h.(p_type)
  | ElfSegmentAttributeFlags => h.(p_flags)
  | ElfSegmentAttributeOffset => h.(p_offset)
  | ElfSegmentAttributeVirtualAddress => h.(p_vaddr)
  | ElfSegmentAttributePhysicalAddress => h.(p_paddr)
  | ElfSegmentAttributeFileSize => h.(p_filesz)
  | ElfSegmentAttributeMemorySize => h.(p_memsz)
  | ElfSegmentAttributeAlignment => h.(p_align)
  | ElfSegmentAttributeNone => 0
  end.

Definition sec_matches (a : ElfSectionAttribute) (value : Z) (h : Elf64_Shdr) : bool :=
  bool_decide (a = ElfSectionAttributeNone) || (shdr_attribute h a =? value).
Definition seg_matches (a : ElfSegmentAttribute) (value : Z) (h : Elf64_Phdr) : bool :=
  bool_decide (a = ElfSegmentAttributeNone) || (phdr_attribute h a =? value).

(** ** Evaluation lemmas *)

Lemma elfSectionAttribute_ok m s h a :
  s ≠ 0 → decode_shdr m s = Some h →
  elfSectionAttribute s a m = Done (shdr_attribute h a) m.
Proof. intros. destruct a; simpl; eauto with cdb. Qed.

Lemma elfSegmentAttribute_ok m s h a :
  s ≠ 0 → decode_phdr m s = Some h →
  elfSegmentAttribute s a m = Done (phdr_attribute h a) m.
Proof. intros. destruct a; simpl; eauto with cdb. Qed.

Lemma entry_ok m h i size :
  0 ≤ i * size ≤ INT_MAX → entry h i size m = Done (ptr_add h (i * size)) m.
Proof. intros H. unfold entry. by rewrite (bind_done _ _ _ _ _ (mul_int_ok i size m H)). Qed.

Lemma table_ok_entry {T} (decode : mem → Z → option T) m base size n l i x :
  table_ok decode m base size n l → 0 ≤ i → l !! Z.to_nat i = Some x →
  entry base i size m = Done (ptr_add base (i * size)) m ∧
  ptr_add base (i * size) ≠ 0 ∧ decode m (ptr_add base (i * size)) = Some x.
Proof.
  intros [? ? Hl ? Ht] Hi Hx. pose proof (lookup_lt_Some _ _ _ Hx).
  specialize (Ht _ _ Hx). rewrite Z2Nat.id in Ht by done.
  split; [|done]. apply entry_ok. nia.
Qed.

Lemma table_find_ok {T} (decode : mem → Z → option T) m base size n l
    none attribute (f : T → Z) value i :
  table_ok decode m base size n l → 0 ≤ i →
  (∀ t x, t ≠ 0 → decode m t = Some x → attribute t m = Done (f x) m) →
  table_find none attribute value base size n i m =
    Done match first_in i n (λ k,
           match l !! Z.to_nat k with Some x => none || (f x =? value) | None => false end) with
         | Some k => (ptr_add base (k * size), k)
         | None => (0, Z.max i n)
         end m.
Proof.
  intros Htab Hi Hattr. unfold table_find.
  erewrite bind_done; [|apply (for_range_first _ _ _ _
    (λ k, match l !! Z.to_nat k with Some x => none || (f x =? value) | None => false end)
    (λ k, (ptr_add base (k * size), k)))].
  - by destruct (first_in _ _ _).
  - intros k Hk. destruct (l !! Z.to_nat k) as [x|] eqn:Hx.
    + destruct (table_ok_entry _ _ _ _ _ _ k x Htab) as (He & Hnz & Hd); [lia|done|].
      rewrite (bind_done _ _ _ _ _ He). destruct none; [done|].
      rewrite (bind_done _ _ _ _ _ (Hattr _ _ Hnz Hd)). simpl. by case_match.
    + apply lookup_ge_None in Hx. destruct Htab as [_ _ -> _ _]. lia.
Qed.

Section accessors.
Context (m : mem) (elf : Z) (v : elf_view).
Context (Hat : elf_at m elf v).

Lemma get_data_ok : get_data elf m = Done v.(v_data) m.
Proof using Hat. apply field_peek; apply Hat. Qed.

Lemma get_size_ok : get_size elf m = Done v.(v_size) m.
Proof using Hat. apply field_peek; apply Hat. Qed.

Lemma elf_nz : (elf =? 0) = false.
Proof using Hat. pose proof (at_elf _ _ _ Hat). lia. Qed.

Lemma elfHeader_ok : elfHeader elf m = Done v.(v_data) m.
Proof using Hat. unfold elfHeader. rewrite elf_nz. apply get_data_ok. Qed.

Lemma ident_byte i b :
  0 ≤ i < 16 → v.(v_data) + 16 ≤ 2 ^ 64 → 0 ≤ v.(v_data) →
  v.(v_hdr).(e_ident) !! Z.to_nat i = Some b →
  field 1 v.(v_data) i m = Done (byte.unsigned b) m.
Proof using Hat.
  intros Hi Hle Hd Hb. apply field_peek; [apply Hat|].
  pose proof (at_hdr _ _ _ Hat) as [[Hl Hs]%load_bytes_spec _]%decode_ehdr_fields.
  unfold peek, ptr_add. simpl. rewrite u64_small by lia.
  specialize (Hs (Z.to_nat i)). rewrite Z2Nat.id in Hs by lia.
  rewrite Hs by lia. rewrite Hb. simpl. by rewrite le_combine_1.
Qed.

Lemma elfSegments_ok s l :
  elfSegments elf s l m =
    Done (if v.(v_hdr).(e_phoff) =? 0 then (0, (None, None)) else
      (seg_base v, (out s v.(v_hdr).(e_phentsize), out l v.(v_hdr).(e_phnum)))) m.
Proof using Hat.
  pose proof Hat as [? _ _ ? Hh _ _]. unfold elfSegments. rewrite elf_nz.
  rewrite (bind_done _ _ _ _ _ elfHeader_ok). cstep. case_match; [done|].
  do 2 cstep. by rewrite (bind_done _ _ _ _ _ get_data_ok).
Qed.

Lemma elfSections_ok s l :
  elfSections elf s l m =
    Done (if v.(v_hdr).(e_shoff) =? 0 then (0, (None, None)) else
      (sec_base v, (out s v.(v_hdr).(e_shentsize), out l v.(v_hdr).(e_shnum)))) m.
Proof using Hat.
  pose proof Hat as [? _ _ ? Hh _ _]. unfold elfSections. rewrite elf_nz.
  rewrite (bind_done _ _ _ _ _ elfHeader_ok). cstep. case_match; [done|].
  do 2 cstep. by rewrite (bind_done _ _ _ _ _ get_data_ok).
Qed.

Definition seg_find (i : Z) (a : ElfSegmentAttribute) (value : Z) : option Z :=
  first_in i v.(v_hdr).(e_phnum) (λ k,
    match v.(v_segs) !! Z.to_nat k with Some x => seg_matches a value x | None => false end).

Definition sec_find (i : Z) (a : ElfSectionAttribute) (value : Z) : option Z :=
  first_in i v.(v_hdr).(e_shnum) (λ k,
    match v.(v_secs) !! Z.to_nat k with Some x => sec_matches a value x | None => false end).

Lemma elfSegment_ok index a value :
  0 ≤ default 0 index → v.(v_hdr).(e_phoff) ≠ 0 →
  elfSegment elf index a value m =
    Done match seg_find (default 0 index) a value with
         | Some k => (seg_addr v k, k)
         | None => (0, Z.max (default 0 index) v.(v_hdr).(e_phnum))
         end m.
Proof using Hat.
  intros Hi Hoff. pose proof (at_segs _ _ _ Hat Hoff) as Htab. unfold elfSegment.
  rewrite (bind_done _ _ _ _ _ (elfSegments_ok true true)).
  replace (e_phoff (v_hdr v) =? 0) with false by lia.
  replace (seg_base v =? 0) with false by (pose proof (tab_base _ _ _ _ _ _ Htab); lia).
  simpl out. do 2 cstep.
  apply (table_find_ok _ _ _ _ _ _ _ _ (λ x, phdr_attribute x a) _ _ Htab); [done|].
  intros. by apply elfSegmentAttribute_ok.
Qed.

Lemma elfSection_ok index a value :
  0 ≤ default 0 index → v.(v_hdr).(e_shoff) ≠ 0 →
  elfSection elf index a value m =
    Done match sec_find (default 0 index) a value with
         | Some k => (sec_addr v k, k)
         | None => (0, Z.max (default 0 index) v.(v_hdr).(e_shnum))
         end m.
Proof using Hat.
  intros Hi Hoff. pose proof (at_secs _ _ _ Hat Hoff) as Htab. unfold elfSection.
  rewrite (bind_done _ _ _ _ _ (elfSections_ok true true)).
  replace (e_shoff (v_hdr v) =? 0) with false by lia.
  replace (sec_base v =? 0) with false by (pose proof (tab_base _ _ _ _ _ _ Htab); lia).
  simpl out. do 2 cstep.
  apply (table_find_ok _ _ _ _ _ _ _ _ (λ x, shdr_attribute x a) _ _ Htab); [done|].
  intros. by apply elfSectionAttribute_ok.
Qed.
End accessors.

(** ** Decoding a whole image *)

Definition decode_entry {T} (decode : mem → Z → option T) (m : mem) (base size : Z)
    (i : nat) : option T :=
  let a := ptr_add base (Z.of_nat i * size) in
  if a =? 0 then None else decode m a.

Definition decode_table {T} (decode : mem → Z → option T) (m : mem)
    (base size n : Z) : option (list T) :=
  if (base =? 0) || (INT_MAX <? n * size) then None
  else mapM (decode_entry decode m base size) (seq 0 (Z.to_nat n)).

Definition elf_view_of (m : mem) (elf : Z) : option elf_view :=
  if elf =? 0 then None else
  d ← peek m 8 (ptr_add elf 0);
  n ← peek m 8 (ptr_add elf 8);
  if d =? 0 then None else
  h ← decode_ehdr m d;
  ps ← (if h.(e_phoff) =? 0 then Some []
        else decode_table decode_phdr m (ptr_add d h.(e_phoff)) h.(e_phentsize) h.(e_phnum));
  ss ← (if h.(e_shoff) =? 0 then Some []
        else decode_table decode_shdr m (ptr_add d h.(e_shoff)) h.(e_shentsize) h.(e_shnum));
  Some (ElfView d n h ps ss).

Lemma decode_table_ok {T} (decode : mem → Z → option T) m base size n l :
  0 ≤ size → 0 ≤ n →
  decode_table decode m base size n = Some l → table_ok decode m base size n l.
Proof.
  intros Hs Hn. unfold decode_table. case_match eqn:Hc; [done|].
  apply orb_false_iff in Hc as [Hb Hi]. intros Hm%mapM_Some.
  pose proof (Forall2_length _ _ _ Hm) as Hlen. rewrite length_seq in Hlen.
  split; zb; [lia..|]. intros i x Hx.
  pose proof (lookup_lt_Some _ _ _ Hx).
  destruct (Forall2_lookup_r _ _ _ _ _ Hm Hx) as (j & Hj & Hd).
  apply lookup_seq in Hj as [-> _]. simpl in Hd. unfold decode_entry in Hd.
  destruct (_ =? 0) eqn:Hz in Hd; [done|]. zb. done.
Qed.

Lemma decode_ehdr_range m d h :
  decode_ehdr m d = Some h →
  0 ≤ h.(e_phentsize) < 2 ^ 16 ∧ 0 ≤ h.(e_phnum) < 2 ^ 16 ∧
  0 ≤ h.(e_shentsize) < 2 ^ 16 ∧ 0 ≤ h.(e_shnum) < 2 ^ 16 ∧ 0 ≤ h.(e_shstrndx) < 2 ^ 16.
Proof.
  intros [_ Hf%decode_fields_range]%decode_ehdr_fields.
  pose proof (fits_lookup _ _ 8 2 _ Hf eq_refl eq_refl).
  pose proof (fits_lookup _ _ 9 2 _ Hf eq_refl eq_refl).
  pose proof (fits_lookup _ _ 10 2 _ Hf eq_refl eq_refl).
  pose proof (fits_lookup _ _ 11 2 _ Hf eq_refl eq_refl).
  pose proof (fits_lookup _ _ 12 2 _ Hf eq_refl eq_refl).
  done.
Qed.

Lemma elf_view_of_sound m elf v : elf_view_of m elf = Some v → elf_at m elf v.
Proof.
  unfold elf_view_of. case_match eqn:He; [done|].
  intros (d & Hd & (n & Hn & H)%bind_Some)%bind_Some. case_match eqn:Hdz; [done|].
  apply bind_Some in H as (h & Hh & (ps & Hps & (ss & Hss & [= <-])%bind_Some)%bind_Some).
  pose proof (decode_ehdr_range _ _ _ Hh) as (? & ? & ? & ? & _).
  split; simpl; zb; try done; intros Hoff; unfold seg_base, sec_base; simpl.
  - replace (e_phoff h =? 0) with false in Hps by lia. apply decode_table_ok; [lia..|done].
  - replace (e_shoff h =? 0) with false in Hss by lia. apply decode_table_ok; [lia..|done].
Qed.

Definition sample_view : elf_view :=
  ElfView sample_data 816 sample_ehdr sample_phdrs sample_shdrs.

Lemma sample_at : elf_at sample_mem sample_elf sample_view.
Proof. apply elf_view_of_sound. vm_compute. reflexivity. Qed.

(** ** Searching *)

Section search.
Context (m : mem) (elf : Z) (v : elf_view).
Context (Hat : elf_at m elf v).

Lemma seg_find_spec i a value :
  0 ≤ i → v.(v_hdr).(e_phoff) ≠ 0 →
  match seg_find v i a value with
  | Some k => ∃ ph, i ≤ k ∧ v.(v_segs) !! Z.to_nat k = Some ph ∧ seg_matches a value ph = true ∧
      seg_addr v k ≠ 0 ∧ decode_phdr m (seg_addr v k) = Some ph ∧
      ∀ j ph', i ≤ Z.of_nat j < k → v.(v_segs) !! j = Some ph' → seg_matches a value ph' = false
  | None => ∀ j ph', i ≤ Z.of_nat j → v.(v_segs) !! j = Some ph' → seg_matches a value ph' = false
  end.
Proof using Hat.
  intros Hi Hoff. pose proof (at_segs _ _ _ Hat Hoff) as Htab.
  unfold seg_find. pose proof (first_in_spec i (e_phnum (v_hdr v)) (λ k,
    match v_segs v !! Z.to_nat k with Some x => seg_matches a value x | None => false end)) as Hf.
  destruct (first_in _ _ _) as [k|].
  - destruct Hf as (Hk & Hp & Hbef). destruct (v_segs v !! Z.to_nat k) as [ph|] eqn:Hph; [|done].
    destruct (table_ok_entry _ _ _ _ _ _ k ph Htab) as (_ & Hnz & Hd); [lia|done|].
    exists ph. split_and!; [lia|done..|].
    intros j ph' Hj Hl. specialize (Hbef (Z.of_nat j)). rewrite Nat2Z.id, Hl in Hbef. apply Hbef. lia.
  - intros j ph' Hj Hl. specialize (Hf (Z.of_nat j)). rewrite Nat2Z.id, Hl in Hf. apply Hf.
    pose proof (lookup_lt_Some _ _ _ Hl). rewrite (tab_len _ _ _ _ _ _ Htab). lia.
Qed.

Lemma sec_find_spec i a value :
  0 ≤ i → v.(v_hdr).(e_shoff) ≠ 0 →
  match sec_find v i a value with
  | Some k => ∃ sh, i ≤ k ∧ v.(v_secs) !! Z.to_nat k = Some sh ∧ sec_matches a value sh = true ∧
      sec_addr v k ≠ 0 ∧ decode_shdr m (sec_addr v k) = Some sh ∧
      ∀ j sh', i ≤ Z.of_nat j < k → v.(v_secs) !! j = Some sh' → sec_matches a value sh' = false
  | None => ∀ j sh', i ≤ Z.of_nat j → v.(v_secs) !! j = Some sh' → sec_matches a value sh' = false
  end.
Proof using Hat.
  intros Hi Hoff. pose proof (at_secs _ _ _ Hat Hoff) as Htab.
  unfold sec_find. pose proof (first_in_spec i (e_shnum (v_hdr v)) (λ k,
    match v_secs v !! Z.to_nat k with Some x => sec_matches a value x | None => false end)) as Hf.
  destruct (first_in _ _ _) as [k|].
  - destruct Hf as (Hk & Hp & Hbef). destruct (v_secs v !! Z.to_nat k) as [sh|] eqn:Hsh; [|done].
    destruct (table_ok_entry _ _ _ _ _ _ k sh Htab) as (_ & Hnz & Hd); [lia|done|].
    exists sh. split_and!; [lia|done..|].
    intros j sh' Hj Hl. specialize (Hbef (Z.of_nat j)). rewrite Nat2Z.id, Hl in Hbef. apply Hbef. lia.
  - intros j sh' Hj Hl. specialize (Hf (Z.of_nat j)). rewrite Nat2Z.id, Hl in Hf. apply Hf.
    pose proof (lookup_lt_Some _ _ _ Hl). rewrite (tab_len _ _ _ _ _ _ Htab). lia.
Qed.
End search.

(** elfSection and elfSegment return the first entry at or after the
    start index whose attribute has the wanted value, together with its
    index, and NULL exactly when no entry from there on has it; neither
    changes memory. *)
Theorem table_search_first m elf v :
  elf_at m elf v → v.(v_hdr).(e_phoff) ≠ 0 → v.(v_hdr).(e_shoff) ≠ 0 →
  (∀ index a value, 0 ≤ default 0 index →
     ∃ t k, elfSegment elf index a value m = Done (t, k) m ∧
     ((∃ ph, v.(v_segs) !! Z.to_nat k = Some ph ∧ seg_matches a value ph = true ∧
         default 0 index ≤ k ∧ t ≠ 0 ∧ decode_phdr m t = Some ph ∧
         ∀ j ph', default 0 index ≤ Z.of_nat j < k → v.(v_segs) !! j = Some ph' →
           seg_matches a value ph' = false)
      ∨ t = 0 ∧ ∀ j ph', default 0 index ≤ Z.of_nat j → v.(v_segs) !! j = Some ph' →
           seg_matches a value ph' = false)) ∧
  (∀ index a value, 0 ≤ default 0 index →
     ∃ t k, elfSection elf index a value m = Done (t, k) m ∧
     ((∃ sh, v.(v_secs) !! Z.to_nat k = Some sh ∧ sec_matches a value sh = true ∧
         default 0 index ≤ k ∧ t ≠ 0 ∧ decode_shdr m t = Some sh ∧
         ∀ j sh', default 0 index ≤ Z.of_nat j < k → v.(v_secs) !! j = Some sh' →
           sec_matches a value sh' = false)
      ∨ t = 0 ∧ ∀ j sh', default 0 index ≤ Z.of_nat j → v.(v_secs) !! j = Some sh' →
           sec_matches a value sh' = false)).
Proof.
  intros Hat Hp Hs. split; intros index a value Hi.
  - rewrite (elfSegment_ok _ _ _ Hat) by done.
    pose proof (seg_find_spec _ _ _ Hat _ a value Hi Hp) as Hf.
    destruct (seg_find _ _ _ _) as [k|]; eexists _, _; split; [done|naive_solver|done|naive_solver].
  - rewrite (elfSection_ok _ _ _ Hat) by done.
    pose proof (sec_find_spec _ _ _ Hat _ a value Hi Hs) as Hf.
    destruct (sec_find _ _ _ _) as [k|]; eexists _, _; split; [done|naive_solver|done|naive_solver].
Qed.

Lemma table_search_first_witness :
  ∃ t k, elfSegment sample_elf (Some 1) ElfSegmentAttributeType PT_LOAD sample_mem
         = Done (t, k) sample_mem.
Proof.
  destruct (table_search_first sample_mem sample_elf sample_view) as [H _];
    [exact sample_at|vm_compute; discriminate|vm_compute; discriminate|].
  destruct (H (Some 1) ElfSegmentAttributeType PT_LOAD) as (t & k & Hr & _); [vm_compute; discriminate|].
  exists t, k. exact Hr.
Defined.

(** ** Memory size *)

Definition seg_end (h : Elf64_Phdr) : Z := u64 (h.(p_paddr) + h.(p_memsz)).
Definition sec_end (h : Elf64_Shdr) : Z := u64 (h.(sh_addr) + h.(sh_size)).

(** The ends elfMemorySize compares, those of the segments if there are any
    and else those of all sections, as 64-bit sums. *)
Definition extents (v : elf_view) : list Z :=
  if negb (v.(v_hdr).(e_phoff) =? 0) then map seg_end v.(v_segs)
  else if negb (v.(v_hdr).(e_shoff) =? 0) then map sec_end v.(v_secs) else [].

Lemma foldl_map {A B D : Type} (f : A → B → A) (g : D → B) l a :
  foldl f a (map g l) = foldl (λ a x, f a (g x)) a l.
Proof. revert a. induction l as [|x l IH]; intros a; simpl; [done|apply IH]. Qed.

Lemma max_step a b : (if a <? b then b else a) = Z.max a b.
Proof. destruct (a <? b) eqn:?; zb; lia. Qed.

Lemma foldl_max_bound l a : a ≤ foldl Z.max a l ∧ ∀ x, x ∈ l → x ≤ foldl Z.max a l.
Proof.
  revert a. induction l as [|y l IH]; intros a; simpl; [split; [lia|set_solver]|].
  destruct (IH (Z.max a y)) as [H1 H2]. split; [lia|].
  intros x [->|Hx]%elem_of_cons; [lia|by apply H2].
Qed.

Lemma foldl_max_in l a : foldl Z.max a l = a ∨ foldl Z.max a l ∈ l.
Proof.
  revert a. induction l as [|y l IH]; intros a; simpl; [by left|].
  destruct (IH (Z.max a y)) as [->|H]; [|right; set_solver].
  destruct (Z.max_spec a y) as [[_ ->]|[_ ->]]; [right; set_solver|by left].
Qed.

(** A read-only pass over a table is a fold over its decoded entries. *)
Lemma table_fold {T A} (decode : mem → Z → option T) m base size n l
    (body : Z → A → C mem A) (f : A → T → A) acc :
  table_ok decode m base size n l →
  (∀ s x a, s ≠ 0 → decode m s = Some x → body s a m = Done (f a x) m) →
  fold_range 0 n acc (λ i a, s ← entry base i size; body s a) m = Done (foldl f acc l) m.
Proof.
  intros Htab Hb. rewrite (tab_len _ _ _ _ _ _ Htab). apply fold_range_foldl.
  intros i x a Hx. destruct (table_ok_entry _ _ _ _ _ _ (Z.of_nat i) x Htab) as (He & Hnz & Hd);
    [lia|by rewrite Nat2Z.id|].
  rewrite (bind_done _ _ _ _ _ He). by apply Hb.
Qed.

Lemma elfMemorySize_ok m elf v :
  elf_at m elf v → elfMemorySize elf m = Done (foldl Z.max 0 (extents v)) m.
Proof.
  intros Hat. unfold elfMemorySize, extents. rewrite (elf_nz _ _ _ Hat).
  rewrite (bind_done _ _ _ _ _ (elfSegments_ok _ _ _ Hat true true)).
  destruct (e_phoff (v_hdr v) =? 0) eqn:Hp; cbn [negb Z.eqb].
  - rewrite (bind_done _ _ _ _ _ (elfSections_ok _ _ _ Hat true true)).
    destruct (e_shoff (v_hdr v) =? 0) eqn:Hs; cbn [negb Z.eqb]; [done|]. zb.
    pose proof (at_secs _ _ _ Hat Hs) as Htab.
    replace (sec_base v =? 0) with false by (pose proof (tab_base _ _ _ _ _ _ Htab); lia).
    simpl out. do 2 cstep.
    rewrite foldl_map. apply (table_fold _ _ _ _ _ _ (λ s a, _) _ _ Htab).
    intros s x a Hnz Hd. do 2 cstep. by rewrite max_step.
  - zb. pose proof (at_segs _ _ _ Hat Hp) as Htab.
    replace (seg_base v =? 0) with false by (pose proof (tab_base _ _ _ _ _ _ Htab); lia).
    simpl out. cbn [negb]. do 2 cstep.
    rewrite foldl_map. apply (table_fold _ _ _ _ _ _ (λ s a, _) _ _ Htab).
    intros s x a Hnz Hd. do 2 cstep. by rewrite max_step.
Qed.

(** ** Largest alignment *)

Lemma halts_table_find none attribute value h size length i m (Q : Z * Z → mem → Prop) :
  (∀ t, halts (attribute t) m (λ _ m', m' = m)) →
  (∀ t k, (t ≠ 0 → i ≤ k < length) → Q (t, k) m) →
  halts (table_find none attribute value h size length i) m Q.
Proof.
  intros Ha HQ. unfold table_find. eapply halts_bind.
  - apply (halts_for_range (λ _ _ t, t = m) (λ r t, t = m ∧
      match r with inr (_, k) => i ≤ k < length | inl _ => True end)); [done| |by intros ? ? ->].
    intros j [] t Hj ->. eapply (halts_bind _ _ _ (λ _ t, t = m)).
    { unfold entry. eapply (halts_bind _ _ _ (λ _ t, t = m)); [by apply halts_mul_int|].
      intros o ? ->. by apply halts_ret. }
    intros p ? ->. destruct none; [by apply halts_ret|].
    eapply halts_bind; [apply Ha|]. intros v ? ->. case_match; by apply halts_ret.
  - intros [[]|[t k]] m' [-> Hk]; apply halts_ret, HQ; [done|]. intros _. lia.
Qed.

Lemma halts_elfSegmentAttribute t a m (Q : Z → mem → Prop) :
  (∀ v, Q v m) → halts (elfSegmentAttribute t a) m Q.
Proof. intros H. destruct a; simpl; (apply halts_field + apply halts_ret); auto. Qed.

(** The search never runs out of fuel and stops below the table's length. *)
Lemma halts_elfSegment m elf i a value :
  0 ≤ i →
  halts (elfSegment elf (Some i) a value) m
    (λ '(t, k) m', m' = m ∧ (t ≠ 0 → i ≤ k < 2 ^ 16 - 1)).
Proof.
  intros Hi. unfold elfSegment. eapply (halts_bind _ _ _ (λ '(h, (_, l)) m',
    m' = m ∧ ∀ n, l = Some n → n < 2 ^ 16)).
  - unfold elfSegments. case_match; [by apply halts_ret|].
    eapply (halts_bind _ _ _ (λ _ m', m' = m)).
    { unfold elfHeader. case_match; [by apply halts_ret|]. by apply halts_field. }
    intros h ? ->. eapply halts_bind; [by apply (halts_field _ _ _ _ (λ _ m', m' = m))|].
    intros off ? ->. case_match; [by apply halts_ret|].
    eapply halts_bind; [by apply (halts_field _ _ _ _ (λ _ m', m' = m))|]. intros es ? ->.
    eapply halts_bind; [apply (halts_field _ _ _ _ (λ n m', m' = m ∧ n < 2 ^ 16)); intros; split; [done|lia]|].
    intros n ? [-> Hn].
    eapply halts_bind; [by apply (halts_field _ _ _ _ (λ _ m', m' = m))|]. intros d ? ->.
    apply halts_ret. split; [done|]. by intros ? [= <-].
  - intros [h [s l]] ? [-> Hl]. case_match; [by apply halts_ret|].
    eapply halts_bind; [by apply (halts_init _ _ (λ _ m', m' = m))|]. intros size ? ->.
    eapply halts_bind; [apply (halts_init _ _ (λ n m', m' = m ∧ l = Some n)); by intros ? ->|].
    intros n ? [-> ->]. specialize (Hl n eq_refl). apply halts_table_find.
    + intros t. by apply halts_elfSegmentAttribute.
    + intros t k Hk. split; [done|]. intros ?. specialize (Hk ltac:(done)). simpl in Hk. lia.
Qed.

Definition rounds_left (a : Z * Z) : nat := Z.to_nat (2 ^ 16 - 1 - a.1).

Lemma rounds_left_fuel a : 0 ≤ a.1 < 2 ^ 16 → (rounds_left a < largest_fuel)%nat.
Proof. intros Ha. unfold rounds_left. apply Z2Nat.inj_lt; lia. Qed.

Lemma rounds_left_dec i k x y :
  0 ≤ i → i ≤ k < 2 ^ 16 - 1 → (rounds_left ((k + 1)%Z, x) < rounds_left (i, y))%nat.
Proof. intros ? ?. unfold rounds_left. cbn [fst]. lia. Qed.

Lemma halts_elfLargestAlignment elf m : halts (elfLargestAlignment elf) m (λ _ _, True).
Proof.
  unfold elfLargestAlignment.
  apply (halts_while (λ a _, 0 ≤ a.1 < 2 ^ 16) _ rounds_left); [done|by apply rounds_left_fuel|].
  intros [index alignment] t Hi. cbn [fst] in Hi. eapply halts_bind; [apply halts_elfSegment; lia|].
  intros [h k] ? [-> Hk]. case_match; [by apply halts_ret|]. zb.
  specialize (Hk ltac:(done)).
  eapply (halts_bind _ _ _ (λ _ _, True)); [by apply halts_field|]. intros a t' _.
  apply halts_ret. rewrite u16_small by lia. split; [simpl; lia|]. apply rounds_left_dec; lia.
Qed.

(** elfLargestAlignment terminates on every memory: its [while(1)] leaves
    after at most 2^16 rounds, whatever the table holds. *)
Theorem elfLargestAlignment_terminates elf m : elfLargestAlignment elf m ≠ Timeout.
Proof. apply (halts_not_timeout _ _ _ (halts_elfLargestAlignment elf m)). Qed.


(** The alignments elfLargestAlignment takes into account. *)
Definition load_aligns (segs : list Elf64_Phdr) : list Z :=
  map p_align (filter (λ ph, p_type ph = PT_LOAD ∧ p_align ph < 0x200000) segs).

Lemma load_aligns_skip segs (i k : nat) :
  (∀ j ph, (i ≤ j < k)%nat → segs !! j = Some ph → seg_matches ElfSegmentAttributeType PT_LOAD ph = false) →
  (i ≤ k)%nat → load_aligns (drop i segs) = load_aligns (drop k segs).
Proof.
  intros Hno Hle. remember (k - i)%nat as n eqn:Hn. revert i Hno Hle Hn.
  induction n as [|n IH]; intros i Hno Hle Hn; [by replace i with k by lia|].
  destruct (segs !! i) as [ph|] eqn:Hph.
  - rewrite (drop_S _ _ _ Hph). rewrite <- (IH (S i)); [| |lia..].
    + unfold load_aligns. rewrite filter_cons_False; [done|]. intros [Ht _].
      specialize (Hno i ph ltac:(lia) Hph). unfold seg_matches in Hno. simpl in Hno. lia.
    + intros j ph' Hj. apply Hno. lia.
  - apply lookup_ge_None in Hph. rewrite !drop_ge by lia. done.
Qed.

Lemma load_aligns_hit segs (k : nat) ph :
  segs !! k = Some ph → seg_matches ElfSegmentAttributeType PT_LOAD ph = true →
  load_aligns (drop k segs) =
    (if p_align ph <? 0x200000 then [p_align ph] else []) ++ load_aligns (drop (S k) segs).
Proof.
  intros Hph Hm. rewrite (drop_S _ _ _ Hph). unfold load_aligns, seg_matches in *. simpl in Hm. zb.
  destruct (p_align ph <? 0x200000) eqn:Ha; zb.
  - by rewrite filter_cons_True.
  - rewrite filter_cons_False; [done|lia].
Qed.

Lemma align_step a b l :
  foldl Z.max (if (a <? b) && (b <? 0x200000) then b else a) l =
  foldl Z.max a ((if b <? 0x200000 then [b] else []) ++ l).
Proof. destruct (b <? 0x200000) eqn:?, (a <? b) eqn:?; simpl; zb; f_equal; lia. Qed.

Lemma largest_round_ok m elf v (i : nat) a :
  elf_at m elf v → v.(v_hdr).(e_phoff) ≠ 0 →
  ∃ r, largest_round elf (Z.of_nat i, a) m = Done r m ∧
    match r with
    | inr x => x = a ∧ load_aligns (drop i v.(v_segs)) = []
    | inl (j, x) => ∃ k : nat, j = Z.of_nat k ∧ (i < k ≤ length v.(v_segs))%nat ∧
        foldl Z.max x (load_aligns (drop k v.(v_segs))) =
        foldl Z.max a (load_aligns (drop i v.(v_segs)))
    end.
Proof.
  intros Hat Hoff. pose proof (tab_len _ _ _ _ _ _ (at_segs _ _ _ Hat Hoff)) as Hlen.
  pose proof (decode_ehdr_range _ _ _ (at_hdr _ _ _ Hat)) as (_ & Hn & _).
  unfold largest_round.
  rewrite (bind_done _ _ _ _ _ (elfSegment_ok _ _ _ Hat (Some (Z.of_nat i)) _ _ (Nat2Z.is_nonneg i) Hoff)).
  cbn [default from_option id].
  pose proof (seg_find_spec _ _ _ Hat (Z.of_nat i) ElfSegmentAttributeType PT_LOAD ltac:(lia) Hoff) as Hs.
  destruct (seg_find _ _ _ _) as [k|].
  - destruct Hs as (ph & Hik & Hph & Hm & Hnz & Hd & Hbef).
    replace (seg_addr v k =? 0) with false by lia. cstep.
    pose proof (lookup_lt_Some _ _ _ Hph).
    eexists. split; [done|]. exists (S (Z.to_nat k)). rewrite u16_small by lia. split; [lia|].
    split; [lia|]. rewrite align_step, <- (load_aligns_hit _ _ _ Hph Hm).
    rewrite (load_aligns_skip _ i (Z.to_nat k)); [done| |lia].
    intros j ph' Hj. apply Hbef. lia.
  - eexists. split; [done|]. split; [done|].
    rewrite (load_aligns_skip _ i (Nat.max i (length (v_segs v)))); [|intros; eapply Hs; [|done]; lia|lia].
    by rewrite drop_ge by lia.
Qed.

Lemma largest_loop m elf v :
  elf_at m elf v → v.(v_hdr).(e_phoff) ≠ 0 → ∀ fuel (i : nat) a,
  (length v.(v_segs) - i < fuel)%nat →
  while fuel (Z.of_nat i, a) (largest_round elf) m
    = Done (foldl Z.max a (load_aligns (drop i v.(v_segs)))) m.
Proof.
  intros Hat Hoff. induction fuel as [|fuel IH]; intros i a Hf; [lia|]. simpl while.
  destruct (largest_round_ok m elf v i a Hat Hoff) as (r & Hr & Hspec).
  rewrite (bind_done _ _ _ _ _ Hr). destruct r as [[j x]|x].
  - destruct Hspec as (k & -> & Hk & <-). apply IH. lia.
  - by destruct Hspec as [-> ->].
Qed.

(** elfLargestAlignment is the largest alignment below 2 MiB of the
    PT_LOAD segments, and 0 if there is none. *)
Theorem elfLargestAlignment_spec m elf v :
  elf_at m elf v → v.(v_hdr).(e_phoff) ≠ 0 →
  elfLargestAlignment elf m = Done (foldl Z.max 0 (load_aligns v.(v_segs))) m.
Proof.
  intros Hat Hoff. pose proof (tab_len _ _ _ _ _ _ (at_segs _ _ _ Hat Hoff)) as Hlen.
  pose proof (decode_ehdr_range _ _ _ (at_hdr _ _ _ Hat)) as (_ & Hn & _).
  apply (largest_loop m elf v Hat Hoff largest_fuel 0 0).
  apply Nat2Z.inj_lt. unfold largest_fuel. rewrite Z2Nat.id; lia.
Qed.

Lemma elfLargestAlignment_spec_witness :
  elfLargestAlignment sample_elf sample_mem = Done 16 sample_mem.
Proof.
  exact (elfLargestAlignment_spec sample_mem sample_elf sample_view sample_at
    ltac:(vm_compute; discriminate)).
Defined.
