(* ===== verification/ElfStrings.v ===== *)
(** * String tables and sections by name

    elfStringFromIndex, elfStringFromOffset, elfStringToOffset,
    elfStringToIndex, elfSectionStrings and elfSectionByName of
    source/ps4/elfloader.c.  The table is in memory; the string searched for
    is a C string passed by value (its bytes without the terminator). *)

From S2P Require Import Prelude.
From S2P Require Import Memory.
From S2P Require Import ElfFormat.
From S2P Require Import Sample.
From S2P Require Import ElfTables.

(** ** Operations *)

Definition ElfMaximalStringLength : Z := 4096.

(** [mem[i] == 0 && ++j == index] *)
Definition from_index_round (tab index i j : Z) : C mem (Z + Z) :=
  c ← field 1 tab i;
  if c =? 0 then
    let j := u64 (j + 1) in
    if j =? index then mret (inr (ptr_add tab (i + 1))) else mret (inl j)
  else mret (inl j).

Definition elfStringFromIndex (tab size index : Z) : C mem Z :=
  if tab =? 0 then mret 0 else
  if index =? 0 then mret tab else
  r ← for_range 0 (u64 (size - 1)) 0 (from_index_round tab index);
  match r with inr p => mret p | inl _ => mret 0 end.

Definition elfStringFromOffset (tab size offset : Z) : Z :=
  if (tab =? 0) || (size <=? offset) then 0 else ptr_add tab offset.

(** The inner loop of the two searches: does [str], with its terminator,
    start at [tab + i]? *)
Definition compare_round (tab i : Z) (str : list byte) (j : Z) (_ : ()) : C mem (() + bool) :=
  a ← field 1 tab (u64 (i + j));
  c ← cstr_get str j;
  if negb (a =? byte.unsigned c) then mret (inr false)
  else if byte.unsigned c =? 0 then mret (inr true) else mret (inl ()).

Definition string_at (tab i : Z) (str : list byte) : C mem bool :=
  r ← for_range 0 ElfMaximalStringLength () (compare_round tab i str);
  match r with inr b => mret b | inl _ => mret false end.

Definition elfStringToOffset (tab size : Z) (str : option (list byte)) : C mem Z :=
  match str with
  | None => mret 0
  | Some str =>
      r ← for_range 0 size () (λ i _,
        b ← string_at tab i str;
        if b : bool then mret (inr (u32 i)) else mret (inl ()));
      match r with inr i => mret i | inl _ => mret 0 end
  end.

Definition to_index_round (tab : Z) (str : list byte) (i index : Z) : C mem (Z + Z) :=
  b ← string_at tab i str;
  if b : bool then mret (inr (u32 index)) else
  c ← field 1 tab i;
  mret (inl (if c =? 0 then u64 (index + 1) else index)).

Definition elfStringToIndex (tab size : Z) (str : option (list byte)) : C mem Z :=
  match str with
  | None => mret 0
  | Some str =>
      r ← for_range 0 size 0 (to_index_round tab str);
      match r with inr i => mret i | inl _ => mret 0 end
  end.

Definition elfSectionStrings (elf : Z) (size : bool) : C mem (Z * option Z) :=
  h ← elfHeader elf;
  i ← get_e_shstrndx h;
  '(s, _) ← elfSection elf (Some i) ElfSectionAttributeNone 0;
  n ← (if size then n ← get_sh_size s; mret (Some n) else mret None);
  d ← get_data elf;
  off ← get_sh_offset s;
  mret (ptr_add d off, n).

Definition elfSectionByName (elf : Z) (name : option (list byte)) : C mem Z :=
  '(tab, size) ← elfSectionStrings elf true;
  size ← init size;
  offset ← elfStringToOffset tab size name;
  '(sh, _) ← elfSection elf None ElfSectionAttributeName offset;
  mret sh.

(** ** Tables *)

(** A string table: readable, inside the address space, ended by a NUL. *)
Record strtab (m : mem) (tab : Z) (tbl : list byte) : Prop := {
  st_nz : 0 < tab;
  st_top : tab + Z.of_nat (length tbl) ≤ 2 ^ 64;
  st_load : load_bytes m tab (length tbl) = Some tbl;
  st_last : last tbl = Some Byte.x00 }.

(** A C string: no NUL inside, shorter than the search limit. *)
Record cstring (str : list byte) : Prop := {
  cs_nul : Byte.x00 ∉ str;
  cs_len : Z.of_nat (length str) < ElfMaximalStringLength }.

Definition occurs (tbl str : list byte) (i : Z) : Prop :=
  str ++ [Byte.x00] `prefix_of` drop (Z.to_nat i) tbl.

#[export] Instance occurs_dec tbl str i : Decision (occurs tbl str i).
Proof. unfold occurs. apply _. Defined.

(** How many strings end before position [i]. *)
Definition nuls (l : list byte) : nat := length (filter (λ b, b = Byte.x00) l).

Lemma nuls_app l k : nuls (l ++ k) = (nuls l + nuls k)%nat.
Proof. unfold nuls. by rewrite filter_app, length_app. Qed.

Lemma unsigned_zero b : byte.unsigned b = 0 ↔ b = Byte.x00.
Proof. split; [|by intros ->]. intros H. by apply byte.unsigned_inj. Qed.

Lemma unsigned_eqb a b : (byte.unsigned a =? byte.unsigned b) = bool_decide (a = b).
Proof.
  apply eq_true_iff_eq. rewrite Z.eqb_eq, bool_decide_eq_true.
  split; [apply byte.unsigned_inj|by intros ->].
Qed.

Lemma unsigned_eqb0 a : (byte.unsigned a =? 0) = bool_decide (a = Byte.x00).
Proof. apply (unsigned_eqb a Byte.x00). Qed.

Lemma drop_S' {A} (l : list A) (n : nat) x k :
  drop n l = x :: k → l !! n = Some x ∧ drop (S n) l = k.
Proof.
  intros H. split.
  - by rewrite <- (Nat.add_0_r n), <- lookup_drop, H.
  - by rewrite <- (Nat.add_1_r n), <- drop_drop, H.
Qed.

(** The terminator is the last character of a C string and nothing else is 0. *)
Lemma cstring_tail str (j : nat) r rest :
  Byte.x00 ∉ str → r = Byte.x00 → drop j (str ++ [Byte.x00]) = r :: rest → rest = [].
Proof.
  intros Hn -> [Hj <-]%drop_S'. destruct (decide (j < length str)%nat).
  - rewrite lookup_app_l in Hj by done. by apply list_elem_of_lookup_2 in Hj.
  - apply drop_ge. rewrite length_app. simpl. lia.
Qed.

Lemma drop_last_singleton {A} (l : list A) (n : nat) x y :
  last l = Some y → drop n l = [x] → x = y.
Proof. intros Hl Hd. rewrite <- (take_drop n l), Hd, last_snoc in Hl. by simplify_eq. Qed.

Section table.
Context (m : mem) (tab : Z) (tbl : list byte).
Context (Htab : strtab m tab tbl).

Lemma strtab_char i b :
  0 ≤ i → tbl !! Z.to_nat i = Some b → field 1 tab i m = Done (byte.unsigned b) m.
Proof using Htab.
  destruct Htab as [Hnz Htop [_ Hl]%load_bytes_spec _]. intros Hi Hb.
  pose proof (lookup_lt_Some _ _ _ Hb). apply field_peek; [lia|].
  unfold peek, ptr_add. rewrite u64_small by lia. simpl.
  specialize (Hl (Z.to_nat i)). rewrite Z2Nat.id in Hl by done. rewrite Hl by lia.
  rewrite Hb. simpl. by rewrite le_combine_1.
Qed.

Lemma cstr_get_ok str j r :
  (str ++ [Byte.x00]) !! j = Some r → cstr_get str (Z.of_nat j) m = Done r m.
Proof using.
  intros Hr. unfold cstr_get. destruct (Z.of_nat j =? Z.of_nat (length str)) eqn:Hj; zb.
  - rewrite lookup_app_r in Hr by lia.
    replace (j - length str)%nat with 0%nat in Hr by lia. by simplify_eq/=.
  - pose proof (lookup_lt_Some _ _ _ Hr) as Hlt. rewrite length_app in Hlt. simpl in Hlt.
    rewrite lookup_app_l in Hr by lia. by rewrite Nat2Z.id, Hr.
Qed.

Lemma compare_round_ok str i (j : nat) c r :
  0 ≤ i → tbl !! (Z.to_nat i + j)%nat = Some c → (str ++ [Byte.x00]) !! j = Some r →
  compare_round tab i str (Z.of_nat j) () m =
    Done (if bool_decide (c = r) then if bool_decide (r = Byte.x00) then inr true else inl ()
          else inr false) m.
Proof using Htab.
  intros Hi Hc Hr. pose proof (lookup_lt_Some _ _ _ Hc). pose proof (st_top _ _ _ Htab).
  pose proof (st_nz _ _ _ Htab). unfold compare_round. rewrite u64_small by lia.
  assert (Hf : field 1 tab (i + Z.of_nat j) m = Done (byte.unsigned c) m).
  { apply strtab_char; [lia|]. by replace (Z.to_nat (i + Z.of_nat j)) with (Z.to_nat i + j)%nat by lia. }
  rewrite (bind_done _ _ _ _ _ Hf), (bind_done _ _ _ _ _ (cstr_get_ok _ _ _ Hr)).
  rewrite unsigned_eqb, unsigned_eqb0.
  by repeat case_bool_decide.
Qed.

Lemma compare_from str i : cstring str → 0 ≤ i → ∀ rest (j : nat) t n,
  drop j (str ++ [Byte.x00]) = rest → rest ≠ [] →
  drop (Z.to_nat i + j) tbl = t → t ≠ [] → (length rest ≤ n)%nat →
  for_up n (Z.of_nat j) () (compare_round tab i str) m =
    Done (inr (bool_decide (rest `prefix_of` t))) m.
Proof using Htab.
  intros Hcs Hi. induction rest as [|r rest IH]; intros j t n Hr Hrn Ht Htn Hn; [done|].
  destruct n as [|n]; [simpl in Hn; lia|]. destruct t as [|c t]; [done|].
  pose proof (drop_S' _ _ _ _ Hr) as [Hrj Hr']. pose proof (drop_S' _ _ _ _ Ht) as [Hcj Ht'].
  cbn [for_up]. rewrite (bind_done _ _ _ _ _ (compare_round_ok _ _ _ _ _ Hi Hcj Hrj)).
  case_bool_decide as Hc; [subst c|].
  2:{ rewrite bool_decide_false; [done|]. intros ?%prefix_cons_inv_1. done. }
  assert (Hp : r :: rest `prefix_of` r :: t ↔ rest `prefix_of` t)
    by (split; [apply prefix_cons_inv_2|apply prefix_cons]).
  case_bool_decide as H0.
  - assert (rest = []) as ->.
    { apply (cstring_tail str j r rest); [apply Hcs|done..]. }
    by rewrite bool_decide_true by (apply Hp, prefix_nil).
  - replace (Z.of_nat j + 1) with (Z.of_nat (S j)) by lia.
    rewrite (IH (S j) t).
    + by rewrite (bool_decide_ext _ _ Hp).
    + done.
    + intros ->. apply H0. by eapply drop_last_singleton; [apply last_snoc|].
    + by replace (Z.to_nat i + S j)%nat with (S (Z.to_nat i + j)) by lia.
    + intros ->. apply H0. by eapply drop_last_singleton; [apply Htab|].
    + simpl in Hn. lia.
Qed.

Lemma string_at_ok str i :
  cstring str → 0 ≤ i < Z.of_nat (length tbl) →
  string_at tab i str m = Done (bool_decide (occurs tbl str i)) m.
Proof using Htab.
  intros Hcs Hi. unfold string_at.
  assert (Hc : for_range 0 ElfMaximalStringLength () (compare_round tab i str) m =
    Done (inr (bool_decide (occurs tbl str i))) m).
  { apply (compare_from str i Hcs ltac:(lia) (str ++ [Byte.x00]) 0).
    - by rewrite drop_0.
    - by destruct str.
    - by rewrite Nat.add_0_r.
    - intros Hd%(f_equal length). rewrite length_drop in Hd. simpl in Hd. lia.
    - rewrite length_app. simpl. pose proof (cs_len _ Hcs). unfold ElfMaximalStringLength in *. lia. }
  by rewrite (bind_done _ _ _ _ _ Hc).
Qed.

Lemma elfStringToOffset_ok str :
  cstring str →
  elfStringToOffset tab (Z.of_nat (length tbl)) (Some str) m =
    Done match first_in 0 (Z.of_nat (length tbl)) (λ i, bool_decide (occurs tbl str i)) with
         | Some i => u32 i
         | None => 0
         end m.
Proof using Htab.
  intros Hcs. unfold elfStringToOffset.
  erewrite bind_done; [|apply (for_range_first _ _ _ _
    (λ i, bool_decide (occurs tbl str i)) (λ i, u32 i))].
  - by destruct (first_in _ _ _).
  - intros i Hi. rewrite (bind_done _ _ _ _ _ (string_at_ok str i Hcs Hi)). by case_bool_decide.
Qed.

Lemma nuls_le i : Z.of_nat (nuls (take (Z.to_nat i) tbl)) ≤ Z.max 0 (Z.min i (Z.of_nat (length tbl))).
Proof using.
  pose proof (length_filter (λ b, b = Byte.x00) (take (Z.to_nat i) tbl)) as Hf.
  rewrite length_take in Hf. unfold nuls. lia.
Qed.

(** Counting one more character. *)
Lemma nuls_next i c :
  0 ≤ i → tbl !! Z.to_nat i = Some c →
  Z.of_nat (nuls (take (Z.to_nat (i + 1)) tbl)) =
  Z.of_nat (nuls (take (Z.to_nat i) tbl)) + if bool_decide (c = Byte.x00) then 1 else 0.
Proof using.
  intros Hi Hc. replace (Z.to_nat (i + 1)) with (S (Z.to_nat i)) by lia.
  rewrite (take_S_r _ _ _ Hc), nuls_app. unfold nuls at 2.
  case_bool_decide; [rewrite filter_cons_True by done|rewrite filter_cons_False by done]; simpl; lia.
Qed.

Lemma to_index_round_ok str i :
  cstring str → 0 ≤ i < Z.of_nat (length tbl) →
  to_index_round tab str i (Z.of_nat (nuls (take (Z.to_nat i) tbl))) m =
    Done (if bool_decide (occurs tbl str i)
          then inr (u32 (Z.of_nat (nuls (take (Z.to_nat i) tbl))))
          else inl (Z.of_nat (nuls (take (Z.to_nat (i + 1)) tbl)))) m.
Proof using Htab.
  intros Hcs Hi. unfold to_index_round.
  rewrite (bind_done _ _ _ _ _ (string_at_ok str i Hcs Hi)). case_bool_decide; [done|].
  destruct (lookup_lt_is_Some_2 tbl (Z.to_nat i)) as [c Hc]; [lia|].
  rewrite (bind_done _ _ _ _ _ (strtab_char i c ltac:(lia) Hc)), mret_done, unsigned_eqb0.
  rewrite (nuls_next i c) by (done || lia).
  pose proof (nuls_le i). pose proof (st_top _ _ _ Htab). pose proof (st_nz _ _ _ Htab).
  case_bool_decide; [by rewrite u64_small by lia|by rewrite Z.add_0_r].
Qed.

(** The state of the index search after [i] rounds. *)
Lemma elfStringToIndex_loop str n i :
  cstring str → 0 ≤ i → i + Z.of_nat n = Z.of_nat (length tbl) →
  for_up n i (Z.of_nat (nuls (take (Z.to_nat i) tbl))) (to_index_round tab str) m
  = Done match first_up n i (λ i, bool_decide (occurs tbl str i)) with
         | Some k => inr (u32 (Z.of_nat (nuls (take (Z.to_nat k) tbl))))
         | None => inl (Z.of_nat (nuls tbl))
         end m.
Proof using Htab.
  intros Hcs. revert i. induction n as [|n IH]; intros i Hi Hlen.
  - simpl. by rewrite take_ge by lia.
  - cbn [for_up first_up].
    rewrite (bind_done _ _ _ _ _ (to_index_round_ok str i Hcs ltac:(lia))).
    case_bool_decide; [done|]. apply IH; lia.
Qed.

Lemma elfStringToIndex_ok str :
  cstring str →
  elfStringToIndex tab (Z.of_nat (length tbl)) (Some str) m =
    Done match first_in 0 (Z.of_nat (length tbl)) (λ i, bool_decide (occurs tbl str i)) with
         | Some i => u32 (Z.of_nat (nuls (take (Z.to_nat i) tbl)))
         | None => 0
         end m.
Proof using Htab.
  intros Hcs. unfold elfStringToIndex, first_in, for_range. rewrite Z.sub_0_r, Nat2Z.id.
  pose proof (elfStringToIndex_loop str (length tbl) 0 Hcs ltac:(lia) ltac:(lia)) as Hl.
  change (Z.of_nat (nuls (take (Z.to_nat 0) tbl))) with 0 in Hl.
  rewrite (bind_done _ _ _ _ _ Hl). by destruct (first_up _ _ _).
Qed.
End table.

(** elfStringToOffset finds the first place of a NUL-terminated table at
    which the string occurs with its terminator, without reading outside the
    table, and gives 0 if there is none; elfStringFromOffset takes such an
    offset back to a pointer at which exactly the string is read. *)
Theorem elfString_offset_roundtrip m tab tbl str :
  strtab m tab tbl → cstring str → Z.of_nat (length tbl) ≤ 2 ^ 32 →
  ∃ o, elfStringToOffset tab (Z.of_nat (length tbl)) (Some str) m = Done o m ∧
  ((∀ i, 0 ≤ i < Z.of_nat (length tbl) → ¬ occurs tbl str i) ∧ o = 0 ∨
   occurs tbl str o ∧ (∀ i, 0 ≤ i < o → ¬ occurs tbl str i) ∧
   elfStringFromOffset tab (Z.of_nat (length tbl)) o = tab + o ∧
   load_bytes m (tab + o) (length str + 1) = Some (str ++ [Byte.x00])).
Proof.
  intros Htab Hcs Hle. pose proof Htab as [Hnz Htop Hload _].
  eexists. split; [by apply elfStringToOffset_ok|].
  pose proof (first_in_spec 0 (Z.of_nat (length tbl)) (λ i, bool_decide (occurs tbl str i))) as Hf.
  destruct (first_in _ _ _) as [o|].
  - right. destruct Hf as (Ho & Hocc%bool_decide_eq_true & Hbef). rewrite u32_small by lia.
    split_and!; [done| | |].
    + intros i Hi. specialize (Hbef i Hi). by apply bool_decide_eq_false in Hbef.
    + unfold elfStringFromOffset, ptr_add.
      replace (tab =? 0) with false by lia. replace (Z.of_nat (length tbl) <=? o) with false by lia.
      simpl. apply u64_small. lia.
    + destruct Hocc as [k Hk].
      assert (Hlk : (Z.to_nat o + (length str + 1 + length k))%nat = length tbl).
      { apply (f_equal length) in Hk. rewrite length_drop, !length_app in Hk. simpl in Hk. lia. }
      rewrite <- Hlk in Hload. apply load_bytes_app in Hload as [_ Hload].
      rewrite Z2Nat.id in Hload by lia. apply load_bytes_app in Hload as [Hload _].
      rewrite Hload, Hk. rewrite take_app_length' by (rewrite length_app; simpl; lia). done.
  - left. split; [|done]. intros i Hi. specialize (Hf i Hi). by apply bool_decide_eq_false in Hf.
Qed.

Lemma elfString_offset_roundtrip_witness :
  ∃ o, elfStringToOffset 0x4001C8 39 (Some s_rela_plt) sample_mem = Done o sample_mem.
Proof.
  destruct (elfString_offset_roundtrip sample_mem 0x4001C8 sample_strtab s_rela_plt) as (o & H & _).
  - split; vm_compute; [reflexivity|discriminate|reflexivity|reflexivity].
  - split; [apply (bool_decide_unpack _)|]; vm_compute; exact I || reflexivity.
  - vm_compute. discriminate.
  - exists o. exact H.
Defined.

(** ** Indices *)

Section index.
Context (m : mem) (tab : Z) (tbl : list byte).
Context (Htab : strtab m tab tbl).

Lemma from_index_round_ok i index c :
  0 ≤ i → tbl !! Z.to_nat i = Some c →
  from_index_round tab index i (Z.of_nat (nuls (take (Z.to_nat i) tbl))) m =
    Done (if bool_decide (c = Byte.x00 ∧ Z.of_nat (nuls (take (Z.to_nat (i + 1)) tbl)) = index)
          then inr (tab + i + 1)
          else inl (Z.of_nat (nuls (take (Z.to_nat (i + 1)) tbl)))) m
  ∨ i + 1 = Z.of_nat (length tbl).
Proof using Htab.
  pose proof Htab as [Hnz Htop _ _]. intros Hi Hc. pose proof (lookup_lt_Some _ _ _ Hc).
  destruct (decide (i + 1 = Z.of_nat (length tbl))); [by right|left]. unfold from_index_round.
  rewrite (bind_done _ _ _ _ _ (strtab_char _ _ _ Htab i c Hi Hc)), unsigned_eqb0.
  rewrite (nuls_next _ i c) by done. pose proof (nuls_le tbl i).
  case_bool_decide as Hz.
  - rewrite u64_small by lia. unfold ptr_add. rewrite u64_small by lia. rewrite Z.add_assoc.
    destruct (_ =? index) eqn:E; zb; [by rewrite bool_decide_true|].
    by rewrite bool_decide_false by (intros []; done).
  - rewrite bool_decide_false by (intros []; done). by rewrite Z.add_0_r.
Qed.

(** Counting terminators up to the [index]-th. *)
Lemma fromIndex_loop n i k :
  0 ≤ i → i ≤ k → k + 1 < Z.of_nat (length tbl) → i + Z.of_nat n = Z.of_nat (length tbl) - 1 →
  tbl !! Z.to_nat k = Some Byte.x00 →
  for_up n i (Z.of_nat (nuls (take (Z.to_nat i) tbl)))
    (from_index_round tab (Z.of_nat (nuls (take (Z.to_nat (k + 1)) tbl)))) m
  = Done (inr (tab + k + 1)) m.
Proof using Htab.
  revert i. induction n as [|n IH]; intros i Hi Hik Hk Hn Hc; [lia|].
  destruct (lookup_lt_is_Some_2 tbl (Z.to_nat i)) as [c Hci]; [lia|].
  destruct (from_index_round_ok i (Z.of_nat (nuls (take (Z.to_nat (k + 1)) tbl))) c Hi Hci)
    as [Hr|]; [|lia].
  cbn [for_up]. rewrite (bind_done _ _ _ _ _ Hr). case_bool_decide as Hz.
  - destruct (decide (i = k)) as [->|Hne]; [done|]. exfalso. destruct Hz as [_ Hz].
    rewrite (nuls_next _ k _ ltac:(lia) Hc), bool_decide_true in Hz by done.
    replace (Z.to_nat k) with (Z.to_nat (i + 1) + (Z.to_nat k - Z.to_nat (i + 1)))%nat in Hz by lia.
    rewrite <- take_take_drop, nuls_app in Hz. lia.
  - destruct (decide (i = k)) as [->|Hne].
    + exfalso. apply Hz. rewrite Hc in Hci. by simplify_eq.
    + apply IH; [lia..|done].
Qed.
End index.

(** The index elfStringToIndex gives for a string that is a whole entry of
    the table (it starts the table or follows a terminator) is the number of
    strings before it, and elfStringFromIndex takes this index back to it. *)
Theorem elfString_index_roundtrip m tab tbl str i :
  strtab m tab tbl → cstring str → Z.of_nat (length tbl) ≤ 2 ^ 32 →
  0 ≤ i < Z.of_nat (length tbl) → occurs tbl str i →
  (∀ k, 0 ≤ k < i → ¬ occurs tbl str k) →
  i = 0 ∨ tbl !! Z.to_nat (i - 1) = Some Byte.x00 →
  let index := Z.of_nat (nuls (take (Z.to_nat i) tbl)) in
  elfStringToIndex tab (Z.of_nat (length tbl)) (Some str) m = Done index m ∧
  elfStringFromIndex tab (Z.of_nat (length tbl)) index m = Done (tab + i) m.
Proof.
  intros Htab Hcs Hle Hi Hocc Hfirst Hstart index. pose proof Htab as [Hnz Htop _ _].
  pose proof (nuls_le tbl i). split.
  - rewrite (elfStringToIndex_ok _ _ _ Htab) by done.
    rewrite (first_in_unique _ _ _ i); [|lia|by apply bool_decide_eq_true|].
    + by rewrite u32_small by (unfold index; lia).
    + intros k Hk. by apply bool_decide_eq_false, Hfirst.
  - unfold elfStringFromIndex. replace (tab =? 0) with false by lia.
    destruct Hstart as [->|Hprev].
    { by rewrite Z.add_0_r. }
    destruct (decide (i = 0)) as [->|Hi0]; [by rewrite Z.add_0_r|].
    assert (Hix : index = Z.of_nat (nuls (take (Z.to_nat (i - 1 + 1)) tbl))) by (unfold index; do 4 f_equal; lia).
    pose proof (nuls_next tbl (i - 1) _ ltac:(lia) Hprev) as Hnn. rewrite bool_decide_true in Hnn by done.
    replace (index =? 0) with false by lia.
    rewrite u64_small by lia. unfold for_range. rewrite Z.sub_0_r.
    pose proof (fromIndex_loop _ _ _ Htab (Z.to_nat (Z.of_nat (length tbl) - 1)) 0 (i - 1)
      ltac:(lia) ltac:(lia) ltac:(lia) ltac:(lia) Hprev) as Hl.
    change (Z.of_nat (nuls (take (Z.to_nat 0) tbl))) with 0 in Hl. rewrite <- Hix in Hl.
    rewrite (bind_done _ _ _ _ _ Hl), mret_done. f_equal. lia.
Qed.

Lemma elfString_index_roundtrip_witness :
  elfStringToIndex 0x4001C8 39 (Some s_rela_plt) sample_mem = Done 3 sample_mem ∧
  elfStringFromIndex 0x4001C8 39 3 sample_mem = Done 0x4001DB sample_mem.
Proof.
  apply (elfString_index_roundtrip sample_mem 0x4001C8 sample_strtab s_rela_plt 19).
  - split; vm_compute; [reflexivity|discriminate|reflexivity|reflexivity].
  - split; [apply (bool_decide_unpack _)|]; vm_compute; exact I || reflexivity.
  - vm_compute. discriminate.
  - split; vm_compute; [discriminate|reflexivity].
  - apply (bool_decide_unpack _). vm_compute. exact I.
  - intros k Hk. assert (Hc : forallb (λ n, negb (bool_decide (occurs sample_strtab s_rela_plt (Z.of_nat n))))
      (seq 0 19) = true) by (vm_compute; reflexivity).
    rewrite forallb_forall in Hc. specialize (Hc (Z.to_nat k)).
    rewrite in_seq, Z2Nat.id in Hc by lia. specialize (Hc ltac:(lia)).
    apply negb_true_iff, bool_decide_eq_false in Hc. exact Hc.
  - right. vm_compute. reflexivity.
Defined.

(** ** Sections by name *)

Section by_name.
Context (m : mem) (elf : Z) (v : elf_view) (st : Elf64_Shdr) (tbl : list byte).
Context (Hat : elf_at m elf v).
Context (Hoff : v.(v_hdr).(e_shoff) ≠ 0).
Context (Hst : v.(v_secs) !! Z.to_nat v.(v_hdr).(e_shstrndx) = Some st).
Context (Htab : strtab m (ptr_add v.(v_data) st.(sh_offset)) tbl).
Context (Hsize : st.(sh_size) = Z.of_nat (length tbl)).

Lemma elfSectionStrings_ok :
  elfSectionStrings elf true m = Done (ptr_add v.(v_data) st.(sh_offset), Some st.(sh_size)) m.
Proof using Hat Hoff Hst.
  clear Hsize. pose proof Hat as [_ _ _ Hd Hh _ _].
  pose proof (decode_ehdr_range _ _ _ Hh) as (_ & _ & _ & _ & Hr).
  pose proof (at_secs _ _ _ Hat Hoff) as Ht. pose proof (tab_len _ _ _ _ _ _ Ht) as Hlen.
  pose proof (lookup_lt_Some _ _ _ Hst).
  destruct (table_ok_entry _ _ _ _ _ _ (e_shstrndx (v_hdr v)) st Ht) as (_ & Hnz & Hdec); [lia|done|].
  unfold elfSectionStrings. rewrite (bind_done _ _ _ _ _ (elfHeader_ok _ _ _ Hat)). cstep.
  rewrite (bind_done _ _ _ _ _ (elfSection_ok _ _ _ Hat (Some (e_shstrndx (v_hdr v))) _ _ ltac:(simpl; lia) Hoff)).
  cbn [default from_option id]. unfold sec_find.
  rewrite (first_in_unique _ _ _ (e_shstrndx (v_hdr v))); [|lia|by rewrite Hst|lia].
  rewrite bind_assoc. unfold sec_addr. cstep. rewrite bind_ret.
  rewrite (bind_done _ _ _ _ _ (get_data_ok _ _ _ Hat)). by cstep.
Qed.

(** The offset elfStringToOffset gives for [name]. *)
Definition name_offset (name : list byte) : Z :=
  match first_in 0 (Z.of_nat (length tbl)) (λ i, bool_decide (occurs tbl name i)) with
  | Some i => u32 i
  | None => 0
  end.

Lemma name_offset_nonneg name : 0 ≤ name_offset name.
Proof using. unfold name_offset. destruct (first_in _ _ _); [apply u32_range|done]. Qed.

Lemma elfSectionByName_ok name :
  cstring name →
  elfSectionByName elf (Some name) m =
    Done match sec_find v 0 ElfSectionAttributeName (name_offset name) with
         | Some k => sec_addr v k
         | None => 0
         end m.
Proof using Hat Hoff Hst Htab Hsize.
  intros Hcs. unfold elfSectionByName. rewrite (bind_done _ _ _ _ _ elfSectionStrings_ok).
  cstep. rewrite Hsize. rewrite (bind_done _ _ _ _ _ (elfStringToOffset_ok _ _ _ Htab name Hcs)).
  change (match first_in _ _ _ with Some i => u32 i | None => 0 end) with (name_offset name).
  rewrite (bind_done _ _ _ _ _ (elfSection_ok _ _ _ Hat None _ _ ltac:(done) Hoff)).
  by destruct (sec_find _ _ _ _).
Qed.
End by_name.

(** The section elfSectionByName gives: the first whose name offset is the
    one found for the name. *)
Lemma section_by_offset m elf v st tbl name :
  elf_at m elf v → v.(v_hdr).(e_shoff) ≠ 0 →
  v.(v_secs) !! Z.to_nat v.(v_hdr).(e_shstrndx) = Some st →
  strtab m (ptr_add v.(v_data) st.(sh_offset)) tbl →
  st.(sh_size) = Z.of_nat (length tbl) → cstring name →
  ∃ t, elfSectionByName elf (Some name) m = Done t m ∧
    ((∃ (i : nat) sh, v.(v_secs) !! i = Some sh ∧ sh.(sh_name) = name_offset tbl name ∧
        (∀ j sh', (j < i)%nat → v.(v_secs) !! j = Some sh' → sh'.(sh_name) ≠ name_offset tbl name) ∧
        t = sec_addr v (Z.of_nat i) ∧ t ≠ 0 ∧ decode_shdr m t = Some sh)
     ∨ t = 0 ∧ ∀ sh, sh ∈ v.(v_secs) → sh.(sh_name) ≠ name_offset tbl name).
Proof.
  intros Hat Hoff Hst Htab Hsize Hcs. eexists. split; [by eapply elfSectionByName_ok|].
  pose proof (sec_find_spec _ _ _ Hat 0 ElfSectionAttributeName (name_offset tbl name) ltac:(lia) Hoff) as Hf.
  assert (Hm : ∀ sh, sec_matches ElfSectionAttributeName (name_offset tbl name) sh = (sh.(sh_name) =? name_offset tbl name))
    by done.
  destruct (sec_find _ _ _ _) as [k|]; [left|right].
  - destruct Hf as (sh & Hk & Hl & Hs & Hnz & Hd & Hb). exists (Z.to_nat k), sh.
    rewrite Hm in Hs. rewrite Z2Nat.id by lia. split_and!; try done; [lia|].
    intros j sh' Hj Hl'. specialize (Hb j sh' ltac:(lia) Hl'). rewrite Hm in Hb. lia.
  - split; [done|]. intros sh [j Hj]%list_elem_of_lookup. specialize (Hf j sh ltac:(lia) Hj). rewrite Hm in Hf. lia.
Qed.

(** C38. For a name that is in the section name table, elfSectionByName gives
    the first section whose name is the first occurrence of the searched
    string there, as its decoded header shows, so a section with that name,
    and NULL exactly if no section is named through that occurrence. *)
Theorem elfSectionByName_correct m elf v st tbl name o :
  elf_at m elf v → v.(v_hdr).(e_shoff) ≠ 0 →
  v.(v_secs) !! Z.to_nat v.(v_hdr).(e_shstrndx) = Some st →
  strtab m (ptr_add v.(v_data) st.(sh_offset)) tbl →
  st.(sh_size) = Z.of_nat (length tbl) → Z.of_nat (length tbl) ≤ 2 ^ 32 → cstring name →
  0 ≤ o < Z.of_nat (length tbl) → occurs tbl name o → (∀ i, 0 ≤ i < o → ¬ occurs tbl name i) →
  ∃ t, elfSectionByName elf (Some name) m = Done t m ∧
    ((∃ (i : nat) sh, v.(v_secs) !! i = Some sh ∧ sh.(sh_name) = o ∧ occurs tbl name sh.(sh_name) ∧
        (∀ j sh', (j < i)%nat → v.(v_secs) !! j = Some sh' → sh'.(sh_name) ≠ o) ∧
        t = sec_addr v (Z.of_nat i) ∧ t ≠ 0 ∧ decode_shdr m t = Some sh)
     ∨ t = 0 ∧ ∀ sh, sh ∈ v.(v_secs) → sh.(sh_name) ≠ o).
Proof.
  intros Hat Hoff Hst Htab Hsize Hle Hcs Hr Hocc Hfirst.
  destruct (section_by_offset m elf v st tbl name) as (t & Ht & Hs); [done..|]. exists t. split; [done|].
  assert (Hno : name_offset tbl name = o).
  { unfold name_offset. rewrite (first_in_unique _ _ _ o); [by rewrite u32_small by lia|done|by apply bool_decide_eq_true|].
    intros i Hi. by apply bool_decide_eq_false, Hfirst. }
  rewrite Hno in Hs. destruct Hs as [(i & sh & Hi & Hn & Hs)|Hs]; [left|by right].
  exists i, sh. by rewrite Hn.
Qed.

(** A name that is nowhere in the table is looked up as offset 0: instead of
    NULL, the first section without a name is given, which is the null section
    of an ordinary image. *)
Theorem elfSectionByName_missing m elf v st tbl name sh :
  elf_at m elf v → v.(v_hdr).(e_shoff) ≠ 0 →
  v.(v_secs) !! Z.to_nat v.(v_hdr).(e_shstrndx) = Some st →
  strtab m (ptr_add v.(v_data) st.(sh_offset)) tbl →
  st.(sh_size) = Z.of_nat (length tbl) → cstring name →
  (∀ i, 0 ≤ i < Z.of_nat (length tbl) → ¬ occurs tbl name i) →
  v.(v_secs) !! O = Some sh → sh.(sh_name) = 0 →
  ∃ t, elfSectionByName elf (Some name) m = Done t m ∧ t ≠ 0 ∧ decode_shdr m t = Some sh.
Proof.
  intros Hat Hoff Hst Htab Hsize Hcs Hnone H0 Hsh.
  destruct (section_by_offset m elf v st tbl name) as (t & Ht & Hs); [done..|]. exists t. split; [done|].
  assert (Hno : name_offset tbl name = 0).
  { unfold name_offset. pose proof (first_in_spec 0 (Z.of_nat (length tbl)) (λ i, bool_decide (occurs tbl name i))) as Ho.
    destruct (first_in _ _ _) as [o|]; [|done]. destruct Ho as (Hr & Hocc%bool_decide_eq_true & _).
    by destruct (Hnone o Hr). }
  rewrite Hno in Hs. destruct Hs as [(i & sh' & Hi & Hn & Hb & Ht' & Hnz & Hd)|[_ Hs]].
  - destruct i as [|i]; [rewrite H0 in Hi; by simplify_eq|]. by destruct (Hb O sh ltac:(lia) H0).
  - by destruct (Hs sh (list_elem_of_lookup_2 _ _ _ H0)).
Qed.

Lemma sample_strtab_ok : strtab sample_mem (ptr_add sample_data 0x1C8) sample_strtab.
Proof. split; vm_compute; [reflexivity|discriminate|reflexivity|reflexivity]. Qed.

Lemma cstring_check str :
  negb (bool_decide (Byte.x00 ∈ str)) && (Z.of_nat (length str) <? ElfMaximalStringLength) = true →
  cstring str.
Proof.
  intros [H1 H2]%andb_prop. apply negb_true_iff, bool_decide_eq_false in H1. zb. by split.
Qed.

(** The table has no earlier occurrence, found by trying every offset. *)
Lemma no_occurrence tbl name n :
  forallb (λ k, negb (bool_decide (occurs tbl name (Z.of_nat k)))) (seq 0 n) = true →
  ∀ i, 0 ≤ i < Z.of_nat n → ¬ occurs tbl name i.
Proof.
  intros Hc i Hi. rewrite forallb_forall in Hc. specialize (Hc (Z.to_nat i)).
  rewrite in_seq, Z2Nat.id in Hc by lia. specialize (Hc ltac:(lia)).
  by apply negb_true_iff, bool_decide_eq_false in Hc.
Qed.

Lemma elfSectionByName_correct_witness :
  ∃ t sh, elfSectionByName sample_elf (Some s_rela_plt) sample_mem = Done t sample_mem ∧
    t = sec_addr sample_view 3 ∧ decode_shdr sample_mem t = Some sh ∧ sh.(sh_name) = 19.
Proof.
  destruct (elfSectionByName_correct sample_mem sample_elf sample_view
    {| sh_name := 29; sh_type := 3; sh_flags := 0; sh_addr := 0; sh_offset := 0x1C8;
       sh_size := 39; sh_link := 0; sh_info := 0; sh_addralign := 1; sh_entsize := 0 |}
    sample_strtab s_rela_plt 19 sample_at) as (t & Ht & Hs).
  - vm_compute. discriminate.
  - vm_compute. reflexivity.
  - exact sample_strtab_ok.
  - vm_compute. reflexivity.
  - vm_compute. discriminate.
  - apply cstring_check. vm_compute. reflexivity.
  - split; vm_compute; [discriminate|reflexivity].
  - apply (bool_decide_unpack _). vm_compute. exact I.
  - apply (no_occurrence _ _ 19). vm_compute. reflexivity.
  - destruct Hs as [(i & sh & Hi & Hn & _ & Hb & Hs & _ & Hd)|[_ Hs]].
    + exists t, sh. split; [exact Ht|]. split; [|split; [exact Hd|exact Hn]].
      assert (H3 : i = 3%nat); [|rewrite H3 in Hs; exact Hs].
      destruct i as [|[|[|[|i]]]]; [..|exfalso].
      * injection Hi as Hi. rewrite <- Hi in Hn. discriminate Hn.
      * injection Hi as Hi. rewrite <- Hi in Hn. discriminate Hn.
      * injection Hi as Hi. rewrite <- Hi in Hn. discriminate Hn.
      * reflexivity.
      * refine (Hb 3%nat _ _ eq_refl eq_refl). lia.
    + exfalso. refine (Hs {| sh_name := 19; sh_type := SHT_RELA; sh_flags := 2; sh_addr := 0x110; sh_offset := 0x1B0;
        sh_size := 24; sh_link := 1; sh_info := 0; sh_addralign := 8; sh_entsize := 24 |} _ eq_refl).
      apply (list_elem_of_lookup_2 _ 3%nat). reflexivity.
Defined.

Lemma elfSectionByName_missing_witness :
  ∃ t, elfSectionByName sample_elf (Some (name_bytes ".no")) sample_mem = Done t sample_mem ∧ t ≠ 0.
Proof.
  destruct (elfSectionByName_missing sample_mem sample_elf sample_view
    {| sh_name := 29; sh_type := 3; sh_flags := 0; sh_addr := 0; sh_offset := 0x1C8;
       sh_size := 39; sh_link := 0; sh_info := 0; sh_addralign := 1; sh_entsize := 0 |}
    sample_strtab (name_bytes ".no")
    {| sh_name := 0; sh_type := SHT_NULL; sh_flags := 0; sh_addr := 0; sh_offset := 0;
       sh_size := 0; sh_link := 0; sh_info := 0; sh_addralign := 0; sh_entsize := 0 |} sample_at) as (t & Ht & Hnz & _).
  - vm_compute. discriminate.
  - vm_compute. reflexivity.
  - exact sample_strtab_ok.
  - vm_compute. reflexivity.
  - apply cstring_check. vm_compute. reflexivity.
  - apply (no_occurrence _ _ 39). vm_compute. reflexivity.
  - reflexivity.
  - reflexivity.
  - exists t. split; [exact Ht|exact Hnz].
Defined.

(** ** What the searches do not do *)

(** An empty table has no bounds check: with [size] 0 the limit
    [size - 1] of elfStringFromIndex wraps to 2^64 - 1 and the first byte
    after the table is read, which is undefined if it is not mapped. *)
Theorem elfStringFromIndex_empty_reads m tab index :
  tab ≠ 0 → 0 ≤ tab < 2 ^ 64 → index ≠ 0 → m !! tab = None →
  elfStringFromIndex tab 0 index m = UB.
Proof.
  intros Hnz Hr Hi Hm. unfold elfStringFromIndex.
  replace (tab =? 0) with false by lia. replace (index =? 0) with false by lia.
  apply bind_ub. rewrite for_range_step by done. apply bind_ub. unfold from_index_round. apply bind_ub.
  unfold field, read, peek, ptr_add. replace (tab =? 0) with false by lia.
  rewrite Z.add_0_r, u64_small by done. simpl. by rewrite Hm.
Qed.

Lemma elfStringFromIndex_empty_reads_witness :
  elfStringFromIndex 0x400330 0 1 sample_mem = UB.
Proof.
  apply elfStringFromIndex_empty_reads; [discriminate|split; vm_compute; [discriminate|reflexivity]
    |discriminate|vm_compute; reflexivity].
Defined.

(** A name that is the tail of an earlier entry is found inside that entry:
    in the table NUL ".rela.plt" NUL ".plt" NUL the offset of ".plt" is 6, not
    11, so a section named through offset 11 is not found by its name. *)
Theorem elfStringToOffset_finds_tails tab m :
  let tbl := [Byte.x00] ++ s_rela_plt ++ [Byte.x00] ++ name_bytes ".plt" ++ [Byte.x00] in
  strtab m tab tbl → elfStringToOffset tab 16 (Some (name_bytes ".plt")) m = Done 6 m.
Proof.
  intros tbl Htab. change 16 with (Z.of_nat (length tbl)).
  rewrite (elfStringToOffset_ok _ _ _ Htab); [vm_compute; reflexivity|].
  apply cstring_check. vm_compute. reflexivity.
Qed.

Lemma elfStringToOffset_finds_tails_witness :
  elfStringToOffset 0x1000 16 (Some (name_bytes ".plt"))
    (bytes_at 0x1000 ([Byte.x00] ++ s_rela_plt ++ [Byte.x00] ++ name_bytes ".plt" ++ [Byte.x00]))
  = Done 6 (bytes_at 0x1000 ([Byte.x00] ++ s_rela_plt ++ [Byte.x00] ++ name_bytes ".plt" ++ [Byte.x00])).
Proof.
  apply (elfStringToOffset_finds_tails 0x1000).
  split; vm_compute; [reflexivity|discriminate|reflexivity|reflexivity].
Defined.
