(* ===== verification/ElfDynamic.v ===== *)
(** * Dynamic entries, relocation and symbol tables

    elfDynamicAttribute, elfDynamicsLength, elfDynamics, elfDynamic,
    elfLoadedDynamics, elfLoadedDynamic, elfAddendRelocationAttribute,
    elfAddendRelocations, elfSymbolAttribute and elfSymbols of
    source/ps4/elfloader.c. *)

From S2P Require Import Prelude.
From S2P Require Import Memory.
From S2P Require Import ElfFormat.
From S2P Require Import Sample.
From S2P Require Import ElfTables.
From S2P Require Import ElfStrings.

(** ** Attribute selectors *)

Inductive ElfDynamicAttribute :=
| ElfDynamicAttributeNone
| ElfDynamicAttributeTag
| ElfDynamicAttributeValue
| ElfDynamicAttributePointer.

Inductive ElfAddendRelocationAttribute :=
| ElfAddendRelocationAttributeNone
| ElfAddendRelocationAttributeOffset
| ElfAddendRelocationAttributeInfo
| ElfAddendRelocationAttributeAddend.

Inductive ElfSymbolAttribute :=
| ElfSymbolAttributeNone
| ElfSymbolAttributeName
| ElfSymbolAttributeInfo
| ElfSymbolAttributeUnused
| ElfSymbolAttributeSectionIndex
| ElfSymbolAttributeValue
| ElfSymbolAttributeSize.

#[export] Instance ElfDynamicAttribute_eq_dec : EqDecision ElfDynamicAttribute.
Proof. solve_decision. Defined.

(** ** Dynamic entries *)

Definition elfDynamicAttribute (d : Z) (attribute : ElfDynamicAttribute) : C mem Z :=
  match attribute with
  | ElfDynamicAttributeTag => get_d_tag d
  | ElfDynamicAttributeValue => get_d_val d
  | ElfDynamicAttributePointer => get_d_ptr d
  | ElfDynamicAttributeNone => mret 0
  end.

Definition dyn_round (st : Z * Z) : C mem (Z * Z + Z) :=
  let '(dyn, i) := st in
  tag ← get_d_tag dyn;
  if tag =? DT_NULL then mret (inr i)
  else mret (inl (ptr_add dyn sizeof_ElfDynamic, u16 (i + 1))).

(** Every round reads at an address of its own, so a run of more rounds than
    there are mapped bytes is a run that never ends. *)
Definition elfDynamicsLength (dyn : Z) : C mem Z :=
  if dyn =? 0 then mret 0 else
  m ← getS;
  while (S (base.size (m : mem))) (dyn, 0) dyn_round.

(** What elfDynamics gives for a section, elfAddendRelocations and elfSymbols
    give for the section of a name: entry size and count, truncated to 16
    bits, and the contents. *)
Definition section_entries (elf h : Z) (size length : bool)
    : C mem (Z * (option Z * option Z)) :=
  s ← (if size then e ← get_sh_entsize h; mret (Some (u16 e)) else mret None);
  l ← (if length then n ← get_sh_size h; e ← get_sh_entsize h; q ← div_u n e; mret (Some (u16 q))
       else mret None);
  d ← get_data elf;
  off ← get_sh_offset h;
  mret (ptr_add d off, (s, l)).

Definition elfDynamics (elf : Z) (size length : bool) : C mem (Z * (option Z * option Z)) :=
  if elf =? 0 then mret (0, (None, None)) else
  '(h, _) ← elfSection elf None ElfSectionAttributeType SHT_DYNAMIC;
  if negb (h =? 0) then section_entries elf h size length else
  '(h2, _) ← elfSegment elf None ElfSegmentAttributeType PT_DYNAMIC;
  if negb (h2 =? 0) then
    let s := out size sizeof_ElfDynamic in
    l ← (if length then
           d ← get_data elf; off ← get_p_offset h2;
           n ← elfDynamicsLength (ptr_add d off); mret (Some n)
         else mret None);
    d ← get_data elf;
    off ← get_p_offset h2;
    mret (ptr_add d off, (s, l))
  else mret (0, (None, None)).

Definition elfDynamic (elf : Z) (index : option Z) (attribute : ElfDynamicAttribute)
    (value : Z) : C mem (Z * Z) :=
  let i := default 0 index in
  '(h, (size, length)) ← elfDynamics elf true true;
  if h =? 0 then mret (0, i) else
  size ← init size;
  length ← init length;
  table_find (bool_decide (attribute = ElfDynamicAttributeNone))
    (λ t, elfDynamicAttribute t attribute) value h size length i.

Definition elfLoadedDynamics (elf : Z) (size length : bool) : C mem (Z * (option Z * option Z)) :=
  if elf =? 0 then mret (0, (None, None)) else
  '(h2, _) ← elfSegment elf None ElfSegmentAttributeType PT_DYNAMIC;
  if negb (h2 =? 0) then
    let s := out size sizeof_ElfDynamic in
    l ← (if length then v ← get_p_vaddr h2; n ← elfDynamicsLength v; mret (Some n) else mret None);
    v ← get_p_vaddr h2;
    mret (v, (s, l))
  else mret (0, (None, None)).

Definition elfLoadedDynamic (elf : Z) (index : option Z) (attribute : ElfDynamicAttribute)
    (value : Z) : C mem (Z * Z) :=
  let i := default 0 index in
  '(h, (size, length)) ← elfLoadedDynamics elf true true;
  if h =? 0 then mret (0, i) else
  size ← init size;
  length ← init length;
  table_find (bool_decide (attribute = ElfDynamicAttributeNone))
    (λ t, elfDynamicAttribute t attribute) value h size length i.

(** ** Relocations and symbols *)

Definition elfAddendRelocationAttribute (r : Z) (attribute : ElfAddendRelocationAttribute) : C mem Z :=
  match attribute with
  | ElfAddendRelocationAttributeInfo => get_r_info r
  | ElfAddendRelocationAttributeOffset => get_r_offset r
  | ElfAddendRelocationAttributeAddend => get_r_addend r
  | ElfAddendRelocationAttributeNone => mret 0
  end.

Definition elfAddendRelocations (elf : Z) (name : option (list byte)) (size length : bool)
    : C mem (Z * (option Z * option Z)) :=
  h ← elfSectionByName elf name;
  if h =? 0 then mret (0, (None, None)) else
  t ← get_sh_type h;
  if negb (t =? SHT_RELA) then mret (0, (None, None)) else
  section_entries elf h size length.

Definition elfSymbolAttribute (s : Z) (attribute : ElfSymbolAttribute) : C mem Z :=
  match attribute with
  | ElfSymbolAttributeName => get_st_name s
  | ElfSymbolAttributeInfo => get_st_info s
  | ElfSymbolAttributeUnused => get_st_other s
  | ElfSymbolAttributeSectionIndex => get_st_shndx s
  | ElfSymbolAttributeValue => get_st_value s
  | ElfSymbolAttributeSize => get_st_size s
  | ElfSymbolAttributeNone => mret 0
  end.

Definition elfSymbols (elf : Z) (name : option (list byte)) (size length : bool)
    : C mem (Z * (option Z * option Z)) :=
  h ← elfSectionByName elf name;
  if h =? 0 then mret (0, (None, None)) else
  t ← get_sh_type h;
  if negb (t =? SHT_SYMTAB) && negb (t =? SHT_DYNSYM) then mret (0, (None, None)) else
  section_entries elf h size length.

(** ** elfDynamicsLength *)

Lemma mapped_count (m : mem) (l : list Z) :
  NoDup l → (∀ a, a ∈ l → is_Some (m !! a)) → (length l ≤ base.size m)%nat.
Proof.
  intros Hn Hl. rewrite <- size_dom, <- (size_list_to_set (C:=gset Z) l Hn).
  apply subseteq_size. intros a Ha%elem_of_list_to_set. by apply elem_of_dom, Hl.
Qed.

Lemma ptr_add_stride d (i j : nat) :
  Z.of_nat i < 2 ^ 60 → Z.of_nat j < 2 ^ 60 →
  ptr_add d (16 * Z.of_nat i) = ptr_add d (16 * Z.of_nat j) → i = j.
Proof.
  unfold ptr_add, u64. intros Hi Hj H.
  assert ((16 * Z.of_nat i - 16 * Z.of_nat j) mod 2 ^ 64 = 0) as H0.
  { replace (16 * Z.of_nat i - 16 * Z.of_nat j)
      with ((d + 16 * Z.of_nat i) - (d + 16 * Z.of_nat j)) by lia.
    rewrite Zminus_mod, H, Z.sub_diag. done. }
  apply Z.mod_divide in H0 as [k Hk]; [|done].
  assert (k = 0) by nia. lia.
Qed.

(** At most as many strided addresses are mapped as there are bytes. *)
Lemma stride_count (m : mem) d (k : nat) :
  Z.of_nat k ≤ 2 ^ 60 → (∀ i : nat, (i < k)%nat → is_Some (m !! ptr_add d (16 * Z.of_nat i))) →
  (k ≤ base.size m)%nat.
Proof.
  intros Hk Hm. rewrite <- (length_seq k 0), <- (length_fmap (λ i : nat, ptr_add d (16 * Z.of_nat i))).
  apply mapped_count.
  - apply NoDup_fmap_2_strong; [|apply NoDup_seq].
    intros i j ?%elem_of_seq ?%elem_of_seq. apply ptr_add_stride; lia.
  - intros a (i & -> & ?%elem_of_seq)%list_elem_of_fmap. apply Hm. lia.
Qed.

Lemma ptr_add_next d (k : nat) :
  ptr_add (ptr_add d (16 * Z.of_nat k)) sizeof_ElfDynamic = ptr_add d (16 * Z.of_nat (S k)).
Proof.
  unfold ptr_add. rewrite u64_add_l. f_equal. change sizeof_ElfDynamic with 16. lia.
Qed.

Lemma halts_get_d_tag m d :
  halts (get_d_tag d) m (λ _ m', m' = m ∧ is_Some (m !! u64 d)).
Proof.
  unfold get_d_tag, field. case_match; [done|]. unfold halts, read.
  destruct (peek m 8 (ptr_add d 0)) eqn:Hp; [|done]. split; [done|].
  apply peek_is_mapped in Hp. unfold ptr_add in Hp. rewrite Z.add_0_r in Hp. apply Hp. lia.
Qed.

Lemma dyn_loop_halts m d : ∀ fuel (k : nat) i,
  Z.of_nat (base.size m) < 2 ^ 60 →
  (∀ j : nat, (j < k)%nat → is_Some (m !! ptr_add d (16 * Z.of_nat j))) →
  (k + fuel = S (base.size m))%nat →
  halts (while fuel (ptr_add d (16 * Z.of_nat k), i) dyn_round) m (λ _ m', m' = m).
Proof.
  induction fuel as [|fuel IH]; intros k i Hs Hv Hk.
  - exfalso. pose proof (stride_count m d k ltac:(lia) Hv). lia.
  - cbn [while]. eapply (halts_bind _ _ _ (λ r m', m' = m ∧
      match r with inr _ => True | inl (d', _) =>
        d' = ptr_add d (16 * Z.of_nat (S k)) ∧ is_Some (m !! ptr_add d (16 * Z.of_nat k)) end)).
    + unfold dyn_round. eapply halts_bind; [apply halts_get_d_tag|]. intros tag ? [-> Hm].
      unfold ptr_add in Hm. rewrite u64_idemp in Hm.
      case_match; apply halts_ret; [done|]. by rewrite ptr_add_next.
    + intros [[d' i']|r] m' [-> Hr]; [|by apply halts_ret]. destruct Hr as [-> Hm].
      apply IH; [done| |lia]. intros j Hj. destruct (decide (j = k)) as [->|]; [done|]. apply Hv. lia.
Qed.

(** elfDynamicsLength terminates on every memory of less than 2^60 bytes:
    it ends at a terminating entry or at an unmapped address. *)
Theorem elfDynamicsLength_terminates dyn m :
  0 ≤ dyn < 2 ^ 64 → Z.of_nat (base.size m) < 2 ^ 60 → elfDynamicsLength dyn m ≠ Timeout.
Proof.
  intros Hd Hs. unfold elfDynamicsLength. case_match; [done|].
  apply (halts_not_timeout _ _ (λ _ m', m' = m)).
  pose proof (dyn_loop_halts m dyn (S (base.size m)) 0 0 Hs ltac:(lia) eq_refl) as Hh.
  unfold ptr_add in Hh. by rewrite Z.add_0_r, u64_small in Hh by done.
Qed.

Lemma elfDynamicsLength_terminates_witness : elfDynamicsLength 0x400120 sample_mem ≠ Timeout.
Proof.
  apply elfDynamicsLength_terminates; [split; vm_compute; [discriminate|reflexivity]|].
  vm_compute. reflexivity.
Defined.

(** The entries of a dynamic table, up to its terminating one. *)
Definition dyn_table (m : mem) (dyn : Z) (l : list Elf64_Dyn) : Prop :=
  ∀ (i : nat) x, l !! i = Some x →
    ptr_add dyn (16 * Z.of_nat i) ≠ 0 ∧ decode_dyn m (ptr_add dyn (16 * Z.of_nat i)) = Some x.

Lemma dyn_loop_counts m dyn l :
  dyn_table m dyn l → ∀ fuel (k n : nat) i,
  (k ≤ n)%nat → (∃ x, l !! n = Some x ∧ d_tag x = DT_NULL) →
  (∀ j x, (j < n)%nat → l !! j = Some x → d_tag x ≠ DT_NULL) →
  i = u16 (Z.of_nat k) → (n - k < fuel)%nat →
  while fuel (ptr_add dyn (16 * Z.of_nat k), i) dyn_round m = Done (u16 (Z.of_nat n)) m.
Proof.
  intros Ht. induction fuel as [|fuel IH]; intros k n i Hk Hend Hbef Hi Hf; [lia|]. cbn [while].
  destruct Hend as (e & He & Hnull).
  destruct (lookup_lt_is_Some_2 l k) as [x Hx]; [apply lookup_lt_Some in He; lia|].
  destruct (Ht k x Hx) as [Hnz Hd].
  assert (Hr : dyn_round (ptr_add dyn (16 * Z.of_nat k), i) m =
    Done (if d_tag x =? DT_NULL then inr i else inl (ptr_add dyn (16 * Z.of_nat (S k)), u16 (i + 1))) m).
  { unfold dyn_round. cstep. case_match; [done|]. by rewrite ptr_add_next. }
  rewrite (bind_done _ _ _ _ _ Hr). destruct (decide (k = n)) as [->|Hne].
  - rewrite He in Hx. simplify_eq. rewrite Hnull. by rewrite Z.eqb_refl.
  - replace (d_tag x =? DT_NULL) with false
      by (symmetry; apply Z.eqb_neq; apply (Hbef k); [lia|done]).
    apply IH; [lia|by exists e|done| |lia].
    subst i. unfold u16. rewrite Zplus_mod_idemp_l. f_equal. lia.
Qed.

(** elfDynamicsLength is the number of entries before the first one with
    tag DT_NULL, modulo 2^16. *)
Theorem elfDynamicsLength_counts m dyn l n :
  0 < dyn < 2 ^ 64 → dyn_table m dyn l → Z.of_nat n < 2 ^ 60 →
  (∃ x, l !! n = Some x ∧ d_tag x = DT_NULL) →
  (∀ j x, (j < n)%nat → l !! j = Some x → d_tag x ≠ DT_NULL) →
  elfDynamicsLength dyn m = Done (u16 (Z.of_nat n)) m.
Proof.
  intros Hd Ht Hn Hend Hbef. unfold elfDynamicsLength. replace (dyn =? 0) with false by lia.
  rewrite bind_done with (a := m) (s' := m) by done.
  replace dyn with (ptr_add dyn (16 * Z.of_nat 0)) at 1
    by (unfold ptr_add; rewrite Z.add_0_r; apply u64_small; lia).
  apply (dyn_loop_counts m dyn l); [done|lia|done|done|done|].
  enough (S n ≤ base.size m)%nat by lia. apply (stride_count m dyn); [lia|].
  intros i Hi. destruct Hend as (e & He%lookup_lt_Some & _).
  destruct (lookup_lt_is_Some_2 l i) as [x Hx]; [lia|].
  destruct (Ht i x Hx) as [_ H%decode_dyn_fields].
  pose proof (decode_fields_lookup _ _ _ _ _ 0 8 _ H eq_refl eq_refl) as Hp.
  apply peek_is_mapped in Hp. unfold ptr_add in *. rewrite Z.add_0_r, u64_idemp in Hp. apply Hp. lia.
Qed.

Lemma elfDynamicsLength_counts_witness :
  elfDynamicsLength 0x400120 sample_mem = Done 2 sample_mem.
Proof.
  apply (elfDynamicsLength_counts sample_mem 0x400120 sample_dyns 2).
  - split; reflexivity.
  - intros i x Hx. destruct i as [|[|[|i]]]; simpl in Hx; try discriminate;
      injection Hx as <-; (split; [vm_compute; discriminate|vm_compute; reflexivity]).
  - vm_compute. reflexivity.
  - eexists. split; reflexivity.
  - intros j x Hj Hx. destruct j as [|[|j]]; simpl in Hx; try lia; injection Hx as <-; discriminate.
Defined.
