(* ===== verification/ElfLoader.v ===== *)
(** * The loader

    elfLoaderIsLoadable, elfLoaderInstantiate,
    elfLoaderRelativeAddressIsExecutable, elfLoaderRelocate and elfLoaderLoad
    of source/ps4/elfloader.c, operation by operation in the order the C code
    performs its loads and stores (an entry is read again after a store that
    may have changed it). *)

From S2P Require Import Prelude.
From S2P Require Import Memory.
From S2P Require Import ElfFormat.
From S2P Require Import Sample.
From S2P Require Import ElfTables.
From S2P Require Import ElfStrings.
From S2P Require Import ElfDynamic.

(** ** Return codes *)

Definition ElfLoaderReturnOK : Z := 0.
Definition ElfLoaderReturnElfNull : Z := -1.
Definition ElfLoaderReturnWritableMemoryNull : Z := -2.
Definition ElfLoaderReturnExecutableMemoryNull : Z := -3.
Definition ElfLoaderReturnNoElf : Z := -4.
Definition ElfLoaderReturnUnknownRelocation : Z := -5.
Definition ElfLoaderReturnAddressNotFound : Z := -6.
Definition ElfLoaderReturnNoSectionsOrSegments : Z := -7.
Definition ElfLoaderReturnIsNotLoadable : Z := -8.

(** ** Operations *)

Definition elfLoaderIsLoadable (elf : Z) : C mem bool :=
  b ← elfIsElf elf;
  if negb b then mret false else
  h ← elfHeader elf;
  c ← elfClass elf;
  if negb (c =? ELFCLASS64) then mret false else
  e ← elfEncoding elf;
  if negb (e =? ELFDATA2LSB) then mret false else
  v ← elfVersion elf;
  if negb (v =? EV_CURRENT) then mret false else
  a ← elfABI elf;
  ok ← (if a =? ELFOSABI_SYSV then mret true
        else a ← elfABI elf; mret (a =? ELFOSABI_FREEBSD));
  if negb ok then mret false else
  t ← get_e_type h;
  if negb (t =? ET_DYN) then mret false else
  p ← get_e_phoff h;
  if p =? 0 then mret false else
  s ← get_e_shoff h;
  if s =? 0 then mret false else
  ma ← get_e_machine h;
  if negb (ma =? EM_X86_64) then mret false else
  ve ← get_e_version h;
  mret (ve =? EV_CURRENT).

(** The body of the loop over the segments. *)
Definition instantiate_segment (elf memory s : Z) : C mem () :=
  n ← get_p_filesz s;
  (if c_true n then
     p ← get_p_paddr s; d ← get_data elf; o ← get_p_offset s; n ← get_p_filesz s;
     memcpy (ptr_add memory p) (ptr_add d o) n
   else mret ());;
  m ← get_p_memsz s; n ← get_p_filesz s;
  if c_true (u64 (m - n)) then
    p ← get_p_paddr s; n ← get_p_filesz s; m ← get_p_memsz s; n' ← get_p_filesz s;
    memset (ptr_add (ptr_add memory p) n) 0 (u64 (m - n'))
  else mret ().

(** The body of the loop over the sections. *)
Definition instantiate_section (elf memory s : Z) : C mem () :=
  f ← get_sh_flags s;
  if negb (c_true (Z.land f SHF_ALLOC)) then mret () else
  n ← get_sh_size s;
  if c_true n then
    p ← get_sh_addr s; d ← get_data elf; o ← get_sh_offset s; n ← get_sh_size s;
    memcpy (ptr_add memory p) (ptr_add d o) n
  else mret ().

Definition elfLoaderInstantiate (elf memory : Z) : C mem Z :=
  if elf =? 0 then mret ElfLoaderReturnElfNull else
  if memory =? 0 then mret ElfLoaderReturnWritableMemoryNull else
  '(segments, (size, length)) ← elfSegments elf true true;
  if negb (segments =? 0) then
    size ← init size;
    length ← init length;
    fold_range 0 length () (λ index _,
      s ← entry segments index size; instantiate_segment elf memory s);;
    mret ElfLoaderReturnOK
  else
    '(sections, (size, length)) ← elfSections elf true true;
    if sections =? 0 then mret 0 else
    size ← init size;
    length ← init length;
    fold_range 0 length () (λ index _,
      s ← entry sections index size; instantiate_section elf memory s);;
    mret ElfLoaderReturnOK.

Definition executable_segment (address s : Z) : C mem (() + Z) :=
  p ← get_p_paddr s;
  if negb (p <=? address) then mret (inl ()) else
  p ← get_p_paddr s; n ← get_p_memsz s;
  if negb (address <=? u64 (p + n)) then mret (inl ()) else
  f ← get_p_flags s; mret (inr (Z.land f PF_X)).

Definition executable_section (address s : Z) : C mem (() + Z) :=
  p ← get_sh_addr s;
  if negb (p <=? address) then mret (inl ()) else
  p ← get_sh_addr s; n ← get_sh_size s;
  if negb (address <=? u64 (p + n)) then mret (inl ()) else
  f ← get_sh_flags s; mret (inr (Z.land f SHF_EXECINSTR)).

Definition elfLoaderRelativeAddressIsExecutable (elf address : Z) : C mem Z :=
  if elf =? 0 then mret 0 else
  '(segments, (size, length)) ← elfSegments elf true true;
  if negb (segments =? 0) then
    size ← init size;
    length ← init length;
    r ← for_range 0 length () (λ index _,
      s ← entry segments index size; executable_segment address s);
    match r with inr f => mret f | inl _ => mret 1 end
  else
    '(sections, (size, length)) ← elfSections elf true true;
    if sections =? 0 then mret ElfLoaderReturnNoSectionsOrSegments else
    size ← init size;
    length ← init length;
    r ← for_range 0 length () (λ index _,
      s ← entry sections index size; executable_section address s);
    match r with inr f => mret f | inl _ => mret 1 end.

(** One relocation: [inr code] leaves elfLoaderRelocate. *)
Definition relocate_one (elf writable executable dynamicSymbols dynamicSymbolSize r : Z)
    : C mem (() + Z) :=
  i ← get_r_info r;
  let relocationType := u16 (ELF64_R_TYPE i) in
  i ← get_r_info r;
  let relocationSymbol := u16 (ELF64_R_SYM i) in
  o ← get_r_offset r;
  let offset := ptr_add writable o in
  value ←
    (if relocationType =? R_X86_64_RELATIVE then
       a ← get_r_addend r; mret (inl a)
     else if relocationType =? R_X86_64_64 then
       k ← mul_int dynamicSymbolSize relocationSymbol;
       s ← get_st_value (ptr_add dynamicSymbols k);
       a ← get_r_addend r; mret (inl (u64 (s + a)))
     else if (relocationType =? R_X86_64_JMP_SLOT) || (relocationType =? R_X86_64_GLOB_DAT) then
       k ← mul_int dynamicSymbolSize relocationSymbol;
       s ← get_st_value (ptr_add dynamicSymbols k); mret (inl s)
     else mret (inr ElfLoaderReturnUnknownRelocation));
  match value with
  | inr code => mret (inr code)
  | inl value =>
      x ← elfLoaderRelativeAddressIsExecutable elf value;
      (if c_true x then set_field 8 offset 0 (u64 (executable + value))
       else set_field 8 offset 0 (u64 (writable + value)));;
      mret (inl ())
  end.

(** The loop over the names of [rel], with the variables it carries. *)
Fixpoint relocate_sections (elf writable executable dynamicSymbols dynamicSymbolSize : Z)
    (rel : list (list byte)) (relocationSize : Z) : C mem Z :=
  match rel with
  | [] => mret ElfLoaderReturnOK
  | name :: rel =>
      '(relocations, (size, length)) ← elfAddendRelocations elf (Some name) true true;
      let relocationSize := default relocationSize size in
      let relocationsLength := default 0 length in
      r ← for_range 0 relocationsLength () (λ i _,
        k ← mul_int relocationSize i;
        relocate_one elf writable executable dynamicSymbols dynamicSymbolSize
          (ptr_add relocations k));
      match r with
      | inr code => mret code
      | inl _ =>
          relocate_sections elf writable executable dynamicSymbols dynamicSymbolSize
            rel relocationSize
      end
  end.

Definition elfLoaderRelocate (elf writable executable : Z) : C mem Z :=
  if elf =? 0 then mret ElfLoaderReturnElfNull else
  if writable =? 0 then mret ElfLoaderReturnWritableMemoryNull else
  if executable =? 0 then mret ElfLoaderReturnExecutableMemoryNull else
  '(dynamicSymbols, (size, _)) ← elfSymbols elf (Some s_dynsym) true true;
  relocate_sections elf writable executable dynamicSymbols (default 0 size)
    [s_rela_dyn; s_rela_plt] 0.

Definition elfLoaderLoad (elf writable executable : Z) : C mem Z :=
  if elf =? 0 then mret ElfLoaderReturnElfNull else
  if writable =? 0 then mret ElfLoaderReturnWritableMemoryNull else
  if executable =? 0 then mret ElfLoaderReturnExecutableMemoryNull else
  b ← elfLoaderIsLoadable elf;
  if negb b then mret ElfLoaderReturnIsNotLoadable else
  r ← elfLoaderInstantiate elf writable;
  if negb (r =? ElfLoaderReturnOK) then mret r else
  elfLoaderRelocate elf writable executable.

(** ** Images that stay put

    The header and both tables lie inside the file and the file inside the
    address space, so that stores elsewhere do not change what is decoded. *)

Record image_ok (m : mem) (elf : Z) (v : elf_view) : Prop := {
  im_at : elf_at m elf v;
  im_elf : 0 < elf ∧ elf + 16 ≤ 2 ^ 64;
  im_data : 0 < v.(v_data) ∧ v.(v_data) + v.(v_size) < 2 ^ 64;
  im_hdr : 64 ≤ v.(v_size);
  im_segs : v.(v_hdr).(e_phoff) ≠ 0 →
    0 ≤ v.(v_hdr).(e_phoff) ∧ 56 ≤ v.(v_hdr).(e_phentsize) ∧
    v.(v_hdr).(e_phoff) + v.(v_hdr).(e_phnum) * v.(v_hdr).(e_phentsize) ≤ v.(v_size);
  im_secs : v.(v_hdr).(e_shoff) ≠ 0 →
    0 ≤ v.(v_hdr).(e_shoff) ∧ 64 ≤ v.(v_hdr).(e_shentsize) ∧
    v.(v_hdr).(e_shoff) + v.(v_hdr).(e_shnum) * v.(v_hdr).(e_shentsize) ≤ v.(v_size) }.

Lemma decode_phdr_same m m' a :
  0 ≤ a → a + 56 ≤ 2 ^ 64 → same_on m m' a 56 → decode_phdr m' a = decode_phdr m a.
Proof.
  intros Ha Hle Hs. unfold decode_phdr.
  rewrite (decode_fields_same m m'); [done|done|done|by rewrite Z.add_0_r|by rewrite Z.add_0_r].
Qed.

Lemma decode_shdr_same m m' a :
  0 ≤ a → a + 64 ≤ 2 ^ 64 → same_on m m' a 64 → decode_shdr m' a = decode_shdr m a.
Proof.
  intros Ha Hle Hs. unfold decode_shdr.
  rewrite (decode_fields_same m m'); [done|done|done|by rewrite Z.add_0_r|by rewrite Z.add_0_r].
Qed.

Lemma decode_ehdr_same m m' a :
  0 ≤ a → a + 64 ≤ 2 ^ 64 → same_on m m' a 64 → decode_ehdr m' a = decode_ehdr m a.
Proof.
  intros Ha Hle Hs. unfold decode_ehdr.
  rewrite (decode_fields_same m m' a EI_NIDENT ehdr_widths);
    [|done|done|unfold EI_NIDENT; change (total ehdr_widths) with 48; lia
     |eapply same_on_sub; [exact Hs|unfold EI_NIDENT; lia|unfold EI_NIDENT; change (total ehdr_widths) with 48; lia]].
  rewrite (load_bytes_same m m'); [done|]. eapply same_on_sub; [exact Hs|lia|unfold EI_NIDENT; lia].
Qed.

(** Entry [i] of a table inside the file. *)
Lemma entry_in_file data size off n es w i :
  0 < data → data + size < 2 ^ 64 → 0 ≤ off → 0 ≤ w ≤ es → off + n * es ≤ size → 0 ≤ i < n →
  ptr_add (ptr_add data off) (i * es) = data + off + i * es ∧
  data ≤ data + off + i * es ∧ data + off + i * es + w ≤ data + size.
Proof.
  intros Hd Hs Ho Hw Hle Hi. assert (i * es + es ≤ n * es) by nia. assert (0 ≤ i * es) by nia.
  unfold ptr_add. rewrite u64_add_l, u64_small by lia. lia.
Qed.

Lemma table_ok_same {T} (decode : mem → Z → option T) m m' data size off es n w l :
  (∀ a, 0 ≤ a → a + w ≤ 2 ^ 64 → same_on m m' a w → decode m' a = decode m a) →
  0 < data → data + size < 2 ^ 64 → 0 ≤ off → 0 ≤ w ≤ es → off + n * es ≤ size →
  same_on m m' data size →
  table_ok decode m (ptr_add data off) es n l → table_ok decode m' (ptr_add data off) es n l.
Proof.
  intros Hdec Hd Hsz Ho Hw Hle Hs [Hb He Hl Hi Ht]. split; [done..|].
  intros i x Hx. destruct (Ht i x Hx) as [Hnz Hdx]. split; [done|].
  pose proof (lookup_lt_Some _ _ _ Hx).
  destruct (entry_in_file data size off n es w (Z.of_nat i)) as (Ha & H1 & H2); [lia..|].
  rewrite Ha in *. rewrite Hdec; [done|lia|lia|]. eapply same_on_sub; [exact Hs|lia|lia].
Qed.

Lemma image_ok_same m m' elf v :
  image_ok m elf v → same_on m m' elf 16 → same_on m m' v.(v_data) v.(v_size) →
  image_ok m' elf v.
Proof.
  intros [[Hnz Hd Hsz Hdz Hh Hsegs Hsecs] [He1 He2] [Hd1 Hd2] Hhdr Hps Hss] Hs1 Hs2.
  split; try done. split; try done.
  - rewrite <- Hd. apply peek_same. unfold ptr_add. rewrite u64_small by lia.
    eapply same_on_sub; [exact Hs1|lia|lia].
  - rewrite <- Hsz. apply peek_same. unfold ptr_add. rewrite u64_small by lia.
    eapply same_on_sub; [exact Hs1|lia|lia].
  - rewrite <- Hh. apply decode_ehdr_same; [lia|lia|]. eapply same_on_sub; [exact Hs2|lia|lia].
  - intros Hoff. destruct (Hps Hoff) as (? & ? & ?).
    apply (table_ok_same decode_phdr m m' _ v.(v_size) _ _ _ 56);
      [intros; by apply decode_phdr_same|lia..|done|auto].
  - intros Hoff. destruct (Hss Hoff) as (? & ? & ?).
    apply (table_ok_same decode_shdr m m' _ v.(v_size) _ _ _ 64);
      [intros; by apply decode_shdr_same|lia..|done|auto].
Qed.

(** ** Byte-list images *)

(** [img] with [bs] written at position [p]. *)
Definition patch (img : list byte) (p : Z) (bs : list byte) : list byte :=
  take (Z.to_nat p) img ++ bs ++ drop (Z.to_nat p + length bs) img.

Definition slice (file : list byte) (off n : Z) : list byte :=
  take (Z.to_nat n) (drop (Z.to_nat off) file).

(** What a segment puts into the image: its file contents, then zeros. *)
Definition segment_bytes (file : list byte) (h : Elf64_Phdr) : list byte :=
  slice file h.(p_offset) h.(p_filesz) ++ replicate (Z.to_nat (h.(p_memsz) - h.(p_filesz))) Byte.x00.

Definition load_segment (file img : list byte) (h : Elf64_Phdr) : list byte :=
  patch img h.(p_paddr) (segment_bytes file h).

(** The image the program headers describe. *)
Definition spec_instantiate (file : list byte) (segs : list Elf64_Phdr) (img : list byte) : list byte :=
  foldl (load_segment file) img segs.

Record segment_fits (size msize : Z) (h : Elf64_Phdr) : Prop := {
  sf_off : 0 ≤ h.(p_offset);
  sf_filesz : 0 ≤ h.(p_filesz) ≤ h.(p_memsz);
  sf_file : h.(p_offset) + h.(p_filesz) ≤ size;
  sf_paddr : 0 ≤ h.(p_paddr);
  sf_mem : h.(p_paddr) + h.(p_memsz) ≤ msize }.

Lemma length_patch img p bs :
  0 ≤ p → (Z.to_nat p + length bs ≤ length img)%nat → length (patch img p bs) = length img.
Proof. intros Hp Hle. unfold patch. rewrite !length_app, length_take, length_drop. lia. Qed.

Lemma length_slice file off n :
  0 ≤ off → 0 ≤ n → off + n ≤ Z.of_nat (length file) → length (slice file off n) = Z.to_nat n.
Proof. intros. unfold slice. rewrite length_take, length_drop. lia. Qed.

Lemma lookup_patch img p bs (i : nat) :
  0 ≤ p → (Z.to_nat p + length bs ≤ length img)%nat →
  patch img p bs !! i =
    if decide (p ≤ Z.of_nat i < p + Z.of_nat (length bs)) then bs !! Z.to_nat (Z.of_nat i - p)
    else img !! i.
Proof.
  intros Hp Hle. unfold patch. case_decide as Hd.
  - rewrite lookup_app_r by (rewrite length_take; lia).
    rewrite length_take, lookup_app_l by lia. f_equal. lia.
  - destruct (decide (Z.of_nat i < p)).
    + rewrite lookup_app_l by (rewrite length_take; lia). by apply lookup_take_lt; lia.
    + rewrite lookup_app_r by (rewrite length_take; lia).
      rewrite length_take, lookup_app_r, lookup_drop by lia. f_equal. lia.
Qed.

(** A store inside a region seen as a list is a patch of the list. *)
Lemma store_patch m m' a n img p bs :
  load_bytes m a n = Some img → 0 ≤ p → (Z.to_nat p + length bs ≤ n)%nat →
  same_off m m' (a + p) (Z.of_nat (length bs)) → load_bytes m' (a + p) (length bs) = Some bs →
  load_bytes m' a n = Some (patch img p bs).
Proof.
  intros [Hl Hi]%load_bytes_spec Hp Hle Hoff [_ Hb]%load_bytes_spec. subst n.
  apply load_bytes_spec. split; [by apply length_patch|].
  intros i Hi'. rewrite lookup_patch by done. case_decide as Hd.
  - rewrite <- Hb by lia. f_equal. lia.
  - rewrite Hoff by lia. by apply Hi.
Qed.

Lemma load_slice m data size file off n :
  load_bytes m data (Z.to_nat size) = Some file → 0 ≤ off → 0 ≤ n → off + n ≤ size →
  load_bytes m (data + off) (Z.to_nat n) = Some (slice file off n).
Proof.
  intros Hf Ho Hn Hle.
  replace (Z.to_nat size) with (Z.to_nat off + (Z.to_nat n + (Z.to_nat size - Z.to_nat off - Z.to_nat n)))%nat
    in Hf by lia.
  apply load_bytes_app in Hf as [_ Hf]. apply load_bytes_app in Hf as [Hf _].
  by rewrite Z2Nat.id in Hf by done.
Qed.

Lemma patch_patch img p bs bs' :
  0 ≤ p → (Z.to_nat p + length bs + length bs' ≤ length img)%nat →
  patch (patch img p bs) (p + Z.of_nat (length bs)) bs' = patch img p (bs ++ bs').
Proof.
  intros Hp Hle. apply list_eq. intros i.
  rewrite !lookup_patch; rewrite ?length_patch, ?length_app by lia; try lia.
  repeat case_decide; try lia.
  - rewrite lookup_app_r by lia. f_equal. lia.
  - by rewrite lookup_app_l by lia.
  - done.
Qed.

Lemma patch_nil img p : patch img p [] = img.
Proof. unfold patch. simpl. rewrite Nat.add_0_r. apply take_drop. Qed.

(** Memory to load into: inside the address space, apart from the file and
    from the [struct Elf]. *)
Record target (elf : Z) (v : elf_view) (memory msize : Z) : Prop := {
  tg_pos : 0 < memory;
  tg_size : 0 ≤ msize;
  tg_top : memory + msize < 2 ^ 64;
  tg_elf : disjoint memory msize elf 16;
  tg_file : disjoint memory msize v.(v_data) v.(v_size) }.

(** The loader's state between two stores: the image, the file and the target. *)
Record loading (m : mem) (elf : Z) (v : elf_view) (memory msize : Z)
    (file img : list byte) : Prop := {
  ld_image : image_ok m elf v;
  ld_file : load_bytes m v.(v_data) (Z.to_nat v.(v_size)) = Some file;
  ld_img : load_bytes m memory (Z.to_nat msize) = Some img }.

Section loading.
Context (elf : Z) (v : elf_view) (memory msize : Z) (file : list byte).
Context (Htg : target elf v memory msize).

(** A store of [bs] at offset [p] of the target. *)
Lemma loading_store m m' img p bs :
  loading m elf v memory msize file img → 0 ≤ p → p + Z.of_nat (length bs) ≤ msize →
  same_off m m' (memory + p) (Z.of_nat (length bs)) →
  load_bytes m' (memory + p) (length bs) = Some bs →
  loading m' elf v memory msize file (patch img p bs) ∧ same_off m m' memory msize.
Proof using Htg.
  intros [Him Hf Hi] Hp Hle Hoff Hl. destruct Htg as [_ ? _ Hd1 Hd2].
  assert (Hout : same_off m m' memory msize) by (intros x Hx; apply Hoff; lia).
  pose proof (same_off_on _ _ _ _ _ _ Hout Hd1) as Hs1.
  pose proof (same_off_on _ _ _ _ _ _ Hout Hd2) as Hs2.
  split; [|done]. split.
  - by eapply image_ok_same.
  - rewrite <- Hf. apply load_bytes_same.
    rewrite Z2Nat.id; [done|]. pose proof (im_hdr _ _ _ Him). lia.
  - eapply store_patch; [done|done|lia|done|done].
Qed.

Lemma loading_mapped m img p n :
  loading m elf v memory msize file img → 0 ≤ p → 0 ≤ n → p + n ≤ msize → mapped m (memory + p) n.
Proof using Htg.
  intros [_ _ Hi] Hp Hn Hle. eapply mapped_sub; [by eapply load_bytes_is_mapped|lia|].
  pose proof (tg_size _ _ _ _ Htg). lia.
Qed.

Lemma loading_lengths m img :
  loading m elf v memory msize file img →
  Z.of_nat (length file) = v.(v_size) ∧ Z.of_nat (length img) = msize.
Proof using Htg.
  intros [Him Hf%load_bytes_length Hi%load_bytes_length].
  pose proof (im_hdr _ _ _ Him). pose proof (tg_size _ _ _ _ Htg). lia.
Qed.

(** The segment header [i] in the current memory. *)
Lemma loading_phdr m img i ph :
  loading m elf v memory msize file img → v.(v_hdr).(e_phoff) ≠ 0 → v.(v_segs) !! i = Some ph →
  seg_addr v (Z.of_nat i) ≠ 0 ∧ decode_phdr m (seg_addr v (Z.of_nat i)) = Some ph.
Proof using.
  intros [[Hat _ _ _ _ _] _ _] Hoff Hph. apply (tab_at _ _ _ _ _ _ (at_segs _ _ _ Hat Hoff) i ph Hph).
Qed.

Lemma loading_data m img :
  loading m elf v memory msize file img → get_data elf m = Done v.(v_data) m.
Proof using. intros [[Hat _ _ _ _ _] _ _]. by apply get_data_ok. Qed.

(** [memcpy] of part of the file into the target. *)
Lemma loading_memcpy m img p off n :
  loading m elf v memory msize file img →
  0 ≤ p → 0 ≤ n → p + n ≤ msize → 0 ≤ off → off + n ≤ v.(v_size) →
  ∃ m', memcpy (ptr_add memory p) (ptr_add v.(v_data) off) n m = Done () m' ∧
    loading m' elf v memory msize file (patch img p (slice file off n)) ∧
    same_off m m' memory msize.
Proof using Htg.
  intros Hld Hp Hn Hle Ho Hlef. pose proof Htg as [H1 H2 H3 _ Hdisj].
  pose proof (im_data _ _ _ (ld_image _ _ _ _ _ _ _ Hld)) as [H4 H5].
  destruct (loading_lengths _ _ Hld) as [Hlf _].
  unfold ptr_add. rewrite !u64_small by lia.
  destruct (memcpy_spec m (memory + p) (v_data v + off) n (slice file off n)) as (m' & Hc & Hoff & Hl & _).
  - eapply load_slice; [apply Hld|lia..].
  - done.
  - by eapply loading_mapped.
  - unfold disjoint in *. lia.
  - exists m'. split; [done|]. assert (Hls : length (slice file off n) = Z.to_nat n) by (apply length_slice; lia).
    apply loading_store; [done|done|lia| |by rewrite Hls].
    by rewrite Hls, Z2Nat.id by done.
Qed.

Lemma loading_memset m img p n :
  loading m elf v memory msize file img → 0 ≤ p → 0 ≤ n → p + n ≤ msize →
  ∃ m', memset (memory + p) 0 n m = Done () m' ∧
    loading m' elf v memory msize file (patch img p (replicate (Z.to_nat n) Byte.x00)) ∧
    same_off m m' memory msize.
Proof using Htg.
  intros Hld Hp Hn Hle.
  destruct (memset_spec m (memory + p) 0 n) as (m' & Hc & Hoff & Hl & _); [done|by eapply loading_mapped|].
  exists m'. split; [done|]. change (byte.of_Z 0) with Byte.x00 in Hl.
  apply loading_store; [done|done|rewrite length_replicate; lia| |by rewrite length_replicate].
  by rewrite length_replicate, Z2Nat.id by done.
Qed.

Lemma instantiate_segment_ok m img i ph :
  loading m elf v memory msize file img → v.(v_hdr).(e_phoff) ≠ 0 →
  v.(v_segs) !! i = Some ph → segment_fits v.(v_size) msize ph →
  ∃ m', instantiate_segment elf memory (seg_addr v (Z.of_nat i)) m = Done () m' ∧
    loading m' elf v memory msize file (load_segment file img ph) ∧ same_off m m' memory msize.
Proof using Htg.
  intros Hld Hoff Hph [Hf1 Hf2 Hf3 Hf4 Hf5]. pose proof Htg as [H1 H2 H3 _ _].
  destruct (loading_lengths _ _ Hld) as [Hlf Hli].
  destruct (loading_phdr _ _ _ _ Hld Hoff Hph) as [Hnz Hd].
  assert (Hcopy : ∃ m1, (if c_true (p_filesz ph) then
       p ← get_p_paddr (seg_addr v (Z.of_nat i)); d ← get_data elf;
       o ← get_p_offset (seg_addr v (Z.of_nat i)); n ← get_p_filesz (seg_addr v (Z.of_nat i));
       memcpy (ptr_add memory p) (ptr_add d o) n
     else mret ()) m = Done () m1 ∧
     loading m1 elf v memory msize file (patch img (p_paddr ph) (slice file (p_offset ph) (p_filesz ph))) ∧
     same_off m m1 memory msize).
  { unfold c_true. destruct (p_filesz ph =? 0) eqn:Hz; zb; cbn [negb].
    - exists m. split; [done|]. rewrite Hz. change (slice file (p_offset ph) 0) with (@nil byte).
      by rewrite patch_nil.
    - cstep. rewrite (bind_done _ _ _ _ _ (loading_data _ _ Hld)). do 2 cstep.
      apply loading_memcpy; [done|lia..]. }
  destruct Hcopy as (m1 & Hc & Hld1 & Hs1).
  destruct (loading_phdr _ _ _ _ Hld1 Hoff Hph) as [_ Hd1].
  unfold instantiate_segment. cstep. rewrite (bind_done _ _ _ _ _ Hc). do 2 cstep.
  assert (Hls : length (slice file (p_offset ph) (p_filesz ph)) = Z.to_nat (p_filesz ph)) by (apply length_slice; lia).
  rewrite u64_small by lia. unfold load_segment, segment_bytes.
  rewrite <- patch_patch by (rewrite ?Hls, ?length_replicate; lia). rewrite Hls, Z2Nat.id by lia.
  unfold c_true. destruct (p_memsz ph - p_filesz ph =? 0) eqn:Hz; zb; cbn [negb].
  - exists m1. split; [done|]. rewrite Hz. cbn [Z.to_nat replicate]. by rewrite patch_nil.
  - do 4 cstep. unfold ptr_add. rewrite u64_add_l, !u64_small by lia. rewrite <- Z.add_assoc.
    destruct (loading_memset m1 _ (p_paddr ph + p_filesz ph) (p_memsz ph - p_filesz ph) Hld1)
      as (m2 & Hm & Hld2 & Hs2); [lia..|].
    exists m2. split; [done|]. split; [done|]. intros x Hx. by rewrite Hs2, Hs1.
Qed.
End loading.

Lemma foldl_take_S {A B} (f : A → B → A) a l (i : nat) x :
  l !! i = Some x → foldl f a (take (S i) l) = f (foldl f a (take i l)) x.
Proof. intros Hx. by rewrite (take_S_r _ _ _ Hx), foldl_app. Qed.

Lemma elfLoaderInstantiate_ok m elf v memory msize file img :
  loading m elf v memory msize file img → target elf v memory msize →
  v.(v_hdr).(e_phoff) ≠ 0 → Forall (segment_fits v.(v_size) msize) v.(v_segs) →
  ∃ m', elfLoaderInstantiate elf memory m = Done ElfLoaderReturnOK m' ∧
    loading m' elf v memory msize file (spec_instantiate file v.(v_segs) img) ∧
    same_off m m' memory msize.
Proof.
  intros Hld Htg Hoff Hfits. pose proof (im_at _ _ _ (ld_image _ _ _ _ _ _ _ Hld)) as Hat.
  pose proof (at_segs _ _ _ Hat Hoff) as Htab. pose proof (tab_len _ _ _ _ _ _ Htab) as Hlen.
  unfold elfLoaderInstantiate. rewrite (elf_nz _ _ _ Hat).
  replace (memory =? 0) with false by (pose proof (tg_pos _ _ _ _ Htg); lia).
  rewrite (bind_done _ _ _ _ _ (elfSegments_ok _ _ _ Hat true true)).
  replace (e_phoff (v_hdr v) =? 0) with false by lia.
  replace (seg_base v =? 0) with false by (pose proof (tab_base _ _ _ _ _ _ Htab); lia).
  simpl out. cbn [negb]. do 2 cstep.
  destruct (fold_range_inv (λ j (_ : ()) t,
      loading t elf v memory msize file (spec_instantiate file (take (Z.to_nat j) v.(v_segs)) img) ∧
      same_off m t memory msize)
    (λ index _, s ← entry (seg_base v) index (e_phentsize (v_hdr v)); instantiate_segment elf memory s)
    0 (e_phnum (v_hdr v)) () m) as ([] & m' & Hf & Hld' & Hs').
  - rewrite Hlen. lia.
  - split; [by rewrite take_0|done].
  - intros j [] t Hj [Hldt Hst].
    destruct (lookup_lt_is_Some_2 (v_segs v) (Z.to_nat j)) as [ph Hph]; [lia|].
    pose proof (Forall_lookup_1 _ _ _ _ Hfits Hph) as Hfit.
    pose proof (at_segs _ _ _ (im_at _ _ _ (ld_image _ _ _ _ _ _ _ Hldt)) Hoff) as Htabt.
    destruct (table_ok_entry _ _ _ _ _ _ j ph Htabt) as (He & _ & _); [lia|done|].
    rewrite (bind_done _ _ _ _ _ He). fold (seg_addr v j).
    destruct (instantiate_segment_ok _ _ _ _ _ Htg t _ _ ph Hldt Hoff Hph Hfit) as (t' & Hi & Hld2 & Hs2).
    rewrite Z2Nat.id in Hi by lia. exists (), t'. split; [done|].
    replace (Z.to_nat (j + 1)) with (S (Z.to_nat j)) by lia.
    unfold spec_instantiate in *. rewrite (foldl_take_S _ _ _ _ _ Hph). split; [done|].
    intros x Hx. by rewrite Hs2, Hst.
  - exists m'. rewrite (bind_done _ _ _ _ _ Hf). split; [done|]. split; [|done].
    by rewrite take_ge in Hld' by lia.
Qed.

(** C7. elfLoaderInstantiate refines the byte-level specification: for an
    image whose segments fit the file and the target, it returns
    ElfLoaderReturnOK, the target holds, segment after segment, the file
    contents followed by zeros up to the memory size, and no other byte of
    memory changes. *)
Theorem elfLoaderInstantiate_refines m elf v memory msize file img :
  loading m elf v memory msize file img → target elf v memory msize →
  v.(v_hdr).(e_phoff) ≠ 0 → Forall (segment_fits v.(v_size) msize) v.(v_segs) →
  ∃ m', elfLoaderInstantiate elf memory m = Done ElfLoaderReturnOK m' ∧
    load_bytes m' memory (Z.to_nat msize) = Some (spec_instantiate file v.(v_segs) img) ∧
    same_off m m' memory msize.
Proof.
  intros Hld Htg Hoff Hfits.
  destruct (elfLoaderInstantiate_ok _ _ _ _ _ _ _ Hld Htg Hoff Hfits) as (m' & Hi & [_ _ Hl] & Hs).
  by exists m'.
Qed.

Lemma sample_image_ok : image_ok sample_mem sample_elf sample_view.
Proof.
  split; [exact sample_at|..]; vm_compute; repeat split; try discriminate.
Qed.

Lemma sample_target : target sample_elf sample_view sample_writable 256.
Proof. split; vm_compute; first [discriminate | reflexivity | right; discriminate]. Qed.

Lemma sample_loading :
  loading sample_mem sample_elf sample_view sample_writable 256 sample_file (replicate 256 Byte.xff).
Proof. split; [exact sample_image_ok|vm_compute; reflexivity|vm_compute; reflexivity]. Qed.

Lemma sample_fits : Forall (segment_fits 816 256) sample_phdrs.
Proof. repeat constructor; vm_compute; discriminate. Qed.

Lemma elfLoaderInstantiate_refines_witness :
  ∃ m', elfLoaderInstantiate sample_elf sample_writable sample_mem = Done ElfLoaderReturnOK m' ∧
    load_bytes m' sample_writable 256 =
      Some (spec_instantiate sample_file sample_phdrs (replicate 256 Byte.xff)).
Proof.
  destruct (elfLoaderInstantiate_refines sample_mem sample_elf sample_view sample_writable 256
    sample_file (replicate 256 Byte.xff) sample_loading sample_target) as (m' & H1 & H2 & _).
  - vm_compute. discriminate.
  - exact sample_fits.
  - exists m'. split; [exact H1|exact H2].
Defined.

(** ** The size of the target *)

(** A segment whose contents are in the file and whose end is a 64-bit number. *)
Record segment_sound (size : Z) (h : Elf64_Phdr) : Prop := {
  ss_off : 0 ≤ h.(p_offset);
  ss_filesz : 0 ≤ h.(p_filesz) ≤ h.(p_memsz);
  ss_file : h.(p_offset) + h.(p_filesz) ≤ size;
  ss_paddr : 0 ≤ h.(p_paddr);
  ss_end : h.(p_paddr) + h.(p_memsz) < 2 ^ 64 }.

Lemma seg_end_exact size h : segment_sound size h → seg_end h = h.(p_paddr) + h.(p_memsz).
Proof. intros [? ? ? ? ?]. apply u64_small. lia. Qed.

(** C40. elfMemorySize against elfLoaderInstantiate, for an image with segments
    that lie in the file and in the address space: the size is the greatest
    end of a segment, so the least bound of all of them, and a target of that
    size is enough, instantiation succeeds in it and touches nothing else. *)
Theorem elfMemorySize_suffices m elf v :
  elf_at m elf v → v.(v_hdr).(e_phoff) ≠ 0 → Forall (segment_sound v.(v_size)) v.(v_segs) →
  ∃ n, elfMemorySize elf m = Done n m ∧
    (∀ h, h ∈ v.(v_segs) → h.(p_paddr) + h.(p_memsz) ≤ n) ∧
    (n = 0 ∨ ∃ h, h ∈ v.(v_segs) ∧ n = h.(p_paddr) + h.(p_memsz)) ∧
    ∀ memory file img, loading m elf v memory n file img → target elf v memory n →
      ∃ m', elfLoaderInstantiate elf memory m = Done ElfLoaderReturnOK m' ∧
        load_bytes m' memory (Z.to_nat n) = Some (spec_instantiate file v.(v_segs) img) ∧
        same_off m m' memory n.
Proof.
  intros Hat Hoff Hs. eexists. split; [by apply elfMemorySize_ok|].
  assert (He : extents v = map seg_end v.(v_segs)).
  { unfold extents. by replace (e_phoff (v_hdr v) =? 0) with false by lia. }
  set (n := foldl Z.max 0 (extents v)).
  assert (Hb : ∀ h, h ∈ v.(v_segs) → h.(p_paddr) + h.(p_memsz) ≤ n).
  { intros h Hh. rewrite Forall_forall in Hs. rewrite <- (seg_end_exact _ h (Hs h Hh)).
    apply foldl_max_bound. rewrite He. by apply list_elem_of_fmap_2. }
  split; [exact Hb|]. split.
  - destruct (foldl_max_in (extents v) 0) as [Hz|Hin]; [by left|right]. rewrite He in Hin at 2.
    apply list_elem_of_fmap in Hin as (h & Hh & Hin). exists h. split; [done|]. unfold n.
    rewrite Hh. rewrite Forall_forall in Hs. by apply (seg_end_exact _ _ (Hs h Hin)).
  - intros memory file img Hld Htg.
    destruct (elfLoaderInstantiate_ok m elf v memory n file img Hld Htg Hoff) as (m' & Hi & [_ _ Hl] & Hso).
    + apply Forall_forall. intros h Hh. rewrite Forall_forall in Hs. destruct (Hs h Hh). split; auto.
    + by exists m'.
Qed.

Lemma elfMemorySize_suffices_witness :
  ∃ n, elfMemorySize sample_elf sample_mem = Done n sample_mem ∧ n = 0x80 + 48.
Proof.
  destruct (elfMemorySize_suffices sample_mem sample_elf sample_view sample_at) as (n & Hn & Hb & Hm & _).
  - vm_compute. discriminate.
  - repeat constructor; vm_compute; first [reflexivity | discriminate].
  - exists n. split; [exact Hn|].
    pose proof (Hb {| p_type := PT_DYNAMIC; p_flags := 6; p_offset := 0x120; p_vaddr := 0x400120;
       p_paddr := 0x80; p_filesz := 48; p_memsz := 48; p_align := 8 |}) as H1. cbn in H1.
    specialize (H1 (list_elem_of_lookup_2 sample_phdrs 2%nat _ eq_refl)).
    destruct Hm as [Hm|(h & Hh & Hm)]; [lia|].
    apply list_elem_of_lookup in Hh as [i Hi]. destruct i as [|[|[|i]]]; [..|discriminate Hi];
      injection Hi as Hi; rewrite <- Hi in Hm; cbn in Hm; lia.
Defined.

(** An image without segments and with one section, which is not to be
    allocated. *)
Definition unallocated_hdr : Elf64_Ehdr :=
  {| e_ident := e_ident sample_ehdr; e_type := ET_DYN; e_machine := EM_X86_64; e_version := EV_CURRENT;
     e_entry := 0; e_phoff := 0; e_shoff := 64; e_flags := 0; e_ehsize := 64;
     e_phentsize := 0; e_phnum := 0; e_shentsize := 64; e_shnum := 1; e_shstrndx := 0 |}.

Definition unallocated_mem : mem :=
  bytes_at 0x1000 (le_split 8 0x400000 ++ le_split 8 128)
  ∪ bytes_at 0x400000 (encode_ehdr unallocated_hdr ++ encode_shdr
      {| sh_name := 0; sh_type := 1; sh_flags := 0; sh_addr := 0; sh_offset := 0; sh_size := 0x4000;
         sh_link := 0; sh_info := 0; sh_addralign := 1; sh_entsize := 0 |}).

(** elfMemorySize counts sections that elfLoaderInstantiate leaves out: it
    asks for 0x4000 bytes of which none is written. *)
Theorem elfMemorySize_counts_unallocated :
  elfMemorySize 0x1000 unallocated_mem = Done 0x4000 unallocated_mem ∧
  elfLoaderInstantiate 0x1000 0x500000 unallocated_mem = Done ElfLoaderReturnOK unallocated_mem.
Proof. split; vm_compute; reflexivity. Qed.

(** The end of a segment is added up on 64 bits: one that ends past the
    address space counts with the wrapped end, so that its bytes lie outside a
    target of the size that is given. *)
Theorem elfMemorySize_wraps m elf v h :
  elf_at m elf v → v.(v_hdr).(e_phoff) ≠ 0 → v.(v_segs) = [h] →
  2 ^ 64 ≤ h.(p_paddr) + h.(p_memsz) → 0 ≤ h.(p_paddr) < 2 ^ 64 → 0 ≤ h.(p_memsz) < 2 ^ 64 →
  ∃ n, elfMemorySize elf m = Done n m ∧ n < h.(p_paddr).
Proof.
  intros Hat Hoff Hsegs Hw Hp Hm. eexists. split; [by apply elfMemorySize_ok|]. unfold extents.
  replace (e_phoff (v_hdr v) =? 0) with false by lia. cbn [negb]. rewrite Hsegs. cbn [map foldl].
  unfold seg_end, u64.
  assert ((h.(p_paddr) + h.(p_memsz)) mod 2 ^ 64 = h.(p_paddr) + h.(p_memsz) - 2 ^ 64)
    by (symmetry; apply (Z.mod_unique_pos _ _ 1); lia). lia.
Qed.

Definition wrapping_seg : Elf64_Phdr :=
  {| p_type := PT_LOAD; p_flags := 6; p_offset := 0; p_vaddr := 0; p_paddr := 0xFFFFFFFFFFFFFFF0;
     p_filesz := 16; p_memsz := 32; p_align := 16 |}.

Definition wrapping_hdr : Elf64_Ehdr :=
  {| e_ident := e_ident sample_ehdr; e_type := ET_DYN; e_machine := EM_X86_64; e_version := EV_CURRENT;
     e_entry := 0; e_phoff := 64; e_shoff := 0; e_flags := 0; e_ehsize := 64;
     e_phentsize := 56; e_phnum := 1; e_shentsize := 0; e_shnum := 0; e_shstrndx := 0 |}.

Definition wrapping_mem : mem :=
  bytes_at 0x1000 (le_split 8 0x400000 ++ le_split 8 120)
  ∪ bytes_at 0x400000 (encode_ehdr wrapping_hdr ++ encode_phdr wrapping_seg).

Lemma elfMemorySize_wraps_witness :
  ∃ n, elfMemorySize 0x1000 wrapping_mem = Done n wrapping_mem ∧ n < 0xFFFFFFFFFFFFFFF0.
Proof.
  apply (elfMemorySize_wraps wrapping_mem 0x1000 (ElfView 0x400000 120 wrapping_hdr [wrapping_seg] []) wrapping_seg).
  - apply elf_view_of_sound. vm_compute. reflexivity.
  - discriminate.
  - reflexivity.
  - vm_compute. discriminate.
  - split; vm_compute; [discriminate|reflexivity].
  - split; vm_compute; [discriminate|reflexivity].
Defined.

(** ** What the specification says of one byte *)

Lemma length_segment_bytes file size msize h :
  segment_fits size msize h → size = Z.of_nat (length file) →
  length (segment_bytes file h) = Z.to_nat h.(p_memsz).
Proof.
  intros [? ? ? ? ?] ->. unfold segment_bytes. rewrite length_app, length_slice, length_replicate by lia. lia.
Qed.

Lemma spec_instantiate_length file segs img size msize :
  Forall (segment_fits size msize) segs → size = Z.of_nat (length file) →
  msize = Z.of_nat (length img) → length (spec_instantiate file segs img) = length img.
Proof.
  intros Hf Hs. unfold spec_instantiate. revert img. induction Hf as [|h segs Hh _ IH]; intros img Hm; simpl; [done|].
  assert (Hl : length (load_segment file img h) = length img).
  { unfold load_segment. apply length_patch; [apply Hh|].
    rewrite (length_segment_bytes _ size msize) by done. destruct Hh. lia. }
  rewrite IH; [done|by rewrite Hl].
Qed.

(** A segment no later segment overlaps is in the image as its header says. *)
Lemma spec_instantiate_byte file segs1 h segs2 img size msize (k : nat) :
  Forall (segment_fits size msize) (segs1 ++ h :: segs2) → size = Z.of_nat (length file) →
  msize = Z.of_nat (length img) → (k < Z.to_nat h.(p_memsz))%nat →
  Forall (λ h', disjoint h.(p_paddr) h.(p_memsz) h'.(p_paddr) h'.(p_memsz)) segs2 →
  spec_instantiate file (segs1 ++ h :: segs2) img !! (Z.to_nat h.(p_paddr) + k)%nat =
    segment_bytes file h !! k.
Proof.
  intros Hf Hs Hm Hk Hd. apply Forall_app in Hf as [Hf1 Hf2].
  apply Forall_cons in Hf2 as [Hh Hf2].
  unfold spec_instantiate. rewrite foldl_app. simpl.
  pose proof (spec_instantiate_length _ _ _ _ _ Hf1 Hs Hm) as Hl1. fold (spec_instantiate file segs1 img).
  set (i1 := spec_instantiate file segs1 img) in *.
  assert (Hlen : length (load_segment file i1 h) = length img).
  { unfold load_segment. rewrite length_patch; [done|apply Hh|].
    rewrite (length_segment_bytes _ size msize) by done. destruct Hh. lia. }
  assert (Hbase : load_segment file i1 h !! (Z.to_nat h.(p_paddr) + k)%nat = segment_bytes file h !! k).
  { unfold load_segment. pose proof (length_segment_bytes file size msize h Hh Hs) as Hsb.
    pose proof Hh as [? ? ? ? ?]. rewrite lookup_patch by lia. rewrite decide_True by lia. f_equal. lia. }
  rewrite <- Hbase. clear Hbase. generalize dependent (load_segment file i1 h). clear i1 Hl1 Hf1 segs1.
  induction segs2 as [|h' segs2 IH]; intros im Hlen; simpl; [done|].
  apply Forall_cons in Hf2 as [Hh' Hf2]. apply Forall_cons in Hd as [Hd' Hd].
  pose proof (length_segment_bytes file size msize h' Hh' Hs) as Hsb.
  pose proof Hh as [? ? ? ? ?]. pose proof Hh' as [? ? ? ? ?].
  rewrite IH; [|done|done|].
  - unfold load_segment. rewrite lookup_patch by lia. rewrite decide_False; [done|]. unfold disjoint in Hd'. lia.
  - unfold load_segment. by rewrite length_patch by lia.
Qed.

(** C15. After elfLoaderInstantiate every segment that no later segment
    overlaps is in memory as its program header says: byte [k] is byte
    [p_offset + k] of the file below p_filesz and 0 from there to p_memsz. *)
Theorem elfLoaderInstantiate_segment m elf v memory msize file img segs1 h segs2 k :
  loading m elf v memory msize file img → target elf v memory msize →
  v.(v_hdr).(e_phoff) ≠ 0 → Forall (segment_fits v.(v_size) msize) v.(v_segs) →
  v.(v_segs) = segs1 ++ h :: segs2 →
  Forall (λ h', disjoint h.(p_paddr) h.(p_memsz) h'.(p_paddr) h'.(p_memsz)) segs2 →
  0 ≤ k < h.(p_memsz) →
  ∃ m', elfLoaderInstantiate elf memory m = Done ElfLoaderReturnOK m' ∧
    m' !! (memory + h.(p_paddr) + k) =
      if decide (k < h.(p_filesz)) then m !! (v.(v_data) + h.(p_offset) + k) else Some Byte.x00.
Proof.
  intros Hld Htg Hoff Hfits Hsegs Hd Hk.
  destruct (loading_lengths _ _ _ _ _ Htg _ _ Hld) as [Hlf Hli].
  destruct (elfLoaderInstantiate_ok _ _ _ _ _ _ _ Hld Htg Hoff Hfits) as (m' & Hi & [_ _ Hl] & Hs).
  exists m'. split; [done|]. rewrite Hsegs in *.
  assert (Hh : segment_fits (v_size v) msize h) by (apply Forall_app in Hfits as [_ Hf]; by apply Forall_cons in Hf as [? _]).
  pose proof Hh as [? ? ? ? ?].
  apply load_bytes_spec in Hl as [_ Hl].
  specialize (Hl (Z.to_nat (p_paddr h) + Z.to_nat k)%nat ltac:(lia)).
  rewrite (spec_instantiate_byte _ _ _ _ _ (v_size v) msize) in Hl; [|done|lia..|lia|done].
  replace (memory + Z.of_nat (Z.to_nat (p_paddr h) + Z.to_nat k)) with (memory + p_paddr h + k) in Hl by lia.
  rewrite Hl. unfold segment_bytes.
  assert (Hsl : length (slice file (p_offset h) (p_filesz h)) = Z.to_nat (p_filesz h)) by (apply length_slice; lia).
  case_decide.
  - rewrite lookup_app_l by lia.
    pose proof (load_slice m (v_data v) (v_size v) file (p_offset h) (p_filesz h) (ld_file _ _ _ _ _ _ _ Hld)) as Hsl'.
    specialize (Hsl' ltac:(lia) ltac:(lia) ltac:(lia)). apply load_bytes_spec in Hsl' as [_ Hsl'].
    rewrite <- (Hsl' (Z.to_nat k)) by lia. f_equal. lia.
  - rewrite lookup_app_r by lia. apply lookup_replicate_2. lia.
Qed.

Lemma elfLoaderInstantiate_segment_witness :
  ∃ m', elfLoaderInstantiate sample_elf sample_writable sample_mem = Done ElfLoaderReturnOK m' ∧
    m' !! (sample_writable + 0x40 + 20) = Some Byte.x00.
Proof.
  destruct (elfLoaderInstantiate_segment sample_mem sample_elf sample_view sample_writable 256
    sample_file (replicate 256 Byte.xff) (take 1 sample_phdrs)
    {| p_type := PT_LOAD; p_flags := 6; p_offset := 0x110; p_vaddr := 0x40; p_paddr := 0x40;
       p_filesz := 16; p_memsz := 32; p_align := 0x200000 |} (drop 2 sample_phdrs) 20
    sample_loading sample_target) as (m' & H1 & H2).
  - vm_compute. discriminate.
  - exact sample_fits.
  - reflexivity.
  - repeat constructor. vm_compute. discriminate.
  - split; vm_compute; [discriminate|reflexivity].
  - exists m'. split; [exact H1|exact H2].
Defined.

(** ** Which addresses are executable *)

(** The first result [f] gives along a list. *)
Fixpoint first_some {A B} (f : A → option B) (l : list A) : option B :=
  match l with
  | [] => None
  | x :: l => match f x with Some y => Some y | None => first_some f l end
  end.

Definition seg_exec (address : Z) (h : Elf64_Phdr) : option Z :=
  if (h.(p_paddr) <=? address) && (address <=? seg_end h) then Some (Z.land h.(p_flags) PF_X) else None.
Definition sec_exec (address : Z) (h : Elf64_Shdr) : option Z :=
  if (h.(sh_addr) <=? address) && (address <=? sec_end h) then Some (Z.land h.(sh_flags) SHF_EXECINSTR) else None.

Definition exec_flag (v : elf_view) (address : Z) : Z :=
  if negb (v.(v_hdr).(e_phoff) =? 0) then default 1 (first_some (seg_exec address) v.(v_segs))
  else if negb (v.(v_hdr).(e_shoff) =? 0) then default 1 (first_some (sec_exec address) v.(v_secs))
  else ElfLoaderReturnNoSectionsOrSegments.

(** A read-only search of a table for the first entry that decides. *)
Lemma table_first {T R} (decode : mem → Z → option T) m base size n l
    (body : Z → C mem (() + R)) (f : T → option R) :
  table_ok decode m base size n l →
  (∀ s x, s ≠ 0 → decode m s = Some x →
     body s m = Done match f x with Some r => inr r | None => inl () end m) →
  for_range 0 n () (λ i _, s ← entry base i size; body s) m =
    Done match first_some f l with Some r => inr r | None => inl () end m.
Proof.
  intros Htab Hb. rewrite (tab_len _ _ _ _ _ _ Htab). unfold for_range. rewrite Z.sub_0_r, Nat2Z.id.
  assert (Hs : ∀ (i : nat) x, l !! i = Some x →
    (s ← entry base (0 + Z.of_nat i) size; body s) m =
      Done match f x with Some r => inr r | None => inl () end m).
  { intros i x Hx.
    destruct (table_ok_entry _ _ _ _ _ _ (0 + Z.of_nat i) x Htab) as (He & Hnz & Hd); [lia|by rewrite Z.add_0_l, Nat2Z.id|].
    rewrite (bind_done _ _ _ _ _ He). by apply Hb. }
  clear Htab Hb. revert Hs. generalize 0 as k. induction l as [|x l IH]; intros k Hs; simpl; [done|].
  rewrite bind_done with (a := match f x with Some r => inr r | None => inl () end) (s' := m).
  - destruct (f x); [done|]. apply IH. intros i y Hy.
    replace (k + 1 + Z.of_nat i) with (k + Z.of_nat (S i)) by lia. by apply Hs.
  - rewrite <- (Hs O x eq_refl). by rewrite Z.add_0_r.
Qed.

Lemma executable_segment_ok m address s h :
  s ≠ 0 → decode_phdr m s = Some h →
  executable_segment address s m =
    Done match seg_exec address h with Some r => inr r | None => inl () end m.
Proof.
  intros Hnz Hd. unfold executable_segment, seg_exec, seg_end. cstep.
  destruct (p_paddr h <=? address); [|done]. cbn [negb]. do 2 cstep.
  destruct (address <=? u64 (p_paddr h + p_memsz h)); [|done]. cbn [negb andb]. by cstep.
Qed.

Lemma executable_section_ok m address s h :
  s ≠ 0 → decode_shdr m s = Some h →
  executable_section address s m =
    Done match sec_exec address h with Some r => inr r | None => inl () end m.
Proof.
  intros Hnz Hd. unfold executable_section, sec_exec, sec_end. cstep.
  destruct (sh_addr h <=? address); [|done]. cbn [negb]. do 2 cstep.
  destruct (address <=? u64 (sh_addr h + sh_size h)); [|done]. cbn [negb andb]. by cstep.
Qed.

Lemma isExecutable_ok m elf v address :
  elf_at m elf v →
  elfLoaderRelativeAddressIsExecutable elf address m = Done (exec_flag v address) m.
Proof.
  intros Hat. unfold elfLoaderRelativeAddressIsExecutable, exec_flag. rewrite (elf_nz _ _ _ Hat).
  rewrite (bind_done _ _ _ _ _ (elfSegments_ok _ _ _ Hat true true)).
  destruct (e_phoff (v_hdr v) =? 0) eqn:Hp; cbn [negb Z.eqb].
  - rewrite (bind_done _ _ _ _ _ (elfSections_ok _ _ _ Hat true true)).
    destruct (e_shoff (v_hdr v) =? 0) eqn:Hs; cbn [negb Z.eqb]; [done|]. zb.
    pose proof (at_secs _ _ _ Hat Hs) as Htab.
    replace (sec_base v =? 0) with false by (pose proof (tab_base _ _ _ _ _ _ Htab); lia).
    simpl out. do 2 cstep.
    rewrite (bind_done _ _ _ _ _ (table_first _ _ _ _ _ _ _ (sec_exec address) Htab
      ltac:(intros; by apply executable_section_ok))).
    by destruct (first_some _ _).
  - zb. pose proof (at_segs _ _ _ Hat Hp) as Htab.
    replace (seg_base v =? 0) with false by (pose proof (tab_base _ _ _ _ _ _ Htab); lia).
    simpl out. cbn [negb]. do 2 cstep.
    rewrite (bind_done _ _ _ _ _ (table_first _ _ _ _ _ _ _ (seg_exec address) Htab
      ltac:(intros; by apply executable_segment_ok))).
    by destruct (first_some _ _).
Qed.

Lemma first_some_spec {A B} (f : A → option B) l y :
  first_some f l = Some y ↔
  ∃ i x, l !! i = Some x ∧ f x = Some y ∧ ∀ j z, (j < i)%nat → l !! j = Some z → f z = None.
Proof.
  induction l as [|a l IH]; simpl; [split; [done|intros (i & x & H & _); by rewrite lookup_nil in H]|].
  destruct (f a) as [b|] eqn:Ha.
  - split.
    + intros [= ->]. exists O, a. split_and!; [done..|lia].
    + intros ([|i] & x & Hx & Hf & Hb); simplify_eq/=; [congruence|].
      specialize (Hb O a ltac:(lia) eq_refl). congruence.
  - rewrite IH. split.
    + intros (i & x & Hx & Hf & Hb). exists (S i), x. split_and!; [done..|].
      intros [|j] z Hj Hz; simplify_eq/=; [done|]. apply (Hb j); [lia|done].
    + intros ([|i] & x & Hx & Hf & Hb); simplify_eq/=. exists i, x. split_and!; [done..|].
      intros j z Hj Hz. apply (Hb (S j)); [lia|done].
Qed.

(** elfLoaderRelativeAddressIsExecutable answers with the execute bit of
    the first segment whose range, both ends included, has the address, and
    with 1 if no segment has it. *)
Theorem isExecutable_first_segment m elf v address :
  elf_at m elf v → v.(v_hdr).(e_phoff) ≠ 0 →
  ∃ f, elfLoaderRelativeAddressIsExecutable elf address m = Done f m ∧
  ((∃ i h, v.(v_segs) !! i = Some h ∧ h.(p_paddr) ≤ address ≤ seg_end h ∧
      f = Z.land h.(p_flags) PF_X ∧
      ∀ j h', (j < i)%nat → v.(v_segs) !! j = Some h' → ¬ (h'.(p_paddr) ≤ address ≤ seg_end h'))
   ∨ f = 1 ∧ ∀ h, h ∈ v.(v_segs) → ¬ (h.(p_paddr) ≤ address ≤ seg_end h)).
Proof.
  intros Hat Hoff. eexists. split; [by apply isExecutable_ok|]. unfold exec_flag.
  replace (e_phoff (v_hdr v) =? 0) with false by lia. cbn [negb].
  assert (Hno : ∀ h, seg_exec address h = None → ¬ (p_paddr h ≤ address ≤ seg_end h)).
  { intros h. unfold seg_exec. case_match eqn:E; [done|]. intros _ ?. apply andb_false_iff in E as [?|?]; zb; lia. }
  destruct (first_some (seg_exec address) (v_segs v)) as [f|] eqn:Hf; [left|right].
  - apply first_some_spec in Hf as (i & h & Hi & Hs & Hb). exists i, h. unfold seg_exec in Hs.
    case_match eqn:E; [|done]. zb. simplify_eq. split_and!; [done|lia|lia|done|].
    intros j h' Hj Hl. by apply Hno, (Hb j).
  - split; [done|]. intros h [i Hi]%list_elem_of_lookup. apply Hno.
    destruct (seg_exec address h) eqn:He; [|done]. exfalso.
    assert (∃ y, first_some (seg_exec address) (v_segs v) = Some y) as [y Hy]; [|by rewrite Hf in Hy].
    clear Hf. revert i Hi. induction (v_segs v) as [|a l IH]; intros [|i] Hi; simplify_eq/=.
    + rewrite He. eauto.
    + destruct (seg_exec address a); eauto.
Qed.

Lemma isExecutable_first_segment_witness :
  ∃ f, elfLoaderRelativeAddressIsExecutable sample_elf 4 sample_mem = Done f sample_mem.
Proof.
  destruct (isExecutable_first_segment sample_mem sample_elf sample_view 4 sample_at) as (f & H & _);
    [vm_compute; discriminate|]. exists f. exact H.
Defined.

(** The upper end is one too far: the first byte of an executable segment
    that starts where a non-executable one ends is taken for data. *)
Theorem isExecutable_end_inclusive m elf v h1 h2 segs :
  elf_at m elf v → v.(v_hdr).(e_phoff) ≠ 0 → v.(v_segs) = h1 :: h2 :: segs →
  Z.land h1.(p_flags) PF_X = 0 → Z.land h2.(p_flags) PF_X = PF_X →
  0 ≤ h1.(p_memsz) → h1.(p_paddr) + h1.(p_memsz) < 2 ^ 64 → 0 ≤ h1.(p_paddr) →
  h2.(p_paddr) = h1.(p_paddr) + h1.(p_memsz) → 0 < h2.(p_memsz) →
  elfLoaderRelativeAddressIsExecutable elf h2.(p_paddr) m = Done 0 m.
Proof.
  intros Hat Hoff Hsegs Hf1 Hf2 Hm1 Hle Hp Hadj Hm2. rewrite (isExecutable_ok _ _ _ _ Hat).
  unfold exec_flag. replace (e_phoff (v_hdr v) =? 0) with false by lia. cbn [negb].
  rewrite Hsegs. simpl. unfold seg_exec, seg_end. rewrite u64_small by lia.
  replace ((p_paddr h1 <=? p_paddr h2) && (p_paddr h2 <=? p_paddr h1 + p_memsz h1)) with true by lia.
  simpl. by rewrite Hf1.
Qed.

(** An image of a data segment directly followed by a text segment. *)
Definition adjacent_segs : list Elf64_Phdr :=
  [ {| p_type := PT_LOAD; p_flags := 6; p_offset := 0; p_vaddr := 0; p_paddr := 0;
       p_filesz := 16; p_memsz := 16; p_align := 16 |};
    {| p_type := PT_LOAD; p_flags := 5; p_offset := 16; p_vaddr := 16; p_paddr := 16;
       p_filesz := 16; p_memsz := 16; p_align := 16 |} ].

Definition adjacent_hdr : Elf64_Ehdr :=
  {| e_ident := e_ident sample_ehdr; e_type := ET_DYN; e_machine := EM_X86_64; e_version := EV_CURRENT;
     e_entry := 16; e_phoff := 64; e_shoff := 0; e_flags := 0; e_ehsize := 64;
     e_phentsize := 56; e_phnum := 2; e_shentsize := 0; e_shnum := 0; e_shstrndx := 0 |}.

Definition adjacent_mem : mem :=
  bytes_at 0x1000 (le_split 8 0x400000 ++ le_split 8 176)
  ∪ bytes_at 0x400000 (encode_ehdr adjacent_hdr ++ concat (map encode_phdr adjacent_segs)).

Lemma isExecutable_end_inclusive_witness :
  elfLoaderRelativeAddressIsExecutable 0x1000 16 adjacent_mem = Done 0 adjacent_mem.
Proof.
  eapply (isExecutable_end_inclusive adjacent_mem 0x1000
    (ElfView 0x400000 176 adjacent_hdr adjacent_segs []) _
    {| p_type := PT_LOAD; p_flags := 5; p_offset := 16; p_vaddr := 16; p_paddr := 16;
       p_filesz := 16; p_memsz := 16; p_align := 16 |}).
  - apply elf_view_of_sound. vm_compute. reflexivity.
  - discriminate.
  - reflexivity.
  - reflexivity.
  - reflexivity.
  - discriminate.
  - reflexivity.
  - discriminate.
  - reflexivity.
  - reflexivity.
Defined.
