(* ===== verification/ElfRelocate.v ===== *)
(** * Relocation and loading as a whole

    The specification of elfLoaderRelocate on the symbol and relocation
    tables of an image, the proof that the code implements it, and the
    end-to-end theorems of elfLoaderLoad. *)

From S2P Require Import Prelude.
From S2P Require Import Memory.
From S2P Require Import ElfFormat.
From S2P Require Import Sample.
From S2P Require Import ElfTables.
From S2P Require Import ElfStrings.
From S2P Require Import ElfDynamic.
From S2P Require Import ElfLoader.

(** ** Named tables of an image *)

Definition find_section (v : elf_view) (tbl name : list byte) : option (Z * Elf64_Shdr) :=
  k ← sec_find v 0 ElfSectionAttributeName (name_offset tbl name);
  h ← v.(v_secs) !! Z.to_nat k;
  Some (k, h).

Definition is_rela (t : Z) : bool := t =? SHT_RELA.
Definition is_symtab (t : Z) : bool := (t =? SHT_SYMTAB) || (t =? SHT_DYNSYM).

(** The section [h] holds the entries [l], all inside the file. *)
Record holds {T} (decode : mem → Z → option T) (m : mem) (v : elf_view) (h : Elf64_Shdr)
    (l : list T) : Prop := {
  ho_size : 24 ≤ h.(sh_entsize) < 2 ^ 16;
  ho_len : h.(sh_size) / h.(sh_entsize) = Z.of_nat (length l);
  ho_count : Z.of_nat (length l) < 2 ^ 16;
  ho_off : 0 ≤ h.(sh_offset);
  ho_file : h.(sh_offset) + Z.of_nat (length l) * h.(sh_entsize) ≤ v.(v_size);
  ho_int : Z.of_nat (length l) * h.(sh_entsize) ≤ INT_MAX;
  ho_at : ∀ (i : nat) x, l !! i = Some x →
    decode m (v.(v_data) + h.(sh_offset) + Z.of_nat i * h.(sh_entsize)) = Some x }.

(** A section that is missing or of another type holds no entries. *)
Definition holds_named {T} (decode : mem → Z → option T) (types : Z → bool) (m : mem)
    (v : elf_view) (tbl name : list byte) (l : list T) : Prop :=
  match find_section v tbl name with
  | Some (_, h) => if types h.(sh_type) then holds decode m v h l else l = []
  | None => l = []
  end.

(** What elfAddendRelocations and elfSymbols answer for [name]. *)
Definition named_entries (types : Z → bool) (v : elf_view) (tbl name : list byte)
    : Z * (option Z * option Z) :=
  match find_section v tbl name with
  | Some (_, h) =>
      if types h.(sh_type) then
        (ptr_add v.(v_data) h.(sh_offset),
         (Some (u16 h.(sh_entsize)), Some (u16 (h.(sh_size) / h.(sh_entsize)))))
      else (0, (None, None))
  | None => (0, (None, None))
  end.

(** The tables elfLoaderRelocate works on. *)
Record linkage := Linkage {
  lk_str : Elf64_Shdr;
  lk_names : list byte;
  lk_syms : list Elf64_Sym;
  lk_dyn : list Elf64_Rela;
  lk_plt : list Elf64_Rela }.

Record linkable (m : mem) (v : elf_view) (k : linkage) : Prop := {
  ln_secs : v.(v_hdr).(e_shoff) ≠ 0;
  ln_str : v.(v_secs) !! Z.to_nat v.(v_hdr).(e_shstrndx) = Some k.(lk_str);
  ln_off : 0 ≤ k.(lk_str).(sh_offset);
  ln_file : k.(lk_str).(sh_offset) + k.(lk_str).(sh_size) ≤ v.(v_size);
  ln_tab : strtab m (ptr_add v.(v_data) k.(lk_str).(sh_offset)) k.(lk_names);
  ln_size : k.(lk_str).(sh_size) = Z.of_nat (length k.(lk_names));
  ln_syms : holds_named decode_sym is_symtab m v k.(lk_names) s_dynsym k.(lk_syms);
  ln_dyn : holds_named decode_rela is_rela m v k.(lk_names) s_rela_dyn k.(lk_dyn);
  ln_plt : holds_named decode_rela is_rela m v k.(lk_names) s_rela_plt k.(lk_plt) }.

(** ** Specification *)

Definition sym_value (syms : list Elf64_Sym) (i : Z) : Z :=
  match syms !! Z.to_nat i with Some s => s.(st_value) | None => 0 end.

Definition reloc_type (r : Elf64_Rela) : Z := u16 (ELF64_R_TYPE r.(r_info)).
Definition reloc_sym (r : Elf64_Rela) : Z := u16 (ELF64_R_SYM r.(r_info)).

(** The unrelocated value of an entry; [None] for a type that is not handled. *)
Definition reloc_value (syms : list Elf64_Sym) (r : Elf64_Rela) : option Z :=
  if reloc_type r =? R_X86_64_RELATIVE then Some r.(r_addend)
  else if reloc_type r =? R_X86_64_64 then Some (u64 (sym_value syms (reloc_sym r) + r.(r_addend)))
  else if (reloc_type r =? R_X86_64_JMP_SLOT) || (reloc_type r =? R_X86_64_GLOB_DAT)
  then Some (sym_value syms (reloc_sym r))
  else None.

(** The word stored for a value: code is addressed through the executable
    mapping, data through the writable one. *)
Definition reloc_word (v : elf_view) (writable executable value : Z) : list byte :=
  le_split 8 (u64 ((if c_true (exec_flag v value) then executable else writable) + value)).

Fixpoint spec_relocate (v : elf_view) (writable executable : Z) (syms : list Elf64_Sym)
    (relas : list Elf64_Rela) (img : list byte) : list byte * Z :=
  match relas with
  | [] => (img, ElfLoaderReturnOK)
  | r :: relas =>
      match reloc_value syms r with
      | None => (img, ElfLoaderReturnUnknownRelocation)
      | Some value =>
          spec_relocate v writable executable syms relas
            (patch img r.(r_offset) (reloc_word v writable executable value))
      end
  end.

(** The slot lies in the target and the symbol, where one is used, in the table. *)
Record reloc_ok (msize : Z) (syms : list Elf64_Sym) (r : Elf64_Rela) : Prop := {
  ro_off : 0 ≤ r.(r_offset);
  ro_slot : r.(r_offset) + 8 ≤ msize;
  ro_sym : reloc_type r ≠ R_X86_64_RELATIVE → reloc_sym r < Z.of_nat (length syms) }.

(** ** The tables do not move *)

Lemma holds_named_same {T} (decode : mem → Z → option T) types m m' v tbl name l :
  (∀ a, 0 ≤ a → a + 24 ≤ 2 ^ 64 → same_on m m' a 24 → decode m' a = decode m a) →
  0 < v.(v_data) ∧ v.(v_data) + v.(v_size) < 2 ^ 64 → same_on m m' v.(v_data) v.(v_size) →
  holds_named decode types m v tbl name l → holds_named decode types m' v tbl name l.
Proof.
  intros Hdec [Hd Hle] Hs. unfold holds_named. destruct (find_section v tbl name) as [[k h]|]; [|done].
  case_match; [|done]. intros [? ? ? ? ? ? Hat]. split; [done..|].
  intros i x Hx. pose proof (lookup_lt_Some _ _ _ Hx).
  assert (Z.of_nat i * sh_entsize h + sh_entsize h ≤ Z.of_nat (length l) * sh_entsize h) by nia.
  assert (0 ≤ Z.of_nat i * sh_entsize h) by nia.
  rewrite Hdec; [by apply Hat|lia..|]. eapply same_on_sub; [exact Hs|lia|lia].
Qed.

Lemma linkable_same m m' elf v k :
  image_ok m elf v → same_on m m' v.(v_data) v.(v_size) → linkable m v k → linkable m' v k.
Proof.
  intros Him Hs [? ? ? ? [Hp Ht Hl Hlast] Hsz H1 H2 H3]. pose proof (im_data _ _ _ Him) as Hd.
  split; try done.
  - split; try done. rewrite <- Hl. apply load_bytes_same.
    unfold ptr_add. rewrite u64_small by lia. eapply same_on_sub; [exact Hs|lia|lia].
  - eapply holds_named_same; [intros; by apply decode_sym_same|done..].
  - eapply holds_named_same; [intros; by apply decode_rela_same|done..].
  - eapply holds_named_same; [intros; by apply decode_rela_same|done..].
Qed.

(** ** The accessors *)

Section named.
Context (m : mem) (elf : Z) (v : elf_view) (k : linkage).
Context (Hat : elf_at m elf v) (Hlk : linkable m v k).

Lemma find_section_ok name :
  cstring name →
  match find_section v k.(lk_names) name with
  | Some (i, h) => elfSectionByName elf (Some name) m = Done (sec_addr v i) m ∧
      sec_addr v i ≠ 0 ∧ decode_shdr m (sec_addr v i) = Some h
  | None => elfSectionByName elf (Some name) m = Done 0 m
  end.
Proof using Hat Hlk.
  intros Hcs. destruct Hlk as [Hoff Hst _ _ Htab Hsz _ _ _].
  pose proof (elfSectionByName_ok _ _ _ _ _ Hat Hoff Hst Htab Hsz name Hcs) as Hb.
  pose proof (sec_find_spec _ _ _ Hat 0 ElfSectionAttributeName
    (name_offset k.(lk_names) name) ltac:(lia) Hoff) as Hf.
  unfold find_section. destruct (sec_find _ _ _ _) as [i|]; [|done].
  destruct Hf as (h & _ & Hi & _ & Hnz & Hd & _). simpl. rewrite Hi. simpl. done.
Qed.

Lemma section_entries_ok i h :
  sec_addr v i ≠ 0 → decode_shdr m (sec_addr v i) = Some h → h.(sh_entsize) ≠ 0 →
  section_entries elf (sec_addr v i) true true m =
    Done (ptr_add v.(v_data) h.(sh_offset),
       (Some (u16 h.(sh_entsize)), Some (u16 (h.(sh_size) / h.(sh_entsize))))) m.
Proof using Hat.
  intros Hnz Hd He. unfold section_entries. rewrite bind_assoc. cstep. rewrite bind_ret.
  rewrite !bind_assoc. cstep. rewrite bind_assoc. cstep.
  rewrite bind_assoc, (bind_done _ _ _ _ _ (div_u_ok _ _ m He)), bind_ret.
  rewrite (bind_done _ _ _ _ _ (get_data_ok _ _ _ Hat)). by cstep.
Qed.

Lemma elfAddendRelocations_ok name (l : list Elf64_Rela) :
  cstring name → holds_named decode_rela is_rela m v k.(lk_names) name l →
  elfAddendRelocations elf (Some name) true true m =
    Done (named_entries is_rela v k.(lk_names) name) m.
Proof using Hat Hlk.
  intros Hcs Hh. pose proof (find_section_ok name Hcs) as Hf.
  unfold elfAddendRelocations, named_entries, holds_named in *.
  destruct (find_section _ _ _) as [[i h]|].
  - destruct Hf as (Hb & Hnz & Hd). rewrite (bind_done _ _ _ _ _ Hb).
    replace (sec_addr v i =? 0) with false by lia. cstep. unfold is_rela in *.
    destruct (sh_type h =? SHT_RELA); cbn [negb]; [|done].
    apply section_entries_ok; [done..|]. destruct Hh. lia.
  - by rewrite (bind_done _ _ _ _ _ Hf).
Qed.

Lemma elfSymbols_ok name (l : list Elf64_Sym) :
  cstring name → holds_named decode_sym is_symtab m v k.(lk_names) name l →
  elfSymbols elf (Some name) true true m =
    Done (named_entries is_symtab v k.(lk_names) name) m.
Proof using Hat Hlk.
  intros Hcs Hh. pose proof (find_section_ok name Hcs) as Hf.
  unfold elfSymbols, named_entries, holds_named in *.
  destruct (find_section _ _ _) as [[i h]|].
  - destruct Hf as (Hb & Hnz & Hd). rewrite (bind_done _ _ _ _ _ Hb).
    replace (sec_addr v i =? 0) with false by lia. cstep. unfold is_symtab in *.
    rewrite <- negb_orb.
    destruct ((sh_type h =? SHT_SYMTAB) || (sh_type h =? SHT_DYNSYM)); cbn [negb]; [|done].
    apply section_entries_ok; [done..|]. destruct Hh. lia.
  - by rewrite (bind_done _ _ _ _ _ Hf).
Qed.
End named.

(** Entry [i] of a named table is where the code looks for it. *)
Lemma named_entry {T} (decode : mem → Z → option T) types m v tbl name (l : list T) b s n d :
  0 < v.(v_data) ∧ v.(v_data) + v.(v_size) < 2 ^ 64 →
  holds_named decode types m v tbl name l → named_entries types v tbl name = (b, (s, n)) →
  default 0 n = Z.of_nat (length l) ∧
  ∀ (i : nat) x, l !! i = Some x →
    mul_int (default d s) (Z.of_nat i) m = Done (default d s * Z.of_nat i) m ∧
    ptr_add b (default d s * Z.of_nat i) ≠ 0 ∧
    decode m (ptr_add b (default d s * Z.of_nat i)) = Some x.
Proof.
  unfold holds_named, named_entries. intros [Hd Hle].
  destruct (find_section v tbl name) as [[k h]|]; [case_match|];
    [|intros -> [= <- <- <-]; by split..].
  intros [Hes Hlen Hc Ho Hf Hi Hat] [= <- <- <-]. rewrite (u16_small (sh_entsize h)) by lia.
  rewrite Hlen, u16_small by lia. split; [done|]. intros i x Hx.
  pose proof (lookup_lt_Some _ _ _ Hx). simpl.
  assert (Z.of_nat i * sh_entsize h + sh_entsize h ≤ Z.of_nat (length l) * sh_entsize h) by nia.
  assert (0 ≤ Z.of_nat i * sh_entsize h) by nia. rewrite (Z.mul_comm (sh_entsize h)).
  assert (ptr_add (ptr_add (v_data v) (sh_offset h)) (Z.of_nat i * sh_entsize h) =
    v_data v + sh_offset h + Z.of_nat i * sh_entsize h) as ->.
  { unfold ptr_add. rewrite u64_add_l, u64_small by lia. lia. }
  split; [|split; [lia|by apply Hat]].
  rewrite Z.mul_comm. apply mul_int_ok. lia.
Qed.

(** ** One relocation *)

Section relocating.
Context (elf : Z) (v : elf_view) (writable msize executable : Z) (file : list byte) (k : linkage).
Context (Htg : target elf v writable msize).

(** The loader's state between two relocations. *)
Definition linking (m : mem) (img : list byte) : Prop :=
  loading m elf v writable msize file img ∧ linkable m v k.

Lemma linking_store m m' img p bs :
  linking m img → 0 ≤ p → p + Z.of_nat (length bs) ≤ msize →
  same_off m m' (writable + p) (Z.of_nat (length bs)) →
  load_bytes m' (writable + p) (length bs) = Some bs →
  linking m' (patch img p bs) ∧ same_off m m' writable msize.
Proof using Htg.
  intros [Hld Hlk] Hp Hle Hoff Hl.
  destruct (loading_store _ _ _ _ _ Htg _ _ _ _ _ Hld Hp Hle Hoff Hl) as [Hld' Hs].
  split; [split; [done|]|done]. eapply linkable_same; [apply Hld| |done].
  eapply same_off_on; [exact Hs|apply Htg].
Qed.

(** The store of a relocated word. *)
Lemma store_word m img off w :
  linking m img → 0 ≤ off → off + 8 ≤ msize →
  ∃ m', set_field 8 (ptr_add writable off) 0 w m = Done () m' ∧
    linking m' (patch img off (le_split 8 w)) ∧ same_off m m' writable msize.
Proof using Htg.
  intros Hlk Ho Hle. pose proof Htg as [? ? ? _ _].
  assert (Hm : mapped m (writable + off) (Z.of_nat 8))
    by (eapply loading_mapped; [done|apply Hlk|lia..]).
  destruct (store_bytes_mapped m (writable + off) (le_split 8 w)) as [m' Hs];
    [by rewrite length_le_split|].
  exists m'. split.
  - unfold set_field, write, ptr_add. rewrite !u64_small by (rewrite ?u64_small by lia; lia).
    replace (writable + off =? 0) with false by lia. by rewrite Z.add_0_r, Hs.
  - apply (linking_store m); [done|lia|rewrite length_le_split; lia|..].
    + by apply store_bytes_off.
    + by eapply store_bytes_load.
Qed.
(** The symbol a relocation names. *)
Lemma read_symbol m b s n i :
  elf_at m elf v → 0 < v.(v_data) ∧ v.(v_data) + v.(v_size) < 2 ^ 64 → linkable m v k →
  named_entries is_symtab v k.(lk_names) s_dynsym = (b, (s, n)) →
  0 ≤ i < Z.of_nat (length k.(lk_syms)) →
  (o ← mul_int (default 0 s) i; get_st_value (ptr_add b o)) m = Done (sym_value k.(lk_syms) i) m.
Proof using.
  intros _ Hd Hlk He Hi.
  destruct (named_entry _ _ _ _ _ _ _ _ _ _ 0 Hd (ln_syms _ _ _ Hlk) He) as [_ Hent].
  destruct (lookup_lt_is_Some_2 k.(lk_syms) (Z.to_nat i)) as [x Hx]; [lia|].
  destruct (Hent _ _ Hx) as (Hmul & Hnz & Hdec). rewrite Z2Nat.id in * by lia.
  rewrite (bind_done _ _ _ _ _ Hmul). unfold sym_value. rewrite Hx. by apply get_st_value_ok.
Qed.

Lemma relocate_one_ok m img b s n a r :
  linking m img → named_entries is_symtab v k.(lk_names) s_dynsym = (b, (s, n)) →
  a ≠ 0 → decode_rela m a = Some r → reloc_ok msize k.(lk_syms) r →
  match reloc_value k.(lk_syms) r with
  | None => relocate_one elf writable executable b (default 0 s) a m =
      Done (inr ElfLoaderReturnUnknownRelocation) m
  | Some value => ∃ m', relocate_one elf writable executable b (default 0 s) a m = Done (inl ()) m' ∧
      linking m' (patch img r.(r_offset) (reloc_word v writable executable value)) ∧
      same_off m m' writable msize
  end.
Proof using Htg.
  intros Hlink He Hnz Hd [Ho Hslot Hsym]. pose proof Hlink as [[[Hat _ Hdata _ _ _] _ _] Hlk].
  assert (Hs : reloc_type r ≠ R_X86_64_RELATIVE → 
    (o ← mul_int (default 0 s) (reloc_sym r); get_st_value (ptr_add b o)) m =
      Done (sym_value k.(lk_syms) (reloc_sym r)) m).
  { intros Ht. eapply read_symbol; [done..|]. split; [apply u16_range|by apply Hsym]. }
  assert (Hval : ∀ F : Z + Z → C mem (() + Z),
    (value ← (if reloc_type r =? R_X86_64_RELATIVE then a ← get_r_addend a; mret (inl a)
      else if reloc_type r =? R_X86_64_64 then
        k ← mul_int (default 0 s) (reloc_sym r); s ← get_st_value (ptr_add b k);
        a ← get_r_addend a; mret (inl (u64 (s + a)))
      else if (reloc_type r =? R_X86_64_JMP_SLOT) || (reloc_type r =? R_X86_64_GLOB_DAT) then
        k ← mul_int (default 0 s) (reloc_sym r); s ← get_st_value (ptr_add b k); mret (inl s)
      else mret (inr ElfLoaderReturnUnknownRelocation)); F value) m =
    F (match reloc_value k.(lk_syms) r with Some x => inl x | None => inr ElfLoaderReturnUnknownRelocation end) m).
  { intros F. unfold reloc_value. destruct (reloc_type r =? R_X86_64_RELATIVE) eqn:E1; zb.
    { rewrite bind_assoc. by cstep. }
    specialize (Hs E1). destruct (reloc_type r =? R_X86_64_64).
    { apply bind_inv in Hs as (o & m1 & Hm & Hs).
      rewrite bind_assoc, (bind_done _ _ _ _ _ Hm), bind_assoc, (bind_done _ _ _ _ _ Hs), bind_assoc. by cstep. }
    destruct (_ || _); [|done].
    apply bind_inv in Hs as (o & m1 & Hm & Hs).
    by rewrite bind_assoc, (bind_done _ _ _ _ _ Hm), bind_assoc, (bind_done _ _ _ _ _ Hs). }
  unfold relocate_one. do 3 cstep. fold (reloc_type r) (reloc_sym r). rewrite Hval. clear Hval Hs.
  destruct (reloc_value k.(lk_syms) r) as [value|]; [|done].
  rewrite (bind_done _ _ _ _ _ (isExecutable_ok _ _ _ value Hat)). unfold reloc_word.
  destruct (c_true (exec_flag v value));
    (edestruct store_word as (m' & Hw & Hl' & Hs'); [exact Hlink|exact Ho|exact Hslot|]);
    (exists m'; rewrite (bind_done _ _ _ _ _ Hw); done).
Qed.
(** What a relocation loop ends with. *)
Definition loop_result (code : Z) : () + Z :=
  if code =? ElfLoaderReturnOK then inl () else inr code.

Lemma spec_relocate_code syms relas img :
  (spec_relocate v writable executable syms relas img).2 = ElfLoaderReturnOK ∨
  (spec_relocate v writable executable syms relas img).2 = ElfLoaderReturnUnknownRelocation.
Proof using.
  revert img. induction relas as [|r relas IH]; intros img; simpl; [by left|].
  destruct (reloc_value syms r); [apply IH|by right].
Qed.

Lemma spec_relocate_app syms l1 l2 img :
  spec_relocate v writable executable syms (l1 ++ l2) img =
    let '(img', code) := spec_relocate v writable executable syms l1 img in
    if code =? ElfLoaderReturnOK then spec_relocate v writable executable syms l2 img'
    else (img', code).
Proof using.
  revert img. induction l1 as [|r l1 IH]; intros img; simpl; [done|].
  destruct (reloc_value syms r); [apply IH|done].
Qed.

(** The loop over the entries of one relocation section, from entry [i] on. *)
Lemma relocate_loop name (l : list Elf64_Rela) b s n rb rs rn rd :
  named_entries is_symtab v k.(lk_names) s_dynsym = (b, (s, n)) →
  named_entries is_rela v k.(lk_names) name = (rb, (rs, rn)) →
  (∀ m, linkable m v k → holds_named decode_rela is_rela m v k.(lk_names) name l) →
  Forall (reloc_ok msize k.(lk_syms)) l →
  ∀ l' (i : nat) m img, drop i l = l' → linking m img →
  ∃ m', for_up (length l') (Z.of_nat i) () (λ i _,
      o ← mul_int (default rd rs) i;
      relocate_one elf writable executable b (default 0 s) (ptr_add rb o)) m =
      Done (loop_result (spec_relocate v writable executable k.(lk_syms) l' img).2) m' ∧
    linking m' (spec_relocate v writable executable k.(lk_syms) l' img).1 ∧
    same_off m m' writable msize.
Proof using Htg.
  intros Hsy Hre Hh Hok. induction l' as [|r l' IH]; intros i m img Hdrop Hlink; simpl.
  { exists m. by split_and!. }
  apply drop_S' in Hdrop as [Hr Hdrop]. pose proof Hlink as [[Him _ _] Hlk].
  destruct (named_entry _ _ _ _ _ _ _ _ _ _ rd (im_data _ _ _ Him) (Hh m Hlk) Hre) as [_ Hent].
  destruct (Hent _ _ Hr) as (Hmul & Hnz & Hdec).
  pose proof (relocate_one_ok m img _ _ _ _ r Hlink Hsy Hnz Hdec (Forall_lookup_1 _ _ _ _ Hok Hr)) as Hone.
  destruct (reloc_value k.(lk_syms) r) as [value|].
  - destruct Hone as (m1 & H1 & Hl1 & Hs1).
    rewrite bind_assoc, (bind_done _ _ _ _ _ Hmul), (bind_done _ _ _ _ _ H1).
    destruct (IH (S i) m1 _ Hdrop Hl1) as (m2 & H2 & Hl2 & Hs2).
    exists m2. replace (Z.of_nat i + 1) with (Z.of_nat (S i)) by lia. split; [exact H2|]. split; [done|].
    intros x Hx. by rewrite Hs2, Hs1.
  - exists m. rewrite bind_assoc, (bind_done _ _ _ _ _ Hmul), (bind_done _ _ _ _ _ Hone). by split_and!.
Qed.

Definition relas_of (name : list byte) : list Elf64_Rela :=
  if bool_decide (name = s_rela_dyn) then k.(lk_dyn) else k.(lk_plt).

Lemma relas_of_holds m name :
  name ∈ [s_rela_dyn; s_rela_plt] → linkable m v k →
  holds_named decode_rela is_rela m v k.(lk_names) name (relas_of name).
Proof using.
  intros Hn Hlk. unfold relas_of. case_bool_decide as He; [rewrite He; apply Hlk|].
  apply elem_of_cons in Hn as [?|Hn%list_elem_of_singleton]; [done|]. rewrite Hn. apply Hlk.
Qed.

Lemma relocate_sections_ok b s n :
  named_entries is_symtab v k.(lk_names) s_dynsym = (b, (s, n)) →
  ∀ names rd m img, names ⊆ [s_rela_dyn; s_rela_plt] → Forall cstring names →
  Forall (reloc_ok msize k.(lk_syms)) (concat (map relas_of names)) → linking m img →
  let r := spec_relocate v writable executable k.(lk_syms) (concat (map relas_of names)) img in
  ∃ m', relocate_sections elf writable executable b (default 0 s) names rd m = Done r.2 m' ∧
    linking m' r.1 ∧ same_off m m' writable msize.
Proof using Htg.
  intros Hsy. induction names as [|name names IH]; intros rd m img Hin Hcs Hok Hlink; simpl.
  { exists m. by split_and!. }
  apply Forall_cons in Hcs as [Hc Hcs]. simpl in Hok. apply Forall_app in Hok as [Hok1 Hok2].
  pose proof Hlink as [[Him _ _] Hlk]. assert (Hn : name ∈ [s_rela_dyn; s_rela_plt]) by set_solver.
  destruct (named_entries is_rela v k.(lk_names) name) as [rb [rs rn]] eqn:Hre.
  pose proof (elfAddendRelocations_ok _ _ _ _ (im_at _ _ _ Him) Hlk name _ Hc (relas_of_holds m name Hn Hlk)) as Ha.
  rewrite Hre in Ha. rewrite (bind_done _ _ _ _ _ Ha). cbn beta iota.
  destruct (named_entry _ _ _ _ _ _ _ _ _ _ 0 (im_data _ _ _ Him) (relas_of_holds m name Hn Hlk) Hre) as [Hlen _].
  destruct (relocate_loop name (relas_of name) b s n rb rs rn rd Hsy Hre
    ltac:(intros; by apply relas_of_holds) Hok1 (relas_of name) 0 m img eq_refl Hlink) as (m1 & H1 & Hl1 & Hs1).
  rewrite Hlen. unfold for_range. rewrite Z.sub_0_r, Nat2Z.id. rewrite (bind_done _ _ _ _ _ H1).
  rewrite spec_relocate_app. unfold loop_result.
  destruct (spec_relocate v writable executable (lk_syms k) (relas_of name) img) as [img1 code1]. simpl in *.
  destruct (code1 =? ElfLoaderReturnOK); [|exists m1; by split_and!].
  destruct (IH (default rd rs) m1 img1) as (m2 & H2 & Hl2 & Hs2); [by intros y Hy; apply Hin, list_elem_of_further|done..|].
  exists m2. split; [done|]. split; [done|]. intros x Hx. by rewrite Hs2, Hs1.
Qed.
End relocating.

Lemma section_names : Forall cstring [s_rela_dyn; s_rela_plt] ∧ cstring s_dynsym.
Proof. split; [repeat constructor|]; apply cstring_check; vm_compute; reflexivity. Qed.

Lemma elfLoaderRelocate_ok m elf v writable msize executable file img k :
  linking elf v writable msize file k m img → target elf v writable msize → executable ≠ 0 →
  Forall (reloc_ok msize k.(lk_syms)) (k.(lk_dyn) ++ k.(lk_plt)) →
  let r := spec_relocate v writable executable k.(lk_syms) (k.(lk_dyn) ++ k.(lk_plt)) img in
  ∃ m', elfLoaderRelocate elf writable executable m = Done r.2 m' ∧
    linking elf v writable msize file k m' r.1 ∧ same_off m m' writable msize.
Proof.
  intros Hlink Htg Hx Hok. pose proof Hlink as [[Him _ _] Hlk]. pose proof (im_at _ _ _ Him) as Hat.
  unfold elfLoaderRelocate. rewrite (elf_nz _ _ _ Hat).
  replace (writable =? 0) with false by (pose proof (tg_pos _ _ _ _ Htg); lia).
  replace (executable =? 0) with false by lia.
  destruct section_names as [Hn1 Hn2].
  pose proof (elfSymbols_ok _ _ _ _ Hat Hlk s_dynsym _ Hn2 (ln_syms _ _ _ Hlk)) as Hs.
  destruct (named_entries is_symtab v k.(lk_names) s_dynsym) as [b [s n]] eqn:Hsy.
  rewrite (bind_done _ _ _ _ _ Hs). cbn beta iota.
  pose proof (relocate_sections_ok elf v writable msize executable file k Htg b s n Hsy
    [s_rela_dyn; s_rela_plt] 0 m img ltac:(done) Hn1) as H.
  change (concat (map (relas_of k) [s_rela_dyn; s_rela_plt])) with (lk_dyn k ++ lk_plt k ++ []) in H.
  rewrite app_nil_r in H. by apply H.
Qed.

(** ** elfLoaderIsLoadable *)

Definition ident (h : Elf64_Ehdr) (i : Z) : Z :=
  match h.(e_ident) !! Z.to_nat i with Some b => byte.unsigned b | None => 0 end.

(** What a header must be like to be loaded. *)
Definition loadable (h : Elf64_Ehdr) : bool :=
  (ident h EI_MAG0 =? ELFMAG0) && (ident h EI_MAG1 =? ELFMAG1) && (ident h EI_MAG2 =? ELFMAG2) && (ident h EI_MAG3 =? ELFMAG3)
  && (ident h 4 =? ELFCLASS64) && (ident h 5 =? ELFDATA2LSB) && (ident h 6 =? EV_CURRENT)
  && ((ident h 7 =? ELFOSABI_SYSV) || (ident h 7 =? ELFOSABI_FREEBSD))
  && (h.(e_type) =? ET_DYN) && negb (h.(e_phoff) =? 0) && negb (h.(e_shoff) =? 0)
  && (h.(e_machine) =? EM_X86_64) && (h.(e_version) =? EV_CURRENT).

Section loadable.
Context (m : mem) (elf : Z) (v : elf_view).
Context (Hat : elf_at m elf v) (Hd : 0 < v.(v_data) ∧ v.(v_data) + 16 ≤ 2 ^ 64).

Lemma ident_ok i :
  0 ≤ i < 16 → field 1 v.(v_data) i m = Done (ident v.(v_hdr) i) m.
Proof using Hat Hd.
  intros Hi. pose proof (at_hdr _ _ _ Hat) as [Hl%load_bytes_length _]%decode_ehdr_fields.
  destruct (lookup_lt_is_Some_2 (e_ident (v_hdr v)) (Z.to_nat i)) as [b Hb]; [lia|].
  unfold ident. rewrite Hb. apply (ident_byte _ _ _ Hat); [lia..|done].
Qed.

Lemma elfIdent_ok i :
  0 ≤ i < 16 → elfIdent elf i m = Done (ident v.(v_hdr) i) m.
Proof using Hat Hd.
  intros Hi. unfold elfIdent. rewrite (elf_nz _ _ _ Hat), (bind_done _ _ _ _ _ (get_data_ok _ _ _ Hat)).
  by apply ident_ok.
Qed.

Lemma elfIsElf_ok :
  elfIsElf elf m =
    Done ((ident v.(v_hdr) EI_MAG0 =? ELFMAG0) && (ident v.(v_hdr) EI_MAG1 =? ELFMAG1)
          && (ident v.(v_hdr) EI_MAG2 =? ELFMAG2) && (ident v.(v_hdr) EI_MAG3 =? ELFMAG3)) m.
Proof using Hat Hd.
  unfold elfIsElf, IS_ELF. rewrite (bind_done _ _ _ _ _ (elfHeader_ok _ _ _ Hat)).
  rewrite (bind_done _ _ _ _ _ (ident_ok EI_MAG0 ltac:(done))). destruct (_ =? ELFMAG0); [cbn [negb andb]|done].
  rewrite (bind_done _ _ _ _ _ (ident_ok EI_MAG1 ltac:(done))). destruct (_ =? ELFMAG1); [cbn [negb andb]|done].
  rewrite (bind_done _ _ _ _ _ (ident_ok EI_MAG2 ltac:(done))). destruct (_ =? ELFMAG2); [cbn [negb andb]|done].
  by rewrite (bind_done _ _ _ _ _ (ident_ok EI_MAG3 ltac:(done))).
Qed.

Lemma elfLoaderIsLoadable_ok : elfLoaderIsLoadable elf m = Done (loadable v.(v_hdr)) m.
Proof using Hat Hd.
  pose proof Hat as [_ _ _ Hnz Hh _ _].
  unfold elfLoaderIsLoadable, loadable, elfClass, elfEncoding, elfVersion, elfABI. rewrite (bind_done _ _ _ _ _ elfIsElf_ok).
  destruct (_ && _ && _ && _); [cbn [negb andb]|done].
  rewrite (bind_done _ _ _ _ _ (elfHeader_ok _ _ _ Hat)).
  rewrite (bind_done _ _ _ _ _ (elfIdent_ok 4 ltac:(lia))). destruct (_ =? ELFCLASS64); [cbn [negb andb]|done].
  rewrite (bind_done _ _ _ _ _ (elfIdent_ok 5 ltac:(lia))). destruct (_ =? ELFDATA2LSB); [cbn [negb andb]|done].
  rewrite (bind_done _ _ _ _ _ (elfIdent_ok 6 ltac:(lia))). destruct (_ =? EV_CURRENT); [cbn [negb andb]|done].
  rewrite (bind_done _ _ _ _ _ (elfIdent_ok 7 ltac:(lia))). cbn [negb andb].
  rewrite bind_done with (s' := m)
    (a := (ident (v_hdr v) 7 =? ELFOSABI_SYSV) || (ident (v_hdr v) 7 =? ELFOSABI_FREEBSD)); cycle 1.
  { destruct (_ =? ELFOSABI_SYSV); [done|]. by rewrite (bind_done _ _ _ _ _ (elfIdent_ok 7 ltac:(lia))). }
  destruct (_ || _); [cbn [negb andb]|done].
  cstep. destruct (_ =? ET_DYN); [cbn [negb andb]|done].
  cstep. destruct (e_phoff _ =? 0); [done|]. cbn [negb andb].
  cstep. destruct (e_shoff _ =? 0); [done|]. cbn [negb andb].
  cstep. destruct (_ =? EM_X86_64); [cbn [negb andb]|done]. by cstep.
Qed.
End loadable.

(** elfLoaderIsLoadable accepts exactly the images whose header has the
    ELF magic, class 64, little-endian encoding, the current version, the
    System V or FreeBSD ABI, type DYN, machine x86-64 and both tables. *)
Theorem elfLoaderIsLoadable_spec m elf v :
  elf_at m elf v → 0 < v.(v_data) → v.(v_data) + 16 ≤ 2 ^ 64 →
  elfLoaderIsLoadable elf m = Done (loadable v.(v_hdr)) m.
Proof. intros. by apply elfLoaderIsLoadable_ok. Qed.

Lemma elfLoaderIsLoadable_spec_witness :
  elfLoaderIsLoadable sample_elf sample_mem = Done true sample_mem.
Proof.
  apply (elfLoaderIsLoadable_spec sample_mem sample_elf sample_view sample_at);
    vm_compute; [reflexivity|discriminate].
Defined.

(** ** The relocated image *)

(** C6. elfLoaderRelocate refines the specification on the image's tables:
    each entry of .rela.dyn, then of .rela.plt, is replaced by its value plus
    the base of the executable or the writable mapping, as the value lies in
    an executable segment or not; the first entry of an unhandled type ends it
    with ElfLoaderReturnUnknownRelocation; nothing outside the target
    changes. *)
Theorem elfLoaderRelocate_refines m elf v writable msize executable file img k :
  loading m elf v writable msize file img → linkable m v k → target elf v writable msize →
  executable ≠ 0 → Forall (reloc_ok msize k.(lk_syms)) (k.(lk_dyn) ++ k.(lk_plt)) →
  let r := spec_relocate v writable executable k.(lk_syms) (k.(lk_dyn) ++ k.(lk_plt)) img in
  ∃ m', elfLoaderRelocate elf writable executable m = Done r.2 m' ∧
    load_bytes m' writable (Z.to_nat msize) = Some r.1 ∧ same_off m m' writable msize.
Proof.
  intros Hld Hlk Htg Hx Hok r.
  destruct (elfLoaderRelocate_ok m elf v writable msize executable file img k (conj Hld Hlk) Htg Hx Hok)
    as (m' & H & [[_ _ Hl] _] & Hs).
  by exists m'.
Qed.

Definition sample_linkage : linkage :=
  Linkage {| sh_name := 29; sh_type := 3; sh_flags := 0; sh_addr := 0; sh_offset := 0x1C8;
       sh_size := 39; sh_link := 0; sh_info := 0; sh_addralign := 1; sh_entsize := 0 |}
    sample_strtab sample_syms sample_relas_dyn sample_relas_plt.

Lemma holds_check {T} (decode : mem → Z → option T) m v h (l : list T) :
  (24 <=? h.(sh_entsize)) && (h.(sh_entsize) <? 2 ^ 16)
  && (h.(sh_size) / h.(sh_entsize) =? Z.of_nat (length l)) && (Z.of_nat (length l) <? 2 ^ 16)
  && (0 <=? h.(sh_offset)) && (h.(sh_offset) + Z.of_nat (length l) * h.(sh_entsize) <=? v.(v_size))
  && (Z.of_nat (length l) * h.(sh_entsize) <=? INT_MAX) = true →
  imap (λ i _, decode m (v.(v_data) + h.(sh_offset) + Z.of_nat i * h.(sh_entsize))) l = map Some l →
  holds decode m v h l.
Proof.
  intros Hc Hi. zb. split; [lia..|]. intros i x Hx.
  assert (Hm : map Some l !! i = Some (Some x)) by (by rewrite list_lookup_fmap, Hx).
  rewrite <- Hi, list_lookup_imap, Hx in Hm. by simplify_eq/=.
Qed.

Lemma sample_linkable : linkable sample_mem sample_view sample_linkage.
Proof.
  split; [vm_compute; discriminate|reflexivity|vm_compute; discriminate|vm_compute; discriminate
    |exact sample_strtab_ok|reflexivity|..];
  apply holds_check; vm_compute; reflexivity.
Qed.

Lemma reloc_ok_check msize syms l :
  forallb (λ r, (0 <=? r.(r_offset)) && (r.(r_offset) + 8 <=? msize)
    && (reloc_sym r <? Z.of_nat (length syms))) l = true → Forall (reloc_ok msize syms) l.
Proof.
  rewrite forallb_forall, Forall_forall. intros H r Hr. apply list_elem_of_In in Hr.
  specialize (H r Hr). zb. by split; [lia..|].
Qed.

Lemma elfLoaderRelocate_refines_witness :
  ∃ m', elfLoaderRelocate sample_elf sample_writable sample_executable sample_mem =
      Done ElfLoaderReturnOK m' ∧
    peek m' 8 (sample_writable + 0x50) = Some (sample_writable + 0x4C).
Proof.
  destruct (elfLoaderRelocate_refines sample_mem sample_elf sample_view sample_writable 256
    sample_executable sample_file (replicate 256 Byte.xff) sample_linkage
    sample_loading sample_linkable sample_target) as (m' & H1 & H2 & _).
  - vm_compute. discriminate.
  - apply reloc_ok_check. vm_compute. reflexivity.
  - exists m'. split; [exact H1|].
    apply (load_slice m' sample_writable 256 _ 0x50 8) in H2; [|vm_compute; discriminate..].
    unfold peek. change (Z.to_nat 8) with 8%nat in H2. rewrite H2. vm_compute. reflexivity.
Defined.

(** What elfLoaderLoad leaves in the target. *)
Definition spec_load (v : elf_view) (k : linkage) (writable executable : Z) (file img : list byte)
    : list byte * Z :=
  spec_relocate v writable executable k.(lk_syms) (k.(lk_dyn) ++ k.(lk_plt))
    (spec_instantiate file v.(v_segs) img).

(** C1. elfLoaderLoad, on a loadable image whose segments fit the file and the
    target and whose relocations have their slots in the target, leaves the
    instantiated and relocated image in the target, changes nothing else and
    returns ElfLoaderReturnOK, or ElfLoaderReturnUnknownRelocation if there is
    an entry of an unhandled type. *)
Theorem elfLoaderLoad_refines m elf v writable msize executable file img k :
  loading m elf v writable msize file img → linkable m v k → target elf v writable msize →
  executable ≠ 0 → loadable v.(v_hdr) = true →
  Forall (segment_fits v.(v_size) msize) v.(v_segs) →
  Forall (reloc_ok msize k.(lk_syms)) (k.(lk_dyn) ++ k.(lk_plt)) →
  ∃ m', elfLoaderLoad elf writable executable m = Done (spec_load v k writable executable file img).2 m' ∧
    load_bytes m' writable (Z.to_nat msize) = Some (spec_load v k writable executable file img).1 ∧
    same_off m m' writable msize.
Proof.
  intros Hld Hlk Htg Hx Hldb Hfit Hok. pose proof Hld as [Him _ _]. pose proof (im_at _ _ _ Him) as Hat.
  pose proof (im_data _ _ _ Him). pose proof (im_hdr _ _ _ Him).
  assert (Hoff : e_phoff (v_hdr v) ≠ 0) by (unfold loadable in Hldb; zb; done).
  destruct (elfLoaderInstantiate_ok _ _ _ _ _ _ _ Hld Htg Hoff Hfit) as (m1 & H1 & Hld1 & Hs1).
  assert (Hlk1 : linkable m1 v k).
  { eapply linkable_same; [done| |done]. eapply same_off_on; [exact Hs1|apply Htg]. }
  destruct (elfLoaderRelocate_ok m1 elf v writable msize executable file _ k (conj Hld1 Hlk1) Htg Hx Hok)
    as (m2 & H2 & [[_ _ Hl] _] & Hs2).
  exists m2. split; [|split; [done|]].
  - unfold elfLoaderLoad. rewrite (elf_nz _ _ _ Hat).
    replace (writable =? 0) with false by (pose proof (tg_pos _ _ _ _ Htg); lia).
    replace (executable =? 0) with false by lia.
    rewrite (bind_done _ _ _ _ _ (elfLoaderIsLoadable_ok _ _ _ Hat ltac:(lia))), Hldb. cbn [negb].
    rewrite (bind_done _ _ _ _ _ H1). exact H2.
  - intros x Hx'. by rewrite Hs2, Hs1.
Qed.

Lemma elfLoaderLoad_refines_witness :
  ∃ m', elfLoaderLoad sample_elf sample_writable sample_executable sample_mem =
      Done ElfLoaderReturnOK m' ∧
    peek m' 8 (sample_writable + 0x40) = Some (sample_executable + 4).
Proof.
  destruct (elfLoaderLoad_refines sample_mem sample_elf sample_view sample_writable 256
    sample_executable sample_file (replicate 256 Byte.xff) sample_linkage
    sample_loading sample_linkable sample_target) as (m' & H1 & H2 & _).
  - vm_compute. discriminate.
  - vm_compute. reflexivity.
  - exact sample_fits.
  - apply reloc_ok_check. vm_compute. reflexivity.
  - exists m'. split; [exact H1|].
    apply (load_slice m' sample_writable 256 _ 0x40 8) in H2; [|vm_compute; discriminate..].
    unfold peek. change (Z.to_nat 8) with 8%nat in H2. rewrite H2. vm_compute. reflexivity.
Defined.

(** ** What the specification says of one slot *)

Lemma lookup_slice file off n (i : nat) :
  slice file off n !! i = if decide (Z.of_nat i < n) then file !! (Z.to_nat off + i)%nat else None.
Proof.
  unfold slice. case_decide.
  - rewrite lookup_take_lt by lia. apply lookup_drop.
  - apply lookup_take_ge. lia.
Qed.

Lemma slice_patch_same img p bs :
  0 ≤ p → (Z.to_nat p + length bs ≤ length img)%nat →
  slice (patch img p bs) p (Z.of_nat (length bs)) = bs.
Proof.
  intros Hp Hle. apply list_eq. intros i. rewrite lookup_slice. case_decide.
  - rewrite lookup_patch by done. rewrite decide_True by lia. f_equal. lia.
  - symmetry. apply lookup_ge_None. lia.
Qed.

Lemma slice_patch_off img p bs q n :
  0 ≤ p → 0 ≤ q → (Z.to_nat p + length bs ≤ length img)%nat →
  disjoint q n p (Z.of_nat (length bs)) → slice (patch img p bs) q n = slice img q n.
Proof.
  intros Hp Hq Hle Hd. apply list_eq. intros i. rewrite !lookup_slice. case_decide; [|done].
  rewrite lookup_patch by done. rewrite decide_False; [done|]. unfold disjoint in Hd. lia.
Qed.

Section slots.
Context (v : elf_view) (writable executable msize : Z) (syms : list Elf64_Sym).

Definition known (r : Elf64_Rela) : Prop := is_Some (reloc_value syms r).

Lemma spec_relocate_known relas img :
  Forall known relas → (spec_relocate v writable executable syms relas img).2 = ElfLoaderReturnOK.
Proof using.
  intros Hk. revert img. induction Hk as [|r relas [x Hx] _ IH]; intros img; simpl; [done|].
  rewrite Hx. apply IH.
Qed.

Lemma length_reloc_patch img r value :
  Z.of_nat (length img) = msize → reloc_ok msize syms r →
  length (patch img r.(r_offset) (reloc_word v writable executable value)) = length img.
Proof using.
  intros Hl [? ? _]. unfold reloc_word. apply length_patch; [done|]. rewrite length_le_split. lia.
Qed.

(** Later relocations leave a slot they do not overlap alone. *)
Lemma spec_relocate_off relas img q :
  Forall (reloc_ok msize syms) relas → Z.of_nat (length img) = msize → 0 ≤ q →
  Forall (λ r, disjoint q 8 r.(r_offset) 8) relas →
  slice (spec_relocate v writable executable syms relas img).1 q 8 = slice img q 8.
Proof using.
  intros Hok Hl Hq Hd. revert img Hl. induction Hok as [|r relas Hr _ IH]; intros img Hl; simpl; [done|].
  apply Forall_cons in Hd as [Hdr Hd]. destruct (reloc_value syms r) as [value|]; [|done].
  rewrite IH; [|done|by rewrite length_reloc_patch].
  apply slice_patch_off; unfold reloc_word; rewrite ?length_le_split; destruct Hr; [lia..|done].
Qed.

Lemma spec_relocate_slot l1 r l2 img value :
  Forall (reloc_ok msize syms) (l1 ++ r :: l2) → Z.of_nat (length img) = msize →
  Forall known l1 → reloc_value syms r = Some value →
  Forall (λ r', disjoint r.(r_offset) 8 r'.(r_offset) 8) l2 →
  slice (spec_relocate v writable executable syms (l1 ++ r :: l2) img).1 r.(r_offset) 8 =
    reloc_word v writable executable value.
Proof using.
  intros Hok Hl Hk Hv Hd. revert img Hl. induction Hk as [|r1 l1 [x Hx] _ IH]; intros img Hl.
  - simpl in *. apply Forall_cons in Hok as [Hr Hok]. rewrite Hv.
    pose proof Hr as [? ? _]. rewrite spec_relocate_off; [|done|by rewrite length_reloc_patch|done|done].
    assert (H8 : length (reloc_word v writable executable value) = 8%nat) by apply length_le_split.
    replace 8 with (Z.of_nat (length (reloc_word v writable executable value))) by (by rewrite H8).
    apply slice_patch_same; [done|]. rewrite H8. lia.
  - simpl in *. apply Forall_cons in Hok as [Hr Hok]. rewrite Hx. apply IH; [done|].
    by rewrite length_reloc_patch.
Qed.
End slots.

(** Where the image has an address: in a part with or without the execute
    bit.  An address is placed by the first part that has it; a part also
    counts when it ends at the address, so those before must not. *)
Definition has_address (a n x : Z) : Prop := a ≤ x < a + n.
Definition clear_of (a n x : Z) : Prop := x < a ∨ a + n < x.
Definition no_wrap (a n : Z) : Prop := 0 ≤ a ∧ 0 ≤ n ∧ a + n < 2 ^ 64.

Inductive placed (v : elf_view) (x : Z) : bool → Prop :=
| placed_segment i h :
    v.(v_hdr).(e_phoff) ≠ 0 → v.(v_segs) !! i = Some h →
    no_wrap h.(p_paddr) h.(p_memsz) → has_address h.(p_paddr) h.(p_memsz) x →
    (∀ j h', (j < i)%nat → v.(v_segs) !! j = Some h' →
      no_wrap h'.(p_paddr) h'.(p_memsz) ∧ clear_of h'.(p_paddr) h'.(p_memsz) x) →
    placed v x (Z.testbit h.(p_flags) 0)
| placed_section i h :
    v.(v_hdr).(e_phoff) = 0 → v.(v_hdr).(e_shoff) ≠ 0 → v.(v_secs) !! i = Some h →
    no_wrap h.(sh_addr) h.(sh_size) → has_address h.(sh_addr) h.(sh_size) x →
    (∀ j h', (j < i)%nat → v.(v_secs) !! j = Some h' →
      no_wrap h'.(sh_addr) h'.(sh_size) ∧ clear_of h'.(sh_addr) h'.(sh_size) x) →
    placed v x (Z.testbit h.(sh_flags) 2).

Lemma c_true_land_bit f k : 0 ≤ k → c_true (Z.land f (2 ^ k)) = Z.testbit f k.
Proof.
  intros Hk. unfold c_true. destruct (Z.testbit f k) eqn:Hb.
  - destruct (Z.land f (2 ^ k) =? 0) eqn:E; [zb|done].
    assert (Hc : Z.testbit (Z.land f (2 ^ k)) k = false) by (rewrite E; apply Z.testbit_0_l).
    by rewrite Z.land_spec, Hb, Z.pow2_bits_true in Hc.
  - replace (Z.land f (2 ^ k)) with 0; [done|]. symmetry. apply Z.bits_inj'. intros n Hn.
    rewrite Z.land_spec, Z.testbit_0_l. destruct (decide (n = k)) as [->|Hne]; [by rewrite Hb|].
    rewrite Z.pow2_bits_false by lia. apply andb_false_r.
Qed.

Lemma in_range_true a n x : no_wrap a n → has_address a n x → (a <=? x) && (x <=? u64 (a + n)) = true.
Proof. intros (? & ? & ?) [? ?]. rewrite u64_small by lia. lia. Qed.

Lemma in_range_false a n x : no_wrap a n → clear_of a n x → (a <=? x) && (x <=? u64 (a + n)) = false.
Proof. intros (? & ? & ?) Hc. rewrite u64_small by lia. unfold clear_of in Hc. lia. Qed.

Lemma placed_exec v x b : placed v x b → c_true (exec_flag v x) = b.
Proof.
  intros [i h Hoff Hi Hw Hin Hb|i h Hp Hoff Hi Hw Hin Hb]; unfold exec_flag.
  - replace (e_phoff (v_hdr v) =? 0) with false by lia. cbn [negb].
    replace (first_some (seg_exec x) (v_segs v)) with (Some (Z.land (p_flags h) PF_X));
      [by apply (c_true_land_bit _ 0)|].
    symmetry. apply first_some_spec. exists i, h. split; [done|]. unfold seg_exec, seg_end. split.
    + by rewrite in_range_true.
    + intros j h' Hj Hl. destruct (Hb j h' Hj Hl). by rewrite in_range_false.
  - rewrite Hp. cbn [Z.eqb negb]. replace (e_shoff (v_hdr v) =? 0) with false by lia. cbn [negb].
    replace (first_some (sec_exec x) (v_secs v)) with (Some (Z.land (sh_flags h) SHF_EXECINSTR));
      [by apply (c_true_land_bit _ 2)|].
    symmetry. apply first_some_spec. exists i, h. split; [done|]. unfold sec_exec, sec_end. split.
    + by rewrite in_range_true.
    + intros j h' Hj Hl. destruct (Hb j h' Hj Hl). by rewrite in_range_false.
Qed.

(** C16. After elfLoaderRelocate, with every entry of a handled type, each slot
    that no later entry overlaps holds the 64-bit address of its value, in the
    mapping of the part the value lies in: the executable mapping if the
    program header of that segment has PF_X (in an image without segments, if
    the section has SHF_EXECINSTR), the writable mapping if not.  The value
    lies in a segment, and no segment before it has the value or ends there. *)
Theorem elfLoaderRelocate_slot m elf v writable msize executable file img k l1 r l2 value exec :
  loading m elf v writable msize file img → linkable m v k → target elf v writable msize →
  executable ≠ 0 → Forall (reloc_ok msize k.(lk_syms)) (k.(lk_dyn) ++ k.(lk_plt)) →
  k.(lk_dyn) ++ k.(lk_plt) = l1 ++ r :: l2 → Forall (known k.(lk_syms)) (l1 ++ r :: l2) →
  reloc_value k.(lk_syms) r = Some value → placed v value exec →
  Forall (λ r', disjoint r.(r_offset) 8 r'.(r_offset) 8) l2 →
  ∃ m', elfLoaderRelocate elf writable executable m = Done ElfLoaderReturnOK m' ∧
    peek m' 8 (writable + r.(r_offset)) =
      Some (u64 ((if exec then executable else writable) + value)).
Proof.
  intros Hld Hlk Htg Hx Hok Hl Hk Hv Hpl Hd.
  destruct (elfLoaderRelocate_ok m elf v writable msize executable file img k (conj Hld Hlk) Htg Hx Hok)
    as (m' & H & [[_ _ Hload] _] & _).
  exists m'. rewrite Hl in *. split; [by rewrite spec_relocate_known in H|].
  apply Forall_app in Hk as [Hk1 _]. destruct (loading_lengths _ _ _ _ _ Htg _ _ Hld) as [_ Hli].
  assert (Hr : reloc_ok msize (lk_syms k) r) by (apply Forall_app in Hok as [_ Ho]; by apply Forall_cons in Ho as [? _]).
  pose proof Hr as [? ? _].
  apply (load_slice m' writable msize _ (r_offset r) 8) in Hload; [|lia..].
  rewrite (spec_relocate_slot v writable executable msize _ _ _ _ _ value) in Hload by done.
  unfold peek. change 8%nat with (Z.to_nat 8). rewrite Hload, <- (placed_exec _ _ _ Hpl). unfold reloc_word. simpl.
  f_equal. rewrite le_combine_split. apply Z.mod_small. apply u64_range.
Qed.

(** The value 0x4C lies in the second segment of the sample, which is data. *)
Lemma sample_placed : placed sample_view 0x4C false.
Proof.
  apply (placed_segment sample_view 0x4C 1
    {| p_type := PT_LOAD; p_flags := 6; p_offset := 0x110; p_vaddr := 0x40; p_paddr := 0x40;
       p_filesz := 16; p_memsz := 32; p_align := 0x200000 |}).
  - vm_compute. discriminate.
  - reflexivity.
  - by vm_compute.
  - by vm_compute.
  - intros j h' Hj Hl. assert (j = O) as -> by lia. injection Hl as <-. unfold no_wrap, clear_of. cbn. lia.
Qed.

Lemma elfLoaderRelocate_slot_witness :
  ∃ m', elfLoaderRelocate sample_elf sample_writable sample_executable sample_mem =
      Done ElfLoaderReturnOK m' ∧
    peek m' 8 (sample_writable + 0x50) = Some (u64 (sample_writable + 0x4C)).
Proof.
  apply (elfLoaderRelocate_slot sample_mem sample_elf sample_view sample_writable 256
    sample_executable sample_file (replicate 256 Byte.xff) sample_linkage (take 1 sample_relas_dyn)
    {| r_offset := 0x50; r_info := ELF64_R_INFO 1 R_X86_64_64; r_addend := 0x44 |} sample_relas_plt
    0x4C false sample_loading sample_linkable sample_target).
  - vm_compute. discriminate.
  - apply reloc_ok_check. vm_compute. reflexivity.
  - reflexivity.
  - repeat constructor; eexists; vm_compute; reflexivity.
  - vm_compute. reflexivity.
  - exact sample_placed.
  - apply Forall_cons. split; [right; vm_compute; discriminate|constructor].
Defined.

(** ** Refusals *)

(** elfLoaderLoad refuses NULL arguments, in the order image, writable
    memory, executable memory, with a code of their own and without touching
    memory. *)
Theorem elfLoaderLoad_null elf writable executable m :
  elf = 0 ∨ writable = 0 ∨ executable = 0 →
  elfLoaderLoad elf writable executable m =
    Done (if elf =? 0 then ElfLoaderReturnElfNull
          else if writable =? 0 then ElfLoaderReturnWritableMemoryNull
          else ElfLoaderReturnExecutableMemoryNull) m.
Proof.
  intros H. unfold elfLoaderLoad. destruct (elf =? 0) eqn:E1; [done|].
  destruct (writable =? 0) eqn:E2; [done|]. replace (executable =? 0) with true; [done|]. zb. lia.
Qed.

Lemma elfLoaderLoad_null_witness :
  elfLoaderLoad sample_elf 0 sample_executable sample_mem = Done ElfLoaderReturnWritableMemoryNull sample_mem.
Proof. apply (elfLoaderLoad_null sample_elf 0 sample_executable sample_mem). right. left. reflexivity. Defined.

(** An image whose header is not loadable is refused with
    ElfLoaderReturnIsNotLoadable and memory stays as it was. *)
Theorem elfLoaderLoad_rejects m elf v writable executable :
  elf_at m elf v → 0 < v.(v_data) → v.(v_data) + 16 ≤ 2 ^ 64 → writable ≠ 0 → executable ≠ 0 →
  loadable v.(v_hdr) = false →
  elfLoaderLoad elf writable executable m = Done ElfLoaderReturnIsNotLoadable m.
Proof.
  intros Hat Hd1 Hd2 Hw Hx Hl. unfold elfLoaderLoad. rewrite (elf_nz _ _ _ Hat).
  replace (writable =? 0) with false by lia. replace (executable =? 0) with false by lia.
  by rewrite (bind_done _ _ _ _ _ (elfLoaderIsLoadable_ok _ _ _ Hat (conj Hd1 Hd2))), Hl.
Qed.

(** The sample image with its type changed to EXEC. *)
Definition exec_mem : mem := <[sample_data + 16 := Byte.x02]> sample_mem.

Lemma elfLoaderLoad_rejects_witness :
  elfLoaderLoad sample_elf sample_writable sample_executable exec_mem =
    Done ElfLoaderReturnIsNotLoadable exec_mem.
Proof.
  apply (elfLoaderLoad_rejects exec_mem sample_elf
    (ElfView sample_data 816
      {| e_ident := e_ident sample_ehdr; e_type := 2; e_machine := EM_X86_64; e_version := EV_CURRENT;
         e_entry := 4; e_phoff := 64; e_shoff := 0x1F0; e_flags := 0; e_ehsize := 64;
         e_phentsize := 56; e_phnum := 3; e_shentsize := 64; e_shnum := 5; e_shstrndx := 4 |}
      sample_phdrs sample_shdrs)).
  - apply elf_view_of_sound. vm_compute. reflexivity.
  - vm_compute. reflexivity.
  - vm_compute. discriminate.
  - vm_compute. discriminate.
  - vm_compute. discriminate.
  - vm_compute. reflexivity.
Defined.
