(* ===== verification/ElfObject.v ===== *)
(** * The life of an [Elf] object

    elfCreate, elfCreateLocal, elfCreateLocalUnchecked, elfDestroy and
    elfDestroyAndFree of source/ps4/elfloader.c over a heap: memory together
    with the blocks malloc has handed out.  Where malloc places a block is
    the allocator's choice, given by an instance of [Allocator]. *)

From S2P Require Import Prelude.
From S2P Require Import Memory.
From S2P Require Import ElfFormat.
From S2P Require Import Sample.
From S2P Require Import ElfTables.

(** ** The heap *)

Record heap := Heap { h_mem : mem; h_blocks : gmap Z Z }.

(** [place h n] is the address of a new block of [n] bytes, 0 when there is
    none; [garbage] is what a new block holds. *)
Class Allocator := {
  place : heap → Z → Z;
  garbage : byte;
  place_fresh : ∀ h n, place h n ≠ 0 →
    0 < place h n ∧ place h n + n < 2 ^ 64 ∧
    (∀ x, place h n ≤ x < place h n + n → h.(h_mem) !! x = None) ∧
    h.(h_blocks) !! place h n = None }.

Definition unmap (m : mem) (a n : Z) : mem := filter (λ kv, ¬ (a ≤ kv.1 < a + n)) m.

Definition lift {A} (c : C mem A) : C heap A := λ h,
  match c h.(h_mem) with
  | Done a m => Done a (Heap m h.(h_blocks))
  | UB => UB
  | Timeout => Timeout
  end.

Definition malloc `{Allocator} (n : Z) : C heap Z := λ h,
  let p := place h n in
  if p =? 0 then Done 0 h
  else Done p (Heap (bytes_at p (replicate (Z.to_nat n) garbage) ∪ h.(h_mem)) (<[p := n]> h.(h_blocks))).

(** Freeing anything but NULL or a live block is undefined. *)
Definition free (p : Z) : C heap () := λ h,
  if p =? 0 then Done () h else
  match h.(h_blocks) !! p with
  | Some n => Done () (Heap (unmap h.(h_mem) p n) (delete p h.(h_blocks)))
  | None => UB
  end.

(** ** Operations *)

(** [elf->data = data; elf->size = size] *)
Definition set_elf (elf data size : Z) : C mem () :=
  set_field 8 elf 0 data;;
  set_field 8 elf 8 size.

(** The temporary [t] is only read back through elfIsElf, whose header is
    [t.data]. *)
Definition elfCreate `{Allocator} (data size : Z) : C heap Z :=
  if data =? 0 then mret 0 else
  b ← lift (IS_ELF data);
  if negb b then mret 0 else
  elf ← malloc sizeof_Elf;
  lift (set_elf elf data size);;
  mret elf.

Definition elfCreateLocal (elfl data size : Z) : C mem Z :=
  if (elfl =? 0) || (data =? 0) then mret 0 else
  b ← IS_ELF data;
  if negb b then mret 0 else
  set_elf elfl data size;;
  mret elfl.

Definition elfCreateLocalUnchecked (elfl data size : Z) : C mem Z :=
  if (elfl =? 0) || (data =? 0) then mret 0 else
  set_elf elfl data size;;
  mret elfl.

Definition elfDestroy (elf : Z) : C heap Z :=
  if elf =? 0 then mret 0 else
  data ← lift (get_data elf);
  free elf;;
  mret data.

Definition elfDestroyAndFree (elf : Z) : C heap () :=
  if elf =? 0 then mret () else
  d ← elfDestroy elf;
  if c_true d then free d else mret ().

(** ** Lemmas *)

Lemma lookup_unmap m a n x :
  unmap m a n !! x = if decide (a ≤ x < a + n) then None else m !! x.
Proof.
  unfold unmap. case_decide as Hd.
  - apply map_lookup_filter_None. right. intros b _. simpl. tauto.
  - destruct (m !! x) as [b|] eqn:Hx.
    + by apply map_lookup_filter_Some.
    + apply map_lookup_filter_None. by left.
Qed.

Lemma lookup_bytes_at a bs x :
  bytes_at a bs !! x = if decide (a ≤ x < a + Z.of_nat (length bs)) then bs !! Z.to_nat (x - a) else None.
Proof.
  revert a. induction bs as [|b bs IH]; intros a; simpl; [by rewrite decide_False by lia|].
  destruct (decide (x = a)) as [->|Hne].
  - rewrite lookup_insert_eq, decide_True by lia. by replace (Z.to_nat (a - a)) with O by lia.
  - rewrite lookup_insert_ne, IH by done. repeat case_decide; try lia; [|done].
    by replace (Z.to_nat (x - a)) with (S (Z.to_nat (x - (a + 1)))) by lia.
Qed.

Lemma set_elf_ok m elf data size :
  0 < elf → elf + 16 < 2 ^ 64 → 0 ≤ data < 2 ^ 64 → 0 ≤ size < 2 ^ 64 → mapped m elf 16 →
  ∃ m', set_elf elf data size m = Done () m' ∧ same_off m m' elf 16 ∧
    peek m' 8 elf = Some data ∧ peek m' 8 (elf + 8) = Some size ∧
    (∀ x, is_Some (m' !! x) ↔ is_Some (m !! x)).
Proof.
  intros Hp Hle Hd Hs Hm. unfold set_elf, set_field. replace (elf =? 0) with false by lia.
  unfold ptr_add. rewrite Z.add_0_r, !u64_small by lia.
  destruct (write_spec m 8 elf data) as (m1 & H1 & Ho1 & Hp1 & Hx1); [eapply mapped_sub; [done|lia..]|].
  destruct (write_spec m1 8 (elf + 8) size) as (m2 & H2 & Ho2 & Hp2 & Hx2).
  { intros x Hx. apply Hx1, Hm. lia. }
  exists m2. rewrite (bind_done _ _ _ _ _ H1). split; [done|].
  change (Z.of_nat 8 * 8) with 64 in *. rewrite Z.mod_small in Hp1, Hp2 by lia.
  split_and!; [|rewrite <- Hp1; apply peek_same|done|intros x; by rewrite Hx2, Hx1].
  - intros x Hx. rewrite Ho2, Ho1 by lia. done.
  - eapply same_off_on; [exact Ho2|right; lia].
Qed.

Lemma lift_done {A} (c : C mem A) h a m :
  c h.(h_mem) = Done a m → lift c h = Done a (Heap m h.(h_blocks)).
Proof. intros H. unfold lift. by rewrite H. Qed.

Lemma lift_read {A} (c : C mem A) h a : c h.(h_mem) = Done a h.(h_mem) → lift c h = Done a h.
Proof. intros H. unfold lift. rewrite H. by destruct h. Qed.

Lemma IS_ELF_value data m b : value (IS_ELF data m) = Some b → IS_ELF data m = Done b m.
Proof.
  assert (Hro : read_only (IS_ELF data)) by (unfold IS_ELF; solve_read_only).
  intros Hv. destruct (IS_ELF data m) as [a m'| |] eqn:He; simplify_eq/=. by rewrite (Hro _ _ _ He).
Qed.

Section objects.
Context `{Allocator} (h : heap) (data size : Z).
Context (Hdata : 0 < data < 2 ^ 64) (Hsize : 0 ≤ size < 2 ^ 64).
Context (Helf : IS_ELF data h.(h_mem) = Done true h.(h_mem)).

(** What elfCreate does when malloc has a block. *)
Lemma elfCreate_done :
  place h sizeof_Elf ≠ 0 →
  let p := place h sizeof_Elf in
  ∃ m', elfCreate data size h = Done p (Heap m' (<[p := sizeof_Elf]> h.(h_blocks))) ∧
    same_off h.(h_mem) m' p 16 ∧ peek m' 8 p = Some data ∧ peek m' 8 (p + 8) = Some size.
Proof using Hdata Hsize Helf.
  intros Hnz p. destruct (place_fresh h sizeof_Elf Hnz) as (Hp & Hle & Hf & Hb). fold p in Hp, Hle, Hf, Hb.
  change sizeof_Elf with 16 in Hle, Hf.
  set (m0 := bytes_at p (replicate 16 garbage) ∪ h_mem h).
  assert (Hm0 : ∀ x, m0 !! x = if decide (p ≤ x < p + 16) then Some garbage else h_mem h !! x).
  { intros x. unfold m0. destruct (bytes_at p (replicate 16 garbage) !! x) as [b|] eqn:Hx.
    - rewrite (lookup_union_Some_l _ _ _ _ Hx). rewrite lookup_bytes_at, length_replicate in Hx.
      case_decide; [|done]. rewrite decide_True by lia. by apply lookup_replicate in Hx as [-> _].
    - rewrite lookup_union_r by done. rewrite lookup_bytes_at, length_replicate in Hx.
      case_decide as Hd; [|by rewrite decide_False by lia].
      exfalso. revert Hx. rewrite lookup_replicate_2 by lia. done. }
  destruct (set_elf_ok m0 p data size) as (m' & Hs & Ho & H1 & H2 & _); [lia..| |].
  { intros x Hx. rewrite Hm0, decide_True by lia. by eexists. }
  exists m'. split; [|split; [|done]].
  - unfold elfCreate. replace (data =? 0) with false by lia.
    rewrite (bind_done _ _ _ _ _ (lift_read _ _ _ Helf)). cbn [negb].
    unfold malloc at 1. rewrite bind_done with (a := p) (s' := Heap m0 (<[p:=sizeof_Elf]> (h_blocks h))).
    + by rewrite (bind_done _ _ _ _ _ (lift_done _ (Heap m0 _) _ _ Hs)).
    + fold p. replace (p =? 0) with false by lia. done.
  - intros x Hx. rewrite Ho by done. by rewrite Hm0, decide_False.
Qed.

(** Freeing the new object undoes its allocation. *)
Lemma free_new m' :
  place h sizeof_Elf ≠ 0 → same_off h.(h_mem) m' (place h sizeof_Elf) 16 →
  free (place h sizeof_Elf) (Heap m' (<[place h sizeof_Elf := sizeof_Elf]> h.(h_blocks))) = Done () h.
Proof using.
  clear Hdata Hsize Helf.
  intros Hnz Ho. destruct (place_fresh h sizeof_Elf Hnz) as (Hp & Hle & Hf & Hb).
  change sizeof_Elf with 16 in Hf at 2 3.
  unfold free. replace (place h sizeof_Elf =? 0) with false by lia. simpl.
  rewrite lookup_insert_eq. f_equal. destruct h as [m bl]; simpl in *. f_equal.
  - apply map_eq. intros x. rewrite lookup_unmap. change sizeof_Elf with 16 at 2. case_decide as Hd.
    + symmetry. by apply Hf.
    + by apply Ho.
  - by rewrite delete_insert_id.
Qed.
End objects.

(** elfCreate then elfDestroy: on data that starts with the ELF magic,
    when malloc has a block, elfCreate returns a new object with that data and
    size, and elfDestroy of it gives the data back and the heap exactly as it
    was before. *)
Theorem elfCreate_destroy `{Allocator} h data size :
  0 < data < 2 ^ 64 → 0 ≤ size < 2 ^ 64 →
  IS_ELF data h.(h_mem) = Done true h.(h_mem) → place h sizeof_Elf ≠ 0 →
  ∃ elf h', elfCreate data size h = Done elf h' ∧ elf ≠ 0 ∧
    get_data elf h'.(h_mem) = Done data h'.(h_mem) ∧
    get_size elf h'.(h_mem) = Done size h'.(h_mem) ∧
    same_off h.(h_mem) h'.(h_mem) elf sizeof_Elf ∧
    elfDestroy elf h' = Done data h.
Proof.
  intros Hd Hs He Hnz. destruct (elfCreate_done h data size Hd Hs He Hnz) as (m' & Hc & Ho & H1 & H2).
  destruct (place_fresh h sizeof_Elf Hnz) as (Hp & Hle & _ & _). change sizeof_Elf with 16 in Hle at 2.
  assert (Hget : get_data (place h sizeof_Elf) m' = Done data m').
  { apply field_peek; [done|]. unfold ptr_add. by rewrite Z.add_0_r, u64_small by lia. }
  eexists _, _. split; [exact Hc|]. simpl. split_and!; [done|exact Hget| |exact Ho|].
  - apply field_peek; [done|]. unfold ptr_add. by rewrite u64_small by lia.
  - unfold elfDestroy. replace (place h sizeof_Elf =? 0) with false by lia.
    rewrite (bind_done _ _ _ _ _ (lift_read _ (Heap m' _) _ Hget)).
    by rewrite (bind_done _ _ _ _ _ (free_new h m' Hnz Ho)).
Qed.

(** An allocator that puts blocks above everything in use. *)
Definition top_of (h : heap) : Z := above (above 0x10000 h.(h_blocks)) h.(h_mem).

#[export, refine] Instance top_allocator : Allocator := {
  place := λ h n, if (0 <=? n) && (top_of h + n <? 2 ^ 64) then top_of h else 0;
  garbage := Byte.xa5 }.
Proof.
  intros h n. case_match eqn:Hc; [|done]. intros _. zb. unfold top_of in *.
  pose proof (above_spec 0x10000 h.(h_blocks)) as [H1 H2].
  set (a := above 0x10000 (h_blocks h)) in *.
  pose proof (above_spec a h.(h_mem)) as [H3 H4].
  split_and!; [lia|lia| |].
  - intros x Hx. apply eq_None_not_Some. intros Hs. specialize (H4 x Hs). lia.
  - apply eq_None_not_Some. intros Hs. specialize (H2 _ Hs). lia.
Defined.

Definition sample_heap : heap := Heap sample_mem {[sample_data := 816]}.

Lemma sample_IS_ELF : IS_ELF sample_data sample_mem = Done true sample_mem.
Proof. apply IS_ELF_value. vm_compute. reflexivity. Qed.

Lemma elfCreate_destroy_witness :
  ∃ elf h', elfCreate sample_data 816 sample_heap = Done elf h' ∧
    elfDestroy elf h' = Done sample_data sample_heap.
Proof.
  destruct (elfCreate_destroy sample_heap sample_data 816) as (elf & h' & H1 & _ & _ & _ & _ & H2).
  - split; reflexivity.
  - split; [discriminate|reflexivity].
  - exact sample_IS_ELF.
  - vm_compute. discriminate.
  - exists elf, h'. split; [exact H1|exact H2].
Defined.

(** The result of malloc is not checked: when there is no memory for the
    object, elfCreate stores through NULL. *)
Theorem elfCreate_out_of_memory `{Allocator} h data size :
  data ≠ 0 → IS_ELF data h.(h_mem) = Done true h.(h_mem) → place h sizeof_Elf = 0 →
  elfCreate data size h = UB.
Proof.
  intros Hd He Hp. unfold elfCreate. replace (data =? 0) with false by lia.
  rewrite (bind_done _ _ _ _ _ (lift_read _ _ _ He)). cbn [negb].
  rewrite bind_done with (a := 0) (s' := h); [done|]. unfold malloc. by rewrite Hp.
Qed.

Definition no_memory : Allocator.
Proof. by refine {| place := λ _ _, 0; garbage := Byte.x00 |}. Defined.

Lemma elfCreate_out_of_memory_witness :
  @elfCreate no_memory sample_data 816 sample_heap = UB.
Proof.
  apply (@elfCreate_out_of_memory no_memory); [discriminate|exact sample_IS_ELF|reflexivity].
Defined.

(** Data without the ELF magic, and NULL, are refused by all constructors
    that check, without an allocation or a store. *)
Theorem elfCreate_refuses `{Allocator} h elfl data size :
  data = 0 ∨ IS_ELF data h.(h_mem) = Done false h.(h_mem) →
  elfCreate data size h = Done 0 h ∧ elfCreateLocal elfl data size h.(h_mem) = Done 0 h.(h_mem).
Proof.
  intros Hd. unfold elfCreate, elfCreateLocal. destruct (data =? 0) eqn:Hz; [by rewrite orb_true_r|].
  zb. destruct Hd as [?|Hd]; [done|]. rewrite orb_false_r.
  rewrite (bind_done _ _ _ _ _ (lift_read _ _ _ Hd)). split; [done|].
  destruct (elfl =? 0); [done|]. by rewrite (bind_done _ _ _ _ _ Hd).
Qed.

Lemma elfCreate_refuses_witness :
  elfCreate (sample_data + 64) 16 sample_heap = Done 0 sample_heap.
Proof. apply (elfCreate_refuses sample_heap 0 (sample_data + 64) 16). right. apply IS_ELF_value. vm_compute. reflexivity. Defined.

(** elfDestroyAndFree of an object made for a malloc'ed buffer releases
    both, object and buffer, and nothing else. *)
Theorem elfDestroyAndFree_releases `{Allocator} h data size n :
  0 < data < 2 ^ 64 → 0 ≤ size < 2 ^ 64 →
  IS_ELF data h.(h_mem) = Done true h.(h_mem) → place h sizeof_Elf ≠ 0 →
  h.(h_blocks) !! data = Some n →
  ∃ elf h', elfCreate data size h = Done elf h' ∧
    elfDestroyAndFree elf h' = Done () (Heap (unmap h.(h_mem) data n) (delete data h.(h_blocks))).
Proof.
  intros Hd Hs He Hnz Hb. destruct (elfCreate_done h data size Hd Hs He Hnz) as (m' & Hc & Ho & H1 & H2).
  destruct (place_fresh h sizeof_Elf Hnz) as (Hp & Hle & _ & _). change sizeof_Elf with 16 in Hle at 2.
  eexists _, _. split; [exact Hc|]. unfold elfDestroyAndFree, elfDestroy.
  replace (place h sizeof_Elf =? 0) with false by lia.
  rewrite bind_assoc, bind_done with (a := data) (s' := Heap m' (<[place h sizeof_Elf:=sizeof_Elf]> (h_blocks h))).
  - rewrite bind_assoc, (bind_done _ _ _ _ _ (free_new h m' Hnz Ho)), bind_ret.
    unfold c_true, free. replace (data =? 0) with false by lia. cbn [negb]. by rewrite Hb.
  - apply lift_read, field_peek; [done|]. unfold ptr_add. by rewrite Z.add_0_r, u64_small by lia.
Qed.

Lemma elfDestroyAndFree_releases_witness :
  ∃ elf h', elfCreate sample_data 816 sample_heap = Done elf h' ∧
    elfDestroyAndFree elf h' =
      Done () (Heap (unmap sample_mem sample_data 816) (delete sample_data (h_blocks sample_heap))).
Proof.
  apply (elfDestroyAndFree_releases sample_heap sample_data 816 816).
  - split; reflexivity.
  - split; [discriminate|reflexivity].
  - exact sample_IS_ELF.
  - vm_compute. discriminate.
  - vm_compute. reflexivity.
Defined.

(** elfCreateLocal and elfCreateLocalUnchecked build the object in the
    caller's 16 bytes and write nothing else. *)
Theorem elfCreateLocal_spec m elfl data size :
  0 < elfl → elfl + sizeof_Elf < 2 ^ 64 → mapped m elfl sizeof_Elf →
  0 < data < 2 ^ 64 → 0 ≤ size < 2 ^ 64 → IS_ELF data m = Done true m →
  ∃ m', elfCreateLocal elfl data size m = Done elfl m' ∧
    elfCreateLocalUnchecked elfl data size m = Done elfl m' ∧
    get_data elfl m' = Done data m' ∧ get_size elfl m' = Done size m' ∧
    same_off m m' elfl sizeof_Elf.
Proof.
  intros Hp Hle Hm Hd Hs He. change sizeof_Elf with 16 in *.
  destruct (set_elf_ok m elfl data size) as (m' & Hset & Ho & H1 & H2 & _); [lia..|done|].
  exists m'. unfold elfCreateLocal, elfCreateLocalUnchecked.
  replace ((elfl =? 0) || (data =? 0)) with false by lia.
  rewrite (bind_done _ _ _ _ _ He). cbn [negb]. rewrite !(bind_done _ _ _ _ _ Hset).
  split_and!; [done|done| | |done]; (apply field_peek; [lia|]); unfold ptr_add;
    rewrite ?Z.add_0_r, u64_small by lia; done.
Qed.

Lemma elfCreateLocal_spec_witness :
  ∃ m', elfCreateLocal sample_elf sample_data 816 sample_mem = Done sample_elf m' ∧
    get_data sample_elf m' = Done sample_data m'.
Proof.
  destruct (elfCreateLocal_spec sample_mem sample_elf sample_data 816) as (m' & H1 & _ & H2 & _).
  - reflexivity.
  - reflexivity.
  - intros x Hx. change (0x1000 ≤ x < 0x1000 + 16) in Hx.
    assert (Hl : ∃ bs, load_bytes sample_mem 0x1000 16 = Some bs) by (eexists; vm_compute; reflexivity).
    destruct Hl as [bs Hl]. apply (load_bytes_is_mapped _ _ _ _ Hl). exact Hx.
  - split; reflexivity.
  - split; [discriminate|reflexivity].
  - exact sample_IS_ELF.
  - exists m'. split; [exact H1|exact H2].
Defined.
