(* ===== verification/X86.v ===== *)
(** * The x86-64 instructions of the assembly parts

    Syntax, encoding and semantics of the instruction forms that the stubs of
    include/ps4/internal/stub.h and the routines of
    source/ps4/internal/pushpop.s and kerncall.s are written with.  Local
    labels are kept as zero-size instructions, so a program reads like the
    assembly text it models; [assemble] lays it out, [run] executes it up to
    the point where control leaves it. *)

From S2P Require Import Prelude.
From S2P Require Import Memory.

Inductive reg :=
| RAX | RBX | RCX | RDX | RSI | RDI | RBP | RSP
| R8 | R9 | R10 | R11 | R12 | R13 | R14 | R15.

#[export] Instance reg_eq_dec : EqDecision reg.
Proof. solve_decision. Defined.

(** Symbols other than local labels. *)
Inductive sym :=
| S_function
| S_ps4Pushall
| S_ps4Popall
| S_ps4Kerncall
| S_ps4ResolveModuleAndSymbolOrKernelSymbol.

Inductive label := L_R | L_E | L_K.

Definition label_eqb (a b : label) : bool :=
  match a, b with L_R, L_R | L_E, L_E | L_K, L_K => true | _, _ => false end.

Inductive insn :=
| I_label (l : label)
| I_test_al (imm : Z)                    (** test $imm, %al *)
| I_mov (s d : reg)                      (** mov s, d *)
| I_load_abs (a : Z)                     (** movabs a, %rax *)
| I_imm64 (imm : Z) (d : reg)            (** movabs $imm, d *)
| I_imm32 (imm : Z) (d : reg)            (** movq $imm, d: sign-extended *)
| I_xchg_rax (r : reg)                   (** xchg %rax, r *)
| I_test (r : reg)                       (** test r, r *)
| I_xor (r : reg)                        (** xor r, r *)
| I_shr (n : Z) (r : reg)                (** shrq $n, r *)
| I_sub (n : Z) (r : reg)                (** sub $n, r *)
| I_add (n : Z) (r : reg)                (** add $n, r *)
| I_load (off : Z) (b d : reg)           (** movq off(b), d *)
| I_store (s : reg) (off : Z) (b : reg)  (** movq s, off(b) *)
| I_loadx (off : Z) (b : reg) (x : nat)  (** movdqu off(b), %xmmx *)
| I_storex (x : nat) (off : Z) (b : reg) (** movdqu %xmmx, off(b) *)
| I_jz (l : label)
| I_jnz (l : label)
| I_jmp_reg (r : reg)                    (** jmp *r *)
| I_jmp (s : sym)
| I_call (s : sym)
| I_ret.

(** ** Encoding *)

Definition rnum (r : reg) : Z :=
  match r with
  | RAX => 0 | RCX => 1 | RDX => 2 | RBX => 3 | RSP => 4 | RBP => 5 | RSI => 6 | RDI => 7
  | R8 => 8 | R9 => 9 | R10 => 10 | R11 => 11 | R12 => 12 | R13 => 13 | R14 => 14 | R15 => 15
  end.

Definition rlow (r : reg) : Z := Z.land (rnum r) 7.
Definition rhigh (r : reg) : Z := Z.shiftr (rnum r) 3.

(** REX.W with the extension bits of the reg and the r/m (or opcode) field. *)
Definition rex_w (r b : reg) : Z := 0x48 + 4 * rhigh r + rhigh b.
(** ModRM with register operands. *)
Definition modrm (r b : Z) : Z := 0xC0 + 8 * r + b.

(** The bytes of the forms the stubs use.  [here] is the offset after the
    instruction, [lab] the offset of a local label and [rel] the displacement
    the linker fills in for a symbol. *)
Definition encode (lab : label → Z) (rel : Z → sym → Z) (here : Z) (i : insn) : option (list Z) :=
  match i with
  | I_label _ => Some []
  | I_test_al n => Some [0xA8; n]
  | I_mov s d => Some [rex_w s d; 0x89; modrm (rlow s) (rlow d)]
  | I_load_abs a => Some ([0x48; 0xA1] ++ map byte.unsigned (le_split 8 a))
  | I_imm64 n d => Some ([rex_w RAX d; 0xB8 + rlow d] ++ map byte.unsigned (le_split 8 n))
  | I_imm32 n d => Some ([rex_w RAX d; 0xC7; modrm 0 (rlow d)] ++ map byte.unsigned (le_split 4 n))
  | I_xchg_rax r => Some [rex_w RAX r; 0x90 + rlow r]
  | I_test r => Some [rex_w r r; 0x85; modrm (rlow r) (rlow r)]
  | I_xor r => Some [rex_w r r; 0x31; modrm (rlow r) (rlow r)]
  | I_shr n r => Some [rex_w RAX r; 0xC1; modrm 5 (rlow r); n]
  | I_jz l => Some [0x74; u8 (lab l - here)]
  | I_jnz l => Some [0x75; u8 (lab l - here)]
  | I_jmp_reg r => Some [0x40 + rhigh r; 0xFF; modrm 4 (rlow r)]
  | I_jmp s => Some ([0xE9] ++ map byte.unsigned (le_split 4 (rel here s)))
  | I_call s => Some ([0xE8] ++ map byte.unsigned (le_split 4 (rel here s)))
  | I_ret => Some [0xC3]
  | I_sub _ _ | I_add _ _ | I_load _ _ _ | I_store _ _ _ | I_loadx _ _ _ | I_storex _ _ _ => None
  end.

Definition insn_size (i : insn) : Z :=
  match i with
  | I_label _ => 0
  | I_ret => 1
  | I_test_al _ | I_xchg_rax _ | I_jz _ | I_jnz _ => 2
  | I_mov _ _ | I_test _ | I_xor _ | I_jmp_reg _ => 3
  | I_shr _ _ => 4
  | I_jmp _ | I_call _ => 5
  | I_imm32 _ _ => 7
  | I_load_abs _ | I_imm64 _ _ => 10
  | _ => 0
  end.

(** The offset of a label; a program that jumps to a label defines it. *)
Fixpoint label_offset (off : Z) (prog : list insn) (l : label) : Z :=
  match prog with
  | [] => off
  | I_label l' :: prog => if label_eqb l' l then off else label_offset off prog l
  | i :: prog => label_offset (off + insn_size i) prog l
  end.

Fixpoint assemble_from (lab : label → Z) (rel : Z → sym → Z) (off : Z) (prog : list insn)
    : option (list Z) :=
  match prog with
  | [] => Some []
  | i :: prog =>
      b ← encode lab rel (off + insn_size i) i;
      bs ← assemble_from lab rel (off + insn_size i) prog;
      Some (b ++ bs)
  end.

Definition assemble (rel : Z → sym → Z) (prog : list insn) : option (list byte) :=
  map byte.of_Z <$> assemble_from (label_offset 0 prog) rel 0 prog.

(** ** Execution *)

Record machine := Machine {
  gpr : reg → Z;
  xmm : nat → Z;
  zf : bool;
  ram : mem }.

Definition upd (f : reg → Z) (k : reg) (v : Z) : reg → Z :=
  λ r, if rnum r =? rnum k then v else f r.
Definition updx (f : nat → Z) (k : nat) (v : Z) : nat → Z :=
  λ x, if (x =? k)%nat then v else f x.

Definition set_gpr (r : reg) (v : Z) (s : machine) : machine :=
  Machine (upd s.(gpr) r v) s.(xmm) s.(zf) s.(ram).
Definition set_xmm (x : nat) (v : Z) (s : machine) : machine :=
  Machine s.(gpr) (updx s.(xmm) x v) s.(zf) s.(ram).
Definition set_zf (b : bool) (s : machine) : machine :=
  Machine s.(gpr) s.(xmm) b s.(ram).
Definition set_ram (m : mem) (s : machine) : machine :=
  Machine s.(gpr) s.(xmm) s.(zf) m.

Definition load (n : nat) (a : Z) (s : machine) : option Z := peek s.(ram) n (u64 a).

Definition store (n : nat) (a v : Z) (s : machine) : option machine :=
  m ← store_bytes s.(ram) (u64 a) (le_split n v); Some (set_ram m s).

(** [call]: the return address goes on the stack. *)
Definition push (v : Z) (s : machine) : option machine :=
  store 8 (s.(gpr) RSP - 8) v (set_gpr RSP (u64 (s.(gpr) RSP - 8)) s).

(** An instruction that does not transfer control. *)
Definition straight (i : insn) (s : machine) : option machine :=
  match i with
  | I_label _ => Some s
  | I_test_al n => Some (set_zf (Z.land (u8 (s.(gpr) RAX)) n =? 0) s)
  | I_mov a d => Some (set_gpr d (s.(gpr) a) s)
  | I_load_abs a => v ← load 8 a s; Some (set_gpr RAX v s)
  | I_imm64 n d => Some (set_gpr d (u64 n) s)
  | I_imm32 n d => Some (set_gpr d (u64 (i32 n)) s)
  | I_xchg_rax r => Some (set_gpr r (s.(gpr) RAX) (set_gpr RAX (s.(gpr) r) s))
  | I_test r => Some (set_zf (s.(gpr) r =? 0) s)
  | I_xor r => Some (set_zf true (set_gpr r 0 s))
  | I_shr n r => let v := Z.shiftr (s.(gpr) r) n in Some (set_zf (v =? 0) (set_gpr r v s))
  | I_sub n r => let v := u64 (s.(gpr) r - n) in Some (set_zf (v =? 0) (set_gpr r v s))
  | I_add n r => let v := u64 (s.(gpr) r + n) in Some (set_zf (v =? 0) (set_gpr r v s))
  | I_load o b d => v ← load 8 (s.(gpr) b + o) s; Some (set_gpr d v s)
  | I_store a o b => store 8 (s.(gpr) b + o) (s.(gpr) a) s
  | I_loadx o b x => v ← load 16 (s.(gpr) b + o) s; Some (set_xmm x v s)
  | I_storex x o b => store 16 (s.(gpr) b + o) (s.(xmm) x) s
  | _ => None
  end.

(** How control leaves a program. *)
Inductive exit :=
| ExitJump (target : Z) (s : machine)
| ExitTail (f : sym) (s : machine)
| ExitCall (f : sym) (rest : list insn) (s : machine)
| ExitRet (target : Z) (s : machine)
| ExitFault.

(** The program from a label on: the labels of the programs here are only
    jumped to forwards. *)
Fixpoint from_label (l : label) (prog : list insn) : list insn :=
  match prog with
  | [] => []
  | I_label l' :: prog => if label_eqb l' l then prog else from_label l prog
  | _ :: prog => from_label l prog
  end.

(** [ra prog] is the address of the instruction at which [prog] starts. *)
Fixpoint run_fuel (ra : list insn → Z) (fuel : nat) (prog : list insn) (s : machine) : exit :=
  match fuel, prog with
  | S fuel, i :: prog =>
      match i with
      | I_jz l => if s.(zf) then run_fuel ra fuel (from_label l prog) s else run_fuel ra fuel prog s
      | I_jnz l => if s.(zf) then run_fuel ra fuel prog s else run_fuel ra fuel (from_label l prog) s
      | I_jmp_reg r => ExitJump (s.(gpr) r) s
      | I_jmp f => ExitTail f s
      | I_call f =>
          match push (ra prog) s with Some s => ExitCall f prog s | None => ExitFault end
      | I_ret =>
          match load 8 (s.(gpr) RSP) s with
          | Some t => ExitRet t (set_gpr RSP (u64 (s.(gpr) RSP + 8)) s)
          | None => ExitFault
          end
      | _ => match straight i s with Some s => run_fuel ra fuel prog s | None => ExitFault end
      end
  | _, _ => ExitFault
  end.

(** Every jump goes forwards, so the length of the program is fuel enough. *)
Definition run (ra : list insn → Z) (prog : list insn) (s : machine) : exit :=
  run_fuel ra (length prog) prog s.

(** Execution of a concrete program on a symbolic state. *)
Ltac x86_step :=
  cbn [run_fuel app length straight set_gpr set_xmm set_zf set_ram zf gpr ram xmm from_label label_eqb
       upd updx rnum Z.eqb Pos.eqb Nat.eqb mbind option_bind].
