(* ===== verification/Stub.v ===== *)
(** * Stubs

    The assembly stubs of include/ps4/internal/stub.h as programs, the save
    and restore routines of source/ps4/internal/pushpop.s, and the stub
    reader of ps4Resolve in source/ps4/internal/resolve.c, which finds the
    operands of a stub at fixed offsets of its machine code ("keep in sync
    with stubs layout"). *)

From S2P Require Import Prelude.
From S2P Require Import Memory.
From S2P Require Import X86.

(** ** Stub types *)

Definition PS4StubTypeFunction : Z := 0.
Definition PS4StubTypeKernelFunction : Z := 1.
Definition PS4StubTypeFunctionAndKernelFunction : Z := 2.
Definition PS4StubTypeSyscallAndKernelFunction : Z := 3.
Definition PS4StubTypeSyscall : Z := 4.

(** [(int)((char * )fn)[2]], with a signed [char]. *)
Definition ps4StubType (fn : Z) : C mem Z :=
  b ← field 1 fn 2; mret (i8 b).

(** ** Programs *)

(** The common tail: save, [args], resolve, restore, try again or give up. *)
Definition after_popall : list insn :=
  [ I_test R11; I_jnz L_E; I_jmp S_function; I_label L_E; I_ret ].
Definition after_resolve : list insn :=
  [ I_mov RAX R11; I_call S_ps4Popall ] ++ after_popall.
Definition after_pushall (args : list insn) : list insn :=
  args ++ [ I_xor RAX; I_call S_ps4ResolveModuleAndSymbolOrKernelSymbol ] ++ after_resolve.
Definition resolve_tail (args : list insn) : list insn :=
  [ I_label L_R; I_call S_ps4Pushall ] ++ after_pushall args.

(** Load the cached address into r11, keeping rax, and go there if it is set. *)
Definition cached_jump (address : Z) : list insn :=
  [ I_load_abs address;
    I_xchg_rax R11;
    I_test R11;
    I_jz L_R;
    I_jmp_reg R11 ].

Definition PS4FunctionStub (function moduleName functionName moduleHandle functionAddress : Z)
    : list insn :=
  [ I_test_al 0; I_mov RAX R11 ]
  ++ cached_jump functionAddress
  ++ resolve_tail
    [ I_imm64 moduleName RDI;
      I_imm64 functionName RSI;
      I_imm64 moduleHandle RDX;
      I_imm64 functionAddress RCX;
      I_imm64 function R9 ].

Definition PS4KernelFunctionStub (function functionName functionAddress : Z) : list insn :=
  [ I_test_al 1; I_mov RAX R11 ]
  ++ cached_jump functionAddress
  ++ resolve_tail
    [ I_imm64 functionName RSI;
      I_imm64 functionAddress R8;
      I_imm64 function R9 ].

(** The ring is told from the top bits of the stack pointer. *)
Definition ring_test : list insn :=
  [ I_mov RSP RAX; I_shr 48 RAX; I_test RAX; I_jnz L_K ].

Definition PS4FunctionAndKernelFunctionStub
    (function moduleName functionName moduleHandle userFunctionAddress kernelFunctionAddress : Z)
    : list insn :=
  [ I_test_al 2; I_mov RAX R11 ] ++ ring_test
  ++ cached_jump userFunctionAddress
  ++ [ I_label L_K ] ++ cached_jump kernelFunctionAddress
  ++ resolve_tail
    [ I_imm64 moduleName RDI;
      I_imm64 functionName RSI;
      I_imm64 moduleHandle RDX;
      I_imm64 userFunctionAddress RCX;
      I_imm64 kernelFunctionAddress R8;
      I_imm64 function R9 ].

Definition PS4SyscallAndKernelFunctionStub (function functionName functionAddress number : Z)
    : list insn :=
  [ I_test_al 3; I_mov RAX R11 ] ++ ring_test
  ++ [ I_imm32 number RAX; I_jmp S_ps4Kerncall; I_label L_K ]
  ++ cached_jump functionAddress
  ++ resolve_tail
    [ I_imm64 functionName RDI;
      I_imm64 functionAddress R8;
      I_imm64 function R9 ].

Definition PS4SyscallStub (number : Z) : list insn :=
  [ I_test_al 4; I_imm32 number RAX; I_jmp S_ps4Kerncall ].

(** source/ps4/internal/pushpop.s *)
Definition ps4Pushall : list insn :=
  [ I_sub 240 RSP;
    I_store RAX 8 RSP;
    I_load 240 RSP RAX;
    I_storex 7 232 RSP; I_storex 6 216 RSP; I_storex 5 200 RSP; I_storex 4 184 RSP;
    I_storex 3 168 RSP; I_storex 2 152 RSP; I_storex 1 136 RSP; I_storex 0 120 RSP;
    I_store R15 104 RSP; I_store R14 96 RSP; I_store R13 88 RSP; I_store R12 80 RSP;
    I_store R10 72 RSP;
    I_store R9 64 RSP; I_store R8 56 RSP; I_store RDI 48 RSP; I_store RSI 40 RSP;
    I_store RDX 32 RSP; I_store RCX 24 RSP; I_store RBX 16 RSP;
    I_store RAX 0 RSP;
    I_ret ].

Definition ps4Popall : list insn :=
  [ I_load 0 RSP RAX;
    I_store RAX 240 RSP;
    I_load 8 RSP RAX; I_load 16 RSP RBX; I_load 24 RSP RCX; I_load 32 RSP RDX;
    I_load 40 RSP RSI; I_load 48 RSP RDI; I_load 56 RSP R8; I_load 64 RSP R9;
    I_load 72 RSP R10; I_load 80 RSP R12; I_load 88 RSP R13; I_load 96 RSP R14;
    I_load 104 RSP R15;
    I_loadx 120 RSP 0; I_loadx 136 RSP 1; I_loadx 152 RSP 2; I_loadx 168 RSP 3;
    I_loadx 184 RSP 4; I_loadx 200 RSP 5; I_loadx 216 RSP 6; I_loadx 232 RSP 7;
    I_add 240 RSP;
    I_ret ].

(** ** Reading a stub back *)

(** The operands of a stub; absent ones are NULL. *)
Record stub_operands := StubOperands {
  so_module : Z;
  so_symbol : Z;
  so_moduleId : Z;
  so_userAddress : Z;
  so_kernelAddress : Z;
  so_fn : Z }.

(** The switch of ps4Resolve: [inr status] leaves it. *)
Definition read_stub (success failure : Z) (f : Z) : C mem (stub_operands + Z) :=
  b0 ← field 1 f 0;
  if negb (b0 =? 0xa8) then mret (inr failure) else
  b1 ← field 1 f 1;
  if b1 =? 0x00 then
    module ← field 8 f 32; symbol ← field 8 f 42; moduleId ← field 8 f 52;
    userAddress ← field 8 f 62; fn ← field 8 f 72;
    mret (inl (StubOperands module symbol moduleId userAddress 0 fn))
  else if b1 =? 0x01 then
    symbol ← field 8 f 32; kernelAddress ← field 8 f 42; fn ← field 8 f 52;
    mret (inl (StubOperands 0 symbol 0 0 kernelAddress fn))
  else if b1 =? 0x02 then
    module ← field 8 f 64; symbol ← field 8 f 74; moduleId ← field 8 f 84;
    userAddress ← field 8 f 94; kernelAddress ← field 8 f 104; fn ← field 8 f 114;
    mret (inl (StubOperands module symbol moduleId userAddress kernelAddress fn))
  else if b1 =? 0x03 then
    symbol ← field 8 f 56; kernelAddress ← field 8 f 66; fn ← field 8 f 76;
    mret (inl (StubOperands 0 symbol 0 0 kernelAddress fn))
  else if b1 =? 0x04 then mret (inr success)
  else mret (inr failure).

(** ** Layout *)

Inductive stub :=
| FunctionStub (function moduleName functionName moduleHandle functionAddress : Z)
| KernelFunctionStub (function functionName functionAddress : Z)
| FunctionAndKernelFunctionStub
    (function moduleName functionName moduleHandle userFunctionAddress kernelFunctionAddress : Z)
| SyscallAndKernelFunctionStub (function functionName functionAddress number : Z)
| SyscallStub (number : Z).

Definition program (s : stub) : list insn :=
  match s with
  | FunctionStub f mn fn mh fa => PS4FunctionStub f mn fn mh fa
  | KernelFunctionStub f fn fa => PS4KernelFunctionStub f fn fa
  | FunctionAndKernelFunctionStub f mn fn mh ua ka => PS4FunctionAndKernelFunctionStub f mn fn mh ua ka
  | SyscallAndKernelFunctionStub f fn fa n => PS4SyscallAndKernelFunctionStub f fn fa n
  | SyscallStub n => PS4SyscallStub n
  end.

Definition stub_type (s : stub) : Z :=
  match s with
  | FunctionStub _ _ _ _ _ => PS4StubTypeFunction
  | KernelFunctionStub _ _ _ => PS4StubTypeKernelFunction
  | FunctionAndKernelFunctionStub _ _ _ _ _ _ => PS4StubTypeFunctionAndKernelFunction
  | SyscallAndKernelFunctionStub _ _ _ _ => PS4StubTypeSyscallAndKernelFunction
  | SyscallStub _ => PS4StubTypeSyscall
  end.

(** The operands written into a stub; a system call stub has none. *)
Definition operands (s : stub) : option stub_operands :=
  match s with
  | FunctionStub f mn fn mh fa => Some (StubOperands mn fn mh fa 0 f)
  | KernelFunctionStub f fn fa => Some (StubOperands 0 fn 0 0 fa f)
  | FunctionAndKernelFunctionStub f mn fn mh ua ka => Some (StubOperands mn fn mh ua ka f)
  | SyscallAndKernelFunctionStub f fn fa _ => Some (StubOperands 0 fn 0 0 fa f)
  | SyscallStub _ => None
  end.

Definition address (a : Z) : Prop := 0 ≤ a < 2 ^ 64.

Definition operands_ok (s : stub) : Prop :=
  match operands s with
  | Some o => address o.(so_module) ∧ address o.(so_symbol) ∧ address o.(so_moduleId) ∧
      address o.(so_userAddress) ∧ address o.(so_kernelAddress) ∧ address o.(so_fn)
  | None => True
  end.

(** The machine code of [prog] is in memory at [f]. *)
Record placed (m : mem) (f : Z) (rel : Z → sym → Z) (prog : list insn) (bs : list byte) : Prop := {
  pl_code : assemble rel prog = Some bs;
  pl_load : load_bytes m f (length bs) = Some bs;
  pl_pos : 0 < f;
  pl_top : f + Z.of_nat (length bs) ≤ 2 ^ 64 }.

Definition psize (prog : list insn) : Z := foldr (λ i n, insn_size i + n) 0 prog.

Lemma encode_size lab rel here i b : encode lab rel here i = Some b → Z.of_nat (length b) = insn_size i.
Proof. destruct i; simpl; intros; simplify_eq/=; try done; rewrite ?length_app, ?length_map; simpl; done. Qed.

Lemma assemble_from_split lab rel off p1 i p2 bs :
  assemble_from lab rel off (p1 ++ i :: p2) = Some bs →
  ∃ pre b post, encode lab rel (off + psize p1 + insn_size i) i = Some b ∧
    bs = pre ++ b ++ post ∧ Z.of_nat (length pre) = psize p1.
Proof.
  revert off bs. induction p1 as [|j p1 IH]; intros off bs; simpl.
  - intros (b & Hb & (bs' & _ & [= <-])%bind_Some)%bind_Some. exists [], b, bs'.
    rewrite Z.add_0_r. done.
  - intros (b & Hb & (bs' & H & [= <-])%bind_Some)%bind_Some.
    destruct (IH _ _ H) as (pre & b' & post & He & -> & Hl). exists (b ++ pre), b', post.
    split_and!; [by rewrite Z.add_assoc|by rewrite !app_assoc|].
    rewrite length_app, Nat2Z.inj_add, Hl. by rewrite (encode_size _ _ _ _ _ Hb).
Qed.

(** The bytes of one instruction of a placed program. *)
Lemma placed_insn m f rel prog bs p1 i p2 :
  placed m f rel prog bs → prog = p1 ++ i :: p2 →
  ∃ b, encode (label_offset 0 prog) rel (psize p1 + insn_size i) i = Some b ∧
    load_bytes m (f + psize p1) (length b) = Some (map byte.of_Z b) ∧
    0 ≤ psize p1 ∧ f + psize p1 + Z.of_nat (length b) ≤ 2 ^ 64.
Proof.
  intros [Hc Hl Hf Ht] Hp. unfold assemble in Hc. apply fmap_Some in Hc as (zs & Hc & ->).
  rewrite Hp in Hc at 2. destruct (assemble_from_split _ _ _ _ _ _ _ Hc) as (pre & b & post & He & -> & Hlen).
  exists b. rewrite length_map, !length_app in *. split; [done|].
  split_and!; [|lia|lia]. rewrite !map_app in Hl.
  apply load_bytes_app in Hl as [_ Hl]. apply load_bytes_app in Hl as [Hl _].
  rewrite Hlen in Hl. rewrite Hl. f_equal.
  rewrite drop_app_length' by (by rewrite length_map). by rewrite take_app_length' by (by rewrite length_map).
Qed.

Lemma of_unsigned bs : map byte.of_Z (map byte.unsigned bs) = bs.
Proof. induction bs as [|b bs IH]; simpl; [done|]. by rewrite byte.of_Z_unsigned, IH. Qed.

(** The 64-bit operand of a [movabs]. *)
Lemma placed_imm64 m f rel prog bs p1 x d p2 off :
  placed m f rel prog bs → prog = p1 ++ I_imm64 x d :: p2 → off = psize p1 + 2 → address x →
  field 8 f off m = Done x m.
Proof.
  intros Hpl Hp -> Hx. pose proof (pl_pos _ _ _ _ _ Hpl).
  destruct (placed_insn _ _ _ _ _ _ _ _ Hpl Hp) as (b & He & Hl & Hs & Ht).
  assert (b = [rex_w RAX d; 0xB8 + rlow d] ++ map byte.unsigned (le_split 8 x)) as -> by (cbn [encode] in He; congruence).
  clear He.
  apply field_peek; [lia|]. rewrite map_app, of_unsigned in Hl.
  rewrite length_app, length_map, length_le_split in *.
  apply (load_bytes_app m (f + psize p1) 2 8) in Hl as [_ Hl].
  unfold peek, ptr_add. rewrite u64_small by (simpl in Ht; lia).
  rewrite Z.add_assoc. change (drop 2 _) with (le_split 8 x) in Hl. change (Z.of_nat 2) with 2 in Hl.
  rewrite Hl. simpl. rewrite le_combine_split. f_equal. apply Z.mod_small. done.
Qed.

(** Byte [k] of an instruction. *)
Lemma placed_byte m f rel prog bs p1 i p2 (k : nat) off :
  placed m f rel prog bs → prog = p1 ++ i :: p2 → off = psize p1 + Z.of_nat k →
  (k < Z.to_nat (insn_size i))%nat →
  ∃ b z, encode (label_offset 0 prog) rel (psize p1 + insn_size i) i = Some b ∧ b !! k = Some z ∧
    field 1 f off m = Done (byte.unsigned (byte.of_Z z)) m.
Proof.
  intros Hpl Hp -> Hk. pose proof (pl_pos _ _ _ _ _ Hpl).
  destruct (placed_insn _ _ _ _ _ _ _ _ Hpl Hp) as (b & He & Hl & Hs & Ht).
  pose proof (encode_size _ _ _ _ _ He). destruct (lookup_lt_is_Some_2 b k) as [z Hz]; [lia|].
  exists b, z. split_and!; [done|done|]. apply field_peek; [lia|].
  apply load_bytes_spec in Hl as [_ Hl]. specialize (Hl k ltac:(lia)).
  unfold peek, ptr_add. rewrite u64_small by lia. simpl. rewrite Z.add_assoc, Hl.
  rewrite list_lookup_fmap, Hz. simpl. by rewrite le_combine_1.
Qed.

(** The operand at a known offset: look for the instruction that holds it. *)
Ltac stub_operand_at k :=
  match goal with
  | Hpl : placed _ _ _ ?P _ |- _ =>
      let p1 := eval cbn in (take k P) in
      eapply (placed_imm64 _ _ _ _ _ p1); [exact Hpl|reflexivity|reflexivity|assumption]
  end.
Ltac stub_operand :=
  first [ stub_operand_at 8%nat | stub_operand_at 9%nat | stub_operand_at 10%nat | stub_operand_at 11%nat
        | stub_operand_at 12%nat | stub_operand_at 13%nat | stub_operand_at 14%nat | stub_operand_at 15%nat
        | stub_operand_at 16%nat | stub_operand_at 17%nat | stub_operand_at 18%nat | stub_operand_at 19%nat
        | stub_operand_at 20%nat | stub_operand_at 21%nat | stub_operand_at 22%nat | stub_operand_at 23%nat
        | stub_operand_at 24%nat | stub_operand_at 25%nat | stub_operand_at 26%nat ].

Lemma read_stub_ok m f rel s bs success failure :
  placed m f rel (program s) bs → operands_ok s →
  read_stub success failure f m =
    Done match operands s with Some o => inl o | None => inr success end m.
Proof.
  intros Hpl Hok. unfold read_stub.
  destruct (placed_byte _ _ _ _ _ [] (I_test_al (stub_type s)) (tail (program s)) 0 0 Hpl)
    as (b & z & He & Hz & H0); [by destruct s|done|simpl; lia|]. simpl in He. simplify_eq/=.
  destruct (placed_byte _ _ _ _ _ [] (I_test_al (stub_type s)) (tail (program s)) 1 1 Hpl)
    as (b & z & He & Hz & H1); [by destruct s|done|simpl; lia|]. simpl in He. simplify_eq/=.
  change (byte.unsigned (byte.of_Z 0xA8)) with 0xA8 in H0.
  replace (byte.unsigned (byte.of_Z (stub_type s))) with (stub_type s) in H1 by (by destruct s).
  rewrite (bind_done _ _ _ _ _ H0). cbn [negb Z.eqb Pos.eqb]. rewrite (bind_done _ _ _ _ _ H1).
  destruct s; unfold operands_ok in Hok; cbn [operands so_module so_symbol so_moduleId
    so_userAddress so_kernelAddress so_fn] in Hok; destruct_and?; cbn [stub_type];
    cbn [Z.eqb Pos.eqb PS4StubTypeFunction PS4StubTypeKernelFunction PS4StubTypeFunctionAndKernelFunction
      PS4StubTypeSyscallAndKernelFunction PS4StubTypeSyscall].
  - do 5 (erewrite bind_done; [|stub_operand]). done.
  - do 3 (erewrite bind_done; [|stub_operand]). done.
  - do 6 (erewrite bind_done; [|stub_operand]). done.
  - do 3 (erewrite bind_done; [|stub_operand]). done.
  - done.
Qed.

(** C9. The stub layout: ps4Resolve finds in the machine code of each kind of
    stub, at the offsets it has built in, exactly the operands the stub was
    assembled with, whatever the linker puts into the call displacements. *)
Theorem read_stub_layout m f rel s bs success failure :
  placed m f rel (program s) bs → operands_ok s →
  read_stub success failure f m =
    Done match operands s with Some o => inl o | None => inr success end m.
Proof. apply read_stub_ok. Qed.

Lemma stub_type_read m f rel s bs :
  placed m f rel (program s) bs →
  ∃ t, ps4StubType f m = Done t m ∧ ∀ s', t ≠ stub_type s'.
Proof.
  intros Hpl.
  assert (Hb : field 1 f 2 m = Done 0x49 m ∨ field 1 f 2 m = Done 0x48 m).
  { destruct (program s) as [|i1 [|i2 rest]] eqn:Hp; [by destruct s..|].
    destruct (placed_byte _ _ _ _ _ [i1] i2 rest 0 2 Hpl) as (b & z & He & Hz & H2);
      [done|destruct s; by injection Hp as <- <- _|destruct s; injection Hp as <- <- _; simpl; lia|].
    destruct s; injection Hp as <- <- _; simpl in He; injection He as <-; injection Hz as <-; auto. }
  unfold ps4StubType. destruct Hb as [Hb|Hb]; rewrite (bind_done _ _ _ _ _ Hb);
    (eexists; split; [reflexivity|]; by intros []).
Qed.

(** The type marker is byte 1 of a stub.  ps4StubType reads byte 2, which
    is the first byte of the second instruction: for no stub does it give a
    stub type. *)
Theorem ps4StubType_misses m f rel s bs :
  placed m f rel (program s) bs →
  ∃ t, ps4StubType f m = Done t m ∧ ∀ s', t ≠ stub_type s'.
Proof. apply stub_type_read. Qed.

(** ** Running a stub *)

(** Where a stub looks for the function: the cache it reads, by ring. *)
Definition slot (s : stub) (rsp : Z) : option Z :=
  match s with
  | FunctionStub _ _ _ _ fa => Some fa
  | KernelFunctionStub _ _ fa => Some fa
  | FunctionAndKernelFunctionStub _ _ _ _ ua ka => Some (if Z.shiftr rsp 48 =? 0 then ua else ka)
  | SyscallAndKernelFunctionStub _ _ fa _ => if Z.shiftr rsp 48 =? 0 then None else Some fa
  | SyscallStub _ => None
  end.

Definition number (s : stub) : Z :=
  match s with
  | SyscallAndKernelFunctionStub _ _ _ n | SyscallStub n => n
  | _ => 0
  end.

(** Everything a callee may look at but the registers [rs]. *)
Definition keeps (rs : list reg) (s s' : machine) : Prop :=
  (∀ r, r ∉ rs → s'.(gpr) r = s.(gpr) r) ∧ (∀ x, s'.(xmm) x = s.(xmm) x) ∧ s'.(ram) = s.(ram).

Lemma load_address a m : address a → load 8 a m = peek m.(ram) 8 a.
Proof. intros. unfold load. by rewrite u64_small. Qed.

Ltac keeps_tac :=
  split_and!;
  [ let r := fresh in let H := fresh in intros r H; destruct r;
    first [reflexivity | exfalso; apply H; solve [repeat constructor]]
  | reflexivity | reflexivity ].

Ltac stub_unfold :=
  unfold run, program, PS4FunctionStub, PS4KernelFunctionStub, PS4FunctionAndKernelFunctionStub,
    PS4SyscallAndKernelFunctionStub, PS4SyscallStub, ring_test, cached_jump, resolve_tail,
    after_pushall, after_resolve, after_popall.

(** The cached address is loaded, then tested. *)
Ltac stub_load H :=
  rewrite load_address by done; x86_step; rewrite H; x86_step.

Lemma stub_jump_ok ra s st a t :
  slot s (st.(gpr) RSP) = Some a → address a → peek st.(ram) 8 a = Some t → t ≠ 0 →
  ∃ st', run ra (program s) st = ExitJump t st' ∧ keeps [R11] st st'.
Proof.
  intros Hs Ha Hp Ht. assert (Hz : (t =? 0) = false) by lia. destruct s; cbn [slot] in Hs; simplify_eq.
  - stub_unfold. x86_step. stub_load Hp. rewrite Hz. x86_step. eexists. split; [reflexivity|]. keeps_tac.
  - stub_unfold. x86_step. stub_load Hp. rewrite Hz. x86_step. eexists. split; [reflexivity|]. keeps_tac.
  - stub_unfold. x86_step. revert Ha Hp. destruct (Z.shiftr (gpr st RSP) 48 =? 0); intros Ha Hp; x86_step;
      stub_load Hp; rewrite Hz; x86_step; (eexists; split; [reflexivity|]; keeps_tac).
  - destruct (Z.shiftr (gpr st RSP) 48 =? 0) eqn:Hr; simplify_eq.
    stub_unfold. x86_step. rewrite Hr. x86_step. stub_load Hp. rewrite Hz. x86_step.
    eexists. split; [reflexivity|]. keeps_tac.
Qed.

(** A stub whose cache for the current ring is filled jumps to the cached
    function with every register but r11, and all of memory, as the caller
    left them. *)
Theorem stub_jumps ra s st a t :
  slot s (st.(gpr) RSP) = Some a → address a → peek st.(ram) 8 a = Some t → t ≠ 0 →
  ∃ st', run ra (program s) st = ExitJump t st' ∧ keeps [R11] st st'.
Proof. apply stub_jump_ok. Qed.

Definition sample_stub : stub := FunctionStub 0x2000 0x3000 0x3100 0x3200 0x3300.

Definition sample_machine (t : Z) : machine :=
  Machine (λ r, if bool_decide (r = RSP) then 0x7100 else 7) (λ _, 0) false
    (bytes_at 0x3300 (le_split 8 t) ∪ bytes_at 0x7000 (replicate 256 Byte.x00)).

Lemma stub_jumps_witness :
  ∃ st', run (λ _, 0x2000) (program sample_stub) (sample_machine 0x8000) = ExitJump 0x8000 st' ∧
    st'.(gpr) RAX = 7.
Proof.
  destruct (stub_jumps (λ _, 0x2000) sample_stub (sample_machine 0x8000) 0x3300 0x8000) as (st' & H1 & H2 & _).
  - reflexivity.
  - split; [discriminate|reflexivity].
  - vm_compute. reflexivity.
  - discriminate.
  - exists st'. split; [exact H1|]. apply (H2 RAX). intros Hin. apply list_elem_of_singleton in Hin. discriminate.
Defined.

(** A system call stub in user mode, whatever its caches hold, enters
    ps4Kerncall with its number in rax and changes nothing else but r11. *)
Theorem stub_syscall ra s st :
  slot s (st.(gpr) RSP) = None → 0 ≤ number s < 2 ^ 31 →
  ∃ st', run ra (program s) st = ExitTail S_ps4Kerncall st' ∧
    st'.(gpr) RAX = number s ∧ keeps [RAX; R11] st st'.
Proof.
  intros Hs Hn.
  assert (Hi : u64 (i32 (number s)) = number s).
  { unfold i32, signed. rewrite Z.mod_small by lia. replace (number s <? 2 ^ (32 - 1)) with true by lia.
    apply u64_small. lia. }
  destruct s; cbn [slot] in Hs; simplify_eq.
  - destruct (Z.shiftr (gpr st RSP) 48 =? 0) eqn:Hr; simplify_eq.
    stub_unfold. x86_step. rewrite Hr. x86_step. eexists. split; [reflexivity|].
    split; [exact Hi|]. keeps_tac.
  - stub_unfold. x86_step. eexists. split; [reflexivity|]. split; [exact Hi|]. keeps_tac.
Qed.

Lemma stub_syscall_witness :
  ∃ st', run (λ _, 0x2000) (program (SyscallStub 594)) (sample_machine 0) = ExitTail S_ps4Kerncall st' ∧
    st'.(gpr) RAX = 594.
Proof.
  destruct (stub_syscall (λ _, 0x2000) (SyscallStub 594) (sample_machine 0)) as (st' & H1 & H2 & _).
  - reflexivity.
  - split; [discriminate|reflexivity].
  - exists st'. split; [exact H1|exact H2].
Defined.

(** ** An empty cache *)

Definition resolve_args (s : stub) : list insn :=
  match s with
  | FunctionStub f mn fn mh fa =>
      [ I_imm64 mn RDI; I_imm64 fn RSI; I_imm64 mh RDX; I_imm64 fa RCX; I_imm64 f R9 ]
  | KernelFunctionStub f fn fa => [ I_imm64 fn RSI; I_imm64 fa R8; I_imm64 f R9 ]
  | FunctionAndKernelFunctionStub f mn fn mh ua ka =>
      [ I_imm64 mn RDI; I_imm64 fn RSI; I_imm64 mh RDX; I_imm64 ua RCX; I_imm64 ka R8; I_imm64 f R9 ]
  | SyscallAndKernelFunctionStub f fn fa _ => [ I_imm64 fn RDI; I_imm64 fa R8; I_imm64 f R9 ]
  | SyscallStub _ => []
  end.

(** Room for a return address below the stack pointer. *)
Record stack_ok (st : machine) : Prop := {
  sk_range : 8 ≤ st.(gpr) RSP < 2 ^ 64;
  sk_mapped : mapped st.(ram) (st.(gpr) RSP - 8) 8 }.

Lemma push_ok st v :
  stack_ok st → ∃ st', push v st = Some st' ∧ st'.(gpr) RSP = st.(gpr) RSP - 8 ∧
    (∀ r, r ≠ RSP → st'.(gpr) r = st.(gpr) r) ∧ (∀ x, st'.(xmm) x = st.(xmm) x) ∧
    peek st'.(ram) 8 (st.(gpr) RSP - 8) = Some (v mod 2 ^ 64) ∧
    same_off st.(ram) st'.(ram) (st.(gpr) RSP - 8) 8.
Proof.
  intros [Hr Hm].
  destruct (write_spec st.(ram) 8 (gpr st RSP - 8) v Hm) as (m' & Hw & Ho & Hp & _).
  unfold write in Hw. destruct (store_bytes _ _ _) as [m1|] eqn:Hs; [|done]. injection Hw as <-.
  unfold push, store. cbn [set_gpr ram gpr upd rnum Z.eqb Pos.eqb]. rewrite (u64_small (_ - 8)) by lia.
  rewrite Hs. cbn [mbind option_bind]. eexists. split; [reflexivity|].
  split_and!; [done|by intros []|done|exact Hp|exact Ho].
Qed.

(** A state from which [call] has pushed the return address [v]. *)
Definition called (rs : list reg) (v : Z) (st st' : machine) : Prop :=
  st'.(gpr) RSP = st.(gpr) RSP - 8 ∧ peek st'.(ram) 8 (st.(gpr) RSP - 8) = Some (u64 v) ∧
  (∀ r, r ≠ RSP → r ∉ rs → st'.(gpr) r = st.(gpr) r) ∧ (∀ x, st'.(xmm) x = st.(xmm) x) ∧ same_off st.(ram) st'.(ram) (st.(gpr) RSP - 8) 8.

Lemma push_called v st st0 rs :
  stack_ok st0 → st.(gpr) RSP = st0.(gpr) RSP → st.(ram) = st0.(ram) →
  (∀ r, r ∉ rs → st.(gpr) r = st0.(gpr) r) → (∀ x, st.(xmm) x = st0.(xmm) x) →
  ∃ st', push v st = Some st' ∧ called rs v st0 st' ∧ ∀ r, r ≠ RSP → st'.(gpr) r = st.(gpr) r.
Proof.
  intros [H1 H2] Hsp Hram Hg Hx.
  destruct (push_ok st v) as (st' & Hp & Hs' & Hg' & Hx' & Hpk & Ho); [split; by rewrite ?Hsp, ?Hram|].
  exists st'. rewrite Hsp, Hram in *. split_and!; [done| |done].
  split_and!; [done|done|intros r ? ?; rewrite Hg' by done; by apply Hg|intros x; by rewrite Hx'|done].
Qed.

Ltac not_in := let H := fresh in intros [] H; first [reflexivity | exfalso; apply H; solve [repeat constructor]].

(** The next instruction is a call. *)
Ltac stub_call Hst rs st' Hk Hg :=
  lazymatch type of Hst with stack_ok ?st0 =>
  lazymatch goal with |- context [push ?v ?s] =>
    let Hc := fresh in
    destruct (push_called v s st0 rs Hst) as (st' & Hc & Hk & Hg);
      [reflexivity|reflexivity|not_in|reflexivity|rewrite Hc]
  end end.

(** A stub whose cache for the current ring is empty first saves the
    registers with ps4Pushall, entered with everything but r11 and the pushed
    return address as the caller left it. *)
Theorem stub_saves ra s st a :
  slot s (st.(gpr) RSP) = Some a → address a → peek st.(ram) 8 a = Some 0 → stack_ok st →
  ∃ st', run ra (program s) st = ExitCall S_ps4Pushall (after_pushall (resolve_args s)) st' ∧
    called [R11] (ra (after_pushall (resolve_args s))) st st' ∧ st'.(gpr) R11 = 0.
Proof.
  intros Hs Ha Hp Hst. destruct s; cbn [slot] in Hs; simplify_eq.
  - stub_unfold. x86_step. stub_load Hp.
    stub_call Hst [R11] st' Hk Hg. exists st'. split_and!; [done|exact Hk|by rewrite Hg].
  - stub_unfold. x86_step. stub_load Hp.
    stub_call Hst [R11] st' Hk Hg. exists st'. split_and!; [done|exact Hk|by rewrite Hg].
  - stub_unfold. x86_step. revert Ha Hp. destruct (Z.shiftr (gpr st RSP) 48 =? 0); intros Ha Hp; x86_step;
      stub_load Hp;
      stub_call Hst [R11] st' Hk Hg; exists st'; (split_and!; [done|exact Hk|by rewrite Hg]).
  - destruct (Z.shiftr (gpr st RSP) 48 =? 0) eqn:Hr; simplify_eq.
    stub_unfold. x86_step. rewrite Hr. x86_step. stub_load Hp.
    stub_call Hst [R11] st' Hk Hg. exists st'. split_and!; [done|exact Hk|by rewrite Hg].
Qed.

Lemma stub_saves_witness :
  ∃ st', run (λ _, 0x2000) (program sample_stub) (sample_machine 0) =
    ExitCall S_ps4Pushall (after_pushall (resolve_args sample_stub)) st' ∧ st'.(gpr) RSP = 0x70F8.
Proof.
  destruct (stub_saves (λ _, 0x2000) sample_stub (sample_machine 0) 0x3300) as (st' & H1 & [H2 _] & _).
  - reflexivity.
  - split; [discriminate|reflexivity].
  - vm_compute. reflexivity.
  - split; [split; [discriminate|reflexivity]|].
    assert (Hl : ∃ bs, load_bytes (ram (sample_machine 0)) 0x70F8 8 = Some bs)
      by (eexists; vm_compute; reflexivity).
    destruct Hl as [bs Hl]. exact (load_bytes_is_mapped _ _ _ _ Hl).
  - exists st'. split; [exact H1|exact H2].
Defined.

(** The arguments ps4ResolveModuleAndSymbolOrKernelSymbol receives:
    module, symbol, moduleId, userAddress, kernelAddress, function. *)
Definition arguments (st : machine) : list Z :=
  [st.(gpr) RDI; st.(gpr) RSI; st.(gpr) RDX; st.(gpr) RCX; st.(gpr) R8; st.(gpr) R9].

(** What a stub has to pass; [None] where its kind has no such operand. *)
Definition expected (s : stub) : list (option Z) :=
  match s with
  | FunctionStub f mn fn mh fa => [Some mn; Some fn; Some mh; Some fa; None; Some f]
  | KernelFunctionStub f fn fa => [None; Some fn; None; None; Some fa; Some f]
  | FunctionAndKernelFunctionStub f mn fn mh ua ka => [Some mn; Some fn; Some mh; Some ua; Some ka; Some f]
  | SyscallAndKernelFunctionStub f fn fa _ => [None; Some fn; None; None; Some fa; Some f]
  | SyscallStub _ => []
  end.

Definition passes (s : stub) (st : machine) : Prop :=
  Forall2 (λ e a, match e with Some x => a = x | None => True end) (expected s) (arguments st).

(** The kinds that lead to a function, a kernel function, or one of each. *)
Definition is_function_stub (s : stub) : bool :=
  match s with
  | FunctionStub _ _ _ _ _ | KernelFunctionStub _ _ _ | FunctionAndKernelFunctionStub _ _ _ _ _ _ => true
  | _ => false
  end.

(** Between ps4Pushall and the resolver: the stub calls the resolver and,
    unless its kind is the one that misplaces the symbol, each operand is in
    the register of its parameter. *)
Lemma resolve_call ra s st :
  stack_ok st →
  ∃ st', run ra (after_pushall (resolve_args s)) st =
      ExitCall S_ps4ResolveModuleAndSymbolOrKernelSymbol after_resolve st' ∧
    called [RDI; RSI; RDX; RCX; R8; R9; RAX] (ra after_resolve) st st' ∧
    (is_function_stub s = true → operands_ok s → passes s st').
Proof.
  intros Hst. destruct s; cbn [resolve_args]; stub_unfold; x86_step;
    stub_call Hst [RDI; RSI; RDX; RCX; R8; R9; RAX] st' Hk Hg; exists st'; (split; [done|]); (split; [exact Hk|]);
    intros Hs Hok; try discriminate Hs; unfold operands_ok in Hok;
    cbn [operands so_module so_symbol so_moduleId so_userAddress so_kernelAddress so_fn] in Hok;
    destruct_and?; unfold passes, arguments; rewrite !Hg by done; x86_step; rewrite !u64_small by done;
    by repeat constructor.
Qed.

(** After the resolver: its status goes to r11, and ps4Popall is called. *)
Lemma popall_call ra st :
  stack_ok st →
  ∃ st', run ra after_resolve st = ExitCall S_ps4Popall after_popall st' ∧
    called [R11] (ra after_popall) st st' ∧ st'.(gpr) R11 = st.(gpr) RAX.
Proof.
  intros Hst. stub_unfold. x86_step. stub_call Hst [R11] st' Hk Hg. exists st'.
  split; [done|]. split; [exact Hk|]. rewrite Hg by done. by x86_step.
Qed.

(** After ps4Popall: a status of 0 starts the stub again, another one returns
    to its caller. *)
Lemma after_popall_ok ra st t :
  load 8 (st.(gpr) RSP) st = Some t →
  ∃ st', run ra after_popall st = (if st.(gpr) R11 =? 0 then ExitTail S_function st' else ExitRet t st') ∧
    st'.(gpr) RSP = (if st.(gpr) R11 =? 0 then st.(gpr) RSP else u64 (st.(gpr) RSP + 8)) ∧
    (∀ r, r ≠ RSP → st'.(gpr) r = st.(gpr) r) ∧ (∀ x, st'.(xmm) x = st.(xmm) x) ∧ st'.(ram) = st.(ram).
Proof.
  intros Ht. stub_unfold. x86_step. destruct (gpr st R11 =? 0); x86_step.
  - eexists. split; [reflexivity|]. split_and!; done.
  - unfold load in *. x86_step. rewrite Ht. eexists. split; [reflexivity|]. split_and!; [done|by intros []|done|done].
Qed.

Lemma sample_stack_ok t : stack_ok (sample_machine t).
Proof.
  split; [split; [discriminate|reflexivity]|].
  change (gpr (sample_machine t) RSP - 8) with 0x70F8. intros x Hx. cbn [sample_machine ram].
  assert (Hl : ∃ bs, load_bytes (bytes_at 0x7000 (replicate 256 Byte.x00)) 0x70F8 8 = Some bs)
    by (eexists; vm_compute; reflexivity).
  destruct Hl as [bs Hl]. destruct (load_bytes_is_mapped _ _ _ _ Hl x Hx) as [b Hb].
  destruct (bytes_at 0x3300 (le_split 8 t) !! x) as [b'|] eqn:Hb'.
  - exists b'. by apply lookup_union_Some_l.
  - exists b. by rewrite lookup_union_r.
Qed.

(** The stub for a system call with a kernel function puts the name into
    rdi, the parameter for the module, and leaves rsi, the parameter for the
    symbol, as it was. *)
Theorem syscall_stub_misplaces_symbol ra f fn fa n st :
  address fn → stack_ok st →
  ∃ st', run ra (after_pushall (resolve_args (SyscallAndKernelFunctionStub f fn fa n))) st =
      ExitCall S_ps4ResolveModuleAndSymbolOrKernelSymbol after_resolve st' ∧
    st'.(gpr) RDI = fn ∧ st'.(gpr) RSI = st.(gpr) RSI.
Proof.
  intros Hf Hst. cbn [resolve_args]; stub_unfold; x86_step.
  stub_call Hst [RDI; R8; R9; RAX] st' Hk Hg. exists st'. split; [done|].
  rewrite !Hg by done. x86_step. by rewrite u64_small.
Qed.

Lemma syscall_stub_misplaces_symbol_witness :
  ∃ st', run (λ _, 0x2000) (after_pushall (resolve_args (SyscallAndKernelFunctionStub 0x2000 0x3100 0x3300 20)))
      (sample_machine 0) = ExitCall S_ps4ResolveModuleAndSymbolOrKernelSymbol after_resolve st' ∧
    st'.(gpr) RDI = 0x3100 ∧ st'.(gpr) RSI = 7.
Proof.
  apply (syscall_stub_misplaces_symbol (λ _, 0x2000) 0x2000 0x3100 0x3300 20 (sample_machine 0)).
  - split; [discriminate|reflexivity].
  - exact (sample_stack_ok 0).
Defined.

(** ** A stub in memory *)

(** The sample stub at 0x2000, its caches behind it. *)
Definition stub_code : list byte := default [] (assemble (λ _ _, 0) (program sample_stub)).

Definition stub_mem : mem :=
  bytes_at 0x2000 stub_code ∪ bytes_at 0x3200 (replicate 8 Byte.x00) ∪ bytes_at 0x3300 (replicate 8 Byte.x00).

Lemma stub_placed : placed stub_mem 0x2000 (λ _ _, 0) (program sample_stub) stub_code.
Proof. split; vm_compute; first [reflexivity | discriminate]. Qed.

Lemma sample_operands_ok : operands_ok sample_stub.
Proof. repeat split; discriminate. Qed.

Lemma read_stub_layout_witness :
  read_stub 0 1 0x2000 stub_mem =
    Done (inl (StubOperands 0x3000 0x3100 0x3200 0x3300 0 0x2000)) stub_mem.
Proof.
  exact (read_stub_layout stub_mem 0x2000 (λ _ _, 0) sample_stub stub_code 0 1 stub_placed sample_operands_ok).
Defined.

Lemma ps4StubType_misses_witness :
  ∃ t, ps4StubType 0x2000 stub_mem = Done t stub_mem ∧ t ≠ PS4StubTypeFunction.
Proof.
  destruct (ps4StubType_misses stub_mem 0x2000 (λ _ _, 0) sample_stub stub_code stub_placed) as (t & Ht & Hn).
  exists t. split; [exact Ht|exact (Hn sample_stub)].
Defined.
