(* ===== verification/StubConfig.v ===== *)
(** * The macros that declare stubs

    include/ps4/internal/stub.h, the layer above the assembly macros: which
    data and which stub a declaration such as [PS4FunctionOrSyscall(m, f)]
    stands for in each configuration of the library, and the files under
    stub/ that make one declaration each.  A macro call is expanded one level
    at a time, as the preprocessor does; a call with the wrong number of
    arguments has no expansion. *)

From stdpp Require Import strings.
From S2P Require Import Prelude.
From S2P Require Import Memory.
From S2P Require Import X86.
From S2P Require Import Stub.

(** The build flags: LibPS4KernelOnly, LibPS4KernelAndUser or neither, and
    LibPS4SyscallDirect. *)
Inductive level := KernelOnly | KernelAndUser | KernelNone.

Record config := Config { cf_level : level; cf_direct : bool }.

(** The assembly macros with the symbols they are given. *)
Inductive code :=
| PS4FunctionStub_ (function moduleName functionName moduleHandle functionAddress : string)
| PS4KernelFunctionStub_ (function functionName functionAddress : string)
| PS4FunctionAndKernelFunctionStub_
    (function moduleName functionName moduleHandle userFunctionAddress kernelFunctionAddress : string)
| PS4SyscallAndKernelFunctionStub_ (function functionName functionAddress number : string)
| PS4SyscallStub_ (function number : string).

(** What assembly is emitted. *)
Inductive item :=
| PS4Data (section scope name type value : string)
| Code (c : code).

(** ** Symbols *)

Definition PS4ModuleSymbol (name : string) : string := name.
Definition PS4ModuleNameSymbol (name : string) : string := name +:+ "Name".
Definition PS4FunctionSymbol (name : string) : string := name.
Definition PS4FunctionNameSymbol (name : string) : string := ".L" +:+ name +:+ "Name".
Definition PS4FunctionAddressSymbol (name : string) : string := ".L" +:+ name +:+ "Address".
Definition PS4KernelFunctionAddressSymbol (name : string) : string := ".L" +:+ name +:+ "KernelAddress".
Definition PS4SyscallSymbol (name : string) : string := name.
Definition PS4SyscallNumberSymbol (name : string) : string := "SYS_" +:+ name.

(** ** Data *)

Definition PS4ModuleHandleData (name : string) : item :=
  PS4Data ".bss" ".global" name "@object" ".zero 8".
Definition PS4ModuleNameData (name value : string) : item :=
  PS4Data ".rodata" ".global" name "@object" (".asciz " +:+ value).
Definition PS4FunctionAddressData (name : string) : item :=
  PS4Data ".bss" ".local" name "@object" ".zero 8".
Definition PS4KernelFunctionAddressData (name : string) : item :=
  PS4Data ".bss" ".local" name "@object" ".zero 8".
Definition PS4FunctionNameData (name value : string) : item :=
  PS4Data ".rodata" ".local" name "@object" (".asciz " +:+ value).

(** ** Declarations *)

Inductive macro :=
| PS4Module | PS4SyscallNamed | PS4Syscall | PS4Function | PS4KernelFunction
| PS4FunctionAndKernelFunction | PS4SyscallAndKernelFunction
| PS4FunctionOrSyscall | PS4FunctionOrSyscallAndKernelFunction.

(** One level of expansion: assembly, or further macro calls. *)
Inductive piece :=
| Emit (i : item)
| Call (m : macro) (args : list string).

(** The data of a module: its handle and its file name. *)
Definition module_data (name : string) : list piece :=
  [Emit (PS4ModuleHandleData (PS4ModuleSymbol name));
   Emit (PS4ModuleNameData (PS4ModuleNameSymbol name) (name +:+ ".sprx"))].

(** The definitions outside the configuration section. *)
Definition base_macro (m : macro) (args : list string) : option (list piece) :=
  match m, args with
  | PS4Module, [name] => Some (module_data name)
  | PS4SyscallNamed, [name; number] =>
      Some [Emit (Code (PS4SyscallStub_ (PS4SyscallSymbol name) number))]
  | PS4Syscall, [name] =>
      Some [Emit (Code (PS4SyscallStub_ (PS4SyscallSymbol name) (PS4SyscallNumberSymbol name)))]
  | PS4Function, [module; name] =>
      Some [Emit (PS4FunctionNameData (PS4FunctionNameSymbol name) (PS4FunctionSymbol name));
            Emit (PS4FunctionAddressData (PS4FunctionAddressSymbol name));
            Emit (Code (PS4FunctionStub_ (PS4FunctionSymbol name) (PS4ModuleNameSymbol module)
              (PS4FunctionNameSymbol name) (PS4ModuleSymbol module) (PS4FunctionAddressSymbol name)))]
  | PS4KernelFunction, [name] =>
      Some [Emit (PS4FunctionNameData (PS4FunctionNameSymbol name) (PS4FunctionSymbol name));
            Emit (PS4KernelFunctionAddressData (PS4KernelFunctionAddressSymbol name));
            Emit (Code (PS4KernelFunctionStub_ (PS4FunctionSymbol name) (PS4FunctionNameSymbol name)
              (PS4KernelFunctionAddressSymbol name)))]
  | PS4FunctionAndKernelFunction, [module; name] =>
      Some [Emit (PS4FunctionNameData (PS4FunctionNameSymbol name) (PS4FunctionSymbol name));
            Emit (PS4FunctionAddressData (PS4FunctionAddressSymbol name));
            Emit (PS4KernelFunctionAddressData (PS4KernelFunctionAddressSymbol name));
            Emit (Code (PS4FunctionAndKernelFunctionStub_ (PS4FunctionSymbol name)
              (PS4ModuleNameSymbol module) (PS4FunctionNameSymbol name) (PS4ModuleSymbol module)
              (PS4FunctionAddressSymbol name) (PS4KernelFunctionAddressSymbol name)))]
  | PS4SyscallAndKernelFunction, [name] =>
      Some [Emit (PS4FunctionNameData (PS4FunctionNameSymbol name) (PS4FunctionSymbol name));
            Emit (PS4KernelFunctionAddressData (PS4KernelFunctionAddressSymbol name));
            Emit (Code (PS4SyscallAndKernelFunctionStub_ (PS4FunctionSymbol name)
              (PS4FunctionNameSymbol name) (PS4KernelFunctionAddressSymbol name)
              (PS4SyscallNumberSymbol name)))]
  | _, _ => None
  end.

(** [#ifdef LibPS4KernelOnly] *)
Definition kernel_only_macro (m : macro) (args : list string) : option (list piece) :=
  match m, args with
  | PS4Module, [_] | PS4Syscall, [_] | PS4Function, [_; _] | PS4FunctionOrSyscall, [_; _] => Some []
  | PS4FunctionAndKernelFunction, [_; name]
  | PS4SyscallAndKernelFunction, [_; name]
  | PS4FunctionOrSyscallAndKernelFunction, [_; name] => Some [Call PS4KernelFunction [name]]
  | (PS4KernelFunction | PS4SyscallNamed), _ => base_macro m args
  | _, _ => None
  end.

(** [#elif defined LibPS4KernelAndUser] *)
Definition kernel_and_user_macro (direct : bool) (m : macro) (args : list string) : option (list piece) :=
  match m, args with
  | PS4FunctionOrSyscall, [module; name] =>
      Some [if direct then Call PS4Syscall [name] else Call PS4Function [module; name]]
  | PS4FunctionOrSyscallAndKernelFunction, [module; name] =>
      Some [if direct then Call PS4SyscallAndKernelFunction [name]
            else Call PS4FunctionAndKernelFunction [module; name]]
  | _, _ => base_macro m args
  end.

(** [#else //LibPS4KernelNone] *)
Definition kernel_none_macro (direct : bool) (m : macro) (args : list string) : option (list piece) :=
  match m, args with
  | PS4FunctionAndKernelFunction, [module; name] => Some [Call PS4Function [module; name]]
  | PS4SyscallAndKernelFunction, [_; name] => Some [Call PS4Syscall [name]]
  | PS4KernelFunction, [_] => Some []
  | (PS4FunctionOrSyscall | PS4FunctionOrSyscallAndKernelFunction), [module; name] =>
      Some [if direct then Call PS4Syscall [name] else Call PS4Function [module; name]]
  | (PS4Module | PS4SyscallNamed | PS4Syscall | PS4Function), _ => base_macro m args
  | _, _ => None
  end.

Definition expand_once (c : config) (m : macro) (args : list string) : option (list piece) :=
  match c.(cf_level) with
  | KernelOnly => kernel_only_macro m args
  | KernelAndUser => kernel_and_user_macro c.(cf_direct) m args
  | KernelNone => kernel_none_macro c.(cf_direct) m args
  end.

(** Expansion to the end; no call nests deeper than [fuel]. *)
Fixpoint expand (fuel : nat) (c : config) (m : macro) (args : list string) : option (list item) :=
  match fuel with
  | O => None
  | S fuel =>
      ps ← expand_once c m args;
      foldr (λ p rest,
        out ← match p with Emit i => Some [i] | Call m args => expand fuel c m args end;
        tail ← rest;
        Some (out ++ tail)) (Some []) ps
  end.

(** A chain of calls visits each macro at most once. *)
Definition expand_fuel : nat := 9.

(** ** The files under stub/ *)

Inductive stub_file :=
| function_stub | functionAndKernelFunction_stub | functionOrSyscall_stub
| functionOrSyscallAndKernelFunction_stub | kernelFunction_stub | module_stub
| syscall_stub | syscallAndKernelFunction_stub.

(** The declaration of each file; PS4MODULE and PS4SYMBOL come from the build. *)
Definition function_stub_c (module symbol : string) : macro * list string := (PS4Function, [module; symbol]).
Definition functionAndKernelFunction_stub_c (module symbol : string) : macro * list string :=
  (PS4FunctionAndKernelFunction, [module; symbol]).
Definition functionOrSyscall_stub_c (module symbol : string) : macro * list string := (PS4FunctionOrSyscall, [module; symbol]).
Definition functionOrSyscallAndKernelFunction_stub_c (module symbol : string) : macro * list string :=
  (PS4FunctionOrSyscallAndKernelFunction, [module; symbol]).
Definition kernelFunction_stub_c (module symbol : string) : macro * list string := (PS4KernelFunction, [symbol]).
Definition module_stub_c (module symbol : string) : macro * list string := (PS4Module, [module]).
Definition syscall_stub_c (module symbol : string) : macro * list string := (PS4Syscall, [symbol]).
Definition syscallAndKernelFunction_stub_c (module symbol : string) : macro * list string := (PS4SyscallAndKernelFunction, [symbol]).

Definition declaration (f : stub_file) (module symbol : string) : macro * list string :=
  match f with
  | function_stub => function_stub_c module symbol
  | functionAndKernelFunction_stub => functionAndKernelFunction_stub_c module symbol
  | functionOrSyscall_stub => functionOrSyscall_stub_c module symbol
  | functionOrSyscallAndKernelFunction_stub => functionOrSyscallAndKernelFunction_stub_c module symbol
  | kernelFunction_stub => kernelFunction_stub_c module symbol
  | module_stub => module_stub_c module symbol
  | syscall_stub => syscall_stub_c module symbol
  | syscallAndKernelFunction_stub => syscallAndKernelFunction_stub_c module symbol
  end.

Definition compile_stub (c : config) (f : stub_file) (module symbol : string) : option (list item) :=
  let '(m, args) := declaration f module symbol in expand expand_fuel c m args.

(** ** Linking *)

Definition defined (i : item) : list string :=
  match i with
  | PS4Data _ _ name _ _ => [name]
  | Code (PS4FunctionStub_ f _ _ _ _) | Code (PS4KernelFunctionStub_ f _ _)
  | Code (PS4FunctionAndKernelFunctionStub_ f _ _ _ _ _)
  | Code (PS4SyscallAndKernelFunctionStub_ f _ _ _) | Code (PS4SyscallStub_ f _) => [f]
  end.

(** The symbols whose addresses the assembly uses. *)
Definition referenced (i : item) : list string :=
  match i with
  | PS4Data _ _ _ _ _ => []
  | Code (PS4FunctionStub_ f mn fn mh fa) => [f; mn; fn; mh; fa]
  | Code (PS4KernelFunctionStub_ f fn fa) => [f; fn; fa]
  | Code (PS4FunctionAndKernelFunctionStub_ f mn fn mh ua ka) => [f; mn; fn; mh; ua; ka]
  | Code (PS4SyscallAndKernelFunctionStub_ f fn fa _) => [f; fn; fa]
  | Code (PS4SyscallStub_ f _) => [f]
  end.

(** The stub at the addresses the linker chose; [num] evaluates the number. *)
Definition link (addr num : string → Z) (c : code) : stub :=
  match c with
  | PS4FunctionStub_ f mn fn mh fa => FunctionStub (addr f) (addr mn) (addr fn) (addr mh) (addr fa)
  | PS4KernelFunctionStub_ f fn fa => KernelFunctionStub (addr f) (addr fn) (addr fa)
  | PS4FunctionAndKernelFunctionStub_ f mn fn mh ua ka =>
      FunctionAndKernelFunctionStub (addr f) (addr mn) (addr fn) (addr mh) (addr ua) (addr ka)
  | PS4SyscallAndKernelFunctionStub_ f fn fa n =>
      SyscallAndKernelFunctionStub (addr f) (addr fn) (addr fa) (num n)
  | PS4SyscallStub_ _ n => SyscallStub (num n)
  end.

Definition codes (l : list item) : list code :=
  omap (λ i, match i with Code c => Some c | _ => None end) l.

(** The kernel and the user half of a stub. *)
Definition in_kernel (c : code) : bool :=
  match c with
  | PS4KernelFunctionStub_ _ _ _ | PS4FunctionAndKernelFunctionStub_ _ _ _ _ _ _
  | PS4SyscallAndKernelFunctionStub_ _ _ _ _ => true
  | _ => false
  end.
Definition in_user (c : code) : bool :=
  match c with PS4KernelFunctionStub_ _ _ _ => false | _ => true end.
Definition by_syscall (c : code) : bool :=
  match c with PS4SyscallStub_ _ _ | PS4SyscallAndKernelFunctionStub_ _ _ _ _ => true | _ => false end.

(** The one pair of a file and a configuration with no expansion. *)
Definition arity_clash (c : config) (f : stub_file) : bool :=
  match c.(cf_level), f with
  | KernelOnly, syscallAndKernelFunction_stub | KernelNone, syscallAndKernelFunction_stub => true
  | _, _ => false
  end.

(** Every file of stub/ expands in every configuration, but for the clash, and
    fuel is no obstacle: more of it changes nothing. *)
Theorem stub_files_expand c f module symbol fuel :
  (arity_clash c f = false → ∃ l, compile_stub c f module symbol = Some l) ∧
  ((2 ≤ fuel)%nat →
   expand fuel c (declaration f module symbol).1 (declaration f module symbol).2 =
     compile_stub c f module symbol).
Proof.
  destruct c as [lv d]. split.
  - intros H. destruct lv, f; try discriminate H; destruct d; eexists; reflexivity.
  - intros Hf. do 2 (destruct fuel as [|fuel]; [lia|]).
    destruct lv, f, d; reflexivity.
Qed.

Lemma stub_files_expand_witness :
  ∃ l, compile_stub (Config KernelAndUser false) functionOrSyscallAndKernelFunction_stub "libkernel" "open" = Some l.
Proof. apply (stub_files_expand _ _ _ _ 2). reflexivity. Defined.

(** The caches a stub jumps through, and the names it is resolved by. *)
Definition caches (c : code) : list string :=
  match c with
  | PS4FunctionStub_ _ _ _ _ fa | PS4KernelFunctionStub_ _ _ fa
  | PS4SyscallAndKernelFunctionStub_ _ _ fa _ => [fa]
  | PS4FunctionAndKernelFunctionStub_ _ _ _ _ ua ka => [ua; ka]
  | PS4SyscallStub_ _ _ => []
  end.
Definition symbol_names (c : code) : list string :=
  match c with
  | PS4FunctionStub_ _ _ fn _ _ | PS4KernelFunctionStub_ _ fn _
  | PS4SyscallAndKernelFunctionStub_ _ fn _ _
  | PS4FunctionAndKernelFunctionStub_ _ _ fn _ _ _ => [fn]
  | PS4SyscallStub_ _ _ => []
  end.

(** A stub is closed in [l]: its symbol names hold [symbol], its caches are
    zeroed cells, and everything else it refers to is data of the module. *)
Record closed_in (l : list item) (module symbol : string) (c : code) : Prop := {
  ci_function : defined (Code c) = [symbol];
  ci_names : ∀ n, n ∈ symbol_names c →
    PS4Data ".rodata" ".local" n "@object" (".asciz " +:+ symbol) ∈ l;
  ci_caches : ∀ n, n ∈ caches c → PS4Data ".bss" ".local" n "@object" ".zero 8" ∈ l;
  ci_rest : ∀ n, n ∈ referenced (Code c) →
    n = symbol ∨ n ∈ symbol_names c ∨ n ∈ caches c ∨
    ∃ lm, compile_stub (Config KernelAndUser false) module_stub module "" = Some lm ∧ n ∈ lm ≫= defined }.

Ltac in_list := repeat (first [apply list_elem_of_here | apply list_elem_of_further]).

(** The elements of a literal list, one case each. *)
Ltac pick H := repeat (apply elem_of_cons in H as [->|H]); try (by apply elem_of_nil in H).

Ltac closed_tac :=
  split;
  [ reflexivity
  | intros n Hn; cbn in Hn; pick Hn; solve [in_list]
  | intros n Hn; cbn in Hn; pick Hn; solve [in_list]
  | intros n Hn; cbn in Hn; pick Hn;
    first [ by left
          | right; left; solve [in_list]
          | right; right; left; solve [in_list]
          | right; right; right; eexists; split; [reflexivity|solve [cbn; in_list]] ] ].

Lemma closed_all c f module symbol l s :
  compile_stub c f module symbol = Some l → s ∈ codes l → closed_in l module symbol s.
Proof.
  destruct c as [lv d]. intros Hc Hs.
  destruct lv, f, d; try discriminate Hc; cbn in Hc; injection Hc as <-; cbn in Hs; pick Hs.
  all: closed_tac.
Qed.

(** What a configuration promises of the stubs it builds. *)
Definition promised (c : config) (f : stub_file) (s : code) : Prop :=
  (c.(cf_level) = KernelOnly → in_kernel s = true ∧ in_user s = false) ∧
  (c.(cf_level) = KernelNone → in_kernel s = false) ∧
  (c.(cf_level) ≠ KernelOnly → c.(cf_direct) = true →
     f = functionOrSyscall_stub ∨ f = functionOrSyscallAndKernelFunction_stub → by_syscall s = true).

(** C37. Each file makes at most one stub, for the symbol it is compiled for.  The
    stub is closed: its symbol name is the string of that symbol, its address
    caches are local cells that start as zero (so that the first call
    resolves), and its module operands are data that module.stub.c defines.
    The stub has the halves the build flags ask for. *)
Theorem stub_declaration_closed c f module symbol l s :
  compile_stub c f module symbol = Some l → s ∈ codes l →
  codes l = [s] ∧ closed_in l module symbol s ∧ promised c f s.
Proof.
  intros Hc Hs. split_and!; [|by eapply closed_all|].
  - destruct c as [[] []], f; try discriminate Hc; cbn in Hc; injection Hc as <-; cbn in Hs |- *;
      pick Hs; reflexivity.
  - destruct c as [[] []], f; try discriminate Hc; cbn in Hc; injection Hc as <-; cbn in Hs;
      pick Hs; split_and!; cbn; intros; naive_solver.
Qed.

Lemma stub_declaration_closed_witness :
  ∃ l s, compile_stub (Config KernelAndUser true) functionOrSyscallAndKernelFunction_stub "libkernel" "open" = Some l ∧
    codes l = [s] ∧ by_syscall s = true.
Proof.
  eexists _, _. split; [reflexivity|].
  destruct (stub_declaration_closed (Config KernelAndUser true) functionOrSyscallAndKernelFunction_stub
    "libkernel" "open" _ _ eq_refl (list_elem_of_here _ _)) as (H1 & _ & _ & _ & H3).
  split; [exact H1|]. apply H3; [discriminate|reflexivity|right; reflexivity].
Defined.

(** With LibPS4KernelOnly, or with neither kernel flag, the macro
    PS4SyscallAndKernelFunction is redefined with two parameters, while
    stub/syscallAndKernelFunction.stub.c calls it with one: the file does not
    compile there. *)
Theorem syscall_and_kernel_stub_clash c f module symbol :
  arity_clash c f = true → compile_stub c f module symbol = None.
Proof. destruct c as [[] d], f; try discriminate; destruct d; reflexivity. Qed.

Lemma syscall_and_kernel_stub_clash_witness :
  compile_stub (Config KernelNone false) syscallAndKernelFunction_stub "libkernel" "getpid" = None.
Proof. apply syscall_and_kernel_stub_clash. reflexivity. Defined.
