(* ===== verification/PushPop.v ===== *)
(** * Saving and restoring the registers

    ps4Pushall and ps4Popall of source/ps4/internal/pushpop.s: what a stub's
    caller finds in its registers again after the resolver has run; and the
    whole way of a stub of include/ps4/internal/stub.h whose cache is empty:
    save, resolve, restore, and again or return. *)

From S2P Require Import Prelude.
From S2P Require Import Memory.
From S2P Require Import X86.
From S2P Require Import Stub.

(** ** Sequences of stores *)

(** Offset, width and value of a store relative to rsp. *)
Definition save_of (s : machine) (i : insn) : option (Z * nat * Z) :=
  match i with
  | I_store r o RSP => Some (o, 8%nat, s.(gpr) r)
  | I_storex x o RSP => Some (o, 16%nat, s.(xmm) x)
  | _ => None
  end.

Definition in_area (n : Z) (e : Z * nat * Z) : bool :=
  let '(o, w, _) := e in (0 <=? o) && (o + Z.of_nat w <=? n).

Definition apart (e e' : Z * nat * Z) : bool :=
  let '(o, w, _) := e in let '(o', w', _) := e' in
  (o + Z.of_nat w <=? o') || (o' + Z.of_nat w' <=? o).

Fixpoint pairwise (l : list (Z * nat * Z)) : bool :=
  match l with [] => true | e :: l => forallb (apart e) l && pairwise l end.

(** The address [x] is in none of the entries of an area at [b]. *)
Definition untouched (b x : Z) (l : list (Z * nat * Z)) : Prop :=
  ∀ o w v, (o, w, v) ∈ l → ¬ (b + o ≤ x < b + o + Z.of_nat w).

Lemma run_saves ra b n rest fuel : ∀ sv es s,
  mapM (save_of s) sv = Some es → s.(gpr) RSP = b → 0 ≤ b → b + n ≤ 2 ^ 64 →
  mapped s.(ram) b n → forallb (in_area n) es = true → pairwise es = true →
  ∃ m', run_fuel ra (length sv + fuel) (sv ++ rest) s = run_fuel ra fuel rest (set_ram m' s) ∧
    (∀ x, untouched b x es → m' !! x = s.(ram) !! x) ∧ mapped m' b n ∧
    ∀ o w v, (o, w, v) ∈ es → peek m' w (b + o) = Some (v mod 2 ^ (Z.of_nat w * 8)).
Proof.
  induction sv as [|i sv IH]; intros es s Hes Hb H0 Htop Hm Hin Hpw; simpl in Hes.
  - injection Hes as <-. exists s.(ram). split; [by destruct s|]. split; [done|]. split; [done|].
    intros o w v Hin'. by apply elem_of_nil in Hin'.
  - apply bind_Some in Hes as ([[o w] v] & Hi & (es' & Hes' & [= <-])%bind_Some).
    simpl in Hin, Hpw. apply andb_prop in Hin as [Hin Hins]. apply andb_prop in Hpw as [Hap Hpw]. zb.
    destruct (write_spec s.(ram) w (b + o) v) as (m1 & Hw & Ho & Hp & Hx); [eapply mapped_sub; [done|lia..]|].
    assert (Hrun : run_fuel ra (length (i :: sv) + fuel) ((i :: sv) ++ rest) s =
      run_fuel ra (length sv + fuel) (sv ++ rest) (set_ram m1 s)).
    { unfold write in Hw. destruct (store_bytes _ _ _) as [m2|] eqn:Hs; [|done]. injection Hw as ->.
      destruct i; try discriminate Hi; destruct b0; try discriminate Hi; injection Hi as <- <- <-;
        cbn [run_fuel app length Nat.add straight]; unfold store; rewrite Hb, u64_small by lia; by rewrite Hs. }
    rewrite Hrun.
    assert (Hes1 : mapM (save_of (set_ram m1 s)) sv = Some es').
    { rewrite <- Hes'. clear. induction sv as [|j sv IH]; [done|]. simpl. rewrite IH. by destruct j. }
    destruct (IH es' (set_ram m1 s) Hes1 Hb H0 Htop) as (m' & Hr & Hu & Hm' & Hpk); [|done|done|].
    { intros x Hx'. simpl. by apply Hx, Hm. }
    exists m'. split; [exact Hr|]. split_and!; [|done|].
    + intros x Hux. rewrite Hu.
      * simpl. apply Ho. intros Hx'. apply (Hux o w v); [by left|lia].
      * intros o' w' v' Hin'. apply (Hux o' w' v'). by right.
    + intros o' w' v' Hin'. apply elem_of_cons in Hin' as [[= -> -> ->]|Hin']; [|by apply Hpk].
      rewrite <- Hp. apply peek_same. intros x Hx'. rewrite Hu; [done|].
      intros o' w' v' Hin''. apply list_elem_of_In in Hin''. rewrite forallb_forall in Hap.
      specialize (Hap _ Hin''). simpl in Hap. apply orb_prop in Hap as [?|?]; zb; lia.
Qed.

(** ** ps4Pushall *)

Record regs_ok (s : machine) : Prop := {
  rg_gpr : ∀ r, 0 ≤ s.(gpr) r < 2 ^ 64;
  rg_xmm : ∀ x, 0 ≤ s.(xmm) x < 2 ^ 128 }.

(** The stack at the entry of ps4Pushall: the return address [ra1] on top,
    room for the save area below. *)
Record push_area (s : machine) (sp ra1 : Z) : Prop := {
  pa_sp : s.(gpr) RSP = sp;
  pa_low : 240 ≤ sp;
  pa_top : sp + 8 < 2 ^ 64;
  pa_mapped : mapped s.(ram) (sp - 240) 248;
  pa_ret : peek s.(ram) 8 sp = Some ra1 }.

(** What is in the save area, relative to its lowest address. *)
Definition saved (s : machine) (ra1 : Z) : list (Z * nat * Z) :=
  [ (8, 8%nat, s.(gpr) RAX);
    (232, 16%nat, s.(xmm) 7); (216, 16%nat, s.(xmm) 6); (200, 16%nat, s.(xmm) 5);
    (184, 16%nat, s.(xmm) 4); (168, 16%nat, s.(xmm) 3); (152, 16%nat, s.(xmm) 2);
    (136, 16%nat, s.(xmm) 1); (120, 16%nat, s.(xmm) 0);
    (104, 8%nat, s.(gpr) R15); (96, 8%nat, s.(gpr) R14); (88, 8%nat, s.(gpr) R13);
    (80, 8%nat, s.(gpr) R12); (72, 8%nat, s.(gpr) R10); (64, 8%nat, s.(gpr) R9);
    (56, 8%nat, s.(gpr) R8); (48, 8%nat, s.(gpr) RDI); (40, 8%nat, s.(gpr) RSI);
    (32, 8%nat, s.(gpr) RDX); (24, 8%nat, s.(gpr) RCX); (16, 8%nat, s.(gpr) RBX);
    (0, 8%nat, ra1) ].

(** The area [l] is in memory at [b]. *)
Definition area (m : mem) (b : Z) (l : list (Z * nat * Z)) : Prop :=
  ∀ o w v, (o, w, v) ∈ l → peek m w (b + o) = Some v.

Lemma saved_range s ra1 :
  regs_ok s → 0 ≤ ra1 < 2 ^ 64 →
  Forall (λ '(o, w, v), 0 ≤ v < 2 ^ (Z.of_nat w * 8)) (saved s ra1).
Proof.
  intros [Hg Hx] Hra. unfold saved.
  repeat (apply Forall_cons; split; [first [apply Hg | apply Hx | exact Hra]|]). apply Forall_nil; done.
Qed.

(** The state after the saves. *)
Definition pushed (s : machine) (b ra1 : Z) (m : mem) : machine :=
  set_ram m (set_gpr RAX ra1 (set_zf (b =? 0) (set_gpr RSP b s))).

Lemma pushall_run ra s sp ra1 :
  push_area s sp ra1 →
  ∃ m1 m2, let b := sp - 240 in
    run ra ps4Pushall s = ExitRet ra1 (set_gpr RSP (u64 (b + 8)) (pushed s b ra1 m2)) ∧
    (∀ x, untouched b x (take 1 (saved s ra1)) → m1 !! x = s.(ram) !! x) ∧
    (∀ x, untouched b x (tail (saved s ra1)) → m2 !! x = m1 !! x) ∧
    peek m1 8 (b + 8) = Some (s.(gpr) RAX mod 2 ^ 64) ∧
    ∀ o w v, (o, w, v) ∈ tail (saved s ra1) → peek m2 w (b + o) = Some (v mod 2 ^ (Z.of_nat w * 8)).
Proof.
  intros [Hsp Hlow Htop Hm Hret]. cbv zeta.
  assert (Hb : u64 (gpr s RSP - 240) = sp - 240) by (rewrite Hsp; apply u64_small; lia).
  assert (Hbr : 0 ≤ sp - 240 ∧ sp - 240 + 248 ≤ 2 ^ 64) by lia.
  assert (Hsum : sp - 240 + 240 = sp) by lia. remember (sp - 240) as b eqn:Heqb. clear Heqb.
  set (s1 := set_zf (b =? 0) (set_gpr RSP b s)).
  destruct (run_saves ra b 248 (drop 2 ps4Pushall) 23 [I_store RAX 8 RSP] (take 1 (saved s ra1)) s1)
    as (m1 & Hr1 & Hu1 & Hm1 & Hp1); [reflexivity|reflexivity|lia|lia|done|reflexivity|reflexivity|].
  assert (Hra : peek m1 8 sp = Some ra1).
  { rewrite <- Hret. apply peek_same. intros x Hx'. rewrite Hu1; [done|].
    intros o w v Hin%list_elem_of_singleton. simplify_eq. lia. }
  destruct (run_saves ra b 248 [I_ret] 1 (take 21 (drop 3 ps4Pushall)) (tail (saved s ra1))
    (set_gpr RAX ra1 (set_ram m1 s1)))
    as (m2 & Hr2 & Hu2 & Hm2 & Hp2); [reflexivity|reflexivity|lia|lia|done|reflexivity|reflexivity|].
  exists m1, m2. split_and!; [|exact Hu1|exact Hu2|apply (Hp1 8 8%nat); by left|exact Hp2].
  assert (H0 : peek m2 8 b = Some ra1).
  { pose proof (Hp2 0 8%nat ra1) as H0. rewrite Z.add_0_r in H0. rewrite H0 by (repeat constructor).
    rewrite Z.mod_small; [done|]. exact (peek_range _ _ _ _ Hret). }
  change (run ra ps4Pushall s) with
    (run_fuel ra 24 ([I_store RAX 8 RSP] ++ drop 2 ps4Pushall)
      (set_zf (u64 (gpr s RSP - 240) =? 0) (set_gpr RSP (u64 (gpr s RSP - 240)) s))).
  rewrite Hb. fold s1. change 24%nat with (length [I_store RAX 8 RSP] + 23)%nat. rewrite Hr1.
  change (drop 2 ps4Pushall) with (I_load 240 RSP RAX :: take 21 (drop 3 ps4Pushall) ++ [I_ret]).
  change 23%nat with (S (length (take 21 (drop 3 ps4Pushall)) + 1)).
  cbn [run_fuel straight]. unfold load at 1. change (gpr (set_ram m1 s1) RSP) with b.
  rewrite Hsum, u64_small by lia. cbn [ram set_ram]. rewrite Hra. cbn [mbind option_bind].
  rewrite Hr2. cbn [run_fuel]. unfold load. cbn [gpr set_ram ram].
  change (gpr (set_gpr RAX ra1 _) RSP) with b. rewrite (u64_small b) by lia. by rewrite H0.
Qed.

Lemma saved_apart s ra1 o w v :
  (o, w, v) ∈ tail (saved s ra1) → in_area 248 (o, w, v) = true ∧ apart (8, 8%nat, 0) (o, w, v) = true.
Proof.
  intros Hin%list_elem_of_In.
  assert (Ha : forallb (λ e, in_area 248 e && apart (8, 8%nat, 0) e) (tail (saved s ra1)) = true) by reflexivity.
  rewrite forallb_forall in Ha. specialize (Ha _ Hin). by apply andb_prop in Ha.
Qed.

Lemma pushall_ok ra s sp ra1 :
  regs_ok s → push_area s sp ra1 →
  ∃ s', run ra ps4Pushall s = ExitRet ra1 s' ∧ s'.(gpr) RSP = sp - 232 ∧
    area s'.(ram) (sp - 240) (saved s ra1) ∧ same_off s.(ram) s'.(ram) (sp - 240) 248 ∧
    (∀ r, r ≠ RSP → r ≠ RAX → s'.(gpr) r = s.(gpr) r) ∧ (∀ x, s'.(xmm) x = s.(xmm) x).
Proof.
  intros Hrg Hpa. destruct (pushall_run ra s sp ra1 Hpa) as (m1 & m2 & Hrun & Hu1 & Hu2 & Hp1 & Hp2).
  destruct Hpa as [Hsp Hlow Htop _ Hret]. eexists. split; [exact Hrun|]. clear Hrun.
  split_and!.
  - cbn [gpr set_gpr upd rnum Z.eqb Pos.eqb]. rewrite u64_small by lia. lia.
  - pose proof (saved_range s ra1 Hrg (peek_range _ _ _ _ Hret)) as Hr.
    intros o w v Hin. rewrite Forall_forall in Hr. specialize (Hr _ Hin). cbn beta iota in Hr.
    cbn [ram set_gpr set_ram pushed]. apply elem_of_cons in Hin as [[= -> -> ->]|Hin].
    + rewrite Z.mod_small in Hp1 by exact Hr. rewrite <- Hp1. apply peek_same.
      intros x Hx'. apply Hu2. intros o w v [_ Ha]%saved_apart.
      cbn [apart] in Ha. apply orb_prop in Ha as [?|?]; zb; lia.
    + rewrite (Hp2 o w v Hin). by rewrite Z.mod_small.
  - intros x Hx'. cbn [ram set_gpr set_ram pushed]. rewrite Hu2, Hu1; [done|..].
    + intros o w v Hin%list_elem_of_singleton. simplify_eq. lia.
    + intros o w v [Ha _]%saved_apart. cbn [in_area] in Ha. zb. lia.
  - by intros [] ? ?.
  - done.
Qed.

(** ** ps4Popall *)

(** The stack at the entry of ps4Popall: the save area of [s], with the return
    address [ra2] of this call in place of the one of ps4Pushall. *)
Record pop_area (s t : machine) (sp ra1 ra2 : Z) : Prop := {
  po_sp : t.(gpr) RSP = sp - 240;
  po_low : 240 ≤ sp;
  po_top : sp + 8 < 2 ^ 64;
  po_saved : ∀ o w v, (o, w, v) ∈ saved s ra1 → o ≠ 0 → peek t.(ram) w (sp - 240 + o) = Some v;
  po_ret : peek t.(ram) 8 (sp - 240) = Some ra2 }.

(** The halves of a 16-byte value. *)
Lemma peek_low m a v : peek m 16 a = Some v → peek m 8 a = Some (v mod 2 ^ 64).
Proof.
  unfold peek. intros (bs & Hl & ->)%fmap_Some.
  apply (load_bytes_app m a 8 8) in Hl as [Hl _]. rewrite Hl. simpl.
  f_equal. apply (le_combine_firstn 8).
Qed.

Lemma peek_join m a lo hi :
  peek m 8 a = Some lo → peek m 8 (a + 8) = Some hi → peek m 16 a = Some (Z.lor lo (Z.shiftl hi 64)).
Proof.
  unfold peek. intros (l & Hl & ->)%fmap_Some (h & Hh & ->)%fmap_Some.
  assert (load_bytes m a 16 = Some (l ++ h)) as ->.
  { apply load_bytes_spec in Hl as [Hl1 Hl2]. apply load_bytes_spec in Hh as [Hh1 Hh2].
    apply load_bytes_spec. split; [rewrite length_app; lia|]. intros i Hi. destruct (decide (i < 8)%nat).
    - rewrite lookup_app_l by lia. by apply Hl2.
    - rewrite lookup_app_r, Hl1 by lia. rewrite <- Hh2 by lia. f_equal. lia. }
  simpl. rewrite le_combine_app. by rewrite (load_bytes_length _ _ _ _ Hl).
Qed.

(** One restore. *)
Lemma run_load ra fuel o d rest s b v :
  s.(gpr) RSP = b → 0 ≤ b + o < 2 ^ 64 → peek s.(ram) 8 (b + o) = Some v →
  run_fuel ra (S fuel) (I_load o RSP d :: rest) s = run_fuel ra fuel rest (set_gpr d v s).
Proof. intros Hb Hr Hp. cbn [run_fuel straight]. unfold load. by rewrite Hb, u64_small, Hp. Qed.

Lemma run_loadx ra fuel o x rest s b v :
  s.(gpr) RSP = b → 0 ≤ b + o < 2 ^ 64 → peek s.(ram) 16 (b + o) = Some v →
  run_fuel ra (S fuel) (I_loadx o RSP x :: rest) s = run_fuel ra fuel rest (set_xmm x v s).
Proof. intros Hb Hr Hp. cbn [run_fuel straight]. unfold load. by rewrite Hb, u64_small, Hp. Qed.

Lemma run_store ra fuel r o rest s b m :
  s.(gpr) RSP = b → 0 ≤ b + o < 2 ^ 64 → store_bytes s.(ram) (b + o) (le_split 8 (s.(gpr) r)) = Some m →
  run_fuel ra (S fuel) (I_store r o RSP :: rest) s = run_fuel ra fuel rest (set_ram m s).
Proof. intros Hb Hr Hp. cbn [run_fuel straight]. unfold store. by rewrite Hb, u64_small, Hp. Qed.

Lemma popall_ok ra s t sp ra1 ra2 :
  pop_area s t sp ra1 ra2 →
  ∃ t', run ra ps4Popall t = ExitRet ra2 t' ∧ t'.(gpr) RSP = sp + 8 ∧
    (∀ r, r ∉ [RSP; RBP; R11] → t'.(gpr) r = s.(gpr) r) ∧
    t'.(gpr) RBP = t.(gpr) RBP ∧ t'.(gpr) R11 = t.(gpr) R11 ∧
    (∀ x, (x < 7)%nat → t'.(xmm) x = s.(xmm) x) ∧
    t'.(xmm) 7 = Z.lor (s.(xmm) 7 mod 2 ^ 64) (Z.shiftl ra2 64) ∧
    same_off t.(ram) t'.(ram) sp 8.
Proof.
  intros [Hsp Hlow Htop Hsv Hret].
  assert (Hsum : sp - 240 + 240 = sp) by lia.
  assert (Hrg : ∀ o, 0 ≤ o ≤ 240 → 0 ≤ sp - 240 + o < 2 ^ 64) by lia.
  assert (H7 : peek t.(ram) 16 (sp - 240 + 232) = Some (s.(xmm) 7)) by (apply Hsv; [repeat constructor|lia]).
  destruct (write_spec t.(ram) 8 sp ra2) as (m & Hw & Ho & Hp & _).
  { eapply mapped_sub; [by eapply peek_is_mapped|lia..]. }
  assert (Hpr : peek m 8 sp = Some ra2).
  { rewrite Hp. f_equal. apply Z.mod_small. exact (peek_range _ _ _ _ Hret). }
  assert (Hm : ∀ o w v, (o, w, v) ∈ saved s ra1 → o ≠ 0 → o ≠ 232 → peek m w (sp - 240 + o) = Some v).
  { intros o w v Hin Ho0 Ho7. rewrite <- (Hsv o w v Hin Ho0). apply peek_same.
    assert (Ha : forallb (λ '(o, w, _), (o + Z.of_nat w <=? 240) || (o =? 232)) (saved s ra1) = true) by reflexivity.
    rewrite forallb_forall in Ha. apply list_elem_of_In in Hin. specialize (Ha _ Hin). cbn beta iota in Ha.
    intros x Hx. apply Ho. apply orb_prop in Ha as [?|?]; zb; lia. }
  assert (Hm7 : peek m 16 (sp - 240 + 232) = Some (Z.lor (s.(xmm) 7 mod 2 ^ 64) (Z.shiftl ra2 64))).
  { apply peek_join.
    - rewrite <- (peek_low _ _ _ H7). apply peek_same. intros x Hx. apply Ho. lia.
    - by replace (sp - 240 + 232 + 8) with sp by lia. }
  clear Hsv H7 Hp. unfold run, ps4Popall. cbn [length].
  assert (Hret0 : peek t.(ram) 8 (sp - 240 + 0) = Some ra2) by (by rewrite Z.add_0_r).
  rewrite (run_load _ _ _ _ _ _ _ _ Hsp (Hrg 0 ltac:(lia)) Hret0).
  assert (Hst : store_bytes t.(ram) (sp - 240 + 240) (le_split 8 ra2) = Some m).
  { rewrite Hsum. unfold write in Hw. destruct (store_bytes _ _ _); [by injection Hw as ->|done]. }
  erewrite run_store; [|exact Hsp|apply Hrg; lia|exact Hst].
  do 13 (erewrite run_load; [|exact Hsp|apply Hrg; lia|apply Hm; [repeat constructor|lia|lia]]).
  do 7 (erewrite run_loadx; [|exact Hsp|apply Hrg; lia|apply Hm; [repeat constructor|lia|lia]]).
  erewrite run_loadx; [|exact Hsp|apply Hrg; lia|exact Hm7].
  cbn [run_fuel straight]. unfold load. cbn [gpr set_gpr set_xmm set_zf set_ram upd rnum Z.eqb Pos.eqb ram].
  rewrite Hsp, Hsum, !(u64_small sp), Hpr, (u64_small (sp + 8)) by lia.
  eexists. split; [reflexivity|]. split_and!; [done| |done|done| |done|exact Ho].
  - intros [] Hr; try reflexivity; exfalso; apply Hr; repeat constructor.
  - intros x Hx. do 7 (destruct x as [|x]; [reflexivity|]). lia.
Qed.

(** The save area survives a call that only pushes below it. *)
Lemma pop_area_after s s' t sp ra1 ra2 :
  push_area s sp ra1 → area s'.(ram) (sp - 240) (saved s ra1) →
  t.(gpr) RSP = sp - 240 → same_on s'.(ram) t.(ram) (sp - 232) 240 →
  peek t.(ram) 8 (sp - 240) = Some ra2 → pop_area s t sp ra1 ra2.
Proof.
  intros [_ Hlow Htop _ _] Har Ht Hsame Hret. split; [done..| |done].
  intros o w v Hin Ho. rewrite <- (Har o w v Hin). apply peek_same.
  assert (Ha : forallb (λ '(o, w, _), (o =? 0) || ((8 <=? o) && (o + Z.of_nat w <=? 248))) (saved s ra1) = true)
    by reflexivity.
  rewrite forallb_forall in Ha. apply list_elem_of_In in Hin. specialize (Ha _ Hin). cbn beta iota in Ha.
  apply orb_prop in Ha as [?|?]; zb; [done|]. eapply same_on_sub; [exact Hsame|lia..].
Qed.

(** C8. ps4Pushall and ps4Popall around a call: both return to their callers
    and leave the stack pointer where it was before the first call; whatever
    the call in between does to the registers, all general registers but rbp
    and r11, which are not touched, and xmm0 to xmm6 have the values they had
    when ps4Pushall was entered. *)
Theorem pushall_popall ra s sp ra1 :
  regs_ok s → push_area s sp ra1 →
  ∃ s', run ra ps4Pushall s = ExitRet ra1 s' ∧ s'.(gpr) RSP = sp - 232 ∧
    same_off s.(ram) s'.(ram) (sp - 240) 248 ∧
    ∀ t ra2, t.(gpr) RSP = sp - 240 → same_on s'.(ram) t.(ram) (sp - 232) 240 →
      peek t.(ram) 8 (sp - 240) = Some ra2 →
    ∃ t', run ra ps4Popall t = ExitRet ra2 t' ∧ t'.(gpr) RSP = sp + 8 ∧
      (∀ r, r ∉ [RSP; RBP; R11] → t'.(gpr) r = s.(gpr) r) ∧
      t'.(gpr) RBP = t.(gpr) RBP ∧ t'.(gpr) R11 = t.(gpr) R11 ∧
      (∀ x, (x < 7)%nat → t'.(xmm) x = s.(xmm) x).
Proof.
  intros Hrg Hpa. destruct (pushall_ok ra s sp ra1 Hrg Hpa) as (s' & Hr & Hsp & Har & Hoff & _ & _).
  exists s'. split_and!; [done..|]. intros t ra2 Ht Hsame Hret.
  destruct (popall_ok ra s t sp ra1 ra2) as (t' & H1 & H2 & H3 & H4 & H5 & H6 & _);
    [by eapply pop_area_after|by exists t'; split_and!].
Qed.

(** Room for the save area at 0x7000. *)
Definition sample_stack : machine :=
  Machine (λ r, if bool_decide (r = RSP) then 0x70F0 else rnum r) (λ x, 2 ^ 64 + Z.of_nat (x mod 8)) false
    (bytes_at 0x7000 (replicate 240 Byte.x00 ++ le_split 8 0x2019)).

Lemma sample_regs_ok : regs_ok sample_stack.
Proof.
  split.
  - intros []; vm_compute; split; first [discriminate | reflexivity].
  - intros x. cbn [sample_stack xmm]. pose proof (Nat.mod_upper_bound x 8). lia.
Qed.

Lemma sample_push_area : push_area sample_stack 0x70F0 0x2019.
Proof.
  split; [reflexivity|discriminate|reflexivity| |vm_compute; reflexivity].
  assert (Hl : ∃ bs, load_bytes sample_stack.(ram) 0x7000 248 = Some bs) by (eexists; vm_compute; reflexivity).
  destruct Hl as [bs Hl]. exact (load_bytes_is_mapped _ _ _ _ Hl).
Qed.

Lemma pushall_popall_witness :
  ∃ s', run (λ _, 0) ps4Pushall sample_stack = ExitRet 0x2019 s' ∧ s'.(gpr) RSP = 0x7008.
Proof.
  destruct (pushall_popall (λ _, 0) sample_stack 0x70F0 0x2019 sample_regs_ok sample_push_area)
    as (s' & H1 & H2 & _).
  exists s'. split; [exact H1|exact H2].
Defined.

(** xmm7 does not survive: ps4Popall has put its return address over the
    saved upper half before it loads the register. *)
Theorem popall_clobbers_xmm7 ra s sp ra1 :
  regs_ok s → push_area s sp ra1 →
  ∃ s', run ra ps4Pushall s = ExitRet ra1 s' ∧
    ∀ t ra2, t.(gpr) RSP = sp - 240 → same_on s'.(ram) t.(ram) (sp - 232) 240 →
      peek t.(ram) 8 (sp - 240) = Some ra2 →
    ∃ t', run ra ps4Popall t = ExitRet ra2 t' ∧
      t'.(xmm) 7 = Z.lor (s.(xmm) 7 mod 2 ^ 64) (Z.shiftl ra2 64).
Proof.
  intros Hrg Hpa. destruct (pushall_ok ra s sp ra1 Hrg Hpa) as (s' & Hr & _ & Har & _ & _ & _).
  exists s'. split; [done|]. intros t ra2 Ht Hsame Hret.
  destruct (popall_ok ra s t sp ra1 ra2) as (t' & H1 & _ & _ & _ & _ & _ & H7 & _);
    [by eapply pop_area_after|by exists t'].
Qed.

Lemma popall_clobbers_xmm7_witness :
  ∃ s', run (λ _, 0) ps4Pushall sample_stack = ExitRet 0x2019 s'.
Proof.
  destruct (popall_clobbers_xmm7 (λ _, 0) sample_stack 0x70F0 0x2019 sample_regs_ok sample_push_area)
    as (s' & H1 & _).
  exists s'. exact H1.
Defined.

(** ** A stub with an empty cache, from its entry to its end *)

(** The stack at the entry of a stub: the return address of its caller on top,
    room for the two calls and the save area below. *)
Record stub_room (st : machine) (ret : Z) : Prop := {
  sr_low : 248 ≤ st.(gpr) RSP;
  sr_top : st.(gpr) RSP + 8 < 2 ^ 64;
  sr_mapped : mapped st.(ram) (st.(gpr) RSP - 248) 248;
  sr_ret : peek st.(ram) 8 (st.(gpr) RSP) = Some ret }.

Lemma stub_room_stack st ret : stub_room st ret → stack_ok st.
Proof. intros [H1 H2 H3 _]. split; [lia|]. eapply mapped_sub; [exact H3|lia..]. Qed.

(** From the entry of the stub to the call of the resolver. *)
Record to_resolver (ra : list insn → Z) (s : stub) (st : machine) (k1 : list insn) (st1 st2 : machine)
    (k2 : list insn) (st3 : machine) : Prop := {
  tr_save : run ra (program s) st = ExitCall S_ps4Pushall k1 st1;
  tr_saved : run ra ps4Pushall st1 = ExitRet (u64 (ra k1)) st2;
  tr_call : run ra k1 st2 = ExitCall S_ps4ResolveModuleAndSymbolOrKernelSymbol k2 st3 }.

Lemma stub_to_resolver ra s st a ret :
  slot s (st.(gpr) RSP) = Some a → address a → peek st.(ram) 8 a = Some 0 → regs_ok st → stub_room st ret →
  let sp := st.(gpr) RSP - 8 in
  ∃ st1 st2 st3, to_resolver ra s st (after_pushall (resolve_args s)) st1 st2 after_resolve st3 ∧
    push_area st1 sp (u64 (ra (after_pushall (resolve_args s)))) ∧ (∀ r, r ∉ [RSP; R11] → st1.(gpr) r = st.(gpr) r) ∧
    (∀ x, st1.(xmm) x = st.(xmm) x) ∧ st3.(gpr) RSP = sp - 240 ∧ st3.(gpr) RBP = st.(gpr) RBP ∧
    (∀ o w v, (o, w, v) ∈ saved st1 (u64 (ra (after_pushall (resolve_args s)))) → o ≠ 0 →
      peek st3.(ram) w (sp - 240 + o) = Some v) ∧
    same_off st.(ram) st3.(ram) (sp - 240) 248 ∧ mapped st3.(ram) (sp - 240) 8 ∧
    (is_function_stub s = true → operands_ok s → passes s st3).
Proof.
  intros Hs Ha Hp Hrg Hroom sp. pose proof Hroom as [Hlow Htop Hmap Hret].
  set (k1 := after_pushall (resolve_args s)).
  destruct (stub_saves ra s st a Hs Ha Hp (stub_room_stack _ _ Hroom)) as (st1 & Hr1 & (Hsp1 & Hpk1 & Hg1 & Hx1 & Ho1) & Hr11).
  fold k1 in Hr1, Hpk1. fold sp in Hsp1, Hpk1, Ho1.
  assert (Hpa : push_area st1 sp (u64 (ra k1))).
  { split; [done|unfold sp; lia|unfold sp; lia| |done].
    intros x Hx. destruct (decide (sp ≤ x < sp + 8)) as [Hin|Hout].
    - apply (peek_is_mapped _ _ _ _ Hpk1). lia.
    - rewrite Ho1 by lia. apply Hmap. unfold sp in *. lia. }
  assert (Hne : ∀ r, r ∉ [RSP; R11] → r ≠ RSP ∧ r ∉ [R11]) by (intros r Hr; set_solver).
  assert (Hrg1 : regs_ok st1).
  { destruct Hrg as [H1 H2]. split; [|intros x; by rewrite Hx1].
    intros r. destruct (decide (r = RSP)) as [->|]; [rewrite Hsp1; unfold sp; lia|].
    destruct (decide (r = R11)) as [->|]; [|rewrite Hg1 by set_solver; apply H1].
    rewrite Hr11. lia. }
  destruct (pushall_ok ra st1 sp (u64 (ra k1)) Hrg1 Hpa) as (st2 & Hr2 & Hsp2 & Har & Ho2 & Hg2 & Hx2).
  assert (Hst2 : stack_ok st2).
  { split; [rewrite Hsp2; unfold sp; lia|]. rewrite Hsp2.
    assert (H0 : peek st2.(ram) 8 (sp - 240 + 0) = Some (u64 (ra k1))) by (apply Har; repeat constructor).
    replace (sp - 232 - 8) with (sp - 240 + 0) by lia. exact (peek_is_mapped _ _ _ _ H0). }
  destruct (resolve_call ra s st2 Hst2) as (st3 & Hr3 & (Hsp3 & Hpk3 & Hg3 & Hx3 & Ho3) & Hpass).
  replace (gpr st2 RSP - 8) with (sp - 240) in * by lia.
  exists st1, st2, st3. split_and!; try done.
  - intros r Hr. by apply Hg1; apply Hne.
  - rewrite Hg3, Hg2, Hg1 by set_solver. done.
  - intros o w v Hin Ho. rewrite <- (Har o w v Hin). apply peek_same.
    intros x Hx. apply Ho3. assert (Hoff : 8 ≤ o); [|lia].
    assert (Hall : forallb (λ '(o, _, _), (o =? 0) || (8 <=? o)) (saved st1 (u64 (ra k1))) = true) by reflexivity.
    rewrite forallb_forall in Hall. apply list_elem_of_In in Hin. specialize (Hall _ Hin). cbn beta iota in Hall. lia.
  - intros x Hx. rewrite Ho3, Ho2, Ho1 by lia. done.
  - exact (peek_is_mapped _ _ _ _ Hpk3).
Qed.

(** C23. A stub for a function, a kernel function or both, entered with an
    empty cache: it calls ps4Pushall, which returns to the stub, and then the
    resolver, with the caller's return address still on the stack above the
    save area and each operand the stub was assembled with in the register of
    the resolver's parameter for it. *)
Theorem stub_passes_operands ra s st a ret :
  is_function_stub s = true → operands_ok s →
  slot s (st.(gpr) RSP) = Some a → address a → peek st.(ram) 8 a = Some 0 → regs_ok st → stub_room st ret →
  ∃ k1 st1 st2 k2 st3, to_resolver ra s st k1 st1 st2 k2 st3 ∧ passes s st3 ∧
    st3.(gpr) RSP = st.(gpr) RSP - 248 ∧ same_off st.(ram) st3.(ram) (st.(gpr) RSP - 248) 248.
Proof.
  intros Hk Hok Hs Ha Hp Hrg Hroom.
  destruct (stub_to_resolver ra s st a ret Hs Ha Hp Hrg Hroom)
    as (st1 & st2 & st3 & Htr & _ & _ & _ & Hsp & _ & _ & Hoff & _ & Hpass).
  eexists _, st1, st2, _, st3. split; [exact Htr|]. split; [by apply Hpass|].
  replace (gpr st RSP - 248) with (gpr st RSP - 8 - 240) by lia. done.
Qed.

(** What the stub relies on when the resolver, called in the state [st3], has
    returned in the state [t]: the stack pointer and rbp are the caller's
    again, and the stack above the popped return address, down from the
    return address of the stub's own caller, is as it was. *)
Record resolver_returned (st3 t : machine) : Prop := {
  rr_sp : t.(gpr) RSP = st3.(gpr) RSP + 8;
  rr_bp : t.(gpr) RBP = st3.(gpr) RBP;
  rr_stack : same_on st3.(ram) t.(ram) (st3.(gpr) RSP + 8) 248;
  rr_below : mapped t.(ram) (st3.(gpr) RSP) 8 }.

(** From the return of the resolver: ps4Popall is called and returns, and the
    rest of the stub runs to the end [e]. *)
Record from_resolver (ra : list insn → Z) (k2 : list insn) (t : machine) (k3 : list insn) (t1 t2 : machine)
    (e : exit) : Prop := {
  fr_restore : run ra k2 t = ExitCall S_ps4Popall k3 t1;
  fr_restored : run ra ps4Popall t1 = ExitRet (u64 (ra k3)) t2;
  fr_end : run ra k3 t2 = e }.

(** C24. The whole way of a stub with an empty cache, whatever its kind and
    whatever the resolver does to the registers and to memory off the stack:
    after the resolver ps4Popall is called and returns to the stub, and
    resolver status 0 enters the stub again while any other status returns to
    the stub's caller; in both cases with the status in r11, every other
    general register and xmm0 to xmm6 as at the stub's entry, the stack
    pointer as at the entry or past the return address, and no memory but the
    save area changed since the resolver returned. *)
Theorem stub_retries ra s st a ret :
  slot s (st.(gpr) RSP) = Some a → address a → peek st.(ram) 8 a = Some 0 → regs_ok st → stub_room st ret →
  ∃ k1 st1 st2 k2 st3, to_resolver ra s st k1 st1 st2 k2 st3 ∧
  ∀ t, resolver_returned st3 t →
  ∃ k3 t1 t2 t3,
    let again := t.(gpr) RAX =? 0 in
    from_resolver ra k2 t k3 t1 t2 (if again then ExitTail S_function t3 else ExitRet ret t3) ∧
    t3.(gpr) RSP = (if again then st.(gpr) RSP else st.(gpr) RSP + 8) ∧
    t3.(gpr) R11 = t.(gpr) RAX ∧
    (∀ r, r ∉ [RSP; R11] → t3.(gpr) r = st.(gpr) r) ∧
    (∀ x, (x < 7)%nat → t3.(xmm) x = st.(xmm) x) ∧
    same_off t.(ram) t3.(ram) (st.(gpr) RSP - 248) 248.
Proof.
  intros Hs Ha Hp Hrg Hroom. pose proof Hroom as [Hlow Htop _ Hret].
  destruct (stub_to_resolver ra s st a ret Hs Ha Hp Hrg Hroom)
    as (st1 & st2 & st3 & Htr & Hpa & Hg1 & Hx1 & Hsp3 & Hbp3 & Hsv & Hoff & _ & _).
  set (k1 := after_pushall (resolve_args s)) in *. set (sp := gpr st RSP - 8) in *.
  exists k1, st1, st2, after_resolve, st3. split; [exact Htr|]. intros t [Hsp Hbp Hon Hbelow].
  assert (Hstk : stack_ok t).
  { split; [rewrite Hsp, Hsp3; unfold sp; lia|]. by replace (gpr t RSP - 8) with (gpr st3 RSP) by lia. }
  destruct (popall_call ra t Hstk) as (t1 & Hr1 & (Hs1 & Hpk1 & Hgt1 & _ & Ho1) & Hst1).
  replace (gpr t RSP - 8) with (sp - 240) in * by lia.
  assert (Hpo : pop_area st1 t1 sp (u64 (ra k1)) (u64 (ra after_popall))).
  { split; [done|unfold sp; lia|unfold sp; lia| |done].
    intros o w v Hin Ho. rewrite <- (Hsv o w v Hin Ho). apply peek_same.
    assert (Hall : forallb (λ '(o, w, _), (o =? 0) || ((8 <=? o) && (o + Z.of_nat w <=? 248)))
      (saved st1 (u64 (ra k1))) = true) by reflexivity.
    rewrite forallb_forall in Hall. apply list_elem_of_In in Hin. specialize (Hall _ Hin). cbn beta iota in Hall.
    intros x Hx. rewrite Ho1, Hon by lia. done. }
  destruct (popall_ok ra _ _ _ _ _ Hpo) as (t2 & Hr2 & Hs2 & Hg2 & Hb2 & Hr11 & Hx2 & _ & Ho2).
  assert (Hld : load 8 (gpr t2 RSP) t2 = Some ret).
  { unfold load. rewrite Hs2. replace (sp + 8) with (gpr st RSP) by (unfold sp; lia).
    rewrite u64_small by lia. rewrite <- Hret. apply peek_same. intros x Hx.
    rewrite Ho2, Ho1, Hon, Hoff by (unfold sp in *; lia). done. }
  destruct (after_popall_ok ra t2 ret Hld) as (t3 & Hr3 & Hs3 & Hg3 & Hx3 & Hm3).
  assert (Hst : gpr t2 R11 = gpr t RAX) by congruence. rewrite Hst in *.
  exists after_popall, t1, t2, t3. split; [by split|]. rewrite Hs3, Hs2, Hg3, Hm3 by done.
  replace (sp + 8) with (gpr st RSP) by (unfold sp; lia).
  split_and!; [rewrite u64_small by lia; done|done| | |].
  - intros r Hr. rewrite Hg3 by set_solver. destruct (decide (r = RBP)) as [->|].
    + rewrite Hb2, Hgt1, Hbp by set_solver. done.
    + rewrite Hg2 by set_solver. by apply Hg1.
  - intros x Hx. by rewrite Hx3, Hx2, Hx1.
  - intros x Hx. rewrite Ho2, Ho1 by (unfold sp in *; lia). done.
Qed.

(** The sample stub with an empty cache, called from 0x2500. *)
Definition sample_entry : machine :=
  Machine (λ r, if bool_decide (r = RSP) then 0x70F8 else 7) (λ _, 0) false
    (bytes_at 0x3300 (le_split 8 0) ∪ bytes_at 0x7000 (replicate 248 Byte.x00 ++ le_split 8 0x2500)).

Lemma sample_entry_regs : regs_ok sample_entry.
Proof. split; [intros []|intros x]; vm_compute; split; first [discriminate | reflexivity]. Qed.

Lemma sample_entry_room : stub_room sample_entry 0x2500.
Proof.
  split; [discriminate|reflexivity| |vm_compute; reflexivity].
  change (gpr sample_entry RSP - 248) with 0x7000.
  assert (Hl : ∃ bs, load_bytes (ram sample_entry) 0x7000 248 = Some bs) by (eexists; vm_compute; reflexivity).
  destruct Hl as [bs Hl]. exact (load_bytes_is_mapped _ _ _ _ Hl).
Qed.

Lemma stub_passes_operands_witness :
  ∃ k1 st1 st2 k2 st3, to_resolver (λ _, 0x2040) sample_stub sample_entry k1 st1 st2 k2 st3 ∧
    st3.(gpr) RDI = 0x3000 ∧ st3.(gpr) RSI = 0x3100 ∧ st3.(gpr) RDX = 0x3200 ∧ st3.(gpr) RCX = 0x3300 ∧
    st3.(gpr) R9 = 0x2000.
Proof.
  destruct (stub_passes_operands (λ _, 0x2040) sample_stub sample_entry 0x3300 0x2500)
    as (k1 & st1 & st2 & k2 & st3 & H & Hp & _).
  - reflexivity.
  - exact sample_operands_ok.
  - reflexivity.
  - split; [discriminate|reflexivity].
  - vm_compute. reflexivity.
  - exact sample_entry_regs.
  - exact sample_entry_room.
  - exists k1, st1, st2, k2, st3. split; [exact H|]. unfold passes, expected, arguments in Hp. simpl in Hp.
    repeat match goal with Hp : Forall2 _ (_ :: _) _ |- _ => apply Forall2_cons in Hp as [? Hp] end.
    by split_and!.
Defined.

(** The resolver fails with status 5 and leaves 9 in rbx. *)
Lemma stub_retries_witness :
  ∃ k1 st1 st2 k2 st3, to_resolver (λ _, 0x2040) sample_stub sample_entry k1 st1 st2 k2 st3 ∧
    let t := set_gpr RSP (st3.(gpr) RSP + 8) (set_gpr RAX 5 (set_gpr RBX 9 st3)) in
    ∃ k3 t1 t2 t3, from_resolver (λ _, 0x2040) k2 t k3 t1 t2 (ExitRet 0x2500 t3) ∧
      t3.(gpr) RSP = 0x7100 ∧ t3.(gpr) R11 = 5 ∧ t3.(gpr) RBX = 7.
Proof.
  destruct (stub_to_resolver (λ _, 0x2040) sample_stub sample_entry 0x3300 0x2500)
    as (u1 & u2 & u3 & [A1 A2 A3] & _ & _ & _ & Hsp & _ & _ & _ & Hm & _);
    [reflexivity|split; [discriminate|reflexivity]|vm_compute; reflexivity|exact sample_entry_regs
    |exact sample_entry_room|].
  destruct (stub_retries (λ _, 0x2040) sample_stub sample_entry 0x3300 0x2500)
    as (k1 & st1 & st2 & k2 & st3 & [B1 B2 B3] & H);
    [reflexivity|split; [discriminate|reflexivity]|vm_compute; reflexivity|exact sample_entry_regs
    |exact sample_entry_room|].
  assert (st3 = u3) as -> by congruence.
  exists k1, st1, st2, k2, u3. split; [by split|]. intros t.
  destruct (H t) as (k3 & t1 & t2 & t3 & Hf & H1 & H2 & H3 & _).
  { split; [reflexivity|reflexivity|apply same_on_refl|]. rewrite <- Hsp in Hm. exact Hm. }
  exists k3, t1, t2, t3. change (gpr t RAX) with 5 in *. split; [exact Hf|].
  split; [exact H1|]. split; [exact H2|]. apply (H3 RBX). intros Hin. by apply elem_of_cons in Hin as [|Hin%list_elem_of_singleton].
Defined.
