(* ===== verification/Posix.v ===== *)
(** * The operating system under the memory objects

    The resources source/ps4/namedmemory.c and protectedmemory.c take from the
    system: heap blocks, file handles, shared memory objects and mappings.
    What the system decides, the addresses and handles it gives out and the
    calls it fails, is given by an instance of [Posix], whose laws are the
    documented ones; the effects on the resources are defined here. *)

From S2P Require Import Prelude.

(** ** Constants (include/sys/mman.h, include/fcntl.h, include/types/kernel.h) *)

Definition PROT_READ : Z := 0x01.
Definition PROT_WRITE : Z := 0x02.
Definition PROT_EXEC : Z := 0x04.
Definition MAP_SHARED : Z := 0x0001.
Definition MAP_PRIVATE : Z := 0x0002.
Definition MAP_FILE : Z := 0x0000.
Definition MAP_TYPE : Z := 0x0f.
Definition MAP_FAILED : Z := 2 ^ 64 - 1.
Definition O_RDWR : Z := 0x0002.
Definition O_CREAT : Z := 0x0200.

(** ** The resources *)

(** The structures the two sources allocate; a field that has not been
    assigned yet has no value. *)
Record PS4NamedMemory := NamedMemory {
  nm_address : option Z;
  nm_size : option Z;
  nm_path : option Z }.

Record PS4ProtectedMemory := ProtectedMemory {
  pm_writable : option Z;
  pm_executable : option Z;
  pm_size : option Z }.

(** A heap block: characters, each with a value once it is written, or one of
    the structures. *)
Inductive cell :=
| Chars (bs : list (option byte))
| Named (r : PS4NamedMemory)
| Protected (r : PS4ProtectedMemory).

(** [sizeof] of what a block holds: both structures are three 8-byte fields. *)
Definition sizeof_cell (c : cell) : Z :=
  match c with Chars bs => Z.of_nat (length bs) | Named _ | Protected _ => 24 end.

(** A handle refers to a shared memory object by name, or to JIT memory [id]
    of [size] bytes with the protection it may be mapped with. *)
Inductive file :=
| Shm (name : list byte)
| Jit (id size protection : Z).

(** A mapping of a file: the arguments of mmap, the handle resolved. *)
Record mapping := Mapping {
  mp_length : Z;
  mp_protection : Z;
  mp_flags : Z;
  mp_file : file;
  mp_offset : Z }.

#[export] Instance byte_countable : Countable byte.
Proof. refine (inj_countable' byte.unsigned byte.of_Z _). intros b. apply byte.of_Z_unsigned. Defined.

Record os := Os {
  o_cells : gmap Z cell;
  o_handles : gmap Z file;
  o_maps : gmap Z mapping;
  o_shm : gmap (list byte) Z }.

(** The JIT memory that a handle or a mapping of the process refers to. *)
Definition jit_id (f : file) : option Z := match f with Jit id _ _ => Some id | Shm _ => None end.
Definition jit_ids (s : os) : list Z :=
  omap (λ kf, jit_id kf.2) (map_to_list s.(o_handles)) ++
  omap (λ km, jit_id km.2.(mp_file)) (map_to_list s.(o_maps)).

(** The choices of the system. *)
Class Posix := {
  page_size : Z;
  pick_cell : os → Z → Z;
  pick_shm : os → list byte → Z → Z → Z;
  pick_jit : os → Z → Z → Z → option Z;
  pick_jit_id : os → Z;
  pick_alias : os → Z → Z → option Z;
  fstat_ok : os → Z → bool;
  ftruncate_result : os → Z → Z → Z;
  pick_map : os → Z → Z → Z → Z → Z → Z → Z;
  munmap_result : os → Z → Z → Z;
  unlink_result : os → list byte → Z;
  page_size_pos : 0 < page_size < 2 ^ 63;
  pick_cell_fresh : ∀ s n, pick_cell s n ≠ 0 → s.(o_cells) !! pick_cell s n = None;
  pick_shm_fresh : ∀ s p o m, 0 ≤ pick_shm s p o m → s.(o_handles) !! pick_shm s p o m = None;
  pick_jit_fresh : ∀ s o n p h, pick_jit s o n p = Some h → h ≠ 0 → s.(o_handles) !! h = None;
  pick_jit_id_fresh : ∀ s, pick_jit_id s ∉ jit_ids s;
  pick_alias_fresh : ∀ s e p h, pick_alias s e p = Some h → h ≠ 0 → s.(o_handles) !! h = None;
  pick_map_fresh : ∀ s a n p l h o,
    pick_map s a n p l h o ≠ MAP_FAILED → s.(o_maps) !! pick_map s a n p l h o = None }.

Section posix.
Context `{Posix}.

(** ** Heap *)

(** malloc of [n] bytes that will be used as [c], which has to be that large. *)
Definition malloc_cell (n : Z) (c : cell) : C os Z := λ s,
  if negb (sizeof_cell c =? n) then UB else
  let a := pick_cell s n in
  if a =? 0 then Done 0 s
  else Done a (Os (<[a := c]> s.(o_cells)) s.(o_handles) s.(o_maps) s.(o_shm)).

(** A block of [n] characters, none of them written. *)
Definition blank (n : Z) : cell := Chars (replicate (Z.to_nat n) None).

Definition free_cell (a : Z) : C os () := λ s,
  if a =? 0 then Done () s else
  match s.(o_cells) !! a with
  | Some _ => Done () (Os (delete a s.(o_cells)) s.(o_handles) s.(o_maps) s.(o_shm))
  | None => UB
  end.

Definition get_cell (a : Z) : C os cell := λ s,
  match s.(o_cells) !! a with Some c => Done c s | None => UB end.

Definition set_cell (a : Z) (c : cell) : C os () := λ s,
  match s.(o_cells) !! a with
  | Some _ => Done () (Os (<[a := c]> s.(o_cells)) s.(o_handles) s.(o_maps) s.(o_shm))
  | None => UB
  end.

Definition get_chars (a : Z) : C os (list (option byte)) :=
  c ← get_cell a; match c with Chars bs => mret bs | _ => ub end.
Definition get_named (a : Z) : C os PS4NamedMemory :=
  c ← get_cell a; match c with Named r => mret r | _ => ub end.
Definition get_protected (a : Z) : C os PS4ProtectedMemory :=
  c ← get_cell a; match c with Protected r => mret r | _ => ub end.

(** ** Strings

    A string argument is the list of its characters before the terminator;
    one on the heap is read from its block. *)

(** [a[i] = c], inside the block only. *)
Definition put_char (a i : Z) (c : byte) : C os () :=
  bs ← get_chars a;
  if (0 <=? i) && (i <? Z.of_nat (length bs)) then set_cell a (Chars (<[Z.to_nat i := Some c]> bs))
  else ub.

Definition strnlen (str : list byte) (n : Z) : Z := Z.min (Z.of_nat (length str)) n.

(** [strncpy(a + i, src, n)]: pads with NUL when [src] is shorter. *)
Fixpoint strncpy (a i : Z) (src : list byte) (n : nat) : C os () :=
  match n with
  | O => mret ()
  | S n => put_char a i (default Byte.x00 (head src));; strncpy a (i + 1) (tail src) n
  end.

(** The characters of a block before its first NUL: none must be unwritten,
    and there must be one. *)
Fixpoint until_nul (bs : list (option byte)) : option (list byte) :=
  match bs with
  | Some c :: bs => if decide (c = Byte.x00) then Some [] else cons c <$> until_nul bs
  | _ => None
  end.

Definition get_string (a : Z) : C os (list byte) := bs ← get_chars a; init (until_nul bs).

(** ** Files and mappings *)

(** shm_open creates a missing object, of size 0, if asked to. *)
Definition shm_open (path : list byte) (oflag mode : Z) : C os Z := λ s,
  let h := pick_shm s path oflag mode in
  let opened o := Done h (Os s.(o_cells) (<[h := Shm path]> s.(o_handles)) s.(o_maps) o) in
  if h <? 0 then Done h s else
  match s.(o_shm) !! path with
  | Some _ => opened s.(o_shm)
  | None => if Z.land oflag O_CREAT =? 0 then Done (-1) s else opened (<[path := 0]> s.(o_shm))
  end.

(** The size fstat reports, if it succeeds. *)
Definition fstat_size (h : Z) : C os (option Z) := λ s,
  if fstat_ok s h then
    match s.(o_handles) !! h with
    | Some (Shm p) => match s.(o_shm) !! p with Some n => Done (Some n) s | None => Done None s end
    | _ => Done None s
    end
  else Done None s.

Definition ftruncate (h n : Z) : C os Z := λ s,
  let r := ftruncate_result s h n in
  if r <? 0 then Done r s else
  match s.(o_handles) !! h with
  | Some (Shm p) => Done r (Os s.(o_cells) s.(o_handles) s.(o_maps) (<[p := n]> s.(o_shm)))
  | _ => Done (-1) s
  end.

(** [mmap(addr, n, protection, flags, handle, offset)]: a handle that is not
    open cannot be mapped. *)
Definition mmap (addr n protection flags handle offset : Z) : C os Z := λ s,
  match s.(o_handles) !! handle with
  | None => Done MAP_FAILED s
  | Some f =>
      let a := pick_map s addr n protection flags handle offset in
      if a =? MAP_FAILED then Done a s
      else Done a (Os s.(o_cells) s.(o_handles)
        (<[a := Mapping n protection flags f offset]> s.(o_maps)) s.(o_shm))
  end.

(** munmap of a whole mapping; the sources unmap nothing else, and what would
    happen to a part of one is not defined here. *)
Definition munmap (a n : Z) : C os Z := λ s,
  match s.(o_maps) !! a with
  | Some m =>
      if negb (m.(mp_length) =? n) then UB else
      let r := munmap_result s a n in
      if r =? 0 then Done r (Os s.(o_cells) s.(o_handles) (delete a s.(o_maps)) s.(o_shm))
      else Done r s
  | None => UB
  end.

Definition close (h : Z) : C os () := λ s,
  Done () (Os s.(o_cells) (delete h s.(o_handles)) s.(o_maps) s.(o_shm)).

Definition shm_unlink (path : list byte) : C os Z := λ s,
  let r := unlink_result s path in
  if r =? 0 then Done r (Os s.(o_cells) s.(o_handles) s.(o_maps) (delete path s.(o_shm)))
  else Done r s.

(** The out parameter of the JIT calls, unassigned if they fail early. *)
Definition sceKernelJitCreateSharedMemory (flags n protection : Z) : C os (option Z) := λ s,
  match pick_jit s flags n protection with
  | Some h => Done (Some h) (if h =? 0 then s
      else Os s.(o_cells) (<[h := Jit (pick_jit_id s) n protection]> s.(o_handles)) s.(o_maps) s.(o_shm))
  | None => Done None s
  end.

(** An alias is another handle to the same JIT memory. *)
Definition sceKernelJitCreateAliasOfSharedMemory (e protection : Z) : C os (option Z) := λ s,
  match pick_alias s e protection, s.(o_handles) !! e with
  | Some h, Some (Jit id n _) => Done (Some h) (if h =? 0 then s
      else Os s.(o_cells) (<[h := Jit id n protection]> s.(o_handles)) s.(o_maps) s.(o_shm))
  | _, _ => Done None s
  end.
End posix.

(** What a process holds; the objects with a name outlive it. *)
Definition same_resources (s s' : os) : Prop :=
  s'.(o_cells) = s.(o_cells) ∧ s'.(o_handles) = s.(o_handles) ∧ s'.(o_maps) = s.(o_maps).

(** ** Instances *)

(** A number above all of a list. *)
Lemma foldr_max_above (l : list Z) x : x ∈ l → x < foldr Z.max 0 l + 1.
Proof.
  induction l as [|y l IH]; [by intros ?%not_elem_of_nil|]. intros [->|Hx]%elem_of_cons; cbn; [lia|].
  specialize (IH Hx). lia.
Qed.

Lemma foldr_max_fresh (l : list Z) : foldr Z.max 0 l + 1 ∉ l.
Proof. intros Hx%foldr_max_above. lia. Qed.

(** A system that fails a call when the corresponding flag is set. *)
Definition flaky (no_mem no_file no_trunc no_map : bool) : Posix.
Proof.
  refine {|
    page_size := 0x4000;
    pick_cell := λ s _, if no_mem then 0 else above 0x1000 s.(o_cells);
    pick_shm := λ s _ _ _, if no_file then -1 else above 3 s.(o_handles);
    pick_jit := λ s _ _ _, Some (if no_file then 0 else above 3 s.(o_handles));
    pick_jit_id := λ s, foldr Z.max 0 (jit_ids s) + 1;
    pick_alias := λ s _ _, Some (above 3 s.(o_handles));
    fstat_ok := λ _ _, true;
    ftruncate_result := λ _ _ _, if no_trunc then -1 else 0;
    pick_map := λ s _ _ _ _ _ _, if no_map || (MAP_FAILED =? above 0x20000 s.(o_maps))
                       then MAP_FAILED else above 0x20000 s.(o_maps);
    munmap_result := λ _ _ _, 0;
    unlink_result := λ _ _, 0 |}.
  - done.
  - intros s n. destruct no_mem; [done|]. intros _. apply above_fresh.
  - intros s p o m. destruct no_file; [done|]. intros _. apply above_fresh.
  - intros s o n p h. destruct no_file; intros [= <-]; [done|]. intros _. apply above_fresh.
  - intros s. apply foldr_max_fresh.
  - intros s e p h [= <-] _. apply above_fresh.
  - intros s a n p l h o. destruct (_ || _); [done|]. intros _. apply above_fresh.
Defined.

Definition empty_os : os := Os ∅ ∅ ∅ ∅.
