(* ===== verification/NamedMemory.v ===== *)
(** * Named memory

    ps4NamedMemoryOpen, ps4NamedMemoryClose, ps4NamedMemoryUnlink,
    ps4NamedMemoryAddress and ps4NamedMemorySize of
    source/ps4/namedmemory.c. *)

From S2P Require Import Prelude.
From S2P Require Import Posix.

(** [((n - 1) / pageSize + 1) * pageSize] on [size_t] *)
Definition round_pages (p n : Z) : Z := u64 (u64 (u64 (n - 1) / p + 1) * p).

(** The three cases for [memory->size]. *)
Definition named_size (p size fileSize : Z) : Z :=
  if (size =? 0) && (0 <? fileSize) then round_pages p fileSize
  else if size =? 0 then p
  else round_pages p size.

(** What is kept of the path: its first [strnlen(path, 255)] characters. *)
Definition path_prefix (path : list byte) : list byte := take (Z.to_nat (strnlen path 255)) path.

Section named.
Context `{Posix}.

Definition set_path (memory p : Z) : C os () :=
  r ← get_named memory; set_cell memory (Named (NamedMemory r.(nm_address) r.(nm_size) (Some p))).
Definition set_size (memory n : Z) : C os () :=
  r ← get_named memory; set_cell memory (Named (NamedMemory r.(nm_address) (Some n) r.(nm_path))).
Definition set_address (memory a : Z) : C os () :=
  r ← get_named memory; set_cell memory (Named (NamedMemory (Some a) r.(nm_size) r.(nm_path))).

Definition get_nm_path (memory : Z) : C os Z := r ← get_named memory; init r.(nm_path).
Definition get_nm_size (memory : Z) : C os Z := r ← get_named memory; init r.(nm_size).
Definition get_nm_address (memory : Z) : C os Z := r ← get_named memory; init r.(nm_address).

(** The labels at the end of ps4NamedMemoryOpen, each falling through. *)
Definition freeandreturn (memory : Z) : C os Z :=
  free_cell memory;; mret 0.
Definition freepath (memory : Z) : C os Z :=
  p ← get_nm_path memory; free_cell p;; freeandreturn memory.
Definition shmopen (memory handle : Z) : C os Z :=
  close handle;; p ← get_nm_path memory; bs ← get_string p; shm_unlink bs;; freepath memory.

(** ps4NamedMemoryOpen from shm_open on. *)
Definition open_file (path : list byte) (size memory : Z) : C os Z :=
  handle ← shm_open path (Z.lor O_CREAT O_RDWR) 0x1ed;
  if handle <? 0 then freepath memory else
  st ← fstat_size handle;
  let fileSize := default 0 st in
  set_size memory (named_size page_size size fileSize);;
  n ← get_nm_size memory;
  t ← (if fileSize <? n then n ← get_nm_size memory; ftruncate handle n else mret 0);
  if t <? 0 then shmopen memory handle else
  n ← get_nm_size memory;
  a ← mmap 0 n (Z.lor PROT_READ PROT_WRITE) (Z.lor MAP_FILE MAP_SHARED) handle 0;
  set_address memory a;;
  a ← get_nm_address memory;
  if a =? MAP_FAILED then shmopen memory handle else
  close handle;;
  mret memory.

Definition ps4NamedMemoryOpen (path : list byte) (size : Z) : C os Z :=
  let l := strnlen path 255 in
  memory ← malloc_cell 24 (Named (NamedMemory None None None));
  if memory =? 0 then mret 0 else
  p ← malloc_cell (u64 (l + 1)) (blank (u64 (l + 1)));
  set_path memory p;;
  p ← get_nm_path memory;
  if p =? 0 then freeandreturn memory else
  p ← get_nm_path memory;
  strncpy p 0 path (Z.to_nat l);;
  p ← get_nm_path memory;
  put_char p l Byte.x00;;
  open_file path size memory.

Definition ps4NamedMemoryClose (memory : Z) : C os Z :=
  if memory =? 0 then mret (-1) else
  a ← get_nm_address memory; n ← get_nm_size memory;
  u ← munmap a n;
  let r := Z.lor 0 u in
  p ← get_nm_path memory; free_cell p;;
  free_cell memory;;
  mret r.

Definition ps4NamedMemoryUnlink (memory : Z) : C os Z :=
  if memory =? 0 then mret (-1) else
  p ← get_nm_path memory; bs ← get_string p;
  u ← shm_unlink bs;
  let r := Z.lor 0 u in
  c ← ps4NamedMemoryClose memory;
  mret (Z.lor r c).

Definition ps4NamedMemoryAddress (memory : Z) : C os Z :=
  if memory =? 0 then mret 0 else get_nm_address memory.

Definition ps4NamedMemorySize (memory : Z) : C os Z :=
  if memory =? 0 then mret 0 else get_nm_size memory.
End named.

(** ** Evaluation *)

Section eval.
Context `{Posix}.

Lemma get_cell_ok s a c : s.(o_cells) !! a = Some c → get_cell a s = Done c s.
Proof using. intros Ha. unfold get_cell. by rewrite Ha. Qed.

Lemma get_named_ok s a r : s.(o_cells) !! a = Some (Named r) → get_named a s = Done r s.
Proof using. intros Ha. unfold get_named. by rewrite (bind_done _ _ _ _ _ (get_cell_ok _ _ _ Ha)). Qed.

(** The characters of a string that are read back, those before a NUL. *)
Fixpoint read_back (bs : list byte) : list byte :=
  match bs with
  | [] => []
  | c :: bs => if decide (c = Byte.x00) then [] else c :: read_back bs
  end.

Lemma read_back_id bs : Byte.x00 ∉ bs → read_back bs = bs.
Proof using.
  induction bs as [|c bs IH]; [done|]. intros [Hc Hbs]%not_elem_of_cons. cbn [read_back].
  rewrite decide_False by done. by rewrite IH.
Qed.

Lemma read_back_length bs : (length (read_back bs) ≤ length bs)%nat.
Proof using. induction bs as [|c bs IH]; [done|]. cbn. destruct (decide _); cbn; lia. Qed.

Lemma until_nul_chars bs : until_nul (map Some bs ++ [Some Byte.x00]) = Some (read_back bs).
Proof using.
  induction bs as [|b bs IH]; [done|]. cbn [map app until_nul read_back].
  destruct (decide (b = Byte.x00)); [done|]. by rewrite IH.
Qed.

Lemma get_chars_ok s a bs : s.(o_cells) !! a = Some (Chars bs) → get_chars a s = Done bs s.
Proof using. intros Ha. unfold get_chars. by rewrite (bind_done _ _ _ _ _ (get_cell_ok _ _ _ Ha)). Qed.

Lemma set_cell_ok s a c c' :
  s.(o_cells) !! a = Some c →
  set_cell a c' s = Done () (Os (<[a := c']> s.(o_cells)) s.(o_handles) s.(o_maps) s.(o_shm)).
Proof using. intros Ha. unfold set_cell. by rewrite Ha. Qed.

Lemma free_cell_ok s a c :
  s.(o_cells) !! a = Some c → a ≠ 0 →
  free_cell a s = Done () (Os (delete a s.(o_cells)) s.(o_handles) s.(o_maps) s.(o_shm)).
Proof using. intros Ha Hz. unfold free_cell. replace (a =? 0) with false by lia. by rewrite Ha. Qed.

Lemma malloc_cases s n c :
  sizeof_cell c = n →
  malloc_cell n c s = Done 0 s ∨
  ∃ a, a ≠ 0 ∧ s.(o_cells) !! a = None ∧
    malloc_cell n c s = Done a (Os (<[a := c]> s.(o_cells)) s.(o_handles) s.(o_maps) s.(o_shm)).
Proof using.
  intros Hn. unfold malloc_cell. rewrite Hn, Z.eqb_refl. cbn [negb].
  destruct (pick_cell s n =? 0) eqn:Hz; zb; [by left|right].
  exists (pick_cell s n). split_and!; [done|by apply pick_cell_fresh|done].
Qed.

Lemma mmap_cases s addr n prot flags h off f :
  s.(o_handles) !! h = Some f →
  mmap addr n prot flags h off s = Done MAP_FAILED s ∨
  ∃ a, a ≠ MAP_FAILED ∧ s.(o_maps) !! a = None ∧
    mmap addr n prot flags h off s =
      Done a (Os s.(o_cells) s.(o_handles) (<[a := Mapping n prot flags f off]> s.(o_maps)) s.(o_shm)).
Proof using.
  intros Hh. unfold mmap. rewrite Hh.
  destruct (pick_map s addr n prot flags h off =? MAP_FAILED) eqn:Hz; zb; [left; by rewrite Hz|right].
  exists (pick_map s addr n prot flags h off). split_and!; [done|by apply pick_map_fresh|done].
Qed.

Lemma munmap_cases s a n m :
  s.(o_maps) !! a = Some m → m.(mp_length) = n →
  (munmap_result s a n = 0 ∧ munmap a n s =
    Done 0 (Os s.(o_cells) s.(o_handles) (delete a s.(o_maps)) s.(o_shm))) ∨
  (munmap_result s a n ≠ 0 ∧ munmap a n s = Done (munmap_result s a n) s).
Proof using.
  intros Hm Hn. unfold munmap. rewrite Hm, Hn, Z.eqb_refl. cbn [negb].
  destruct (munmap_result s a n =? 0) eqn:Hr; zb; [left|right]; [by rewrite Hr|done].
Qed.

Lemma put_char_ok s a i c pre x post :
  s.(o_cells) !! a = Some (Chars (pre ++ x :: post)) → i = Z.of_nat (length pre) →
  put_char a i c s =
    Done () (Os (<[a := Chars (pre ++ Some c :: post)]> s.(o_cells)) s.(o_handles) s.(o_maps) s.(o_shm)).
Proof using.
  intros Ha ->. unfold put_char. rewrite (bind_done _ _ _ _ _ (get_chars_ok _ _ _ Ha)).
  rewrite length_app, (proj2 (Z.leb_le 0 _)) by apply Nat2Z.is_nonneg.
  rewrite (proj2 (Z.ltb_lt _ _)) by (cbn [length]; lia). cbn [andb]. rewrite Nat2Z.id.
  rewrite (insert_app_r_alt pre) by lia. rewrite Nat.sub_diag. by apply (set_cell_ok _ _ _ _ Ha).
Qed.

Lemma strncpy_ok n : ∀ s a i src pre post,
  s.(o_cells) !! a = Some (Chars (pre ++ post)) → i = Z.of_nat (length pre) →
  (n ≤ length src)%nat → (n ≤ length post)%nat →
  strncpy a i src n s = Done () (Os (<[a := Chars (pre ++ map Some (take n src) ++ drop n post)]> s.(o_cells))
    s.(o_handles) s.(o_maps) s.(o_shm)).
Proof using.
  induction n as [|n IH]; intros s a i src pre post Ha Hi Hs Hp.
  { cbn. rewrite insert_id by done. by destruct s. }
  destruct src as [|c src]; [cbn in Hs; lia|]. destruct post as [|x post]; [cbn in Hp; lia|].
  cbn [strncpy head tail default from_option id].
  rewrite (bind_done _ _ _ _ _ (put_char_ok _ _ _ c _ _ _ Ha Hi)).
  rewrite (IH _ a _ src (pre ++ [Some c]) post).
  - cbn [o_cells o_handles o_maps o_shm take drop map]. rewrite insert_insert_eq. by rewrite <- app_assoc.
  - cbn [o_cells]. rewrite lookup_insert_eq. by rewrite <- app_assoc.
  - rewrite length_app. cbn [length]. lia.
  - cbn in Hs. lia.
  - cbn in Hp. lia.
Qed.

(** A string in a block of its own: the characters and the terminator. *)
Definition c_chars (bs : list byte) : list (option byte) := map Some bs ++ [Some Byte.x00].

(** The object while it is being built, over the caller's cells [cs]: with
    the block [blk] for its path, and with the path [bs]. *)
Definition building_with (cs : gmap Z cell) (memory p : Z) (blk : list (option byte))
    (a n : option Z) : gmap Z cell :=
  <[p := Chars blk]> (<[memory := Named (NamedMemory a n (Some p))]> cs).

Definition building (cs : gmap Z cell) (memory p : Z) (bs : list byte)
    (a n : option Z) : gmap Z cell := building_with cs memory p (c_chars bs) a n.

Record fresh_pair (cs : gmap Z cell) (memory p : Z) : Prop := {
  fp_memory : memory ≠ 0;
  fp_path : p ≠ 0;
  fp_ne : p ≠ memory;
  fp_memory_new : cs !! memory = None;
  fp_path_new : cs !! p = None }.

Lemma building_with_named cs memory p blk a n :
  fresh_pair cs memory p →
  building_with cs memory p blk a n !! memory = Some (Named (NamedMemory a n (Some p))).
Proof using.
  intros [? ? ? ? ?]. unfold building_with. rewrite lookup_insert_ne by done. by rewrite lookup_insert_eq.
Qed.

Lemma building_named cs memory p bs a n :
  fresh_pair cs memory p →
  building cs memory p bs a n !! memory = Some (Named (NamedMemory a n (Some p))).
Proof using. apply building_with_named. Qed.

Lemma building_path cs memory p bs a n :
  building cs memory p bs a n !! p = Some (Chars (c_chars bs)).
Proof using. unfold building, building_with. by rewrite lookup_insert_eq. Qed.

Lemma building_update cs memory p bs a n a' n' :
  fresh_pair cs memory p →
  <[memory := Named (NamedMemory a' n' (Some p))]> (building cs memory p bs a n) =
    building cs memory p bs a' n'.
Proof using.
  intros [? ? ? ? ?]. unfold building, building_with. rewrite insert_insert_ne by done. by rewrite insert_insert_eq.
Qed.

Lemma building_delete cs memory p bs a n :
  fresh_pair cs memory p → delete memory (delete p (building cs memory p bs a n)) = cs.
Proof using.
  intros [? ? ? ? ?]. unfold building, building_with.
  rewrite (delete_insert_id _ p) by (by rewrite lookup_insert_ne).
  by rewrite delete_insert_id.
Qed.

(** The error labels give back what the object was built from. *)
Lemma get_nm_path_ok s memory r p :
  s.(o_cells) !! memory = Some (Named r) → r.(nm_path) = Some p → get_nm_path memory s = Done p s.
Proof using. intros Hc Hp. unfold get_nm_path. rewrite (bind_done _ _ _ _ _ (get_named_ok _ _ _ Hc)). by rewrite Hp. Qed.

Lemma get_nm_size_ok s memory r n :
  s.(o_cells) !! memory = Some (Named r) → r.(nm_size) = Some n → get_nm_size memory s = Done n s.
Proof using. intros Hc Hp. unfold get_nm_size. rewrite (bind_done _ _ _ _ _ (get_named_ok _ _ _ Hc)). by rewrite Hp. Qed.

Lemma get_nm_address_ok s memory r n :
  s.(o_cells) !! memory = Some (Named r) → r.(nm_address) = Some n → get_nm_address memory s = Done n s.
Proof using. intros Hc Hp. unfold get_nm_address. rewrite (bind_done _ _ _ _ _ (get_named_ok _ _ _ Hc)). by rewrite Hp. Qed.

Lemma get_string_ok cs memory p bs a n h m o :
  let s := Os (building cs memory p bs a n) h m o in get_string p s = Done (read_back bs) s.
Proof using.
  intros s. unfold get_string. rewrite (bind_done _ _ _ _ _ (get_chars_ok s _ _ (building_path _ _ _ _ _ _))).
  unfold c_chars. by rewrite until_nul_chars.
Qed.

Lemma freepath_ok cs memory p bs a n hs ms sh :
  fresh_pair cs memory p →
  freepath memory (Os (building cs memory p bs a n) hs ms sh) = Done 0 (Os cs hs ms sh).
Proof using.
  intros Hf. pose proof Hf as [? ? ? ? ?]. unfold freepath.
  erewrite bind_done; [|by eapply get_nm_path_ok; [by apply building_named|]].
  erewrite bind_done; [|by eapply free_cell_ok; [by apply building_path|]].
  unfold freeandreturn. erewrite bind_done; [|eapply free_cell_ok; [|done]].
  - cbn [o_cells o_handles o_maps o_shm]. by rewrite building_delete.
  - cbn [o_cells]. rewrite lookup_delete_ne by done. by apply building_named.
Qed.

Lemma shmopen_ok cs memory p bs a n handle hs ms sh :
  fresh_pair cs memory p →
  let s1 := Os (building cs memory p bs a n) (delete handle hs) ms sh in
  shmopen memory handle (Os (building cs memory p bs a n) hs ms sh) =
    Done 0 (Os cs (delete handle hs) ms
      (if unlink_result s1 (read_back bs) =? 0 then delete (read_back bs) sh else sh)).
Proof using.
  intros Hf s1. unfold shmopen. rewrite bind_done with (a := ()) (s' := s1) by done.
  erewrite bind_done; [|by eapply get_nm_path_ok; [by apply building_named|]].
  rewrite (bind_done _ _ s1 s1 _ (get_string_ok cs memory p bs a n _ _ _)).
  unfold shm_unlink at 1. destruct (unlink_result s1 (read_back bs) =? 0) eqn:Hu.
  - rewrite bind_done with (a := unlink_result s1 (read_back bs))
      (s' := Os (building cs memory p bs a n) (delete handle hs) ms (delete (read_back bs) sh)) by (by rewrite Hu).
    by apply freepath_ok.
  - rewrite bind_done with (a := unlink_result s1 (read_back bs)) (s' := s1) by (by rewrite Hu).
    by apply freepath_ok.
Qed.
End eval.

(** ** Opening *)

(** The objects after shm_open with O_CREAT. *)
Definition created (shm : gmap (list byte) Z) (path : list byte) : gmap (list byte) Z :=
  match shm !! path with Some _ => shm | None => <[path := 0]> shm end.

(** The mapping of the object: readable, writable and shared. *)
Definition named_mapping (path : list byte) (n : Z) : mapping :=
  Mapping n (Z.lor PROT_READ PROT_WRITE) (Z.lor MAP_FILE MAP_SHARED) (Shm path) 0.

Lemma created_lookup shm path : is_Some (created shm path !! path).
Proof. unfold created. destruct (shm !! path) eqn:Hs; [by rewrite Hs|rewrite lookup_insert_eq; by eexists]. Qed.

Section opening.
Context `{Posix} (path : list byte) (size : Z).

(** What ps4NamedMemoryOpen leaves when it succeeds: the object [memory],
    its path [p], the mapping at [a] of [n] bytes, for an object of the size
    [file]. *)
Record opened (s s' : os) (memory p a n file : Z) : Prop := {
  op_fresh : fresh_pair s.(o_cells) memory p;
  op_cells : s'.(o_cells) = building s.(o_cells) memory p (path_prefix path) (Some a) (Some n);
  op_handles : s'.(o_handles) = s.(o_handles);
  op_unmapped : s.(o_maps) !! a = None;
  op_maps : s'.(o_maps) = <[a := named_mapping path n]> s.(o_maps);
  op_file_size : (∃ t h, fstat_ok t h = false) ∧ file = 0 ∨ created s.(o_shm) path !! path = Some file;
  op_size : n = named_size page_size size file;
  op_shm : s'.(o_shm) = if file <? n then <[path := n]> (created s.(o_shm) path)
                        else created s.(o_shm) path }.

Context (cs : gmap Z cell) (hs : gmap Z file) (ms : gmap Z mapping) (sh : gmap (list byte) Z).

Lemma shm_open_cases c m :
  let f := Z.lor O_CREAT O_RDWR in
  (∃ h, h < 0 ∧ shm_open path f 0x1ed (Os c hs m sh) = Done h (Os c hs m sh)) ∨
  ∃ h, 0 ≤ h ∧ hs !! h = None ∧
    shm_open path f 0x1ed (Os c hs m sh) = Done h (Os c (<[h := Shm path]> hs) m (created sh path)).
Proof using.
  intros f. unfold shm_open. destruct (pick_shm (Os c hs m sh) path f 0x1ed <? 0) eqn:Hz; zb; [left|right].
  - eexists. split; [exact Hz|done].
  - eexists. split; [exact Hz|]. split; [by apply (pick_shm_fresh (Os c hs m sh))|].
    unfold created. cbn [o_shm]. by destruct (sh !! path).
Qed.

Lemma set_size_ok memory p bs a n n' h m o :
  fresh_pair cs memory p →
  set_size memory n' (Os (building cs memory p bs a n) h m o) =
    Done () (Os (building cs memory p bs a (Some n')) h m o).
Proof using.
  intros Hf. unfold set_size. erewrite bind_done; [|by apply get_named_ok, building_named].
  erewrite set_cell_ok; [|by apply building_named]. cbn. by rewrite building_update.
Qed.

Lemma set_address_ok memory p bs a n a' h m o :
  fresh_pair cs memory p →
  set_address memory a' (Os (building cs memory p bs a n) h m o) =
    Done () (Os (building cs memory p bs (Some a') n) h m o).
Proof using.
  intros Hf. unfold set_address. erewrite bind_done; [|by apply get_named_ok, building_named].
  erewrite set_cell_ok; [|by apply building_named]. cbn. by rewrite building_update.
Qed.

Definition result_ok (memory p : Z) (o : outcome os Z) : Prop :=
  (∃ shm, o = Done 0 (Os cs hs ms shm)) ∨
  (∃ s' a n file, o = Done memory s' ∧ opened (Os cs hs ms sh) s' memory p a n file).

(** The two last steps: the mapping and the return. *)
Lemma map_cases memory p n h file o :
  fresh_pair cs memory p → hs !! h = None →
  (∃ t g, fstat_ok t g = false) ∧ file = 0 ∨ created sh path !! path = Some file → n = named_size page_size size file →
  o = (if file <? n then <[path := n]> (created sh path) else created sh path) →
  result_ok memory p ((n ← get_nm_size memory;
    a ← mmap 0 n (Z.lor PROT_READ PROT_WRITE) (Z.lor MAP_FILE MAP_SHARED) h 0; set_address memory a;;
    a ← get_nm_address memory;
    if a =? MAP_FAILED then shmopen memory h else close h;; mret memory)
    (Os (building cs memory p (path_prefix path) None (Some n)) (<[h := Shm path]> hs) ms o)).
Proof using.
  intros Hf Hh Hfile Hn Ho.
  erewrite bind_done; [|by eapply get_nm_size_ok; [by apply building_named|]].
  destruct (mmap_cases (Os (building cs memory p (path_prefix path) None (Some n))
    (<[h := Shm path]> hs) ms o) 0 n (Z.lor PROT_READ PROT_WRITE) (Z.lor MAP_FILE MAP_SHARED) h 0 (Shm path)
    (lookup_insert_eq _ _ _)) as [Hmap|(a & Ha & Hfa & Hmap)]; rewrite (bind_done _ _ _ _ _ Hmap).
  - left. rewrite (bind_done _ _ _ _ _ (set_address_ok _ _ _ _ _ _ _ _ _ Hf)).
    erewrite bind_done; [|by eapply get_nm_address_ok; [by apply building_named|]].
    rewrite Z.eqb_refl. rewrite shmopen_ok by done. rewrite delete_insert_id by done. by eexists.
  - right. cbn [o_cells o_handles o_maps o_shm] in *.
    rewrite (bind_done _ _ _ _ _ (set_address_ok _ _ _ _ _ _ _ _ _ Hf)).
    erewrite bind_done; [|by eapply get_nm_address_ok; [by apply building_named|]].
    replace (a =? MAP_FAILED) with false by lia. eexists _, a, n, file. split; [reflexivity|].
    split; cbn [o_cells o_handles o_maps o_shm]; [done..| | | | | |]; try done.
    by rewrite delete_insert_id.
Qed.

Lemma open_file_cases memory p :
  fresh_pair cs memory p →
  result_ok memory p (open_file path size memory
    (Os (building cs memory p (path_prefix path) None None) hs ms sh)).
Proof using.
  intros Hf. unfold open_file.
  destruct (shm_open_cases (building cs memory p (path_prefix path) None None) ms)
    as [(h & Hh & Ho)|(h & Hh & Hfh & Ho)]; rewrite (bind_done _ _ _ _ _ Ho).
  { left. replace (h <? 0) with true by lia. rewrite freepath_ok by done. by eexists. }
  replace (h <? 0) with false by lia. clear Ho.
  set (s1 := Os (building cs memory p (path_prefix path) None None) (<[h := Shm path]> hs) ms (created sh path)).
  assert (Hst : ∃ st, fstat_size h s1 = Done st s1 ∧
    ((∃ t g, fstat_ok t g = false) ∧ default 0 st = 0 ∨ created sh path !! path = Some (default 0 st))).
  { unfold fstat_size. destruct (fstat_ok s1 h) eqn:Hok; [|exists None; split; [done|left; split; [by exists s1, h|done]]].
    cbn [s1 o_handles o_shm]. rewrite lookup_insert_eq.
    destruct (created_lookup sh path) as [z ->]. exists (Some z); auto. }
  destruct Hst as (st & Hst & Hfile). rewrite (bind_done _ _ _ _ _ Hst). clear Hst.
  set (file := default 0 st) in *. set (n := named_size page_size size file).
  subst s1. cbv zeta. rewrite (bind_done _ _ _ _ _ (set_size_ok _ _ _ _ _ _ _ _ _ Hf)).
  erewrite bind_done; [|by eapply get_nm_size_ok; [by apply building_named|]].
  destruct (file <? n) eqn:Hlt.
  - rewrite bind_assoc. erewrite bind_done; [|by eapply get_nm_size_ok; [by apply building_named|]].
    unfold ftruncate at 1. cbn [o_cells o_handles o_maps o_shm].
    set (s2 := Os (building cs memory p (path_prefix path) None (Some n)) _ _ _).
    destruct (ftruncate_result s2 h n <? 0) eqn:Ht.
    + rewrite bind_done with (a := ftruncate_result s2 h n) (s' := s2) by (by rewrite Ht).
      rewrite Ht. left. unfold s2. rewrite shmopen_ok by done. rewrite delete_insert_id by done. by eexists.
    + rewrite bind_done with (a := ftruncate_result s2 h n)
        (s' := Os (o_cells s2) (o_handles s2) (o_maps s2) (<[path := n]> (o_shm s2)))
        by (rewrite Ht; cbn [s2 o_handles]; by rewrite lookup_insert_eq).
      rewrite Ht. apply (map_cases _ _ _ _ file); [done..|]. by rewrite Hlt.
  - rewrite bind_ret. apply (map_cases _ _ _ _ file); [done..|]. by rewrite Hlt.
Qed.
End opening.

Section outcomes.
Context `{Posix} (path : list byte) (size : Z).

(** Copying the path fills its block exactly. *)
Lemma write_path_ok {A} cs memory p hs ms sh (k : C os A) :
  let l := strnlen path 255 in
  fresh_pair cs memory p →
  (strncpy p 0 path (Z.to_nat l);; p ← get_nm_path memory; put_char p l Byte.x00;; k)
    (Os (building_with cs memory p (replicate (Z.to_nat (l + 1)) None) None None) hs ms sh) =
  k (Os (building cs memory p (path_prefix path) None None) hs ms sh).
Proof using.
  intros l Hf. assert (Hl : 0 ≤ l ≤ Z.of_nat (length path)) by (unfold l, strnlen; lia).
  erewrite bind_done; [|eapply (strncpy_ok _ _ p 0 path []);
    [apply lookup_insert_eq|done|lia|rewrite length_replicate; lia]].
  cbn [o_cells o_handles o_maps o_shm app].
  replace (drop _ _) with [@None byte] by (rewrite drop_replicate; by replace (_ - _)%nat with 1%nat by lia).
  unfold building_with at 1. rewrite insert_insert_eq.
  erewrite bind_done; [|by eapply get_nm_path_ok; [by apply building_with_named|]].
  erewrite bind_done; [|eapply put_char_ok; [apply lookup_insert_eq|rewrite length_map, length_take; lia]].
  cbn [o_cells o_handles o_maps o_shm]. by rewrite insert_insert_eq.
Qed.

Lemma open_cases s :
  (∃ shm, ps4NamedMemoryOpen path size s = Done 0 (Os s.(o_cells) s.(o_handles) s.(o_maps) shm)) ∨
  (∃ s' memory p a n file, ps4NamedMemoryOpen path size s = Done memory s' ∧
     opened path size s s' memory p a n file).
Proof using.
  unfold ps4NamedMemoryOpen. destruct s as [cs hs ms sh]. cbn [o_cells o_handles o_maps o_shm].
  set (l := strnlen path 255).
  assert (Hl : 0 ≤ l ≤ 255 ∧ l ≤ Z.of_nat (length path)) by (unfold l, strnlen; lia).
  rewrite (u64_small (l + 1)) by lia.
  destruct (malloc_cases (Os cs hs ms sh) 24 (Named (NamedMemory None None None)) eq_refl)
    as [Hm|(memory & Hmz & Hmf & Hm)]; rewrite (bind_done _ _ _ _ _ Hm); [left; by exists sh|].
  replace (memory =? 0) with false by lia. cbn [o_cells o_handles o_maps o_shm] in *.
  destruct (malloc_cases (Os (<[memory:=Named (NamedMemory None None None)]> cs) hs ms sh) (l + 1) (blank (l + 1)))
    as [Hp|(p & Hpz & Hpf & Hp)]; [cbn; rewrite length_replicate; lia|..];
    rewrite (bind_done _ _ _ _ _ Hp); cbn [o_cells o_handles o_maps o_shm] in *;
    unfold set_path; rewrite bind_assoc.
  - left. exists sh. erewrite bind_done; [|apply get_named_ok, lookup_insert_eq].
    erewrite bind_done; [|by eapply set_cell_ok, lookup_insert_eq].
    erewrite bind_done; [|by eapply get_nm_path_ok; [apply lookup_insert_eq|]].
    cbn [Z.eqb]. unfold freeandreturn.
    erewrite bind_done; [|by eapply free_cell_ok; [apply lookup_insert_eq|]].
    cbn [o_cells o_handles o_maps o_shm]. by rewrite insert_insert_eq, delete_insert_id.
  - assert (Hne : p ≠ memory) by (intros ->; by rewrite lookup_insert_eq in Hpf).
    rewrite lookup_insert_ne in Hpf by done.
    assert (Hf : fresh_pair cs memory p) by by split.
    erewrite bind_done; [|apply get_named_ok; cbn; rewrite lookup_insert_ne by done; apply lookup_insert_eq].
    erewrite bind_done; [|eapply set_cell_ok; cbn; rewrite lookup_insert_ne by done; apply lookup_insert_eq].
    cbn [o_cells o_handles o_maps o_shm nm_address nm_size].
    replace (<[memory:=Named (NamedMemory None None (Some p))]>
      (<[p:=blank (l + 1)]> (<[memory:=Named (NamedMemory None None None)]> cs)))
      with (building_with cs memory p (replicate (Z.to_nat (l + 1)) None) None None)
      by (unfold building_with; rewrite (insert_insert_ne _ memory p) by done; by rewrite insert_insert_eq).
    do 2 (erewrite bind_done; [|by eapply get_nm_path_ok; [by apply building_with_named|]];
      replace (p =? 0) with false by lia).
    rewrite write_path_ok by done.
    destruct (open_file_cases path size cs hs ms sh memory p Hf)
      as [(shm & Hr)|(s' & a & n & file & Hr & Hop)]; [left; by exists shm|right].
    by exists s', memory, p, a, n, file.
Qed.
End outcomes.

(** ** Properties *)

Lemma round_pages_ok p n :
  0 < p → 1 ≤ n → n + p ≤ 2 ^ 64 → round_pages p n = ((n - 1) / p + 1) * p.
Proof.
  intros Hp Hn Hle. pose proof (round_up_spec n p ltac:(lia) Hp) as [[Hr1 Hr2] _].
  assert (0 ≤ (n - 1) / p) by (apply Z.div_pos; lia).
  assert ((n - 1) / p ≤ n - 1) by (apply Z.div_le_upper_bound; nia).
  unfold round_pages. rewrite (u64_small (n - 1)) by lia.
  rewrite (u64_small ((n - 1) / p + 1)) by lia. apply u64_small. nia.
Qed.

(** The number of bytes that have to fit: those asked for, else those the
    object has, else any. *)
Definition wanted (size file : Z) : Z := if size =? 0 then Z.max 1 file else size.

Lemma named_size_spec p size file :
  0 < p < 2 ^ 63 → 0 ≤ size → size + p ≤ 2 ^ 64 → 0 ≤ file → file + p ≤ 2 ^ 64 →
  let n := named_size p size file in
  n mod p = 0 ∧ wanted size file ≤ n < wanted size file + p.
Proof.
  intros Hp Hs Hsp Hf Hfp. unfold named_size, wanted.
  destruct (size =? 0) eqn:Hz; zb; [destruct (0 <? file) eqn:Hfz; zb; cbn [andb]|cbn [andb]].
  - rewrite round_pages_ok by lia. pose proof (round_up_spec file p ltac:(lia) ltac:(lia)). lia.
  - rewrite Z.mod_same by lia. lia.
  - rewrite round_pages_ok by lia. pose proof (round_up_spec size p ltac:(lia) ltac:(lia)). lia.
Qed.

Section properties.
  Context `{Posix}.

(** C11. ps4NamedMemoryOpen always returns.  When it returns NULL, at whichever
    call the system failed, the process holds exactly the memory, handles and
    mappings it held before; when it does not, it has gained the object, its
    path and one mapping, and no handle. *)
Theorem ps4NamedMemoryOpen_no_leak path size s :
  ∃ r s', ps4NamedMemoryOpen path size s = Done r s' ∧
    (r = 0 → same_resources s s') ∧
    (r ≠ 0 → ∃ p a n, fresh_pair s.(o_cells) r p ∧ s.(o_maps) !! a = None ∧
      s'.(o_cells) = building s.(o_cells) r p (path_prefix path) (Some a) (Some n) ∧
      s'.(o_handles) = s.(o_handles) ∧ s'.(o_maps) = <[a := named_mapping path n]> s.(o_maps)).
Proof.
  destruct (open_cases path size s) as [(shm & Hr)|(s' & r & p & a & n & file & Hr & [])].
  - eexists _, _. split; [exact Hr|]. by split.
  - exists r, s'. split; [done|]. split; [by intros ->; destruct op_fresh0|]. intros _. by exists p, a, n.
Qed.

(** The successful result, taken apart. *)
Lemma opened_of path size s r s' :
  ps4NamedMemoryOpen path size s = Done r s' → r ≠ 0 →
  ∃ p a n file, opened path size s s' r p a n file.
Proof.
  intros Ho Hr. destruct (open_cases path size s) as [(shm & Hr')|(s1 & r1 & p & a & n & file & Hr' & Hop)];
    rewrite Ho in Hr'; injection Hr' as -> ->; [done|]. by exists p, a, n, file.
Qed.

Lemma opened_named path size s s' r p a n file :
  opened path size s s' r p a n file →
  s'.(o_cells) !! r = Some (Named (NamedMemory (Some a) (Some n) (Some p))).
Proof. intros []. rewrite op_cells0. by apply building_named. Qed.

Lemma opened_file path size s s' r p a n file :
  opened path size s s' r p a n file →
  file = default 0 (s.(o_shm) !! path) ∨ (∃ t h, fstat_ok t h = false) ∧ file = 0.
Proof.
  intros Hop. destruct (op_file_size _ _ _ _ _ _ _ _ _ Hop) as [|Hc]; [by right|left]. unfold created in Hc.
  destruct (o_shm s !! path) as [z|] eqn:Hp; [by rewrite Hp in Hc; simplify_eq|].
  rewrite lookup_insert_eq in Hc. by simplify_eq.
Qed.

(** C21. The size of opened memory is the least multiple of the page size that
    holds the bytes asked for, or, when none are asked for, the size [file] of
    the object found, or one page if that is empty; [file] is the size the
    object had, 0 for a new one, unless fstat fails.  The memory is mapped at
    the address of the object, readable, writable and shared, and the object
    behind it has grown to that size if it was smaller. *)
Theorem ps4NamedMemoryOpen_size path size s r s' :
  ps4NamedMemoryOpen path size s = Done r s' → r ≠ 0 →
  0 ≤ size → size + page_size ≤ 2 ^ 64 →
  (∀ z, s.(o_shm) !! path = Some z → 0 ≤ z ∧ z + page_size ≤ 2 ^ 64) →
  ∃ n a file, ps4NamedMemorySize r s' = Done n s' ∧ ps4NamedMemoryAddress r s' = Done a s' ∧
    (file = default 0 (s.(o_shm) !! path) ∨ (∃ t h, fstat_ok t h = false) ∧ file = 0) ∧
    (let want := if size =? 0 then Z.max 1 file else size in want ≤ n < want + page_size) ∧
    n mod page_size = 0 ∧
    s'.(o_maps) !! a =
      Some (Mapping n (Z.lor PROT_READ PROT_WRITE) (Z.lor MAP_FILE MAP_SHARED) (Shm path) 0) ∧
    s'.(o_shm) !! path = Some (Z.max n file).
Proof.
  intros Ho Hr Hs Hsp Hz. destruct (opened_of _ _ _ _ _ Ho Hr) as (p & a & n & file & Hop).
  pose proof (opened_named _ _ _ _ _ _ _ _ _ Hop) as Hnm.
  pose proof (opened_file _ _ _ _ _ _ _ _ _ Hop) as Hfd. destruct Hop.
  assert (Hfile : 0 ≤ file ∧ file + page_size ≤ 2 ^ 64).
  { pose proof page_size_pos. destruct Hfd as [->|[_ ->]]; [|lia].
    destruct (s.(o_shm) !! path) as [z|] eqn:Hp; cbn; [by apply Hz|lia]. }
  destruct (named_size_spec page_size size file page_size_pos Hs Hsp ltac:(lia) ltac:(lia)) as [H1 H2].
  rewrite <- op_size0 in *. exists n, a, file. unfold ps4NamedMemorySize, ps4NamedMemoryAddress.
  replace (r =? 0) with false by lia. split_and!; try done.
  - by eapply get_nm_size_ok.
  - by eapply get_nm_address_ok.
  - apply H2.
  - apply H2.
  - rewrite op_maps0. apply lookup_insert_eq.
  - assert (Hn : 0 < n) by (unfold wanted in H2; destruct (size =? 0) eqn:Hsz; zb; lia).
    rewrite op_shm0. destruct (file <? n) eqn:Hlt; zb; [rewrite lookup_insert_eq; f_equal; lia|].
    destruct op_file_size0 as [[_ ->]|Hc]; [lia|]. rewrite Hc. f_equal. lia.
Qed.

(** Closing an opened object. *)
Lemma close_ok path size s s' r p a n file shm :
  opened path size s s' r p a n file →
  let t := Os s'.(o_cells) s'.(o_handles) s'.(o_maps) shm in
  munmap_result t a n = 0 →
  ps4NamedMemoryClose r t = Done 0 (Os s.(o_cells) s.(o_handles) s.(o_maps) shm).
Proof.
  intros Hop t Hu. pose proof (opened_named _ _ _ _ _ _ _ _ _ Hop) as Hnm. destruct Hop.
  pose proof op_fresh0 as [? ? ? ? ?]. unfold ps4NamedMemoryClose. replace (r =? 0) with false by lia.
  erewrite bind_done; [|by eapply (get_nm_address_ok t)]. erewrite bind_done; [|by eapply (get_nm_size_ok t)].
  destruct (munmap_cases t a n (named_mapping path n)) as [[_ Hm]|[? _]]; [|done| |done];
    [cbn; rewrite op_maps0; apply lookup_insert_eq|].
  rewrite (bind_done _ _ _ _ _ Hm). cbn [t o_shm].
  erewrite bind_done; [|by eapply get_nm_path_ok].
  erewrite bind_done; [|eapply free_cell_ok; [cbn; rewrite op_cells0; apply building_path|done]].
  erewrite bind_done; [|eapply free_cell_ok; [cbn; rewrite op_cells0, lookup_delete_ne by done;
    by apply building_named|done]].
  cbn. rewrite op_cells0, building_delete, op_handles0, op_maps0, delete_insert_id by done. done.
Qed.

(** C20. Open then close: if munmap succeeds, closing returns 0, leaves the
    process with exactly the resources it had before opening, and keeps the
    named object for the next to open. *)
Theorem ps4NamedMemory_open_close path size s r s' :
  ps4NamedMemoryOpen path size s = Done r s' → r ≠ 0 →
  (∀ a n, munmap_result s' a n = 0) →
  ∃ s'', ps4NamedMemoryClose r s' = Done 0 s'' ∧ same_resources s s'' ∧
    s''.(o_shm) = s'.(o_shm) ∧ is_Some (s''.(o_shm) !! path).
Proof.
  intros Ho Hr Hu. destruct (opened_of _ _ _ _ _ Ho Hr) as (p & a & n & file & Hop).
  pose proof (close_ok _ _ _ _ _ _ _ _ _ s'.(o_shm) Hop) as Hc. destruct s' as [cs hs ms sh].
  cbn [o_cells o_handles o_maps o_shm] in *. rewrite Hc by apply Hu. eexists. split_and!; [done..|].
  destruct Hop. cbn in *. rewrite op_shm0. unfold created.
  destruct (file <? n); [rewrite lookup_insert_eq; by eexists|].
  destruct (o_shm s !! path) eqn:Hs; [by rewrite Hs|rewrite lookup_insert_eq; by eexists].
Qed.

(** Unlinking an opened object. *)
Lemma unlink_ok path size s s' r p a n file :
  opened path size s s' r p a n file →
  (∀ q, unlink_result s' q = 0) → (∀ t b m, munmap_result t b m = 0) →
  ps4NamedMemoryUnlink r s' =
    Done 0 (Os s.(o_cells) s.(o_handles) s.(o_maps) (delete (read_back (path_prefix path)) s'.(o_shm))).
Proof.
  intros Hop Hl Hu. pose proof (opened_named _ _ _ _ _ _ _ _ _ Hop) as Hnm.
  pose proof (op_fresh _ _ _ _ _ _ _ _ _ Hop) as [? ? ? ? ?].
  unfold ps4NamedMemoryUnlink. replace (r =? 0) with false by lia.
  erewrite bind_done; [|by eapply get_nm_path_ok].
  assert (Hg : get_string p s' = Done (read_back (path_prefix path)) s').
  { pose proof (op_cells _ _ _ _ _ _ _ _ _ Hop) as Hc. destruct s' as [cs hs ms sh]. cbn [o_cells] in Hc.
    subst cs. apply get_string_ok. }
  rewrite (bind_done _ _ _ _ _ Hg). unfold shm_unlink. rewrite bind_done with (a := 0)
    (s' := Os s'.(o_cells) s'.(o_handles) s'.(o_maps) (delete (read_back (path_prefix path)) s'.(o_shm)))
    by (by rewrite Hl).
  by rewrite (bind_done _ _ _ _ _ (close_ok _ _ _ _ _ _ _ _ _ _ Hop (Hu _ _ _))).
Qed.

(** Open then unlink, for a path of at most 255 characters: if the system
    calls succeed, it returns 0, the process has what it had before and the
    named object is gone. *)
Theorem ps4NamedMemory_open_unlink path size s r s' :
  ps4NamedMemoryOpen path size s = Done r s' → r ≠ 0 → (length path ≤ 255)%nat → Byte.x00 ∉ path →
  (∀ q, unlink_result s' q = 0) → (∀ t b m, munmap_result t b m = 0) →
  ∃ s'', ps4NamedMemoryUnlink r s' = Done 0 s'' ∧ same_resources s s'' ∧
    s''.(o_shm) = delete path s'.(o_shm).
Proof.
  intros Ho Hr Hp Hnul Hl Hu. destruct (opened_of _ _ _ _ _ Ho Hr) as (p & a & n & file & Hop).
  rewrite (unlink_ok _ _ _ _ _ _ _ _ _ Hop Hl Hu). eexists. split; [done|]. split; [done|].
  cbn. unfold path_prefix, strnlen. rewrite take_ge by lia. by rewrite read_back_id.
Qed.

(** A longer path is opened in full but unlinked by its first 255
    characters: after ps4NamedMemoryUnlink the object is still there. *)
Theorem ps4NamedMemory_unlink_long path size s r s' :
  ps4NamedMemoryOpen path size s = Done r s' → r ≠ 0 → (255 < length path)%nat →
  (∀ q, unlink_result s' q = 0) → (∀ t b m, munmap_result t b m = 0) →
  ∃ s'', ps4NamedMemoryUnlink r s' = Done 0 s'' ∧ is_Some (s''.(o_shm) !! path).
Proof.
  intros Ho Hr Hp Hl Hu. destruct (opened_of _ _ _ _ _ Ho Hr) as (p & a & n & file & Hop).
  rewrite (unlink_ok _ _ _ _ _ _ _ _ _ Hop Hl Hu). eexists. split; [done|]. cbn.
  rewrite lookup_delete_ne.
  - destruct Hop. rewrite op_shm0. unfold created.
    destruct (file <? n); [rewrite lookup_insert_eq; by eexists|].
    destruct (o_shm s !! path) eqn:Hs; [by rewrite Hs|rewrite lookup_insert_eq; by eexists].
  - intros Heq. pose proof (read_back_length (path_prefix path)) as Hlen. rewrite Heq in Hlen.
    unfold path_prefix, strnlen in Hlen. rewrite length_take in Hlen. lia.
Qed.
End properties.

(** ** On a concrete system *)

Definition sample_path : list byte := map byte.of_Z [47; 109].

(** The state after opening 20000 bytes on an empty system. *)
Definition open_os : os :=
  Os (building ∅ 0x1000 0x1001 sample_path (Some 0x20000) (Some 0x8000)) ∅ {[0x20000 := named_mapping sample_path 0x8000]}
    {[sample_path := 0x8000]}.

Lemma sample_open :
  @ps4NamedMemoryOpen (flaky false false false false) sample_path 20000 empty_os = Done 0x1000 open_os.
Proof. vm_compute. reflexivity. Qed.

(** The size opened on an object of 20000 bytes without asking for one. *)
Definition reopen_os : os :=
  Os (building ∅ 0x1000 0x1001 sample_path (Some 0x20000) (Some 0x8000)) ∅
    {[0x20000 := named_mapping sample_path 0x8000]} {[sample_path := 0x8000]}.

Lemma sample_reopen :
  @ps4NamedMemoryOpen (flaky false false false false) sample_path 0 (Os ∅ ∅ ∅ {[sample_path := 20000]}) =
    Done 0x1000 reopen_os.
Proof. vm_compute. reflexivity. Qed.

Lemma ps4NamedMemoryOpen_size_witness :
  ∃ n, @ps4NamedMemorySize 0x1000 reopen_os = Done n reopen_os ∧ 20000 ≤ n < 20000 + 0x4000 ∧ n mod 0x4000 = 0.
Proof.
  destruct (@ps4NamedMemoryOpen_size (flaky false false false false) sample_path 0 (Os ∅ ∅ ∅ {[sample_path := 20000]})
    0x1000 reopen_os sample_reopen) as (n & a & file & H1 & _ & [Hf|Hf] & H2 & H3 & _).
  - discriminate.
  - discriminate.
  - vm_compute. discriminate.
  - intros z Hz. vm_compute in Hz. injection Hz as Hz. subst z. vm_compute. split; discriminate.
  - vm_compute in Hf. subst file. exists n. split; [exact H1|]. split; [exact H2|exact H3].
  - exfalso. destruct Hf as [(t & h & Ht) _]. discriminate Ht.
Defined.

Lemma ps4NamedMemory_open_close_witness :
  ∃ s'', @ps4NamedMemoryClose (flaky false false false false) 0x1000 open_os = Done 0 s'' ∧
    same_resources empty_os s''.
Proof.
  destruct (@ps4NamedMemory_open_close (flaky false false false false) sample_path 20000 empty_os 0x1000
    open_os sample_open) as (s'' & H1 & H2 & _).
  - discriminate.
  - intros a n. reflexivity.
  - exists s''. split; [exact H1|exact H2].
Defined.

Lemma ps4NamedMemory_open_unlink_witness :
  ∃ s'', @ps4NamedMemoryUnlink (flaky false false false false) 0x1000 open_os = Done 0 s'' ∧
    same_resources empty_os s''.
Proof.
  destruct (@ps4NamedMemory_open_unlink (flaky false false false false) sample_path 20000 empty_os 0x1000
    open_os sample_open) as (s'' & H1 & H2 & _).
  - discriminate.
  - vm_compute. repeat constructor.
  - apply (bool_decide_unpack _). vm_compute. exact I.
  - intros q. reflexivity.
  - intros t b m. reflexivity.
  - exists s''. split; [exact H1|exact H2].
Defined.

Definition long_path : list byte := replicate 256 Byte.x61.

Lemma long_open :
  ∃ s', @ps4NamedMemoryOpen (flaky false false false false) long_path 1 empty_os = Done 0x1000 s'.
Proof. apply value_done. vm_compute. reflexivity. Qed.

Lemma long_length : (255 < length long_path)%nat.
Proof. unfold long_path. rewrite length_replicate. lia. Qed.

Lemma ps4NamedMemory_unlink_long_witness :
  ∃ s' s'', @ps4NamedMemoryOpen (flaky false false false false) long_path 1 empty_os = Done 0x1000 s' ∧
    @ps4NamedMemoryUnlink (flaky false false false false) 0x1000 s' = Done 0 s'' ∧
    is_Some (s''.(o_shm) !! long_path).
Proof.
  destruct long_open as [s' Ho].
  destruct (@ps4NamedMemory_unlink_long (flaky false false false false) long_path 1 empty_os 0x1000
    s' Ho) as (s'' & H1 & H2).
  - discriminate.
  - exact long_length.
  - intros q. reflexivity.
  - intros t b m. reflexivity.
  - exists s', s''. split; [exact Ho|]. split; [exact H1|exact H2].
Defined.

(** When mapping fails, the error path unlinks the name even if the object
    was there before the call: a failed open destroys it for its other users. *)
Theorem ps4NamedMemoryOpen_failure_unlinks :
  @ps4NamedMemoryOpen (flaky false false false true) sample_path 0
    (Os ∅ ∅ ∅ {[sample_path := 0x4000]}) = Done 0 empty_os.
Proof. vm_compute. reflexivity. Qed.
