(* ===== verification/ProtectedMemory.v ===== *)
(** * Protected memory

    ps4ProtectedMemoryCreate, ps4ProtectedMemoryDestroy and the accessors of
    source/ps4/protectedmemory.c: a writable and an executable mapping of the
    same JIT memory. *)

From S2P Require Import Prelude.
From S2P Require Import Posix.
From S2P Require Import NamedMemory.

(** [(size / pageSize + 1) * pageSize] on [size_t] *)
Definition protected_size (p size : Z) : Z := u64 (u64 (size / p + 1) * p).

Section protected.
Context `{Posix}.

Definition set_pm_size (memory n : Z) : C os () :=
  r ← get_protected memory;
  set_cell memory (Protected (ProtectedMemory r.(pm_writable) r.(pm_executable) (Some n))).
Definition set_executable (memory a : Z) : C os () :=
  r ← get_protected memory;
  set_cell memory (Protected (ProtectedMemory r.(pm_writable) (Some a) r.(pm_size))).
Definition set_writable (memory a : Z) : C os () :=
  r ← get_protected memory;
  set_cell memory (Protected (ProtectedMemory (Some a) r.(pm_executable) r.(pm_size))).

Definition get_pm_size (memory : Z) : C os Z := r ← get_protected memory; init r.(pm_size).
Definition get_executable (memory : Z) : C os Z := r ← get_protected memory; init r.(pm_executable).
Definition get_writable (memory : Z) : C os Z := r ← get_protected memory; init r.(pm_writable).

(** The labels at the end of ps4ProtectedMemoryCreate, each falling through. *)
Definition pm_freeandreturn (memory : Z) : C os Z := free_cell memory;; mret 0.
Definition closee (memory e : Z) : C os Z := close e;; pm_freeandreturn memory.
Definition closew (memory e w : Z) : C os Z := close w;; closee memory e.
Definition munmape (memory e w : Z) : C os Z :=
  a ← get_executable memory; n ← get_pm_size memory; munmap a n;; closew memory e w.

Definition ps4ProtectedMemoryCreate (size : Z) : C os Z :=
  if size =? 0 then mret 0 else
  memory ← malloc_cell 24 (Protected (ProtectedMemory None None None));
  if memory =? 0 then mret 0 else
  set_pm_size memory (protected_size page_size size);;
  n ← get_pm_size memory;
  e ← sceKernelJitCreateSharedMemory 0 n (Z.lor (Z.lor PROT_READ PROT_WRITE) PROT_EXEC);
  e ← init e;
  if e =? 0 then pm_freeandreturn memory else
  w ← sceKernelJitCreateAliasOfSharedMemory e (Z.lor PROT_READ PROT_WRITE);
  w ← init w;
  if w =? 0 then closee memory e else
  n ← get_pm_size memory;
  a ← mmap 0 n (Z.lor PROT_READ PROT_EXEC) MAP_SHARED e 0;
  set_executable memory a;;
  a ← get_executable memory;
  if a =? MAP_FAILED then closew memory e w else
  n ← get_pm_size memory;
  a ← mmap 0 n (Z.lor PROT_READ PROT_WRITE) (Z.lor MAP_PRIVATE MAP_TYPE) w 0;
  set_writable memory a;;
  a ← get_writable memory;
  if a =? MAP_FAILED then munmape memory e w else
  close e;;
  close w;;
  mret memory.

Definition ps4ProtectedMemoryDestroy (memory : Z) : C os Z :=
  if memory =? 0 then mret (-1) else
  a ← get_writable memory; n ← get_pm_size memory;
  u ← munmap a n;
  let r := Z.lor 0 u in
  a ← get_executable memory; n ← get_pm_size memory;
  u ← munmap a n;
  let r := Z.lor r u in
  free_cell memory;;
  mret r.

Definition ps4ProtectedMemoryWritableAddress (memory : Z) : C os Z :=
  if memory =? 0 then mret 0 else get_writable memory.
Definition ps4ProtectedMemoryExecutableAddress (memory : Z) : C os Z :=
  if memory =? 0 then mret 0 else get_executable memory.
Definition ps4ProtectedMemorySize (memory : Z) : C os Z :=
  if memory =? 0 then mret 0 else get_pm_size memory.
End protected.

(** ** Evaluation *)

Section eval.
Context `{Posix} (cs : gmap Z cell) (memory : Z).
Context (Hnz : memory ≠ 0) (Hnew : cs !! memory = None).

(** The caller's cells with the object in them. *)
Definition with_object (r : PS4ProtectedMemory) : gmap Z cell := <[memory := Protected r]> cs.

Lemma get_protected_ok r h m o :
  get_protected memory (Os (with_object r) h m o) = Done r (Os (with_object r) h m o).
Proof using.
  unfold get_protected. erewrite bind_done; [|apply get_cell_ok, lookup_insert_eq]. done.
Qed.

Lemma set_protected_ok r r' h m o :
  set_cell memory (Protected r') (Os (with_object r) h m o) = Done () (Os (with_object r') h m o).
Proof using.
  erewrite set_cell_ok; [|apply lookup_insert_eq]. cbn. unfold with_object. by rewrite insert_insert_eq.
Qed.

Lemma pm_freeandreturn_ok r h m o :
  pm_freeandreturn memory (Os (with_object r) h m o) = Done 0 (Os cs h m o).
Proof using Hnz Hnew.
  unfold pm_freeandreturn. erewrite bind_done; [|by eapply free_cell_ok; [apply lookup_insert_eq|]].
  cbn. unfold with_object. by rewrite delete_insert_id.
Qed.

Lemma set_pm_size_ok w e n n' h m o :
  set_pm_size memory n' (Os (with_object (ProtectedMemory w e n)) h m o) =
    Done () (Os (with_object (ProtectedMemory w e (Some n'))) h m o).
Proof using. unfold set_pm_size. rewrite (bind_done _ _ _ _ _ (get_protected_ok _ _ _ _)). apply set_protected_ok. Qed.

Lemma set_executable_ok w e n a h m o :
  set_executable memory a (Os (with_object (ProtectedMemory w e n)) h m o) =
    Done () (Os (with_object (ProtectedMemory w (Some a) n)) h m o).
Proof using. unfold set_executable. rewrite (bind_done _ _ _ _ _ (get_protected_ok _ _ _ _)). apply set_protected_ok. Qed.

Lemma set_writable_ok w e n a h m o :
  set_writable memory a (Os (with_object (ProtectedMemory w e n)) h m o) =
    Done () (Os (with_object (ProtectedMemory (Some a) e n)) h m o).
Proof using. unfold set_writable. rewrite (bind_done _ _ _ _ _ (get_protected_ok _ _ _ _)). apply set_protected_ok. Qed.

Lemma get_pm_size_ok w e n h m o :
  get_pm_size memory (Os (with_object (ProtectedMemory w e (Some n))) h m o) =
    Done n (Os (with_object (ProtectedMemory w e (Some n))) h m o).
Proof using. unfold get_pm_size. by rewrite (bind_done _ _ _ _ _ (get_protected_ok _ _ _ _)). Qed.

Lemma get_executable_ok w e n h m o :
  get_executable memory (Os (with_object (ProtectedMemory w (Some e) n)) h m o) =
    Done e (Os (with_object (ProtectedMemory w (Some e) n)) h m o).
Proof using. unfold get_executable. by rewrite (bind_done _ _ _ _ _ (get_protected_ok _ _ _ _)). Qed.

Lemma get_writable_ok w e n h m o :
  get_writable memory (Os (with_object (ProtectedMemory (Some w) e n)) h m o) =
    Done w (Os (with_object (ProtectedMemory (Some w) e n)) h m o).
Proof using. unfold get_writable. by rewrite (bind_done _ _ _ _ _ (get_protected_ok _ _ _ _)). Qed.

End eval.

(** ** Outcomes *)

(** The handles to the JIT memory [id] and the mappings made through them. *)
Definition exec_file (id n : Z) : file := Jit id n (Z.lor (Z.lor PROT_READ PROT_WRITE) PROT_EXEC).
Definition alias_file (id n : Z) : file := Jit id n (Z.lor PROT_READ PROT_WRITE).
Definition exec_mapping (id n : Z) : mapping :=
  Mapping n (Z.lor PROT_READ PROT_EXEC) MAP_SHARED (exec_file id n) 0.
Definition write_mapping (id n : Z) : mapping :=
  Mapping n (Z.lor PROT_READ PROT_WRITE) (Z.lor MAP_PRIVATE MAP_TYPE) (alias_file id n) 0.

Section outcomes.
Context `{Posix}.

(** A call that the source checks has failed. *)
Definition call_failed : Prop :=
  (∃ t n, pick_cell t n = 0) ∨ (∃ t f n p, pick_jit t f n p = Some 0) ∨
  (∃ t e p, pick_alias t e p = Some 0) ∨ (∃ t a n p l h o, pick_map t a n p l h o = MAP_FAILED).

(** A JIT call has left its out parameter unassigned. *)
Definition out_unassigned : Prop :=
  (∃ t f n p, pick_jit t f n p = None) ∨ (∃ t e p, pick_alias t e p = None).

(** What creation does to the state [s] for an object of [n] bytes. *)
Inductive creation (s : os) (n : Z) : outcome os Z → Prop :=
| creation_null : call_failed → creation s n (Done 0 s)
| creation_stuck t e id :
    call_failed → munmap_result t e n ≠ 0 → s.(o_maps) !! e = None →
    creation s n (Done 0 (Os s.(o_cells) s.(o_handles) (<[e := exec_mapping id n]> s.(o_maps)) s.(o_shm)))
| creation_unassigned : out_unassigned → creation s n UB
| creation_done memory w e id :
    memory ≠ 0 → s.(o_cells) !! memory = None → id ∉ jit_ids s →
    w ≠ e → s.(o_maps) !! w = None → s.(o_maps) !! e = None →
    creation s n (Done memory
      (Os (with_object s.(o_cells) memory (ProtectedMemory (Some w) (Some e) (Some n))) s.(o_handles)
        (<[w := write_mapping id n]> (<[e := exec_mapping id n]> s.(o_maps))) s.(o_shm))).

Lemma jit_cases f n p s :
  let r := sceKernelJitCreateSharedMemory f n p s in
  (out_unassigned ∧ r = Done None s) ∨ (call_failed ∧ r = Done (Some 0) s) ∨
  ∃ h, h ≠ 0 ∧ s.(o_handles) !! h = None ∧
    r = Done (Some h) (Os s.(o_cells) (<[h := Jit (pick_jit_id s) n p]> s.(o_handles)) s.(o_maps) s.(o_shm)).
Proof using.
  unfold sceKernelJitCreateSharedMemory. destruct (pick_jit s f n p) as [h|] eqn:Hh.
  2: { left. split; [|done]. left. by exists s, f, n, p. }
  right. destruct (h =? 0) eqn:Hz; zb; [left|right].
  - subst h. split; [|done]. right; left. by exists s, f, n, p.
  - exists h. split_and!; [done|by eapply pick_jit_fresh|done].
Qed.

Lemma alias_cases e p id n q s :
  s.(o_handles) !! e = Some (Jit id n q) →
  let r := sceKernelJitCreateAliasOfSharedMemory e p s in
  (out_unassigned ∧ r = Done None s) ∨ (call_failed ∧ r = Done (Some 0) s) ∨
  ∃ h, h ≠ 0 ∧ s.(o_handles) !! h = None ∧
    r = Done (Some h) (Os s.(o_cells) (<[h := Jit id n p]> s.(o_handles)) s.(o_maps) s.(o_shm)).
Proof using.
  intros He. unfold sceKernelJitCreateAliasOfSharedMemory. rewrite He.
  destruct (pick_alias s e p) as [h|] eqn:Hh.
  2: { left. split; [|done]. right. by exists s, e, p. }
  right. destruct (h =? 0) eqn:Hz; zb; [left|right].
  - subst h. split; [|done]. do 2 right; left. by exists s, e, p.
  - exists h. split_and!; [done|by eapply pick_alias_fresh|done].
Qed.

Lemma mmap_failed s addr n prot flags h off f :
  s.(o_handles) !! h = Some f → mmap addr n prot flags h off s = Done MAP_FAILED s → call_failed.
Proof using.
  intros Hh. unfold mmap. rewrite Hh.
  destruct (pick_map s addr n prot flags h off =? MAP_FAILED) eqn:Hz; zb; intros [=]; [|done].
  do 3 right. by exists s, addr, n, prot, flags, h, off.
Qed.

Section handles.
Context (cs : gmap Z cell) (memory n e w id : Z) (hs : gmap Z file) (ms : gmap Z mapping).
Context (o : gmap (list byte) Z).
Context (Hm : memory ≠ 0) (Hcs : cs !! memory = None) (He : hs !! e = None).
Context (Hw : <[e := exec_file id n]> hs !! w = None).

Local Abbreviation handles := (<[w := alias_file id n]> (<[e := exec_file id n]> hs)).

Lemma closew_ok r m : closew memory e w (Os (with_object cs memory r) handles m o) = Done 0 (Os cs hs m o).
Proof using Hm Hcs He Hw.
  unfold closew, closee, close. do 2 erewrite bind_done by reflexivity.
  cbn [o_cells o_handles o_maps o_shm]. rewrite !delete_insert_id by done. by apply pm_freeandreturn_ok.
Qed.

Lemma munmape_ok a :
  call_failed → ms !! a = None →
  creation (Os cs hs ms o) n (munmape memory e w
    (Os (with_object cs memory (ProtectedMemory (Some MAP_FAILED) (Some a) (Some n))) handles
      (<[a := exec_mapping id n]> ms) o)).
Proof using Hm Hcs He Hw.
  intros Hfail Ha. unfold munmape. rewrite (bind_done _ _ _ _ _ (get_executable_ok _ _ _ _ _ _ _ _)).
  rewrite (bind_done _ _ _ _ _ (get_pm_size_ok _ _ _ _ _ _ _ _)).
  set (t := Os _ handles (<[a := exec_mapping id n]> ms) o).
  destruct (munmap_cases t a n (exec_mapping id n) (lookup_insert_eq _ _ _) eq_refl) as [[_ Hu]|[Hr Hu]];
    rewrite (bind_done _ _ _ _ _ Hu); unfold t; cbn [o_cells o_handles o_maps o_shm]; rewrite closew_ok.
  - rewrite delete_insert_id by done. by apply creation_null.
  - by apply (creation_stuck (Os cs hs ms o) n t a id).
Qed.

(** Both mappings, once the handles [e] and [w] are there. *)
Lemma map_both :
  id ∉ jit_ids (Os cs hs ms o) →
  creation (Os cs hs ms o) n ((n ← get_pm_size memory;
    a ← mmap 0 n (Z.lor PROT_READ PROT_EXEC) MAP_SHARED e 0; set_executable memory a;;
    a ← get_executable memory;
    if a =? MAP_FAILED then closew memory e w else
    n ← get_pm_size memory;
    a ← mmap 0 n (Z.lor PROT_READ PROT_WRITE) (Z.lor MAP_PRIVATE MAP_TYPE) w 0; set_writable memory a;;
    a ← get_writable memory;
    if a =? MAP_FAILED then munmape memory e w else close e;; close w;; mret memory)
    (Os (with_object cs memory (ProtectedMemory None None (Some n))) handles ms o)).
Proof using Hm Hcs He Hw.
  intros Hid.
  assert (Hew : e ≠ w) by (intros ->; by rewrite lookup_insert_eq in Hw).
  assert (Hle : handles !! e = Some (exec_file id n)) by (by rewrite lookup_insert_ne, lookup_insert_eq).
  assert (Hlw : handles !! w = Some (alias_file id n)) by (by rewrite lookup_insert_eq).
  rewrite (bind_done _ _ _ _ _ (get_pm_size_ok _ _ _ _ _ _ _ _)).
  set (s1 := Os _ handles ms o).
  destruct (mmap_cases s1 0 n (Z.lor PROT_READ PROT_EXEC) MAP_SHARED e 0 _ Hle)
    as [Hmap|(a & Ha & Hfa & Hmap)]; rewrite (bind_done _ _ _ _ _ Hmap); unfold s1 in *; cbn [o_cells o_handles o_maps o_shm] in *;
    rewrite (bind_done _ _ _ _ _ (set_executable_ok _ _ _ _ _ _ _ _ _));
    rewrite (bind_done _ _ _ _ _ (get_executable_ok _ _ _ _ _ _ _ _)).
  { rewrite Z.eqb_refl, closew_ok. apply creation_null. by apply (mmap_failed s1 _ _ _ _ _ _ _ Hle Hmap). }
  replace (a =? MAP_FAILED) with false by lia.
  rewrite (bind_done _ _ _ _ _ (get_pm_size_ok _ _ _ _ _ _ _ _)). clear Hmap. subst s1.
  set (s2 := Os _ handles (<[a:=_]> ms) o).
  destruct (mmap_cases s2 0 n (Z.lor PROT_READ PROT_WRITE) (Z.lor MAP_PRIVATE MAP_TYPE) w 0 _ Hlw)
    as [Hmap|(b & Hb & Hfb & Hmap)]; rewrite (bind_done _ _ _ _ _ Hmap); unfold s2 in *; cbn [o_cells o_handles o_maps o_shm] in *;
    rewrite (bind_done _ _ _ _ _ (set_writable_ok _ _ _ _ _ _ _ _ _));
    rewrite (bind_done _ _ _ _ _ (get_writable_ok _ _ _ _ _ _ _ _)).
  { rewrite Z.eqb_refl. apply munmape_ok; [|done]. by apply (mmap_failed s2 _ _ _ _ _ _ _ Hlw Hmap). }
  replace (b =? MAP_FAILED) with false by lia.
  unfold close. do 2 erewrite bind_done by reflexivity. cbn [o_cells o_handles o_maps o_shm].
  rewrite delete_delete, !delete_insert_id by done.
  assert (Hne : b ≠ a) by (intros ->; by rewrite lookup_insert_eq in Hfb).
  rewrite lookup_insert_ne in Hfb by done. by apply (creation_done (Os cs hs ms o)).
Qed.
End handles.

Lemma create_cases size s :
  size ≠ 0 → creation s (protected_size page_size size) (ps4ProtectedMemoryCreate size s).
Proof using.
  intros Hs. destruct s as [cs hs ms o]. unfold ps4ProtectedMemoryCreate. cbn [o_cells o_handles o_maps o_shm].
  replace (size =? 0) with false by lia. set (n := protected_size page_size size).
  destruct (malloc_cases (Os cs hs ms o) 24 (Protected (ProtectedMemory None None None)) eq_refl)
    as [Hm|(memory & Hmz & Hmf & Hm)]; rewrite (bind_done _ _ _ _ _ Hm).
  { apply creation_null. left. exists (Os cs hs ms o), 24. revert Hm. unfold malloc_cell. cbn.
    destruct (pick_cell _ _ =? 0) eqn:Hz; zb; [done|]. by intros [= ? _]. }
  replace (memory =? 0) with false by lia. cbn [o_cells o_handles o_maps o_shm] in *.
  fold (with_object cs memory (ProtectedMemory None None None)).
  rewrite (bind_done _ _ _ _ _ (set_pm_size_ok _ _ _ _ _ _ _ _ _)).
  rewrite (bind_done _ _ _ _ _ (get_pm_size_ok _ _ _ _ _ _ _ _)).
  set (s1 := Os (with_object _ _ _) hs ms o).
  destruct (jit_cases 0 n (Z.lor (Z.lor PROT_READ PROT_WRITE) PROT_EXEC) s1)
    as [[Hu He]|[[Hu He]|(e & Hez & Hef & He)]]; rewrite (bind_done _ _ _ _ _ He).
  { by apply creation_unassigned. }
  { rewrite (bind_done _ _ _ _ _ (init_some _ _)). cbn [Z.eqb]. unfold s1. rewrite pm_freeandreturn_ok by done.
    by apply creation_null. }
  rewrite (bind_done _ _ _ _ _ (init_some _ _)). replace (e =? 0) with false by lia.
  pose proof (pick_jit_id_fresh s1) as Hid. set (id := pick_jit_id s1) in *.
  cbn [s1 o_cells o_handles o_maps o_shm] in *. fold (exec_file id n) in *.
  set (s2 := Os _ (<[e:=_]> hs) ms o).
  destruct (alias_cases e (Z.lor PROT_READ PROT_WRITE) id n _ s2 (lookup_insert_eq _ _ _))
    as [[Hu Hw]|[[Hu Hw]|(w & Hwz & Hwf & Hw)]]; rewrite (bind_done _ _ _ _ _ Hw).
  { by apply creation_unassigned. }
  { rewrite (bind_done _ _ _ _ _ (init_some _ _)). cbn [Z.eqb]. unfold s2, closee, close.
    erewrite bind_done by reflexivity. cbn [o_cells o_handles o_maps o_shm].
    rewrite delete_insert_id, pm_freeandreturn_ok by done. by apply creation_null. }
  rewrite (bind_done _ _ _ _ _ (init_some _ _)). replace (w =? 0) with false by lia.
  cbn [s2 o_cells o_handles o_maps o_shm] in *. fold (alias_file id n) in *.
  by apply map_both.
Qed.
End outcomes.

(** ** Properties *)

Lemma protected_size_spec p size :
  0 < p → 0 ≤ size → size + p < 2 ^ 64 →
  size < protected_size p size ≤ size + p ∧ protected_size p size mod p = 0.
Proof.
  intros Hp Hs Hle. pose proof (Z.div_mod size p ltac:(lia)). pose proof (Z.mod_pos_bound size p Hp).
  assert (0 ≤ size / p) by (apply Z.div_pos; lia).
  assert (size / p ≤ size) by (apply Z.div_le_upper_bound; nia).
  unfold protected_size. rewrite (u64_small (size / p + 1)) by nia. rewrite u64_small by nia.
  split; [nia|]. apply Z.mod_mul. lia.
Qed.

(** C12. ps4ProtectedMemoryCreate on any system.  When it gives NULL, for a size
    of 0 or because a call failed, the process has the memory, handles and
    shared objects it had before and also the same mappings, except that the
    executable mapping stays when munmap refuses to remove it.  When it gives
    an object, that is new and has the rounded size; its two addresses are
    those of two new mappings of that size, one readable and executable and
    shared, one readable and writable, both of the same JIT memory, which
    nothing else refers to, and no handle is kept.  The behaviour is undefined
    only if a JIT call leaves its out parameter unassigned. *)
Theorem ps4ProtectedMemoryCreate_no_leak `{P : Posix} size s :
  let n := protected_size page_size size in
  match ps4ProtectedMemoryCreate size s with
  | Done memory s' => s'.(o_handles) = s.(o_handles) ∧ s'.(o_shm) = s.(o_shm) ∧
      if memory =? 0 then
        (size = 0 ∨ call_failed) ∧ s'.(o_cells) = s.(o_cells) ∧
        (s'.(o_maps) = s.(o_maps) ∨
          ∃ t e id, munmap_result t e n ≠ 0 ∧ s.(o_maps) !! e = None ∧
            s'.(o_maps) = <[e := exec_mapping id n]> s.(o_maps))
      else
        ∃ w e id, s.(o_cells) !! memory = None ∧ s.(o_maps) !! w = None ∧ s.(o_maps) !! e = None ∧ w ≠ e ∧
          id ∉ jit_ids s ∧ delete memory s'.(o_cells) = s.(o_cells) ∧
          ps4ProtectedMemoryWritableAddress memory s' = Done w s' ∧
          ps4ProtectedMemoryExecutableAddress memory s' = Done e s' ∧
          ps4ProtectedMemorySize memory s' = Done n s' ∧
          s'.(o_maps) = <[w := Mapping n (Z.lor PROT_READ PROT_WRITE) (Z.lor MAP_PRIVATE MAP_TYPE) (alias_file id n) 0]>
            (<[e := Mapping n (Z.lor PROT_READ PROT_EXEC) MAP_SHARED (exec_file id n) 0]> s.(o_maps))
  | UB => out_unassigned
  | Timeout => False
  end.
Proof.
  intros n. destruct (decide (size = 0)) as [->|Hs].
  { cbn. split_and!; [done..|by left|done|by left]. }
  destruct (create_cases size s Hs) as [?|t e id ? ? ?|?|memory w e id Hm Hf Hid Hne Hw He].
  - cbn. split_and!; [done..|by right|done|by left].
  - cbn. split_and!; [done..|by right|done|right]. by exists t, e, id.
  - done.
  - cbn [o_cells o_handles o_maps o_shm]. replace (memory =? 0) with false by lia.
    split_and!; [done..|]. exists w, e, id.
    unfold ps4ProtectedMemoryWritableAddress, ps4ProtectedMemoryExecutableAddress, ps4ProtectedMemorySize.
    replace (memory =? 0) with false by lia.
    split_and!; [done..| | | | |done].
    + unfold with_object. by rewrite delete_insert_id.
    + apply get_writable_ok.
    + apply get_executable_ok.
    + apply get_pm_size_ok.
Qed.

(** 20000 bytes take two pages of 0x4000, mapped at two addresses. *)
Lemma ps4ProtectedMemoryCreate_no_leak_witness :
  ∃ s' w e, @ps4ProtectedMemoryCreate (flaky false false false false) 20000 empty_os = Done 0x1000 s' ∧
    s'.(o_handles) = ∅ ∧ w ≠ e ∧ ps4ProtectedMemoryWritableAddress 0x1000 s' = Done w s' ∧
    ps4ProtectedMemoryExecutableAddress 0x1000 s' = Done e s' ∧ ps4ProtectedMemorySize 0x1000 s' = Done 0x8000 s'.
Proof.
  assert (Hc : ∃ s', @ps4ProtectedMemoryCreate (flaky false false false false) 20000 empty_os = Done 0x1000 s')
    by (apply value_done; vm_compute; reflexivity).
  destruct Hc as [s' Hc].
  pose proof (@ps4ProtectedMemoryCreate_no_leak (flaky false false false false) 20000 empty_os) as H.
  cbv zeta in H. rewrite Hc in H.
  destruct H as (Hh & _ & w & e & id & _ & _ & _ & Hne & _ & _ & Hw & He & Hn & _).
  exists s', w, e. by split_and!.
Defined.

(** Create then destroy: if munmap succeeds on the two mappings,
    ps4ProtectedMemoryDestroy of the new object returns 0 and restores the
    state from before its creation. *)
Theorem ps4ProtectedMemory_create_destroy `{P : Posix} size s memory s' :
  (∀ t a n, munmap_result t a n = 0) → ps4ProtectedMemoryCreate size s = Done memory s' → memory ≠ 0 →
  ps4ProtectedMemoryDestroy memory s' = Done 0 s.
Proof.
  intros Hu Hcr Hnz. assert (Hs : size ≠ 0) by (intros ->; by injection Hcr as <- _).
  pose proof (create_cases size s Hs) as Hc. rewrite Hcr in Hc.
  inversion Hc as [?|t e id|?|m w e id Hm Hf Hid Hne Hw He]; subst; [done..|]. destruct s as [cs hs ms o].
  cbn [o_cells o_handles o_maps o_shm] in *. set (n := protected_size page_size size) in *.
  unfold ps4ProtectedMemoryDestroy. replace (memory =? 0) with false by lia.
  rewrite (bind_done _ _ _ _ _ (get_writable_ok _ _ _ _ _ _ _ _)).
  rewrite (bind_done _ _ _ _ _ (get_pm_size_ok _ _ _ _ _ _ _ _)).
  set (t := Os (with_object _ _ _) hs _ o).
  destruct (munmap_cases t w n (write_mapping id n) (lookup_insert_eq _ _ _) eq_refl) as [[_ Hm1]|[Hr _]]; [|by destruct (Hr (Hu _ _ _))].
  rewrite (bind_done _ _ _ _ _ Hm1). unfold t. cbn [o_cells o_handles o_maps o_shm].
  rewrite (delete_insert_id _ w) by (by rewrite lookup_insert_ne).
  rewrite (bind_done _ _ _ _ _ (get_executable_ok _ _ _ _ _ _ _ _)).
  rewrite (bind_done _ _ _ _ _ (get_pm_size_ok _ _ _ _ _ _ _ _)). clear t Hm1. set (t := Os (with_object _ _ _) hs _ o).
  destruct (munmap_cases t e n (exec_mapping id n) (lookup_insert_eq _ _ _) eq_refl) as [[_ Hm1]|[Hr _]]; [|by destruct (Hr (Hu _ _ _))].
  rewrite (bind_done _ _ _ _ _ Hm1). unfold t. cbn [o_cells o_handles o_maps o_shm].
  erewrite bind_done; [|by eapply free_cell_ok; [apply lookup_insert_eq|]].
  cbn [o_cells o_handles o_maps o_shm]. unfold with_object. by rewrite !delete_insert_id.
Qed.

Lemma ps4ProtectedMemory_create_destroy_witness :
  ∃ s', @ps4ProtectedMemoryCreate (flaky false false false false) 20000 empty_os = Done 0x1000 s' ∧
    @ps4ProtectedMemoryDestroy (flaky false false false false) 0x1000 s' = Done 0 empty_os.
Proof.
  assert (Hc : ∃ s', @ps4ProtectedMemoryCreate (flaky false false false false) 20000 empty_os = Done 0x1000 s')
    by (apply value_done; vm_compute; reflexivity).
  destruct Hc as [s' Hc]. exists s'. split; [exact Hc|].
  apply (@ps4ProtectedMemory_create_destroy (flaky false false false false) 20000 empty_os 0x1000 s').
  - intros t a n. reflexivity.
  - exact Hc.
  - discriminate.
Defined.

(** The size is always rounded to the next page above: a request for exactly
    [k] pages takes [k + 1]. *)
Theorem protected_size_overallocates p k :
  0 < p → 0 ≤ k → (k + 1) * p < 2 ^ 64 → protected_size p (k * p) = (k + 1) * p.
Proof.
  intros Hp Hk Hle. unfold protected_size. rewrite Z.div_mul by lia.
  rewrite (u64_small (k + 1)) by nia. apply u64_small. nia.
Qed.

Lemma protected_size_overallocates_witness : protected_size 0x4000 (1 * 0x4000) = (1 + 1) * 0x4000.
Proof. apply (protected_size_overallocates 0x4000 1); vm_compute; first [reflexivity | discriminate]. Defined.

(** If the JIT call fails without assigning its out parameter, the code goes
    on to read the uninitialised handle. *)
Theorem ps4ProtectedMemoryCreate_uninitialised `{P : Posix} size s :
  size ≠ 0 → pick_cell s 24 ≠ 0 → (∀ t f n p, pick_jit t f n p = None) →
  ps4ProtectedMemoryCreate size s = UB.
Proof.
  intros Hs Hc Hj. unfold ps4ProtectedMemoryCreate. replace (size =? 0) with false by lia.
  unfold malloc_cell. cbn [sizeof_cell negb Z.eqb Pos.eqb].
  erewrite bind_done; [|by replace (pick_cell s 24 =? 0) with false by lia].
  replace (pick_cell s 24 =? 0) with false by lia.
  fold (with_object s.(o_cells) (pick_cell s 24) (ProtectedMemory None None None)).
  rewrite (bind_done _ _ _ _ _ (set_pm_size_ok _ _ _ _ _ _ _ _ _)).
  rewrite (bind_done _ _ _ _ _ (get_pm_size_ok _ _ _ _ _ _ _ _)).
  unfold sceKernelJitCreateSharedMemory. erewrite bind_done; [|by rewrite Hj]. done.
Qed.

(** A system whose JIT calls fail. *)
Definition no_jit : Posix.
Proof.
  refine {| page_size := 0x4000; pick_cell := λ s _, above 0x1000 s.(o_cells);
    pick_shm := λ _ _ _ _, -1; pick_jit := λ _ _ _ _, None;
    pick_jit_id := λ s, foldr Z.max 0 (jit_ids s) + 1; pick_alias := λ _ _ _, None;
    fstat_ok := λ _ _, false; ftruncate_result := λ _ _ _, -1; pick_map := λ _ _ _ _ _ _ _, MAP_FAILED;
    munmap_result := λ _ _ _, -1; unlink_result := λ _ _, -1 |}; try done.
  - intros s n _. apply above_fresh.
  - intros s. apply foldr_max_fresh.
Defined.

Lemma ps4ProtectedMemoryCreate_uninitialised_witness :
  @ps4ProtectedMemoryCreate no_jit 20000 empty_os = UB.
Proof.
  apply (@ps4ProtectedMemoryCreate_uninitialised no_jit);
    [discriminate|vm_compute; discriminate|intros t f n p; reflexivity].
Defined.
