(* ===== verification/Resolve.v ===== *)
(** * The resolver

    source/ps4/internal/resolve.c: ps4ResolveCallHandler,
    ps4ResolveModuleAndSymbolOrKernelSymbol, ps4Resolve and the setters of the
    three handlers.  The handlers are code of the library's user, the system
    calls 594 and 591 and the function pointer they yield are the console's;
    they are given by an instance of [System], as is ps4KernelDlSym, which the
    resolver only calls. *)

From S2P Require Import Prelude.
From S2P Require Import Memory.
From S2P Require Import X86.
From S2P Require Import Stub.

(** ** Statuses and state *)

Definition PS4ResolveStatusSuccess : Z := 0.
Definition PS4ResolveStatusInterceptContinue : Z := 1.
Definition PS4ResolveStatusInterceptFailure : Z := -1.
Definition PS4ResolveStatusArgumentError : Z := -10.
Definition PS4ResolveStatusKernelLoadError : Z := -11.
Definition PS4ResolveStatusLSMResolveError : Z := -12.
Definition PS4ResolveStatusModuleLoadError : Z := -13.
Definition PS4ResolveStatusFunctionResolveError : Z := -14.
Definition PS4ResolveStatusKernelFunctionResolveError : Z := -15.

(** Pointers are addresses. *)
Record PS4ResolveState := ResolveState {
  rs_module : Z;
  rs_symbol : Z;
  rs_moduleId : Z;
  rs_userAddress : Z;
  rs_kernelAddress : Z;
  rs_function : Z;
  rs_isKernel : Z;
  rs_status : Z }.

(** The static variables of resolve.c over memory. *)
Record resolver := Resolver {
  r_mem : mem;
  r_error : Z;
  r_pre : Z;
  r_post : Z;
  r_lsm : Z }.

(** A name given to dlsym: a literal of the source or a pointer. *)
Inductive name :=
| Literal (s : string)
| Pointer (a : Z).

(** What the resolver calls. *)
Class System := {
  (** a handler, called through its pointer: it may change the state it is
      given and, with the setters, the handlers *)
  sy_handler : Z → PS4ResolveState → C resolver (PS4ResolveState * Z);
  (** ps4ResolveSyscall(594, name, 0, &k, 0): the value it leaves in [k] *)
  sy_load_prx : string → C mem Z;
  (** ps4ResolveSyscall(591, id, name, &address): its result and what it stores *)
  sy_dlsym : Z → name → C mem (Z * option Z);
  (** the function sceKernelLoadStartModule, at the address [lsm] holds; the
      module it starts may itself resolve *)
  sy_lsm : Z → Z → C resolver Z;
  sy_ps4KernelDlSym : Z → C mem Z;
  sy_ps4KernelIsInKernel : Z }.

Definition on_mem {A} (c : C mem A) : C resolver A := λ s,
  match c s.(r_mem) with
  | Done a m => Done a (Resolver m s.(r_error) s.(r_pre) s.(r_post) s.(r_lsm))
  | UB => UB
  | Timeout => Timeout
  end.

Definition set_lsm (v : Z) : C resolver () :=
  modifyS (λ s, Resolver s.(r_mem) s.(r_error) s.(r_pre) s.(r_post) v).

Definition with_status (st : PS4ResolveState) (status : Z) : PS4ResolveState :=
  ResolveState st.(rs_module) st.(rs_symbol) st.(rs_moduleId) st.(rs_userAddress)
    st.(rs_kernelAddress) st.(rs_function) st.(rs_isKernel) status.

(** ** Operations *)

Section resolve.
Context `{System}.

Definition ps4ResolveCallHandler (handler : Z) (state : PS4ResolveState) (status : Z)
    : C resolver (PS4ResolveState * Z) :=
  let state := with_status state status in
  if negb (handler =? 0) then sy_handler handler state
  else mret (state, status).

(** [if((status = ps4ResolveCallHandler(...)) != PS4ResolveStatusInterceptContinue) return status;] *)
Definition consult (handler : Z) (state : PS4ResolveState) (code : Z)
    (k : PS4ResolveState → C resolver Z) : C resolver Z :=
  '(state, status) ← ps4ResolveCallHandler handler state code;
  if negb (status =? PS4ResolveStatusInterceptContinue) then mret status else k state.

(** The same under a condition, with the error handler. *)
Definition error_if (b : bool) (code : Z) (state : PS4ResolveState)
    (k : PS4ResolveState → C resolver Z) : C resolver Z :=
  if b then h ← gets r_error; consult h state code k else k state.

(** The end of both branches. *)
Definition finish (state : PS4ResolveState) : C resolver Z :=
  h ← gets r_post;
  consult h state PS4ResolveStatusInterceptContinue (λ _, mret PS4ResolveStatusSuccess).

(** The kernel branch. *)
Definition resolve_kernel (function : Z) (state : PS4ResolveState) : C resolver Z :=
  t ← on_mem (ps4StubType function);
  error_if (t =? PS4StubTypeFunction) PS4ResolveStatusArgumentError state (λ state,
  error_if ((state.(rs_symbol) =? 0) || (state.(rs_kernelAddress) =? 0))
    PS4ResolveStatusArgumentError state (λ state,
  a ← on_mem (sy_ps4KernelDlSym state.(rs_symbol));
  on_mem (set_field 8 state.(rs_kernelAddress) 0 a);;
  a ← on_mem (field 8 state.(rs_kernelAddress) 0);
  error_if (a =? 0) PS4ResolveStatusKernelFunctionResolveError state finish)).

(** [*state.userAddress] is left to system call 591. *)
Definition resolve_symbol (state : PS4ResolveState) : C resolver Z :=
  id ← on_mem (field 4 state.(rs_moduleId) 0);
  '(r, v) ← on_mem (sy_dlsym (i32 id) (Pointer state.(rs_symbol)));
  (match v with Some v => on_mem (set_field 8 state.(rs_userAddress) 0 v) | None => mret () end);;
  error_if (negb (r =? 0)) PS4ResolveStatusFunctionResolveError state finish.

(** A call through [lsm], which must not be NULL. *)
Definition call_lsm (lsm module : Z) : C resolver Z :=
  if lsm =? 0 then ub else sy_lsm lsm module.

(** Loading the module through [lsm]. *)
Definition load_module (state : PS4ResolveState) (k : PS4ResolveState → C resolver Z) : C resolver Z :=
  lsm ← gets r_lsm;
  id ← call_lsm lsm state.(rs_module);
  on_mem (set_field 4 state.(rs_moduleId) 0 id);;
  id ← on_mem (field 4 state.(rs_moduleId) 0);
  error_if (i32 id <=? 0) PS4ResolveStatusModuleLoadError state k.

(** Finding sceKernelLoadStartModule once. *)
Definition find_lsm (state : PS4ResolveState) (k : PS4ResolveState → C resolver Z) : C resolver Z :=
  lsm ← gets r_lsm;
  if negb (lsm =? 0) then k state else
  n ← on_mem (sy_load_prx "libkernel.sprx");
  error_if (n <=? 0) PS4ResolveStatusKernelLoadError state (λ state,
  '(r, v) ← on_mem (sy_dlsym n (Literal "sceKernelLoadStartModule"));
  (match v with Some v => set_lsm v | None => mret () end);;
  error_if (negb (r =? 0)) PS4ResolveStatusLSMResolveError state k).

(** The user branch. *)
Definition resolve_user (state : PS4ResolveState) : C resolver Z :=
  error_if ((state.(rs_moduleId) =? 0) || (state.(rs_userAddress) =? 0)
            || (state.(rs_module) =? 0) || (state.(rs_symbol) =? 0))
    PS4ResolveStatusArgumentError state (λ state,
  id ← on_mem (field 4 state.(rs_moduleId) 0);
  if i32 id <=? 0 then find_lsm state (λ state, load_module state resolve_symbol)
  else resolve_symbol state).

Definition ps4ResolveModuleAndSymbolOrKernelSymbol
    (module symbol moduleId userAddress kernelAddress function : Z) : C resolver Z :=
  let state := ResolveState module symbol moduleId userAddress kernelAddress function
    sy_ps4KernelIsInKernel PS4ResolveStatusSuccess in
  h ← gets r_pre;
  consult h state PS4ResolveStatusInterceptContinue (λ state,
  k ← (if c_true state.(rs_isKernel) then mret true
       else t ← on_mem (ps4StubType function); mret (t =? PS4StubTypeKernelFunction));
  if k : bool then resolve_kernel function state
  else resolve_user state).

Definition ps4Resolve (function : Z) : C resolver Z :=
  r ← on_mem (read_stub PS4ResolveStatusSuccess PS4ResolveStatusFunctionResolveError function);
  match r with
  | inr status => mret status
  | inl o =>
      if negb (o.(so_fn) =? function) then mret PS4ResolveStatusFunctionResolveError
      else ps4ResolveModuleAndSymbolOrKernelSymbol o.(so_module) o.(so_symbol) o.(so_moduleId)
             o.(so_userAddress) o.(so_kernelAddress) function
  end.
End resolve.

Definition ps4ResolveSetErrorHandler (handler : Z) : C resolver Z :=
  r ← gets r_error;
  modifyS (λ s, Resolver s.(r_mem) handler s.(r_pre) s.(r_post) s.(r_lsm));;
  mret r.

Definition ps4ResolveSetPreHandler (handler : Z) : C resolver Z :=
  r ← gets r_pre;
  modifyS (λ s, Resolver s.(r_mem) s.(r_error) handler s.(r_post) s.(r_lsm));;
  mret r.

Definition ps4ResolveSetPostHandler (handler : Z) : C resolver Z :=
  r ← gets r_post;
  modifyS (λ s, Resolver s.(r_mem) s.(r_error) s.(r_pre) handler s.(r_lsm));;
  mret r.

(** ** Without handlers *)

Section quiet.
Context `{System}.

(** No handler is installed. *)
Record quiet (s : resolver) : Prop := {
  qu_error : s.(r_error) = 0;
  qu_pre : s.(r_pre) = 0;
  qu_post : s.(r_post) = 0 }.

Definition set_mem (s : resolver) (m : mem) : resolver :=
  Resolver m s.(r_error) s.(r_pre) s.(r_post) s.(r_lsm).

Lemma quiet_mem s m : quiet s → quiet (set_mem s m).
Proof. by intros []. Qed.

Lemma set_mem_mem s m m' : set_mem (set_mem s m) m' = set_mem s m'.
Proof. done. Qed.

Lemma set_mem_id s : set_mem s s.(r_mem) = s.
Proof. by destruct s. Qed.

Lemma on_mem_done {A} (c : C mem A) s a m : c s.(r_mem) = Done a m → on_mem c s = Done a (set_mem s m).
Proof. intros Hc. unfold on_mem. by rewrite Hc. Qed.

Lemma on_mem_read {A} (c : C mem A) s a : c s.(r_mem) = Done a s.(r_mem) → on_mem c s = Done a s.
Proof. intros Hc. rewrite (on_mem_done _ _ _ _ Hc). by rewrite set_mem_id. Qed.

Lemma consult_null state code k s :
  consult 0 state code k s =
    if code =? PS4ResolveStatusInterceptContinue then k (with_status state code) s else Done code s.
Proof.
  unfold consult, ps4ResolveCallHandler. cbn [Z.eqb negb]. rewrite bind_ret.
  by destruct (code =? PS4ResolveStatusInterceptContinue).
Qed.

(** An error status ends the resolution. *)
Lemma error_if_quiet b code state k s :
  quiet s → code ≠ PS4ResolveStatusInterceptContinue →
  error_if b code state k s = if b then Done code s else k state s.
Proof.
  intros [He _ _] Hc. unfold error_if. destruct b; [|done].
  rewrite bind_done with (a := 0) (s' := s) by (unfold gets; by rewrite He).
  rewrite consult_null. by replace (code =? PS4ResolveStatusInterceptContinue) with false by lia.
Qed.

Lemma finish_quiet state s : quiet s → finish state s = Done PS4ResolveStatusSuccess s.
Proof.
  intros [_ _ Hp]. unfold finish. rewrite bind_done with (a := 0) (s' := s) by (unfold gets; by rewrite Hp).
  by rewrite consult_null.
Qed.

(** A word stored through a pointer. *)
Lemma store_word_ok m a v :
  0 < a < 2 ^ 64 → mapped m a 8 → 0 ≤ v < 2 ^ 64 →
  ∃ m', set_field 8 a 0 v m = Done () m' ∧ field 8 a 0 m' = Done v m' ∧
    peek m' 8 a = Some v ∧ same_off m m' a 8.
Proof.
  intros Ha Hm Hv. destruct (write_spec m 8 a v Hm) as (m' & Hw & Ho & Hp & _).
  rewrite Z.mod_small in Hp by done.
  exists m'. unfold set_field, field, ptr_add. replace (a =? 0) with false by lia.
  rewrite Z.add_0_r, u64_small by lia. split_and!; [done|by apply read_peek|done|done].
Qed.

Definition arguments_ok (state : PS4ResolveState) : Prop :=
  state.(rs_moduleId) ≠ 0 ∧ state.(rs_userAddress) ≠ 0 ∧ state.(rs_module) ≠ 0 ∧ state.(rs_symbol) ≠ 0.

(** The two entries into the branches. *)
Lemma enter_kernel s module symbol moduleId userAddress kernelAddress function :
  quiet s → sy_ps4KernelIsInKernel ≠ 0 →
  ps4ResolveModuleAndSymbolOrKernelSymbol module symbol moduleId userAddress kernelAddress function s =
  resolve_kernel function (ResolveState module symbol moduleId userAddress kernelAddress function
    sy_ps4KernelIsInKernel PS4ResolveStatusInterceptContinue) s.
Proof.
  intros [_ Hp _] Hk. unfold ps4ResolveModuleAndSymbolOrKernelSymbol.
  rewrite bind_done with (a := 0) (s' := s) by (unfold gets; by rewrite Hp).
  rewrite consult_null. rewrite Z.eqb_refl. unfold with_status, c_true.
  cbn [rs_isKernel rs_module rs_symbol rs_moduleId rs_userAddress rs_kernelAddress rs_function].
  by replace (sy_ps4KernelIsInKernel =? 0) with false by lia.
Qed.

Lemma enter_user s module symbol moduleId userAddress kernelAddress function t :
  quiet s → sy_ps4KernelIsInKernel = 0 → ps4StubType function s.(r_mem) = Done t s.(r_mem) →
  t ≠ PS4StubTypeKernelFunction →
  ps4ResolveModuleAndSymbolOrKernelSymbol module symbol moduleId userAddress kernelAddress function s =
  resolve_user (ResolveState module symbol moduleId userAddress kernelAddress function
    0 PS4ResolveStatusInterceptContinue) s.
Proof.
  intros [_ Hp _] Hk Ht Hne. unfold ps4ResolveModuleAndSymbolOrKernelSymbol.
  rewrite bind_done with (a := 0) (s' := s) by (unfold gets; by rewrite Hp).
  rewrite consult_null. rewrite Z.eqb_refl. unfold with_status, c_true. rewrite Hk.
  cbn [rs_isKernel rs_module rs_symbol rs_moduleId rs_userAddress rs_kernelAddress rs_function Z.eqb negb].
  rewrite bind_assoc, (bind_done _ _ _ _ _ (on_mem_read _ _ _ Ht)), bind_ret.
  by replace (t =? PS4StubTypeKernelFunction) with false by lia.
Qed.

(** The kernel branch. *)
Lemma resolve_kernel_ok s state function t a m1 :
  quiet s → ps4StubType function s.(r_mem) = Done t s.(r_mem) → t ≠ PS4StubTypeFunction →
  state.(rs_symbol) ≠ 0 → 0 < state.(rs_kernelAddress) < 2 ^ 64 →
  sy_ps4KernelDlSym state.(rs_symbol) s.(r_mem) = Done a m1 → 0 ≤ a < 2 ^ 64 →
  mapped m1 state.(rs_kernelAddress) 8 →
  ∃ m2, resolve_kernel function state s =
      Done (if a =? 0 then PS4ResolveStatusKernelFunctionResolveError else PS4ResolveStatusSuccess)
        (set_mem s m2) ∧
    peek m2 8 state.(rs_kernelAddress) = Some a ∧ same_off m1 m2 state.(rs_kernelAddress) 8.
Proof.
  intros Hq Ht Hne Hsym Hka Hd Ha Hm.
  destruct (store_word_ok m1 _ a Hka Hm Ha) as (m2 & Hw & Hr & Hp & Ho).
  exists m2. split; [|done]. unfold resolve_kernel.
  rewrite (bind_done _ _ _ _ _ (on_mem_read _ _ _ Ht)).
  rewrite error_if_quiet by done. replace (t =? PS4StubTypeFunction) with false by lia.
  rewrite error_if_quiet by done. replace (_ || _) with false by lia.
  rewrite (bind_done _ _ _ _ _ (on_mem_done _ _ _ _ Hd)).
  rewrite (bind_done _ _ _ _ _ (on_mem_done _ (set_mem s m1) _ _ Hw)), set_mem_mem.
  rewrite (bind_done _ _ _ _ _ (on_mem_read _ (set_mem s m2) _ Hr)).
  rewrite error_if_quiet by first [by apply quiet_mem | done].
  destruct (a =? 0); [done|]. by apply finish_quiet, quiet_mem.
Qed.

(** The last step of the user branch. *)
Lemma resolve_symbol_ok s state id r v m1 :
  quiet s → 0 < state.(rs_userAddress) < 2 ^ 64 →
  field 4 state.(rs_moduleId) 0 s.(r_mem) = Done id s.(r_mem) →
  sy_dlsym (i32 id) (Pointer state.(rs_symbol)) s.(r_mem) = Done (r, v) m1 → (∀ x, v = Some x → 0 ≤ x < 2 ^ 64) →
  mapped m1 state.(rs_userAddress) 8 →
  ∃ m2, resolve_symbol state s =
      Done (if r =? 0 then PS4ResolveStatusSuccess else PS4ResolveStatusFunctionResolveError)
        (set_mem s m2) ∧
    (∀ x, v = Some x → peek m2 8 state.(rs_userAddress) = Some x) ∧ same_off m1 m2 state.(rs_userAddress) 8.
Proof.
  intros Hq Hua Hid Hd Hv Hm. unfold resolve_symbol.
  assert (Hst : ∃ m2, (match v with Some v => on_mem (set_field 8 state.(rs_userAddress) 0 v) | None => mret () end)
      (set_mem s m1) = Done () (set_mem s m2) ∧
    (∀ x, v = Some x → peek m2 8 state.(rs_userAddress) = Some x) ∧ same_off m1 m2 state.(rs_userAddress) 8).
  { destruct v as [v|]; [|by exists m1].
    destruct (store_word_ok m1 _ v Hua Hm (Hv v eq_refl)) as (m2 & Hw & _ & Hp & Ho).
    exists m2. split; [exact (on_mem_done _ (set_mem s m1) _ _ Hw)|]. split; [by intros ? [= <-]|done]. }
  destruct Hst as (m2 & Hw & Hp & Ho). exists m2. split; [|done].
  rewrite (bind_done _ _ _ _ _ (on_mem_read _ _ _ Hid)).
  rewrite (bind_done _ _ _ _ _ (on_mem_done _ _ _ _ Hd)). rewrite (bind_done _ _ _ _ _ Hw).
  rewrite error_if_quiet by first [by apply quiet_mem | done].
  destruct (r =? 0); [|done]. by apply finish_quiet, quiet_mem.
Qed.
End quiet.

(** ** A system whose answers do not depend on memory *)

Definition lsm_literal : name := Literal "sceKernelLoadStartModule".

(** A lookup that succeeds stores the value; one that fails may store one or
    not.  The module starter, if it is found, is not at address 0. *)
Class Steady (S : System) := {
  prx : string → Z;
  dl_result : Z → name → Z;
  dl_store : Z → name → option Z;
  start : Z → Z → Z;
  st_prx : ∀ n m, sy_load_prx n m = Done (prx n) m;
  st_dlsym : ∀ id n m, sy_dlsym id n m = Done (dl_result id n, dl_store id n) m;
  st_lsm : ∀ f a s, f ≠ 0 → sy_lsm f a s = Done (start f a) s;
  st_stored : ∀ id n, dl_result id n = 0 → is_Some (dl_store id n);
  st_value : ∀ id n v, dl_store id n = Some v → 0 ≤ v < 2 ^ 64;
  st_starter : dl_result (prx "libkernel.sprx") lsm_literal = 0 →
    dl_store (prx "libkernel.sprx") lsm_literal ≠ Some 0;
  st_start : ∀ f a, - 2 ^ 31 ≤ start f a < 2 ^ 31 }.

Section steady.
Context `{Steady}.

(** The value of a lookup that succeeds. *)
Definition dl_value (id : Z) (n : name) : Z := default 0 (dl_store id n).

Lemma dl_stored id n : dl_result id n = 0 → dl_store id n = Some (dl_value id n).
Proof. intros Hr. unfold dl_value. by destruct (st_stored id n Hr) as [v ->]. Qed.

(** The function used to start modules, once it has been looked up. *)
Definition used_lsm (s : resolver) : Z :=
  if s.(r_lsm) =? 0 then dl_value (prx "libkernel.sprx") lsm_literal else s.(r_lsm).

(** The module the symbol is looked up in. *)
Definition used_module (s : resolver) (id0 module : Z) : Z :=
  if i32 id0 <=? 0 then start (used_lsm s) module else i32 id0.

(** The first failing step decides. *)
Definition user_status (s : resolver) (id0 module symbol : Z) : Z :=
  if (i32 id0 <=? 0) && (s.(r_lsm) =? 0) && (prx "libkernel.sprx" <=? 0) then
    PS4ResolveStatusKernelLoadError
  else if (i32 id0 <=? 0) && (s.(r_lsm) =? 0)
          && negb (dl_result (prx "libkernel.sprx") lsm_literal =? 0) then
    PS4ResolveStatusLSMResolveError
  else if (i32 id0 <=? 0) && (start (used_lsm s) module <=? 0) then PS4ResolveStatusModuleLoadError
  else if negb (dl_result (used_module s id0 module) (Pointer symbol) =? 0) then
    PS4ResolveStatusFunctionResolveError
  else PS4ResolveStatusSuccess.

Record user_call (s : resolver) (moduleId userAddress id0 : Z) : Prop := {
  uc_quiet : quiet s;
  uc_moduleId : 0 < moduleId ∧ moduleId + 4 < 2 ^ 64;
  uc_userAddress : 0 < userAddress ∧ userAddress + 8 < 2 ^ 64;
  uc_disjoint : disjoint moduleId 4 userAddress 8;
  uc_mapped : mapped s.(r_mem) userAddress 8;
  uc_id : peek s.(r_mem) 4 moduleId = Some id0 }.

Lemma moduleId_read m moduleId id :
  0 < moduleId ∧ moduleId + 4 < 2 ^ 64 → peek m 4 moduleId = Some id → field 4 moduleId 0 m = Done id m.
Proof.
  intros Hm Hp. apply field_peek; [lia|]. unfold ptr_add. by rewrite Z.add_0_r, u64_small by lia.
Qed.

Lemma moduleId_write m moduleId id :
  0 < moduleId ∧ moduleId + 4 < 2 ^ 64 → mapped m moduleId 4 → - 2 ^ 31 ≤ id < 2 ^ 31 →
  ∃ m' w, set_field 4 moduleId 0 id m = Done () m' ∧ peek m' 4 moduleId = Some w ∧ i32 w = id ∧
    same_off m m' moduleId 4 ∧ ∀ x, is_Some (m' !! x) ↔ is_Some (m !! x).
Proof.
  intros Ha Hm Hid. destruct (write_spec m 4 moduleId id Hm) as (m' & Hw & Ho & Hp & Hx).
  exists m', (id mod 2 ^ 32). unfold set_field, ptr_add. replace (moduleId =? 0) with false by lia.
  rewrite Z.add_0_r, u64_small by lia. split_and!; [done|exact Hp| |done|done].
  unfold i32, signed. rewrite Z.mod_mod by lia.
  destruct (decide (0 ≤ id)).
  - rewrite Z.mod_small by lia. by replace (id <? 2 ^ (32 - 1)) with true by lia.
  - replace (id mod 2 ^ 32) with (id + 2 ^ 32) by (apply (Z.mod_unique _ _ (-1)); lia).
    replace (id + 2 ^ 32 <? 2 ^ (32 - 1)) with false by lia. lia.
Qed.

(** The lookup in a module whose number is known. *)
Lemma symbol_step s moduleId userAddress id0 module symbol kernelAddress function k status :
  user_call s moduleId userAddress id0 →
  let state := ResolveState module symbol moduleId userAddress kernelAddress function k status in
  ∃ m2, resolve_symbol state s =
      Done (if dl_result (i32 id0) (Pointer symbol) =? 0 then PS4ResolveStatusSuccess
            else PS4ResolveStatusFunctionResolveError) (set_mem s m2) ∧
    (dl_result (i32 id0) (Pointer symbol) = 0 → peek m2 8 userAddress = Some (dl_value (i32 id0) (Pointer symbol))) ∧
    peek m2 4 moduleId = Some id0 ∧ same_off s.(r_mem) m2 userAddress 8.
Proof.
  intros [Hq Hmi Hua Hd Hm Hid] state.
  destruct (resolve_symbol_ok s state id0 (dl_result (i32 id0) (Pointer symbol))
    (dl_store (i32 id0) (Pointer symbol)) s.(r_mem)) as (m2 & Hr & Hp & Ho);
    [done|cbn; lia|by apply moduleId_read|apply st_dlsym|apply st_value|done|].
  exists m2. split; [exact Hr|]. split; [intros H0; by apply Hp, dl_stored|]. split; [|done].
  rewrite <- Hid. apply peek_same. eapply same_off_on; [exact Ho|]. cbn. unfold disjoint in *. lia.
Qed.

(** Starting the module, then the lookup. *)
Lemma load_step s moduleId userAddress id0 module symbol kernelAddress function k status :
  user_call s moduleId userAddress id0 → s.(r_lsm) ≠ 0 →
  let state := ResolveState module symbol moduleId userAddress kernelAddress function k status in
  let id := start s.(r_lsm) module in
  ∃ m2, load_module state resolve_symbol s =
      Done (if id <=? 0 then PS4ResolveStatusModuleLoadError
            else if dl_result id (Pointer symbol) =? 0 then PS4ResolveStatusSuccess
            else PS4ResolveStatusFunctionResolveError) (set_mem s m2) ∧
    (0 < id → (dl_result id (Pointer symbol) = 0 → peek m2 8 userAddress = Some (dl_value id (Pointer symbol))) ∧
      ∃ w, peek m2 4 moduleId = Some w ∧ i32 w = id) ∧
    ∀ x, ¬ (userAddress ≤ x < userAddress + 8) → ¬ (moduleId ≤ x < moduleId + 4) →
      m2 !! x = s.(r_mem) !! x.
Proof.
  intros [Hq Hmi Hua Hd Hm Hid] Hlsm state id.
  destruct (moduleId_write s.(r_mem) moduleId id Hmi) as (m1 & w & Hw & Hp & Hi & Ho & Hx);
    [exact (peek_is_mapped _ _ _ _ Hid)|apply st_start|].
  unfold load_module. rewrite bind_done with (a := s.(r_lsm)) (s' := s) by done.
  unfold call_lsm. replace (s.(r_lsm) =? 0) with false by lia.
  rewrite (bind_done _ _ _ _ _ (st_lsm _ _ s Hlsm)).
  rewrite (bind_done _ _ _ _ _ (on_mem_done _ s _ _ Hw)).
  rewrite (bind_done _ _ _ _ _ (on_mem_read _ (set_mem s m1) _ (moduleId_read m1 moduleId w Hmi Hp))).
  rewrite error_if_quiet by first [by apply quiet_mem | done]. rewrite Hi.
  destruct (id <=? 0) eqn:Hle; zb.
  - exists m1. split; [done|]. split; [lia|]. intros x _ Hx'. by apply Ho.
  - destruct (symbol_step (set_mem s m1) moduleId userAddress w module symbol kernelAddress function k status)
      as (m2 & Hr & Hp2 & Hp4 & Ho2).
    { split; [by apply quiet_mem|done..| |done]. intros x Hx'. by apply Hx, Hm. }
    rewrite Hi in *. exists m2. split; [exact Hr|]. split; [intros _; split; [done|by exists w]|].
    intros x Hx1 Hx2. rewrite Ho2 by done. by apply Ho.
Qed.

Lemma user_ok s moduleId userAddress id0 module symbol kernelAddress function k status :
  user_call s moduleId userAddress id0 → module ≠ 0 → symbol ≠ 0 →
  let state := ResolveState module symbol moduleId userAddress kernelAddress function k status in
  ∃ s', resolve_user state s = Done (user_status s id0 module symbol) s' ∧
    (user_status s id0 module symbol = PS4ResolveStatusSuccess →
      peek s'.(r_mem) 8 userAddress = Some (dl_value (used_module s id0 module) (Pointer symbol)) ∧
      ∃ w, peek s'.(r_mem) 4 moduleId = Some w ∧ i32 w = used_module s id0 module ∧ 0 < i32 w) ∧
    (∀ x, ¬ (userAddress ≤ x < userAddress + 8) → ¬ (moduleId ≤ x < moduleId + 4) →
      s'.(r_mem) !! x = s.(r_mem) !! x) ∧ quiet s'.
Proof.
  intros Huc Hmod Hsym state. pose proof Huc as [Hq Hmi Hua Hd Hm Hid].
  unfold resolve_user. rewrite error_if_quiet by done. unfold state.
  cbn [rs_moduleId rs_userAddress rs_module rs_symbol].
  replace (_ || _) with false by lia.
  rewrite (bind_done _ _ _ _ _ (on_mem_read _ s _ (moduleId_read _ moduleId id0 Hmi Hid))).
  unfold user_status, used_module, used_lsm. destruct (i32 id0 <=? 0) eqn:Hle; zb; cbn [andb].
  - unfold find_lsm. rewrite bind_done with (a := s.(r_lsm)) (s' := s) by done.
    destruct (s.(r_lsm) =? 0) eqn:Hl; zb; cbn [negb andb].
    + rewrite (bind_done _ _ _ _ _ (on_mem_read _ s _ (st_prx _ _))).
      rewrite error_if_quiet by done.
      destruct (prx "libkernel.sprx" <=? 0) eqn:Hprx; [exists s; by split_and!|].
      rewrite (bind_done _ _ _ _ _ (on_mem_read _ s _ (st_dlsym _ _ _))).
      fold lsm_literal. set (s0 := Resolver s.(r_mem) s.(r_error) s.(r_pre) s.(r_post)
        (default s.(r_lsm) (dl_store (prx "libkernel.sprx") lsm_literal))).
      rewrite bind_done with (a := ()) (s' := s0)
        by (unfold s0; destruct (dl_store _ _); [done|by destruct s]).
      assert (Hq0 : quiet s0) by (by destruct Hq). rewrite error_if_quiet by done.
      destruct (dl_result (prx "libkernel.sprx") lsm_literal =? 0) eqn:Hdl; cbn [negb]; [|exists s0; by split_and!].
      zb. pose proof (dl_stored _ _ Hdl) as Hv. pose proof (st_starter Hdl) as Hnz. rewrite Hv in Hnz.
      unfold s0. rewrite Hv. cbn [default from_option id]. clear s0 Hq0.
      set (lsm := dl_value (prx "libkernel.sprx") lsm_literal) in *.
      set (s1 := Resolver s.(r_mem) s.(r_error) s.(r_pre) s.(r_post) lsm).
      assert (Hq1 : quiet s1) by (by destruct Hq).
      destruct (load_step s1 moduleId userAddress id0 module symbol kernelAddress function k status)
        as (m2 & Hr & Hp & Ho); [by split|cbn; congruence|].
      exists (set_mem s1 m2). cbn [r_lsm s1] in *. rewrite Hr. split_and!; [|..|exact Ho|by apply quiet_mem].
      * by destruct (start lsm module <=? 0), (dl_result (start lsm module) (Pointer symbol) =? 0).
      * destruct (start lsm module <=? 0) eqn:Hst; [done|]. zb.
        destruct (dl_result (start lsm module) (Pointer symbol) =? 0) eqn:Hz; [zb|done]. intros _.
        destruct (Hp ltac:(lia)) as (Hp8 & w & Hp4 & Hw). split; [auto|]. exists w. split_and!; [done|done|lia].
    + destruct (load_step s moduleId userAddress id0 module symbol kernelAddress function k status Huc Hl)
        as (m2 & Hr & Hp & Ho).
      exists (set_mem s m2). rewrite Hr. split_and!; [|..|exact Ho|by apply quiet_mem].
      * by destruct (start (r_lsm s) module <=? 0), (dl_result (start (r_lsm s) module) (Pointer symbol) =? 0).
      * destruct (start (r_lsm s) module <=? 0) eqn:Hst; [done|]. zb.
        destruct (dl_result (start (r_lsm s) module) (Pointer symbol) =? 0) eqn:Hz; [zb|done]. intros _.
        destruct (Hp ltac:(lia)) as (Hp8 & w & Hp4 & Hw). split; [auto|]. exists w. split_and!; [done|done|lia].
  - destruct (symbol_step s moduleId userAddress id0 module symbol kernelAddress function k status Huc)
      as (m2 & Hr & Hp8 & Hp4 & Ho).
    exists (set_mem s m2). rewrite Hr. split_and!; [|..|by apply quiet_mem].
    + by destruct (dl_result (i32 id0) (Pointer symbol) =? 0).
    + destruct (dl_result (i32 id0) (Pointer symbol) =? 0) eqn:Hz; [zb|done]. intros _.
      split; [auto|]. exists id0. split_and!; [done..|lia].
    + intros x Hx _. by apply Ho.
Qed.
End steady.

(** C13. In user mode, without handlers, the resolver's result is decided by the
    first step that fails (finding libkernel, finding the module starter,
    starting the module, finding the symbol; steps already done are skipped);
    on success the function's address is in [*userAddress] and the module's
    number in [*moduleId], and no other memory has changed. *)
Theorem resolve_user_spec `{Steady} s module symbol moduleId userAddress kernelAddress function id0 t :
  user_call s moduleId userAddress id0 → module ≠ 0 → symbol ≠ 0 →
  sy_ps4KernelIsInKernel = 0 → ps4StubType function s.(r_mem) = Done t s.(r_mem) →
  t ≠ PS4StubTypeKernelFunction →
  ∃ s', ps4ResolveModuleAndSymbolOrKernelSymbol module symbol moduleId userAddress kernelAddress function s =
      Done (user_status s id0 module symbol) s' ∧
    (user_status s id0 module symbol = PS4ResolveStatusSuccess →
      peek s'.(r_mem) 8 userAddress = Some (dl_value (used_module s id0 module) (Pointer symbol)) ∧
      ∃ w, peek s'.(r_mem) 4 moduleId = Some w ∧ i32 w = used_module s id0 module ∧ 0 < i32 w) ∧
    (∀ x, ¬ (userAddress ≤ x < userAddress + 8) → ¬ (moduleId ≤ x < moduleId + 4) →
      s'.(r_mem) !! x = s.(r_mem) !! x).
Proof.
  intros Huc Hm Hs Hk Ht Hne. rewrite (enter_user _ _ _ _ _ _ _ t) by first [done | apply Huc].
  edestruct user_ok as (s' & Hr & H1 & H2 & _); [exact Huc|exact Hm|exact Hs|]. exists s'. split; [exact Hr|]. by split.
Qed.

(** In kernel mode, without handlers, the resolver stores what
    ps4KernelDlSym gives for the symbol into [*kernelAddress], and reports
    success exactly if that is not NULL. *)
Theorem resolve_kernel_spec `{System} s module symbol moduleId userAddress kernelAddress function t a m1 :
  quiet s → sy_ps4KernelIsInKernel ≠ 0 →
  ps4StubType function s.(r_mem) = Done t s.(r_mem) → t ≠ PS4StubTypeFunction →
  symbol ≠ 0 → 0 < kernelAddress < 2 ^ 64 →
  sy_ps4KernelDlSym symbol s.(r_mem) = Done a m1 → 0 ≤ a < 2 ^ 64 → mapped m1 kernelAddress 8 →
  ∃ m2, ps4ResolveModuleAndSymbolOrKernelSymbol module symbol moduleId userAddress kernelAddress function s =
      Done (if a =? 0 then PS4ResolveStatusKernelFunctionResolveError else PS4ResolveStatusSuccess)
        (set_mem s m2) ∧
    peek m2 8 kernelAddress = Some a ∧ same_off m1 m2 kernelAddress 8.
Proof.
  intros Hq Hk Ht Hne Hs Hka Hd Ha Hm. rewrite enter_kernel by done.
  by apply (resolve_kernel_ok s (ResolveState module symbol moduleId userAddress kernelAddress function
    sy_ps4KernelIsInKernel PS4ResolveStatusInterceptContinue) function t a m1).
Qed.

(** A pre handler that answers with anything but InterceptContinue decides
    alone: its answer is the result and nothing but what it did has
    happened. *)
Theorem resolve_intercepted `{System} s module symbol moduleId userAddress kernelAddress function st status s1 :
  s.(r_pre) ≠ 0 →
  sy_handler s.(r_pre) (ResolveState module symbol moduleId userAddress kernelAddress function
    sy_ps4KernelIsInKernel PS4ResolveStatusInterceptContinue) s = Done (st, status) s1 →
  status ≠ PS4ResolveStatusInterceptContinue →
  ps4ResolveModuleAndSymbolOrKernelSymbol module symbol moduleId userAddress kernelAddress function s =
    Done status s1.
Proof.
  intros Hp Hh Hne. unfold ps4ResolveModuleAndSymbolOrKernelSymbol.
  rewrite bind_done with (a := s.(r_pre)) (s' := s) by done.
  unfold consult, ps4ResolveCallHandler, with_status.
  cbn [rs_isKernel rs_module rs_symbol rs_moduleId rs_userAddress rs_kernelAddress rs_function].
  replace (s.(r_pre) =? 0) with false by lia. cbn [negb].
  rewrite (bind_done _ _ _ _ _ Hh). cbn beta iota.
  by replace (status =? PS4ResolveStatusInterceptContinue) with false by lia.
Qed.

(** ** ps4Resolve *)

(** ps4Resolve on the code of a stub: with the stub at its own address it
    resolves the stub's operands; a stub that was copied elsewhere is refused;
    a system call stub needs no resolution. *)
Theorem ps4Resolve_stub `{System} s f rel sb bs :
  placed s.(r_mem) f rel (program sb) bs → operands_ok sb →
  ps4Resolve f s =
    match operands sb with
    | None => Done PS4ResolveStatusSuccess s
    | Some o =>
        if o.(so_fn) =? f then
          ps4ResolveModuleAndSymbolOrKernelSymbol o.(so_module) o.(so_symbol) o.(so_moduleId)
            o.(so_userAddress) o.(so_kernelAddress) f s
        else Done PS4ResolveStatusFunctionResolveError s
    end.
Proof.
  intros Hpl Hok. unfold ps4Resolve.
  rewrite (bind_done _ _ _ _ _ (on_mem_read _ s _ (read_stub_ok _ _ _ _ _
    PS4ResolveStatusSuccess PS4ResolveStatusFunctionResolveError Hpl Hok))).
  destruct (operands sb) as [o|]; [|done]. by destruct (so_fn o =? f).
Qed.

(** C2. Resolve, then call: after ps4Resolve has succeeded in user mode on a
    function stub whose symbol is not at address 0, running the stub jumps to
    the symbol's address, with every register but r11 as the caller left it. *)
Theorem resolve_then_jump `{Steady} s f rel bs mn fn mh fa id0 ra st :
  let sb := FunctionStub f mn fn mh fa in
  placed s.(r_mem) f rel (program sb) bs → operands_ok sb →
  user_call s mh fa id0 → mn ≠ 0 → fn ≠ 0 → sy_ps4KernelIsInKernel = 0 →
  user_status s id0 mn fn = PS4ResolveStatusSuccess →
  dl_value (used_module s id0 mn) (Pointer fn) ≠ 0 →
  ∃ s', ps4Resolve f s = Done PS4ResolveStatusSuccess s' ∧
    (st.(ram) = s'.(r_mem) → ∃ st', run ra (program sb) st =
      ExitJump (dl_value (used_module s id0 mn) (Pointer fn)) st' ∧ keeps [R11] st st').
Proof.
  intros sb Hpl Hok Huc Hmn Hfn Hk Hst Hnz.
  destruct (stub_type_read _ _ _ _ _ Hpl) as (t & Ht & Hne).
  edestruct (user_ok s mh fa id0 mn fn 0 f 0 PS4ResolveStatusInterceptContinue Huc Hmn Hfn)
    as (s' & Hr & Hok' & _ & _). rewrite Hst in Hr.
  exists s'. split.
  - unfold ps4Resolve. rewrite (bind_done _ _ _ _ _ (on_mem_read _ s _ (read_stub_ok _ _ _ _ _
      PS4ResolveStatusSuccess PS4ResolveStatusFunctionResolveError Hpl Hok))).
    cbn [operands sb so_fn so_module so_symbol so_moduleId so_userAddress so_kernelAddress].
    rewrite Z.eqb_refl. cbn [negb].
    rewrite (enter_user _ _ _ _ _ _ _ t); [exact Hr|apply Huc|done|done|apply (Hne (KernelFunctionStub 0 0 0))].
  - intros Hram. destruct (Hok' Hst) as [Hp _]. rewrite <- Hram in Hp.
    apply (stub_jump_ok ra sb st fa); [done| |done|done]. destruct Hok as (_ & _ & _ & Hfa & _). exact Hfa.
Qed.

(** ** A concrete system *)

(** libkernel is module 1, the module starter is at 0x9000 and starts module
    2, and every symbol of module 2 is at 0x8000. *)
Definition sample_system : System := {|
  sy_handler := λ _ st m, Done (st, PS4ResolveStatusInterceptFailure) m;
  sy_load_prx := λ _ m, Done 1 m;
  sy_dlsym := λ id _ m, Done (0, Some (if id =? 1 then 0x9000 else 0x8000)) m;
  sy_lsm := λ _ _ m, Done 2 m;
  sy_ps4KernelDlSym := λ _ m, Done 0xffffffff82000000 m;
  sy_ps4KernelIsInKernel := 0 |}.

#[export] Instance sample_steady : Steady sample_system.
Proof.
  refine {| prx := λ _, 1; dl_result := λ _ _, 0; dl_store := λ id _, Some (if id =? 1 then 0x9000 else 0x8000);
    start := λ _ _, 2 |}; try done.
  intros id n v [= <-]. by destruct (id =? 1).
Defined.

Definition sample_resolver : resolver := Resolver stub_mem 0 0 0 0.

Lemma sample_user_call : user_call sample_resolver 0x3200 0x3300 0.
Proof.
  split; [done|done|done|left; discriminate| |vm_compute; reflexivity].
  assert (Hl : ∃ l, load_bytes stub_mem 0x3300 8 = Some l) by (eexists; vm_compute; reflexivity).
  destruct Hl as [l Hl]. exact (load_bytes_is_mapped _ _ _ _ Hl).
Qed.

Lemma sample_stub_type : ∃ t, ps4StubType 0x2000 stub_mem = Done t stub_mem ∧ t ≠ 1 ∧ t ≠ 0.
Proof.
  destruct (stub_type_read _ _ _ _ _ stub_placed) as (t & Ht & Hn). exists t.
  split; [exact Ht|]. split; [exact (Hn (KernelFunctionStub 0 0 0))|exact (Hn sample_stub)].
Qed.

Lemma resolve_user_spec_witness :
  ∃ s', @ps4ResolveModuleAndSymbolOrKernelSymbol sample_system 0x3000 0x3100 0x3200 0x3300 0 0x2000 sample_resolver
      = Done PS4ResolveStatusSuccess s' ∧ peek s'.(r_mem) 8 0x3300 = Some 0x8000.
Proof.
  destruct sample_stub_type as (t & Ht & Hn & _).
  destruct (@resolve_user_spec sample_system sample_steady sample_resolver 0x3000 0x3100 0x3200 0x3300 0 0x2000 0 t
    sample_user_call) as (s' & H1 & H2 & _); [discriminate|discriminate|reflexivity|exact Ht|exact Hn|].
  exists s'. split; [exact H1|]. apply H2. reflexivity.
Defined.

Definition kernel_system : System := {|
  sy_handler := λ _ st m, Done (st, PS4ResolveStatusInterceptFailure) m;
  sy_load_prx := λ _ m, Done 0 m;
  sy_dlsym := λ _ _ m, Done (-1, None) m;
  sy_lsm := λ _ _ m, Done 0 m;
  sy_ps4KernelDlSym := λ _ m, Done 0xffffffff82000000 m;
  sy_ps4KernelIsInKernel := 1 |}.

Lemma resolve_kernel_spec_witness :
  ∃ m2, @ps4ResolveModuleAndSymbolOrKernelSymbol kernel_system 0 0x3100 0 0 0x3300 0x2000 sample_resolver
      = Done PS4ResolveStatusSuccess (set_mem sample_resolver m2) ∧
    peek m2 8 0x3300 = Some 0xffffffff82000000.
Proof.
  destruct sample_stub_type as (t & Ht & _ & Hn).
  destruct (@resolve_kernel_spec kernel_system sample_resolver 0 0x3100 0 0 0x3300 0x2000 t
    0xffffffff82000000 stub_mem) as (m2 & H1 & H2 & _).
  - exact (uc_quiet _ _ _ _ sample_user_call).
  - discriminate.
  - exact Ht.
  - exact Hn.
  - discriminate.
  - split; reflexivity.
  - reflexivity.
  - split; [discriminate|reflexivity].
  - exact (uc_mapped _ _ _ _ sample_user_call).
  - exists m2. split; [exact H1|exact H2].
Defined.

Lemma resolve_intercepted_witness :
  @ps4ResolveModuleAndSymbolOrKernelSymbol sample_system 0 0 0 0 0 0 (Resolver stub_mem 0 5 0 0) =
    Done PS4ResolveStatusInterceptFailure (Resolver stub_mem 0 5 0 0).
Proof.
  eapply (@resolve_intercepted sample_system (Resolver stub_mem 0 5 0 0) 0 0 0 0 0 0);
    [discriminate|reflexivity|discriminate].
Defined.

Lemma ps4Resolve_stub_witness :
  @ps4Resolve sample_system 0x2000 sample_resolver =
    @ps4ResolveModuleAndSymbolOrKernelSymbol sample_system 0x3000 0x3100 0x3200 0x3300 0 0x2000 sample_resolver.
Proof. exact (@ps4Resolve_stub sample_system sample_resolver 0x2000 _ sample_stub _ stub_placed sample_operands_ok). Defined.

Lemma resolve_then_jump_witness :
  ∃ s', @ps4Resolve sample_system 0x2000 sample_resolver = Done PS4ResolveStatusSuccess s'.
Proof.
  destruct (@resolve_then_jump sample_system sample_steady sample_resolver 0x2000 _ _ 0x3000 0x3100 0x3200 0x3300 0
    (λ _, 0) (Machine (λ _, 0) (λ _, 0) false ∅) stub_placed sample_operands_ok sample_user_call)
    as (s' & H1 & _); [discriminate|discriminate|reflexivity|reflexivity|discriminate|].
  exists s'. exact H1.
Defined.

(** The setters install the handler and give back the one they replace, so
    that handlers can be chained and restored. *)
Theorem set_handlers_roundtrip h1 h2 h3 s :
  ∃ s1 s2 s3, ps4ResolveSetErrorHandler h1 s = Done s.(r_error) s1 ∧
    ps4ResolveSetPreHandler h2 s1 = Done s.(r_pre) s2 ∧
    ps4ResolveSetPostHandler h3 s2 = Done s.(r_post) s3 ∧
    s3 = Resolver s.(r_mem) h1 h2 h3 s.(r_lsm) ∧
    (r ← ps4ResolveSetPostHandler s.(r_post); q ← ps4ResolveSetPreHandler s.(r_pre);
     p ← ps4ResolveSetErrorHandler s.(r_error); mret (p, q, r)) s3 = Done (h1, h2, h3) s.
Proof. destruct s as [m e p q l]. by do 3 eexists. Qed.
