(* ===== verification/Kernel.v ===== *)
(** * The kernel interface

    source/ps4/kernel.c: finding the kernel image, its symbol and string
    tables, the allocator of executable memory, the test for kernel mode,
    running a function in the kernel and looking symbols up.  The system call
    that enters the kernel and the code that installs it are given by an
    instance of [KernelEntry]. *)

From S2P Require Import Prelude.
From S2P Require Import Memory.
From S2P Require Import ElfFormat.
From S2P Require Import ElfTables.
From S2P Require Import ElfDynamic.
From S2P Require Import ElfObject.

Definition PS4KernelElfSeekAddress : Z := 0xffffffff80000000.
Definition PS4KernelElfSeekSize : Z := 0x02000000.
Definition PS4KernelElfSeekStaticAddress : Z := 0xffffffff80700000.
Definition PS4KernelElfSize : Z := 0x00EAC180.
Definition PS4KernelElfPageSize : Z := 16 * 1024.

Definition elfMagic : list Z := [0x7f; 69; 76; 70; 0x02; 0x01; 0x01; 0x09; 0x00].

(** The static variables of kernel.c over memory. *)
Record kernel := Kernel {
  k_mem : mem;
  k_initialized : Z;
  k_symbols : Z;
  k_strings : Z;
  k_executable : Z }.

Definition in_mem {A} (c : C mem A) : C kernel A := λ s,
  match c s.(k_mem) with
  | Done a m => Done a (Kernel m s.(k_initialized) s.(k_symbols) s.(k_strings) s.(k_executable))
  | UB => UB
  | Timeout => Timeout
  end.

Definition set_k_initialized (v : Z) : C kernel () :=
  modifyS (λ s, Kernel s.(k_mem) v s.(k_symbols) s.(k_strings) s.(k_executable)).
Definition set_k_symbols (v : Z) : C kernel () :=
  modifyS (λ s, Kernel s.(k_mem) s.(k_initialized) v s.(k_strings) s.(k_executable)).
Definition set_k_strings (v : Z) : C kernel () :=
  modifyS (λ s, Kernel s.(k_mem) s.(k_initialized) s.(k_symbols) v s.(k_executable)).
Definition set_k_executable (v : Z) : C kernel () :=
  modifyS (λ s, Kernel s.(k_mem) s.(k_initialized) s.(k_symbols) s.(k_strings) v).

(** ** Finding the image *)

(** [for(i = 0; i < magicSize && m[i] == elfMagic[i]; ++i); i == magicSize] *)
Definition has_magic (m : Z) : C mem bool :=
  r ← for_range 0 (Z.of_nat (length elfMagic)) () (λ i _,
    b ← field 1 m i;
    e ← init (elfMagic !! Z.to_nat i);
    if b =? e then mret (inl ()) else mret (inr ()));
  match r with inl _ => mret true | inr _ => mret false end.

Definition ps4KernelElfSeek : C mem Z :=
  b ← has_magic PS4KernelElfSeekStaticAddress;
  if b : bool then mret PS4KernelElfSeekStaticAddress else
  r ← for_range 0 (PS4KernelElfSeekSize / PS4KernelElfPageSize) () (λ i _,
    let m := PS4KernelElfSeekAddress + i * PS4KernelElfPageSize in
    b ← has_magic m;
    if b : bool then mret (inr m) else mret (inl ()));
  match r with inr m => mret m | inl _ => mret 0 end.

(** [buf] is the address of the local buffer the Elf object is put into. *)
Definition ps4KernelInternalInitialize (buf : Z) : C kernel () :=
  kernelAddress ← in_mem ps4KernelElfSeek;
  if kernelAddress =? 0 then mret () else
  kernel ← in_mem (elfCreateLocalUnchecked buf kernelAddress PS4KernelElfSize);
  '(dyn, _) ← in_mem (elfLoadedDynamic kernel None ElfDynamicAttributeTag DT_SYMTAB);
  a ← in_mem (elfDynamicAttribute dyn ElfDynamicAttributePointer);
  set_k_symbols a;;
  '(dyn, _) ← in_mem (elfLoadedDynamic kernel None ElfDynamicAttributeTag DT_STRTAB);
  a ← in_mem (elfDynamicAttribute dyn ElfDynamicAttributePointer);
  set_k_strings a;;
  '(s, _) ← in_mem (elfSegment kernel None ElfSegmentAttributeType PT_LOAD);
  v ← in_mem (get_p_vaddr s);
  set_k_executable v;;
  set_k_initialized 1.

(** ** Executable memory *)

Definition ps4KernelExecutableMemoryMalloc (buf size : Z) : C kernel Z :=
  i ← gets k_initialized;
  (if negb (c_true i) then ps4KernelInternalInitialize buf else mret ());;
  a ← gets k_executable;
  set_k_executable (ptr_add a size);;
  mret a.

Definition ps4KernelExecutableMemoryFree (addr : Z) : C kernel () := mret ().

(** ** Kernel mode *)

Definition ps4KernelIsKernelAddress (addr : Z) : bool := 0 <? Z.shiftr addr 48.

(** [sp] is the stack pointer the inline assembly reads. *)
Definition ps4KernelIsInKernel (sp : Z) : bool := ps4KernelIsKernelAddress sp.

(** ** Symbols *)

(** One step of [for(j = 0; n[j] == name[j] && n[j] != 0; ++j);] *)
Definition name_round (n name j : Z) : C mem (Z + Z) :=
  a ← field 1 n j;
  b ← field 1 name j;
  if (a =? b) && negb (a =? 0) then
    (if j =? INT_MAX then ub else mret (inl (j + 1)))
  else mret (inr j).

(** Every round reads a mapped byte of its own. *)
Definition common_prefix (n name : Z) : C mem Z :=
  m ← getS;
  while (S (base.size (m : mem))) 0 (name_round n name).

Definition sizeof_ElfSymbol : Z := 24.

(** The body of the loop over the symbols: [inr] returns from the function. *)
Definition symbol_round (strings name symbol : Z) : C mem (Z + Z) :=
  st ← get_st_name symbol;
  let n := ptr_add strings st in
  j ← common_prefix n name;
  found ← (if negb (0 <? j) then mret false else
           a ← field 1 n j;
           if negb (a =? 0) then mret false else
           b ← field 1 name j;
           mret (b =? 0));
  if found : bool then v ← get_st_value symbol; mret (inr v)
  else mret (inl (ptr_add symbol sizeof_ElfSymbol)).

(** The loop runs while [symbol + 1 < strings]. *)
Definition symbol_loop (fuel : nat) (strings name symbol : Z) : C mem Z :=
  while fuel symbol (λ symbol,
    if ptr_add symbol sizeof_ElfSymbol <? strings then symbol_round strings name symbol
    else mret (inr 0)).

(** The number of rounds is bounded by the distance of the two tables. *)
Definition symbol_fuel (symbols strings : Z) : nat := S (Z.to_nat ((strings - symbols) / sizeof_ElfSymbol + 1)).

(** The branch of ps4KernelDlSym taken in the kernel. *)
Definition dlsym_in_kernel (buf name : Z) : C kernel Z :=
  i ← gets k_initialized;
  (if negb (c_true i) then ps4KernelInternalInitialize buf else mret ());;
  symbols ← gets k_symbols;
  strings ← gets k_strings;
  in_mem (symbol_loop (symbol_fuel symbols strings) strings name symbols).

(** ** Entering the kernel *)

(** The functions handed to ps4KernelRunMain, as far as kernel.c names them. *)
Inductive runnable :=
| R_NULL
| R_ps4KernelDlSymWrapper
| R_payload (p : string)
| R_user (address : Z).

Class KernelEntry := {
  (** running a function in kernel mode *)
  ke_call : runnable → Z → Z → C kernel Z;
  (** syscall(SYS_ps4_kernel_run, fn, argc, argv) *)
  ke_syscall : runnable → Z → Z → C kernel Z;
  (** ps4KernelExploitRun(ps4KernelExploitPayloadInstallRunSyscall, 0, NULL, NULL) *)
  ke_install : C kernel () }.

Section entry.
Context `{KernelEntry}.

Definition ps4KernelRunMain (sp : Z) (fn : runnable) (argc argv : Z) : C kernel Z :=
  if ps4KernelIsInKernel sp then ke_call fn argc argv else
  r ← ke_syscall R_NULL 0 0;
  if r =? -1 then
    ke_install;;
    r ← ke_syscall R_NULL 0 0;
    if r =? -1 then mret (-1) else ke_syscall fn argc argv
  else ke_syscall fn argc argv.

(** [argv] is the address of the local array of three pointers. *)
Definition ps4KernelDlSym (sp buf argv name : Z) : C kernel Z :=
  if negb (ps4KernelIsInKernel sp) then
    in_mem (set_field 8 argv 0 0);;
    in_mem (set_field 8 argv 8 name);;
    in_mem (set_field 8 argv 16 0);;
    ps4KernelRunMain sp R_ps4KernelDlSymWrapper 2 argv;;
    in_mem (field 8 argv 0)
  else dlsym_in_kernel buf name.

(** [ksp] is the stack pointer in the kernel. *)
Definition ps4KernelDlSymWrapper (ksp buf args argc argv : Z) : C kernel Z :=
  name ← in_mem (field 8 argv 8);
  a ← ps4KernelDlSym ksp buf args name;
  in_mem (set_field 8 argv 0 a);;
  mret 0.

(** The wrappers that pass arguments in an array and give one back. *)
Definition run_payload (sp : Z) (p : string) (args : list Z) (argc argv : Z) : C kernel Z :=
  fold_range 0 (Z.of_nat (length args)) () (λ i _,
    a ← init (args !! Z.to_nat i); in_mem (set_field 8 argv (8 * i) a));;
  ps4KernelRunMain sp (R_payload p) argc argv.

Definition ps4KernelUARTEnable (sp : Z) : C kernel () :=
  ps4KernelRunMain sp (R_payload "ps4KernelExploitPayloadUARTEnable") 0 0;; mret ().
Definition ps4KernelMalloc (sp argv size : Z) : C kernel Z :=
  run_payload sp "ps4KernelExploitPayloadMalloc" [0; size; 0] 2 argv;;
  in_mem (field 8 argv 0).
Definition ps4KernelFree (sp argv addr : Z) : C kernel () :=
  run_payload sp "ps4KernelExploitPayloadFree" [addr; 0] 1 argv;; mret ().
Definition ps4KernelHookSyscall (sp argv number argc to : Z) : C kernel Z :=
  run_payload sp "ps4KernelExploitPayloadHookSyscall" [u64 number; u64 argc; to; 0] 2 argv.
Definition ps4KernelHookFunction (sp argv from to : Z) : C kernel Z :=
  run_payload sp "ps4KernelExploitPayloadHookFunction" [from; to; 0] 2 argv.
Definition ps4KernelPatchToTruthFunction (sp argv function : Z) : C kernel () :=
  run_payload sp "ps4KernelExploitPayloadPatchToTruthFunction" [function; 0] 1 argv;; mret ().
Definition ps4KernelMemcpy (sp argv dest src size : Z) : C kernel () :=
  run_payload sp "ps4KernelExploitPayloadMemcpy" [dest; src; size; 0] 3 argv;; mret ().
End entry.

(** ** Names in memory *)

Record cstr_at (m : mem) (a : Z) (str : list byte) : Prop := {
  ca_pos : 0 < a;
  ca_top : a + Z.of_nat (length str) < 2 ^ 64;
  ca_len : Z.of_nat (length str) < INT_MAX;
  ca_nul : Byte.x00 ∉ str;
  ca_load : load_bytes m a (length str + 1) = Some (str ++ [Byte.x00]) }.

(** The length of the common prefix. *)
Fixpoint lcp (a b : list byte) : nat :=
  match a, b with
  | x :: a, y :: b => if bool_decide (x = y) then S (lcp a b) else O
  | _, _ => O
  end.

Lemma lcp_le a b : (lcp a b ≤ length a)%nat ∧ (lcp a b ≤ length b)%nat.
Proof.
  revert b. induction a as [|x a IH]; intros [|y b]; simpl; try lia.
  case_bool_decide; [|lia]. specialize (IH b). lia.
Qed.

Lemma lcp_take a b : take (lcp a b) a = take (lcp a b) b.
Proof.
  revert b. induction a as [|x a IH]; intros [|y b]; simpl; try done.
  case_bool_decide as Hx; [|done]. simpl. by rewrite Hx, IH.
Qed.

Lemma lcp_differ a b (j := lcp a b) :
  a !! j = b !! j → a !! j = None.
Proof.
  subst j. revert b. induction a as [|x a IH]; intros [|y b]; simpl; try done.
  case_bool_decide as Hx; simpl; [apply IH|]. intros [= ->]. done.
Qed.

Lemma lcp_same a : lcp a a = length a.
Proof. induction a as [|x a IH]; simpl; [done|]. by rewrite bool_decide_true, IH. Qed.

(** The character [j] of a NUL-terminated string, 0 at its end. *)
Definition char_at (str : list byte) (j : nat) : Z :=
  match str !! j with Some b => byte.unsigned b | None => 0 end.

Lemma cstr_at_char m a str (j : nat) :
  cstr_at m a str → (j ≤ length str)%nat → field 1 a (Z.of_nat j) m = Done (char_at str j) m.
Proof.
  intros [Hp Ht _ _ Hl] Hj. apply field_peek; [lia|]. apply load_bytes_spec in Hl as [_ Hl].
  specialize (Hl j ltac:(lia)). unfold peek, ptr_add. rewrite u64_small by lia. simpl. rewrite Hl.
  unfold char_at. destruct (decide (j = length str)) as [->|Hne].
  - rewrite lookup_app_r, Nat.sub_diag by lia. simpl. rewrite le_combine_1.
    by rewrite lookup_ge_None_2 by lia.
  - rewrite lookup_app_l by lia. destruct (lookup_lt_is_Some_2 str j) as [b Hb]; [lia|].
    rewrite Hb. simpl. by rewrite le_combine_1.
Qed.

Lemma char_at_zero m a str (j : nat) :
  cstr_at m a str → char_at str j = 0 ↔ str !! j = None.
Proof.
  intros Hc. unfold char_at. destruct (str !! j) as [b|] eqn:Hb; [|done]. split; [|done].
  intros Hz. exfalso. apply (ca_nul _ _ _ Hc). assert (b = Byte.x00) as -> by (by apply byte.unsigned_inj).
  by eapply list_elem_of_lookup_2.
Qed.

Lemma char_at_inj m m' a a' s s' (j : nat) :
  cstr_at m a s → cstr_at m' a' s' → char_at s j = char_at s' j → s !! j = s' !! j.
Proof.
  intros Hs Hs' Heq. destruct (s !! j) as [b|] eqn:Hb, (s' !! j) as [b'|] eqn:Hb'; try done.
  - f_equal. apply byte.unsigned_inj. unfold char_at in Heq. by rewrite Hb, Hb' in Heq.
  - assert (char_at s' j = 0) as H0 by (unfold char_at; by rewrite Hb'). rewrite H0 in Heq.
    apply (char_at_zero _ _ _ _ Hs) in Heq. congruence.
  - assert (char_at s j = 0) as H0 by (unfold char_at; by rewrite Hb). rewrite H0 in Heq.
    symmetry in Heq. apply (char_at_zero _ _ _ _ Hs') in Heq. congruence.
Qed.

(** The bytes of a string are all there. *)
Lemma cstr_at_size m a str : cstr_at m a str → (length str < base.size m)%nat.
Proof.
  intros [Hp Ht _ _ Hl]. apply load_bytes_is_mapped in Hl.
  pose proof (mapped_count m ((λ i : nat, a + Z.of_nat i) <$> seq 0 (length str + 1))) as Hc.
  rewrite length_fmap, length_seq in Hc. enough (length str + 1 ≤ base.size m)%nat by lia. apply Hc.
  - apply NoDup_fmap_2; [|apply NoDup_seq]. intros i j. lia.
  - intros x (i & -> & ?%elem_of_seq)%list_elem_of_fmap. apply Hl. lia.
Qed.

Lemma name_round_ok m n name s t (j : nat) :
  cstr_at m n s → cstr_at m name t → (j ≤ lcp s t)%nat →
  name_round n name (Z.of_nat j) m =
    Done (if decide (j = lcp s t) then inr (Z.of_nat j) else inl (Z.of_nat (S j))) m.
Proof.
  intros Hs Ht Hj. destruct (lcp_le s t). unfold name_round.
  rewrite (bind_done _ _ _ _ _ (cstr_at_char _ _ _ j Hs ltac:(lia))).
  rewrite (bind_done _ _ _ _ _ (cstr_at_char _ _ _ j Ht ltac:(lia))).
  case_decide as Hd.
  - replace (_ && _) with false; [done|]. symmetry. apply not_true_iff_false. intros Hc. zb.
    assert (Heq : s !! j = t !! j) by (by eapply char_at_inj).
    rewrite Hd in Heq. apply lcp_differ in Heq. rewrite <- Hd in Heq.
    apply (char_at_zero _ _ _ j Hs) in Heq. lia.
  - assert (Heq : s !! j = t !! j).
    { rewrite <- (lookup_take_lt s (lcp s t)) by lia. rewrite lcp_take. by rewrite lookup_take_lt by lia. }
    destruct (lookup_lt_is_Some_2 s j) as [b Hb]; [lia|].
    assert (Hnz : char_at s j ≠ 0) by (rewrite (char_at_zero _ _ _ j Hs); congruence).
    assert (char_at t j = char_at s j) as -> by (unfold char_at; by rewrite Heq).
    replace (_ && _) with true by lia. pose proof (ca_len _ _ _ Hs).
    replace (Z.of_nat j =? INT_MAX) with false by lia. do 2 f_equal. lia.
Qed.

Lemma common_prefix_ok m n name s t :
  cstr_at m n s → cstr_at m name t → common_prefix n name m = Done (Z.of_nat (lcp s t)) m.
Proof.
  intros Hs Ht. unfold common_prefix. rewrite bind_done with (a := m) (s' := m) by done.
  pose proof (cstr_at_size _ _ _ Hs). destruct (lcp_le s t) as [Hle _].
  assert (Hloop : ∀ fuel (j : nat), (j ≤ lcp s t)%nat → (lcp s t - j < fuel)%nat →
    while fuel (Z.of_nat j) (name_round n name) m = Done (Z.of_nat (lcp s t)) m).
  { induction fuel as [|fuel IH]; intros j Hj Hf; [lia|]. cbn [while].
    rewrite (bind_done _ _ _ _ _ (name_round_ok _ _ _ _ _ j Hs Ht Hj)).
    case_decide as Hd; [by rewrite Hd|]. apply IH; lia. }
  apply (Hloop _ 0%nat); lia.
Qed.

(** ** The symbol table *)

(** The symbols the loop visits, with their names: entry [i] is visited if
    entry [i + 1] starts below the string table. *)
Record symtab (m : mem) (symbols strings : Z) (l : list (Elf64_Sym * list byte)) : Prop := {
  sy_pos : 0 < symbols;
  sy_top : symbols + 24 * (Z.of_nat (length l) + 1) < 2 ^ 64;
  sy_count : l ≠ [] → symbols + 24 * Z.of_nat (length l) < strings;
  sy_end : strings ≤ symbols + 24 * (Z.of_nat (length l) + 1);
  sy_at : ∀ (i : nat) s nm, l !! i = Some (s, nm) →
    decode_sym m (symbols + 24 * Z.of_nat i) = Some s ∧
    cstr_at m (ptr_add strings s.(st_name)) nm }.

(** What the search gives: the value of the first symbol of that name. *)
Definition lookup_symbol (l : list (Elf64_Sym * list byte)) (name : list byte) : Z :=
  match list_find (λ e, e.2 = name ∧ name ≠ []) l with
  | Some (_, (s, _)) => s.(st_value)
  | None => 0
  end.

Lemma symbol_round_ok m strings name str symbol s nm :
  symbol ≠ 0 → decode_sym m symbol = Some s → cstr_at m (ptr_add strings s.(st_name)) nm →
  cstr_at m name str →
  symbol_round strings name symbol m =
    Done (if bool_decide (nm = str ∧ str ≠ []) then inr s.(st_value)
          else inl (ptr_add symbol sizeof_ElfSymbol)) m.
Proof.
  intros Hnz Hd Hnm Hstr. unfold symbol_round. cstep.
  rewrite (bind_done _ _ _ _ _ (common_prefix_ok _ _ _ _ _ Hnm Hstr)).
  set (j := lcp nm str). destruct (lcp_le nm str).
  assert (Hf : (if negb (0 <? Z.of_nat j) then mret false else
      a ← field 1 (ptr_add strings (st_name s)) (Z.of_nat j);
      if negb (a =? 0) then mret false else b ← field 1 name (Z.of_nat j); mret (b =? 0)) m =
    Done (bool_decide (nm = str ∧ str ≠ [])) m).
  { destruct (0 <? Z.of_nat j) eqn:Hj; zb; cbn [negb].
    - rewrite (bind_done _ _ _ _ _ (cstr_at_char _ _ _ j Hnm ltac:(lia))).
      destruct (char_at nm j =? 0) eqn:Ha; zb; cbn [negb].
      + rewrite (bind_done _ _ _ _ _ (cstr_at_char _ _ _ j Hstr ltac:(lia))).
        apply (char_at_zero _ _ _ j Hnm) in Ha. f_equal. apply eq_true_iff_eq.
        rewrite Z.eqb_eq, bool_decide_eq_true, (char_at_zero _ _ _ j Hstr). split.
        * intros Hb. split; [|intros ->; simpl in *; lia].
          rewrite <- (take_ge nm j), <- (take_ge str j) by (by apply lookup_ge_None). apply lcp_take.
        * intros [Heq _]. by rewrite <- Heq.
      + f_equal. symmetry. apply bool_decide_eq_false. intros [Heq _]. apply Ha.
        apply (char_at_zero _ _ _ j Hnm). apply lcp_differ. by rewrite Heq.
    - f_equal. symmetry. apply bool_decide_eq_false. intros [Heq Hne]. subst str.
      unfold j in Hj. rewrite lcp_same in Hj. destruct nm; simpl in *; [done|lia]. }
  rewrite (bind_done _ _ _ _ _ Hf). case_bool_decide; [by cstep|done].
Qed.

Lemma symbol_loop_ok m strings name str symbols l :
  symtab m symbols strings l → cstr_at m name str →
  ∀ fuel (k : nat), (k ≤ length l)%nat → (length l - k < fuel)%nat →
  symbol_loop fuel strings name (symbols + 24 * Z.of_nat k) m = Done (lookup_symbol (drop k l) str) m.
Proof.
  intros [Hp Htop Hcnt Hend Hat] Hstr. induction fuel as [|fuel IH]; intros k Hk Hf; [lia|].
  unfold symbol_loop in *. cbn [while].
  assert (Hnext : ptr_add (symbols + 24 * Z.of_nat k) sizeof_ElfSymbol = symbols + 24 * Z.of_nat (S k)).
  { unfold ptr_add, sizeof_ElfSymbol. rewrite u64_small by lia. lia. }
  rewrite Hnext. destruct (decide (k = length l)) as [->|Hne].
  - rewrite drop_ge by lia.
    assert ((symbols + 24 * Z.of_nat (S (length l)) <? strings) = false) as -> by (apply Z.ltb_ge; lia). done.
  - destruct (lookup_lt_is_Some_2 l k) as [[s nm] Hl]; [lia|].
    assert (symbols + 24 * Z.of_nat (length l) < strings) by (apply Hcnt; intros ->; done).
    assert ((symbols + 24 * Z.of_nat (S k) <? strings) = true) as -> by (apply Z.ltb_lt; lia).
    destruct (Hat k s nm Hl) as [Hd Hnm].
    assert (Hnz : symbols + 24 * Z.of_nat k ≠ 0) by lia.
    rewrite (bind_done _ _ _ _ _ (symbol_round_ok _ _ _ _ _ _ _ Hnz Hd Hnm Hstr)).
    rewrite (drop_S _ _ _ Hl). unfold lookup_symbol. cbn [list_find].
    case_bool_decide as Hb.
    + by rewrite decide_True.
    + rewrite decide_False by done. rewrite Hnext, IH by lia. unfold lookup_symbol.
      by destruct (list_find _ (drop (S k) l)) as [[? [? ?]]|].
Qed.

(** The fuel of the loop is enough. *)
Lemma symbol_fuel_enough m symbols strings l :
  symtab m symbols strings l → (length l < symbol_fuel symbols strings)%nat.
Proof.
  intros [Hp Htop Hcnt Hend Hat]. unfold symbol_fuel, sizeof_ElfSymbol.
  destruct l as [|e l]; [simpl; lia|]. specialize (Hcnt ltac:(done)).
  assert (Z.of_nat (length (e :: l)) ≤ (strings - symbols) / 24) by (apply Z.div_le_lower_bound; lia). lia.
Qed.

Lemma in_mem_read {A} (c : C mem A) s a : c s.(k_mem) = Done a s.(k_mem) → in_mem c s = Done a s.
Proof. intros Hc. unfold in_mem. rewrite Hc. by destruct s. Qed.

Lemma dlsym_in_kernel_ok s buf name str l :
  s.(k_initialized) ≠ 0 → symtab s.(k_mem) s.(k_symbols) s.(k_strings) l → cstr_at s.(k_mem) name str →
  dlsym_in_kernel buf name s = Done (lookup_symbol l str) s.
Proof.
  intros Hi Hs Hn. unfold dlsym_in_kernel.
  rewrite bind_done with (a := s.(k_initialized)) (s' := s) by done.
  unfold c_true. replace (k_initialized s =? 0) with false by lia. cbn [negb]. rewrite bind_ret.
  rewrite bind_done with (a := s.(k_symbols)) (s' := s) by done.
  rewrite bind_done with (a := s.(k_strings)) (s' := s) by done.
  apply in_mem_read.
  pose proof (symbol_loop_ok _ _ _ _ _ _ Hs Hn (symbol_fuel (k_symbols s) (k_strings s)) 0%nat ltac:(lia)) as Hl.
  rewrite Z.mul_0_r, Z.add_0_r in Hl. apply Hl. pose proof (symbol_fuel_enough _ _ _ _ Hs). lia.
Qed.

(** C17. In the kernel, once initialised, ps4KernelDlSym returns the value of the
    first symbol whose name is the one asked for, and NULL if none of the
    symbols it visits has that name or the name is empty. *)
Theorem ps4KernelDlSym_spec `{KernelEntry} s sp buf argv name str l :
  ps4KernelIsInKernel sp = true → s.(k_initialized) ≠ 0 →
  symtab s.(k_mem) s.(k_symbols) s.(k_strings) l → cstr_at s.(k_mem) name str →
  ps4KernelDlSym sp buf argv name s = Done (lookup_symbol l str) s.
Proof.
  intros Hk Hi Hs Hn. unfold ps4KernelDlSym. rewrite Hk. cbn [negb]. by apply dlsym_in_kernel_ok.
Qed.

(** The loop stops one symbol early: in a table that ends where the string
    table begins, the last symbol is never found. *)
Theorem ps4KernelDlSym_misses_last `{KernelEntry} s sp buf argv name str l last :
  ps4KernelIsInKernel sp = true → s.(k_initialized) ≠ 0 → 0 < s.(k_symbols) →
  s.(k_symbols) + 24 * (Z.of_nat (length l) + 1) < 2 ^ 64 →
  s.(k_strings) = s.(k_symbols) + 24 * (Z.of_nat (length l) + 1) →
  (∀ (i : nat) e nm, (l ++ [(last, str)]) !! i = Some (e, nm) →
    decode_sym s.(k_mem) (s.(k_symbols) + 24 * Z.of_nat i) = Some e ∧
    cstr_at s.(k_mem) (ptr_add s.(k_strings) e.(st_name)) nm) →
  cstr_at s.(k_mem) name str → (∀ e nm, (e, nm) ∈ l → nm ≠ str) →
  ps4KernelDlSym sp buf argv name s = Done 0 s.
Proof.
  intros Hk Hi Hp Htop Hst Hat Hn Hno. unfold ps4KernelDlSym. rewrite Hk. cbn [negb].
  rewrite (dlsym_in_kernel_ok s buf name str l Hi); [|split; [done|lia|lia|lia|]|done].
  - unfold lookup_symbol. rewrite (proj2 (list_find_None _ _)); [done|].
    apply Forall_forall. intros [e nm] Hin [Heq _]. by apply (Hno e nm).
  - intros i e nm Hl. apply Hat. by apply lookup_app_l_Some.
Qed.

(** ** Concrete tables *)

Definition kernel_names : list byte :=
  Byte.x00 :: map byte.of_Z [115; 121; 115; 101; 110; 116] ++ [Byte.x00]
  ++ map byte.of_Z [112; 114; 105; 115; 111; 110; 48] ++ [Byte.x00].

Definition kernel_sym (n v : Z) : Elf64_Sym :=
  {| st_name := n; st_info := 17; st_other := 0; st_shndx := 1; st_value := v; st_size := 8 |}.

(** Two symbols, "sysent" and "prison0", the strings right behind them, and the
    two names again as arguments. *)
Definition kernel_mem : mem :=
  bytes_at 0x1000 (encode_sym (kernel_sym 1 0x5000) ++ encode_sym (kernel_sym 8 0x6000) ++ kernel_names)
  ∪ bytes_at 0x2000 kernel_names
  ∪ bytes_at 0x3000 (replicate 24 Byte.x00).

Definition sample_kernel : kernel := Kernel kernel_mem 1 0x1000 0x1030 0x7000.

Definition s_sysent : list byte := map byte.of_Z [115; 121; 115; 101; 110; 116].
Definition s_prison0 : list byte := map byte.of_Z [112; 114; 105; 115; 111; 110; 48].

Lemma cstr_at_check m a str :
  (0 <? a) && (a + Z.of_nat (length str) <? 2 ^ 64) && (Z.of_nat (length str) <? INT_MAX)
  && negb (bool_decide (Byte.x00 ∈ str)) = true →
  load_bytes m a (length str + 1) = Some (str ++ [Byte.x00]) → cstr_at m a str.
Proof. intros Hc Hl. zb. apply bool_decide_eq_false in H0. by split; [lia..|done|]. Qed.

Lemma sample_symtab : symtab kernel_mem 0x1000 0x1030 [(kernel_sym 1 0x5000, s_sysent)].
Proof.
  split; [done|done|done|done|]. intros [|i] e nm Hl; [|done]. injection Hl as <- <-.
  split; [vm_compute; reflexivity|]. apply cstr_at_check; vm_compute; reflexivity.
Qed.

(** No entry into the kernel. *)
Definition no_entry : KernelEntry := {|
  ke_call := λ _ _ _ s, Done 0 s;
  ke_syscall := λ _ _ _ s, Done (-1) s;
  ke_install := λ s, Done () s |}.

Definition kernel_sp : Z := 0xffffff8000001000.

Lemma ps4KernelDlSym_spec_witness :
  @ps4KernelDlSym no_entry kernel_sp 0 0 0x2001 sample_kernel = Done 0x5000 sample_kernel.
Proof.
  apply (@ps4KernelDlSym_spec no_entry sample_kernel kernel_sp 0 0 0x2001 s_sysent [(kernel_sym 1 0x5000, s_sysent)]).
  - reflexivity.
  - discriminate.
  - exact sample_symtab.
  - apply cstr_at_check; vm_compute; reflexivity.
Defined.

Lemma ps4KernelDlSym_misses_last_witness :
  @ps4KernelDlSym no_entry kernel_sp 0 0 0x2008 sample_kernel = Done 0 sample_kernel.
Proof.
  apply (@ps4KernelDlSym_misses_last no_entry sample_kernel kernel_sp 0 0 0x2008 s_prison0
    [(kernel_sym 1 0x5000, s_sysent)] (kernel_sym 8 0x6000)).
  - reflexivity.
  - discriminate.
  - reflexivity.
  - reflexivity.
  - reflexivity.
  - intros [|[|i]] e nm Hl; [..|discriminate Hl]; injection Hl as <- <-;
      (split; [vm_compute; reflexivity|apply cstr_at_check; vm_compute; reflexivity]).
  - apply cstr_at_check; vm_compute; reflexivity.
  - intros e nm Hin Heq. apply list_elem_of_singleton in Hin. injection Hin as _ Hnm.
    rewrite Hnm in Heq. discriminate Heq.
Defined.

(** ** From user mode *)

Lemma in_mem_done {A} (c : C mem A) s a m :
  c s.(k_mem) = Done a m →
  in_mem c s = Done a (Kernel m s.(k_initialized) s.(k_symbols) s.(k_strings) s.(k_executable)).
Proof. intros Hc. unfold in_mem. by rewrite Hc. Qed.

(** A pointer stored into a slot of the argument array. *)
Lemma set_slot m argv off v :
  0 < argv → argv + 24 < 2 ^ 64 → 0 ≤ off → off + 8 ≤ 24 → 0 ≤ v < 2 ^ 64 → mapped m argv 24 →
  ∃ m', set_field 8 argv off v m = Done () m' ∧ field 8 argv off m' = Done v m' ∧
    same_off m m' (argv + off) 8 ∧ mapped m' argv 24.
Proof.
  intros Hp Ht Ho Hle Hv Hm.
  destruct (write_spec m 8 (argv + off) v) as (m' & Hw & Hs & Hpk & Hx); [eapply mapped_sub; [done|lia..]|].
  rewrite Z.mod_small in Hpk by done. exists m'. unfold set_field, field, ptr_add.
  replace (argv =? 0) with false by lia. rewrite u64_small by lia.
  split_and!; [done|by apply read_peek|done|]. intros x Hx'. by apply Hx, Hm.
Qed.

Lemma slot_kept m m' argv off off' v :
  0 < argv → argv + 24 < 2 ^ 64 → 0 ≤ off' → off' + 8 ≤ 24 → disjoint off 8 off' 8 →
  same_off m m' (argv + off) 8 → field 8 argv off' m = Done v m → field 8 argv off' m' = Done v m'.
Proof.
  intros Hp Ht H0 H1 Hd Hs Hf. unfold field, ptr_add in *.
  replace (argv =? 0) with false in * by lia. rewrite u64_small in * by lia.
  apply read_inv in Hf as [Hpk _]. apply read_peek. rewrite <- Hpk. apply peek_same.
  eapply same_off_on; [exact Hs|]. unfold disjoint in *. lia.
Qed.

(** The call as seen from user mode: the array, and the tables apart from it. *)
Record user_dlsym (s : kernel) (argv name : Z) (str : list byte) (l : list (Elf64_Sym * list byte)) : Prop := {
  ud_pos : 0 < argv;
  ud_top : argv + 24 < 2 ^ 64;
  ud_mapped : mapped s.(k_mem) argv 24;
  ud_name : 0 ≤ name < 2 ^ 64;
  ud_init : s.(k_initialized) ≠ 0;
  ud_tables : ∀ m, same_off s.(k_mem) m argv 24 →
    symtab m s.(k_symbols) s.(k_strings) l ∧ cstr_at m name str }.

Lemma lookup_symbol_range m symbols strings l str :
  symtab m symbols strings l → 0 ≤ lookup_symbol l str < 2 ^ 64.
Proof.
  intros [_ _ _ _ Hat]. unfold lookup_symbol.
  destruct (list_find _ l) as [[i [s nm]]|] eqn:Hf; [|done].
  apply list_find_Some in Hf as (Hl & _ & _). destruct (Hat i s nm Hl) as [Hd _].
  apply decode_sym_fields, decode_fields_range in Hd.
  exact (fits_lookup _ _ 4 8 _ Hd eq_refl eq_refl).
Qed.

(** What is left in the array after the three stores. *)
Lemma fill_argv s argv name str l :
  user_dlsym s argv name str l →
  ∃ m, (in_mem (set_field 8 argv 0 0);; in_mem (set_field 8 argv 8 name);; in_mem (set_field 8 argv 16 0)) s =
      Done () (Kernel m s.(k_initialized) s.(k_symbols) s.(k_strings) s.(k_executable)) ∧
    field 8 argv 0 m = Done 0 m ∧ field 8 argv 8 m = Done name m ∧ mapped m argv 24 ∧
    same_off s.(k_mem) m argv 24.
Proof.
  intros [Hp Ht Hm Hn _ _].
  destruct (set_slot s.(k_mem) argv 0 0) as (m1 & Hw1 & Hf1 & Hs1 & Hm1); [lia..|done|].
  destruct (set_slot m1 argv 8 name) as (m2 & Hw2 & Hf2 & Hs2 & Hm2); [lia..|done|].
  destruct (set_slot m2 argv 16 0) as (m3 & Hw3 & Hf3 & Hs3 & Hm3); [lia..|done|].
  exists m3. split_and!.
  - rewrite (bind_done _ _ _ _ _ (in_mem_done _ s _ _ Hw1)).
    rewrite (bind_done _ _ _ _ _ (in_mem_done _ (Kernel m1 _ _ _ _) _ _ Hw2)).
    exact (in_mem_done _ (Kernel m2 _ _ _ _) _ _ Hw3).
  - eapply (slot_kept m2 _ argv 16 0); [lia..|by right|done|].
    by eapply (slot_kept m1 _ argv 8 0); [lia..|by right|done|].
  - by eapply (slot_kept m2 _ argv 16 8); [lia..|by right|done|].
  - done.
  - intros x Hx. rewrite Hs3, Hs2, Hs1 by lia. done.
Qed.

(** C18. ps4KernelDlSym agrees in both modes: called from user mode with the
    system call installed, it hands the name over in the argument array, the
    wrapper looks it up in the kernel, and the result that comes back is the
    one the kernel call gives; memory outside the array is unchanged. *)
Theorem ps4KernelDlSym_user `{KernelEntry} s sp ksp buf kargv argv name str l :
  ps4KernelIsInKernel sp = false → ps4KernelIsInKernel ksp = true →
  (∀ t, ke_syscall R_NULL 0 0 t = Done 0 t) →
  (∀ t, ke_syscall R_ps4KernelDlSymWrapper 2 argv t = ps4KernelDlSymWrapper ksp buf kargv 2 argv t) →
  user_dlsym s argv name str l →
  ∃ s', ps4KernelDlSym sp buf argv name s = Done (lookup_symbol l str) s' ∧
    ps4KernelDlSym ksp buf kargv name s = Done (lookup_symbol l str) s ∧
    same_off s.(k_mem) s'.(k_mem) argv 24.
Proof.
  intros Hu Hk Hnull Hw Hud. destruct (fill_argv _ _ _ _ _ Hud) as (m & Hfill & Hf0 & Hf8 & Hm & Hs).
  pose proof Hud as [Hp Ht _ Hn Hi Htab]. destruct (Htab m Hs) as [Hst Hcs].
  destruct (Htab s.(k_mem) ltac:(done)) as [Hst0 Hcs0].
  set (s1 := Kernel m s.(k_initialized) s.(k_symbols) s.(k_strings) s.(k_executable)) in *.
  destruct (set_slot m argv 0 (lookup_symbol l str)) as (m' & Hw' & Hf' & Hs' & _);
    [lia..|by eapply lookup_symbol_range|done|].
  assert (Hwrap : ps4KernelDlSymWrapper ksp buf kargv 2 argv s1 =
    Done 0 (Kernel m' s.(k_initialized) s.(k_symbols) s.(k_strings) s.(k_executable))).
  { unfold ps4KernelDlSymWrapper. rewrite (bind_done _ _ _ _ _ (in_mem_read _ s1 _ Hf8)).
    unfold ps4KernelDlSym. rewrite Hk. cbn [negb].
    rewrite (bind_done _ _ _ _ _ (dlsym_in_kernel_ok s1 buf name str l Hi Hst Hcs)).
    by rewrite (bind_done _ _ _ _ _ (in_mem_done _ s1 _ _ Hw')). }
  eexists. split_and!.
  - unfold ps4KernelDlSym. rewrite Hu. cbn [negb].
    apply bind_inv in Hfill as (u1 & t1 & H1 & Hfill). apply bind_inv in Hfill as (u2 & t2 & H2 & H3).
    rewrite (bind_done _ _ _ _ _ H1), (bind_done _ _ _ _ _ H2), (bind_done _ _ _ _ _ H3).
    unfold ps4KernelRunMain. rewrite Hu. rewrite bind_assoc, (bind_done _ _ _ _ _ (Hnull s1)). cbn [Z.eqb].
    rewrite (bind_done _ _ _ _ _ (eq_trans (Hw s1) Hwrap)).
    by apply (in_mem_read _ (Kernel m' _ _ _ _)).
  - unfold ps4KernelDlSym. rewrite Hk. by apply dlsym_in_kernel_ok.
  - intros x Hx. cbn. rewrite Hs' by lia. by apply Hs.
Qed.

(** If the system call is not there and cannot be installed,
    ps4KernelRunMain reports -1 without running the function, and a lookup
    from user mode gives NULL. *)
Theorem ps4KernelDlSym_unavailable `{KernelEntry} s sp buf argv name str l :
  ps4KernelIsInKernel sp = false → (∀ t, ke_syscall R_NULL 0 0 t = Done (-1) t) →
  (∀ t, ke_install t = Done () t) → user_dlsym s argv name str l →
  (∀ fn n a t, ps4KernelRunMain sp fn n a t = Done (-1) t) ∧
  ∃ s', ps4KernelDlSym sp buf argv name s = Done 0 s'.
Proof.
  intros Hu Hnull Hins Hud.
  assert (Hrun : ∀ fn n a t, ps4KernelRunMain sp fn n a t = Done (-1) t).
  { intros fn n a t. unfold ps4KernelRunMain. rewrite Hu, (bind_done _ _ _ _ _ (Hnull t)). cbn [Z.eqb Pos.eqb].
    by rewrite (bind_done _ _ _ _ _ (Hins t)), (bind_done _ _ _ _ _ (Hnull t)). }
  split; [done|]. destruct (fill_argv _ _ _ _ _ Hud) as (m & Hfill & Hf0 & _).
  eexists. unfold ps4KernelDlSym. rewrite Hu. cbn [negb].
  apply bind_inv in Hfill as (u1 & t1 & H1 & Hfill). apply bind_inv in Hfill as (u2 & t2 & H2 & H3).
  rewrite (bind_done _ _ _ _ _ H1), (bind_done _ _ _ _ _ H2), (bind_done _ _ _ _ _ H3).
  rewrite (bind_done _ _ _ _ _ (Hrun _ _ _ _)). by apply (in_mem_read _ (Kernel m _ _ _ _)).
Qed.

(** The tables of the sample do not depend on the array at 0x3000. *)
Lemma sample_tables m :
  same_off kernel_mem m 0x3000 24 →
  symtab m 0x1000 0x1030 [(kernel_sym 1 0x5000, s_sysent)] ∧ cstr_at m 0x2001 s_sysent.
Proof.
  intros Hs. split; [split; [done|done|done|done|]|].
  - intros [|i] e nm Hl; [|done]. injection Hl as <- <-. split.
    + rewrite (decode_sym_same kernel_mem m); [vm_compute; reflexivity|lia|lia|].
      eapply same_off_on; [exact Hs|right; lia].
    + apply cstr_at_check; [vm_compute; reflexivity|]. change (ptr_add 0x1030 _) with 0x1031.
      rewrite (load_bytes_same kernel_mem m); [vm_compute; reflexivity|].
      eapply same_off_on; [exact Hs|right; vm_compute; discriminate].
  - apply cstr_at_check; [vm_compute; reflexivity|].
    rewrite (load_bytes_same kernel_mem m); [vm_compute; reflexivity|].
    eapply same_off_on; [exact Hs|right; vm_compute; discriminate].
Qed.

Lemma sample_user_dlsym : user_dlsym sample_kernel 0x3000 0x2001 s_sysent [(kernel_sym 1 0x5000, s_sysent)].
Proof.
  split; [done|done| |done|done|exact sample_tables].
  assert (Hl : ∃ bs, load_bytes kernel_mem 0x3000 24 = Some bs) by (eexists; vm_compute; reflexivity).
  destruct Hl as [bs Hl]. exact (load_bytes_is_mapped _ _ _ _ Hl).
Qed.

(** An entry that runs the wrapper in the kernel. *)
Definition with_entry : KernelEntry := {|
  ke_call := λ _ _ _ s, Done 0 s;
  ke_syscall := λ fn argc argv,
    match fn with
    | R_ps4KernelDlSymWrapper => @ps4KernelDlSymWrapper no_entry kernel_sp 0 0 argc argv
    | _ => mret 0
    end;
  ke_install := mret () |}.

Lemma ps4KernelDlSym_user_witness :
  ∃ s', @ps4KernelDlSym with_entry 0x7000 0 0x3000 0x2001 sample_kernel = Done 0x5000 s'.
Proof.
  destruct (@ps4KernelDlSym_user with_entry sample_kernel 0x7000 kernel_sp 0 0 0x3000 0x2001 s_sysent
    [(kernel_sym 1 0x5000, s_sysent)]) as (s' & H1 & _).
  - reflexivity.
  - reflexivity.
  - intros t. reflexivity.
  - intros t. reflexivity.
  - exact sample_user_dlsym.
  - exists s'. exact H1.
Defined.

Lemma ps4KernelDlSym_unavailable_witness :
  ∃ s', @ps4KernelDlSym no_entry 0x7000 0 0x3000 0x2001 sample_kernel = Done 0 s'.
Proof.
  apply (@ps4KernelDlSym_unavailable no_entry sample_kernel 0x7000 0 0x3000 0x2001 s_sysent
    [(kernel_sym 1 0x5000, s_sysent)]).
  - reflexivity.
  - intros t. reflexivity.
  - intros t. reflexivity.
  - exact sample_user_dlsym.
Defined.

(** ** Executable memory *)

(** The addresses of a sequence of requests. *)
Fixpoint allocate (buf : Z) (sizes : list Z) : C kernel (list Z) :=
  match sizes with
  | [] => mret []
  | n :: sizes => a ← ps4KernelExecutableMemoryMalloc buf n; l ← allocate buf sizes; mret (a :: l)
  end.

Lemma malloc_bump s buf n :
  s.(k_initialized) ≠ 0 →
  ps4KernelExecutableMemoryMalloc buf n s =
    Done s.(k_executable) (Kernel s.(k_mem) s.(k_initialized) s.(k_symbols) s.(k_strings) (u64 (s.(k_executable) + n))).
Proof.
  intros Hi. unfold ps4KernelExecutableMemoryMalloc.
  rewrite bind_done with (a := s.(k_initialized)) (s' := s) by done.
  unfold c_true. replace (k_initialized s =? 0) with false by lia. done.
Qed.

(** Blocks of executable memory do not overlap: a sequence of requests that
    fits the address space gets consecutive blocks, each above the one
    before. *)
Theorem executable_blocks_disjoint s buf sizes :
  s.(k_initialized) ≠ 0 → 0 ≤ s.(k_executable) → Forall (λ n, 0 ≤ n) sizes →
  s.(k_executable) + foldr Z.add 0 sizes < 2 ^ 64 →
  ∃ l s', allocate buf sizes s = Done l s' ∧ length l = length sizes ∧
    (∀ (i j : nat) a b n, (i < j)%nat → l !! i = Some a → l !! j = Some b → sizes !! i = Some n → a + n ≤ b) ∧
    ∀ (i : nat) a, l !! i = Some a → s.(k_executable) ≤ a.
Proof.
  intros Hi Ha Hn. revert s Hi Ha. induction Hn as [|n sizes Hn Hns IH]; intros s Hi Ha Hsum.
  - exists [], s. split_and!; [done|done|..]; intros; by rewrite lookup_nil in *.
  - cbn [foldr] in Hsum. cbn [allocate].
    assert (0 ≤ foldr Z.add 0 sizes) by (clear -Hns; induction Hns; simpl; lia).
    rewrite (bind_done _ _ _ _ _ (malloc_bump s buf n Hi)). rewrite u64_small by lia.
    destruct (IH (Kernel s.(k_mem) s.(k_initialized) s.(k_symbols) s.(k_strings) (s.(k_executable) + n)) Hi)
      as (l & s' & Hl & Hlen & Hdis & Hlow); cbn [k_executable] in *; [lia|lia|].
    rewrite (bind_done _ _ _ _ _ Hl). eexists (_ :: l), s'. split_and!; [done|simpl; lia|..].
    + intros [|i] [|j] a b k Hij H1 H2 H3; simplify_eq/=; [lia|specialize (Hlow j b H2); lia|lia|].
      apply (Hdis i j); [lia|done..].
    + intros [|i] a H1; simplify_eq/=; [lia|]. specialize (Hlow i a H1). lia.
Qed.

Lemma executable_blocks_disjoint_witness :
  ∃ l s', allocate 0 [16; 32; 8] sample_kernel = Done l s' ∧ length l = 3%nat.
Proof.
  destruct (executable_blocks_disjoint sample_kernel 0 [16; 32; 8]) as (l & s' & H1 & H2 & _).
  - discriminate.
  - discriminate.
  - repeat constructor; discriminate.
  - reflexivity.
  - exists l, s'. split; [exact H1|exact H2].
Defined.

(** An address is a kernel address exactly if it lies above the 48-bit user
    half. *)
Theorem ps4KernelIsKernelAddress_spec addr :
  0 ≤ addr < 2 ^ 64 → ps4KernelIsKernelAddress addr = true ↔ 2 ^ 48 ≤ addr.
Proof.
  intros Ha. unfold ps4KernelIsKernelAddress. rewrite Z.ltb_lt, Z.shiftr_div_pow2 by lia.
  split; intros Hd.
  - assert (1 ≤ addr / 2 ^ 48) by lia. pose proof (Z.mul_div_le addr (2 ^ 48)). lia.
  - apply Z.div_str_pos. lia.
Qed.

Lemma ps4KernelIsKernelAddress_spec_witness : ps4KernelIsKernelAddress kernel_sp = true.
Proof.
  apply ps4KernelIsKernelAddress_spec; [split; [discriminate|reflexivity]|vm_compute; discriminate].
Defined.

(** ** Finding the kernel image *)

(** The magic of a kernel image is at [p]. *)
Definition magic_at (m : mem) (p : Z) : bool :=
  bool_decide (load_bytes m p 9 = Some (map byte.of_Z elfMagic)).

(** The pages the search visits. *)
Definition seek_page (i : Z) : Z := PS4KernelElfSeekAddress + i * PS4KernelElfPageSize.

Lemma magic_bytes i z : elfMagic !! i = Some z → 0 ≤ z < 2 ^ 8.
Proof. do 9 (destruct i as [|i]; [intros [= <-]; lia|]). done. Qed.

Lemma has_magic_ok m p :
  0 < p → p + 9 ≤ 2 ^ 64 → mapped m p 9 → has_magic p m = Done (magic_at m p) m.
Proof.
  intros Hp Ht Hm. destruct (load_bytes_mapped m p 9 Hm) as [bs Hbs].
  pose proof (load_bytes_length _ _ _ _ Hbs) as Hlen.
  apply load_bytes_spec in Hbs as Hat. destruct Hat as [_ Hat].
  set (hit i := negb (match bs !! Z.to_nat i, elfMagic !! Z.to_nat i with
                      | Some b, Some e => byte.unsigned b =? e | _, _ => false end)).
  unfold has_magic. erewrite bind_done; [|apply (for_range_first _ _ _ _ hit (λ _, ()))].
  2:{ intros i Hi. change (Z.of_nat (length elfMagic)) with 9 in Hi.
      destruct (lookup_lt_is_Some_2 bs (Z.to_nat i)) as [b Hb]; [lia|].
      destruct (lookup_lt_is_Some_2 elfMagic (Z.to_nat i)) as [e He]; [simpl; lia|].
      unfold hit. rewrite Hb, He.
      erewrite bind_done; [|apply field_peek; [lia|]].
      2:{ unfold peek, ptr_add. rewrite u64_small by lia. cbn [load_bytes].
          pose proof (Hat (Z.to_nat i) ltac:(lia)) as Hi'. rewrite Z2Nat.id in Hi' by lia. rewrite Hi', Hb.
          simpl. by rewrite le_combine_1. }
      cbn [init]. erewrite bind_done by reflexivity. by destruct (byte.unsigned b =? e). }
  pose proof (first_in_spec 0 (Z.of_nat (length elfMagic)) hit) as Hf.
  unfold magic_at. rewrite Hbs. destruct (first_in _ _ _) as [i|].
  - destruct Hf as (Hi & Hh & _). rewrite bool_decide_eq_false_2; [done|]. intros Heq%(inj Some). subst bs.
    unfold hit in Hh. change (map byte.of_Z elfMagic) with (byte.of_Z <$> elfMagic) in Hh.
    rewrite list_lookup_fmap in Hh. change (Z.of_nat (length elfMagic)) with 9 in Hi.
    destruct (lookup_lt_is_Some_2 elfMagic (Z.to_nat i)) as [e He]; [simpl; lia|]. rewrite He in Hh. simpl in Hh.
    rewrite byte.unsigned_of_Z in Hh. apply magic_bytes in He. unfold byte.wrap in Hh.
    rewrite Z.mod_small in Hh by lia. rewrite Z.eqb_refl in Hh. done.
  - rewrite bool_decide_eq_true_2; [done|]. f_equal. apply list_eq_same_length with 9%nat; [done|done|].
    intros i b b' Hi Hb Hb'. change (map byte.of_Z elfMagic) with (byte.of_Z <$> elfMagic) in Hb'.
    rewrite list_lookup_fmap in Hb'. apply fmap_Some in Hb' as (e & He & ->).
    specialize (Hf (Z.of_nat i)). unfold hit in Hf. rewrite Nat2Z.id, Hb, He in Hf.
    change (Z.of_nat (length elfMagic)) with 9 in Hf. specialize (Hf ltac:(lia)).
    apply negb_false_iff, Z.eqb_eq in Hf. by rewrite <- Hf, byte.of_Z_unsigned.
Qed.

Lemma seek_page_range i : 0 ≤ i < 2048 → 0 < seek_page i ∧ seek_page i + 9 ≤ 2 ^ 64.
Proof. unfold seek_page, PS4KernelElfSeekAddress, PS4KernelElfPageSize. lia. Qed.

(** The page is readable and holds no image. *)
Definition no_image (m : mem) (p : Z) : Prop := mapped m p 9 ∧ magic_at m p = false.

Lemma magic_mapped m p : magic_at m p = true → mapped m p 9.
Proof. unfold magic_at. intros H%bool_decide_eq_true. exact (load_bytes_is_mapped _ _ _ _ H). Qed.

Lemma seek_ok m k :
  0 ≤ k ≤ 2048 → mapped m PS4KernelElfSeekStaticAddress 9 →
  (∀ j, 0 ≤ j < k → no_image m (seek_page j)) →
  (k < 2048 → magic_at m (seek_page k) = true) →
  ps4KernelElfSeek m =
    Done (if magic_at m PS4KernelElfSeekStaticAddress then PS4KernelElfSeekStaticAddress
          else if k =? 2048 then 0 else seek_page k) m.
Proof.
  intros Hk Hs Hno Hyes. unfold ps4KernelElfSeek.
  assert (0 < PS4KernelElfSeekStaticAddress ∧ PS4KernelElfSeekStaticAddress + 9 ≤ 2 ^ 64) as [? ?]
    by (unfold PS4KernelElfSeekStaticAddress; lia).
  rewrite (bind_done _ _ _ _ _ (has_magic_ok m _ ltac:(done) ltac:(done) Hs)).
  destruct (magic_at m PS4KernelElfSeekStaticAddress); [done|].
  change (PS4KernelElfSeekSize / PS4KernelElfPageSize) with 2048.
  set (body := λ (i : Z) (_ : ()), _).
  assert (Hbody : ∀ i, 0 ≤ i < 2048 → i ≤ k →
    body i () m = Done (if i =? k then inr (seek_page i) else inl ()) m).
  { intros i Hi Hik. destruct (seek_page_range i Hi). unfold body. fold (seek_page i).
    destruct (Z.eqb_spec i k) as [->|].
    - rewrite (bind_done _ _ _ _ _ (has_magic_ok m (seek_page k) ltac:(done) ltac:(done) (magic_mapped _ _ (Hyes ltac:(lia))))).
      by rewrite Hyes by lia.
    - destruct (Hno i) as [Hm Hf]; [lia|].
      rewrite (bind_done _ _ _ _ _ (has_magic_ok m (seek_page i) ltac:(done) ltac:(done) Hm)). by rewrite Hf. }
  erewrite bind_done; [|apply (for_range_upto _ 0 2048 k m seek_page); [lia|exact Hbody]].
  by destruct (k =? 2048).
Qed.

(** C19. The search for the kernel image gives the static address if the magic is
    there, and otherwise the lowest 16 kB page of the 32 MB window that holds
    it, reading nothing above that page; it gives NULL if no page does. *)
Theorem ps4KernelElfSeek_first m k :
  0 ≤ k ≤ 2048 → mapped m PS4KernelElfSeekStaticAddress 9 →
  (∀ j, 0 ≤ j < k → no_image m (seek_page j)) →
  (k < 2048 → magic_at m (seek_page k) = true) →
  ps4KernelElfSeek m =
    Done (if magic_at m PS4KernelElfSeekStaticAddress then PS4KernelElfSeekStaticAddress
          else if k =? 2048 then 0 else seek_page k) m.
Proof. apply seek_ok. Qed.

(** An image on the second page of the window. *)
Definition seek_mem : mem :=
  bytes_at PS4KernelElfSeekStaticAddress (replicate 9 Byte.x00) ∪
  (bytes_at (seek_page 0) (replicate 9 Byte.x7f) ∪ bytes_at (seek_page 1) (map byte.of_Z elfMagic)).

Lemma ps4KernelElfSeek_first_witness : ps4KernelElfSeek seek_mem = Done 0xffffffff80004000 seek_mem.
Proof.
  assert (Hmap : ∀ p l, load_bytes seek_mem p 9 = Some l → mapped seek_mem p 9)
    by (intros p l; exact (load_bytes_is_mapped seek_mem p 9 l)).
  rewrite (ps4KernelElfSeek_first seek_mem 1).
  - reflexivity.
  - split; discriminate.
  - eapply Hmap. vm_compute. reflexivity.
  - intros j Hj. replace j with 0 by lia. split; [eapply Hmap; vm_compute; reflexivity|vm_compute; reflexivity].
  - intros _. vm_compute. reflexivity.
Defined.
