(* ===== verification/Queue.v ===== *)
(** * Linked lists and queues

    include/sys/queue.h: the four kinds of lists, SLIST, STAILQ, LIST and
    TAILQ, one definition per macro.  Memory is a map from the addresses of
    pointer variables to their contents; [o] is the offset of the link field
    in an element, so that [field.tqe_next] of element [e] is the variable at
    [e + o] and [field.tqe_prev] the one at [e + o + 8].  A head is at its
    address, its [last] pointer 8 bytes after it.  The debugging fields and
    the trashing of old links (QUEUE_MACRO_DEBUG) are off, as by default. *)

From S2P Require Import Prelude.

Abbreviation cells := (gmap Z Z).

(** A pointer variable: NULL and unmapped addresses trap. *)
Definition rd (a : Z) : C cells Z := λ m,
  match m !! a with Some v => Done v m | None => UB end.
Definition wr (a v : Z) : C cells () := λ m,
  match m !! a with Some _ => Done () (<[a := v]> m) | None => UB end.

(** [*(p + off)] for an object at [p] *)
Definition rd_at (p off : Z) : C cells Z := if p =? 0 then ub else rd (p + off).
Definition wr_at (p off v : Z) : C cells () := if p =? 0 then ub else wr (p + off) v.

(** [for (var = first; var; var = next(var)) body]: the body gets an
    accumulator; every element is a mapped variable of its own, which bounds
    the number of rounds of a list that does not loop. *)
Definition foreach_fuel (m : cells) : nat := S (size m).

Definition foreach {A} (first : C cells Z) (next : Z → C cells Z) (acc : A)
    (body : Z → A → C cells A) : C cells A :=
  m ← getS;
  var ← first;
  while (foreach_fuel m) (var, acc) (λ '(var, acc),
    if var =? 0 then mret (inr acc) else
    acc ← body var acc;
    var ← next var;
    mret (inl (var, acc))).

(** [for (var = first; var && ((tvar = next(var)), 1); var = tvar) body] *)
Definition foreach_safe {A} (first : C cells Z) (next : Z → C cells Z) (acc : A)
    (body : Z → A → C cells A) : C cells A :=
  m ← getS;
  var ← first;
  while (foreach_fuel m) (var, acc) (λ '(var, acc),
    if var =? 0 then mret (inr acc) else
    tvar ← next var;
    acc ← body var acc;
    mret (inl (tvar, acc))).

Section Queue.
Variable o : Z.

(** ** Singly-linked lists *)

Definition SLIST_FIRST (head : Z) : C cells Z := rd_at head 0.
Definition set_SLIST_FIRST (head v : Z) : C cells () := wr_at head 0 v.
Definition SLIST_NEXT (elm : Z) : C cells Z := rd_at elm o.
Definition set_SLIST_NEXT (elm v : Z) : C cells () := wr_at elm o v.

Definition SLIST_EMPTY (head : Z) : C cells bool := f ← SLIST_FIRST head; mret (f =? 0).

Definition SLIST_FOREACH {A} (head : Z) : A → (Z → A → C cells A) → C cells A :=
  foreach (SLIST_FIRST head) SLIST_NEXT.
Definition SLIST_FOREACH_SAFE {A} (head : Z) : A → (Z → A → C cells A) → C cells A :=
  foreach_safe (SLIST_FIRST head) SLIST_NEXT.

(** The body also gets the address of the pointer to the element. *)
Definition SLIST_FOREACH_PREVPTR {A} (head : Z) (acc : A) (body : Z → Z → A → C cells A) : C cells A :=
  m ← getS;
  while (foreach_fuel m) (head, acc) (λ '(varp, acc),
    var ← rd varp;
    if var =? 0 then mret (inr acc) else
    acc ← body var varp acc;
    mret (inl (var + o, acc))).

Definition SLIST_INIT (head : Z) : C cells () := set_SLIST_FIRST head 0.

Definition SLIST_INSERT_AFTER (slistelm elm : Z) : C cells () :=
  n ← SLIST_NEXT slistelm;
  set_SLIST_NEXT elm n;;
  set_SLIST_NEXT slistelm elm.

Definition SLIST_INSERT_HEAD (head elm : Z) : C cells () :=
  f ← SLIST_FIRST head;
  set_SLIST_NEXT elm f;;
  set_SLIST_FIRST head elm.

Definition SLIST_REMOVE_AFTER (elm : Z) : C cells () :=
  n ← SLIST_NEXT elm;
  nn ← SLIST_NEXT n;
  set_SLIST_NEXT elm nn.

Definition SLIST_REMOVE_HEAD (head : Z) : C cells () :=
  f ← SLIST_FIRST head;
  n ← SLIST_NEXT f;
  set_SLIST_FIRST head n.

(** [while (NEXT(curelm) != elm) curelm = NEXT(curelm);] *)
Definition seek_before (next : Z → C cells Z) (curelm elm : Z) : C cells Z :=
  m ← getS;
  while (foreach_fuel m) curelm (λ curelm,
    n ← next curelm;
    if n =? elm then mret (inr curelm) else mret (inl n)).

Definition SLIST_REMOVE (head elm : Z) : C cells () :=
  f ← SLIST_FIRST head;
  if f =? elm then SLIST_REMOVE_HEAD head else
  curelm ← SLIST_FIRST head;
  curelm ← seek_before SLIST_NEXT curelm elm;
  SLIST_REMOVE_AFTER curelm.

Definition SLIST_SWAP (head1 head2 : Z) : C cells () :=
  swap_first ← SLIST_FIRST head1;
  f ← SLIST_FIRST head2;
  set_SLIST_FIRST head1 f;;
  set_SLIST_FIRST head2 swap_first.

(** ** Singly-linked tail queues *)

Definition STAILQ_FIRST (head : Z) : C cells Z := rd_at head 0.
Definition set_STAILQ_FIRST (head v : Z) : C cells () := wr_at head 0 v.
Definition stqh_last (head : Z) : C cells Z := rd_at head 8.
Definition set_stqh_last (head v : Z) : C cells () := wr_at head 8 v.
Definition STAILQ_NEXT (elm : Z) : C cells Z := rd_at elm o.
Definition set_STAILQ_NEXT (elm v : Z) : C cells () := wr_at elm o v.

Definition STAILQ_EMPTY (head : Z) : C cells bool := f ← STAILQ_FIRST head; mret (f =? 0).

Definition STAILQ_INIT (head : Z) : C cells () :=
  set_STAILQ_FIRST head 0;;
  set_stqh_last head head.

Definition STAILQ_CONCAT (head1 head2 : Z) : C cells () :=
  e ← STAILQ_EMPTY head2;
  if e : bool then mret () else
  f ← STAILQ_FIRST head2;
  l ← stqh_last head1;
  wr l f;;
  l2 ← stqh_last head2;
  set_stqh_last head1 l2;;
  STAILQ_INIT head2.

Definition STAILQ_FOREACH {A} (head : Z) : A → (Z → A → C cells A) → C cells A :=
  foreach (STAILQ_FIRST head) STAILQ_NEXT.
Definition STAILQ_FOREACH_SAFE {A} (head : Z) : A → (Z → A → C cells A) → C cells A :=
  foreach_safe (STAILQ_FIRST head) STAILQ_NEXT.

Definition STAILQ_INSERT_AFTER (head tqelm elm : Z) : C cells () :=
  n ← STAILQ_NEXT tqelm;
  set_STAILQ_NEXT elm n;;
  (if n =? 0 then set_stqh_last head (elm + o) else mret ());;
  set_STAILQ_NEXT tqelm elm.

Definition STAILQ_INSERT_HEAD (head elm : Z) : C cells () :=
  f ← STAILQ_FIRST head;
  set_STAILQ_NEXT elm f;;
  (if f =? 0 then set_stqh_last head (elm + o) else mret ());;
  set_STAILQ_FIRST head elm.

Definition STAILQ_INSERT_TAIL (head elm : Z) : C cells () :=
  set_STAILQ_NEXT elm 0;;
  l ← stqh_last head;
  wr l elm;;
  set_stqh_last head (elm + o).

Definition STAILQ_LAST (head : Z) : C cells Z :=
  e ← STAILQ_EMPTY head;
  if e : bool then mret 0 else
  l ← stqh_last head;
  mret (l - o).

Definition STAILQ_REMOVE_AFTER (head elm : Z) : C cells () :=
  n ← STAILQ_NEXT elm;
  nn ← STAILQ_NEXT n;
  set_STAILQ_NEXT elm nn;;
  (if nn =? 0 then set_stqh_last head (elm + o) else mret ()).

Definition STAILQ_REMOVE_HEAD (head : Z) : C cells () :=
  f ← STAILQ_FIRST head;
  n ← STAILQ_NEXT f;
  set_STAILQ_FIRST head n;;
  (if n =? 0 then set_stqh_last head head else mret ()).

Definition STAILQ_REMOVE (head elm : Z) : C cells () :=
  f ← STAILQ_FIRST head;
  if f =? elm then STAILQ_REMOVE_HEAD head else
  curelm ← STAILQ_FIRST head;
  curelm ← seek_before STAILQ_NEXT curelm elm;
  STAILQ_REMOVE_AFTER head curelm.

Definition STAILQ_SWAP (head1 head2 : Z) : C cells () :=
  swap_first ← STAILQ_FIRST head1;
  swap_last ← stqh_last head1;
  f ← STAILQ_FIRST head2;
  set_STAILQ_FIRST head1 f;;
  l ← stqh_last head2;
  set_stqh_last head1 l;;
  set_STAILQ_FIRST head2 swap_first;;
  set_stqh_last head2 swap_last;;
  e1 ← STAILQ_EMPTY head1;
  (if e1 : bool then set_stqh_last head1 head1 else mret ());;
  e2 ← STAILQ_EMPTY head2;
  (if e2 : bool then set_stqh_last head2 head2 else mret ()).

(** ** Lists *)

Definition LIST_FIRST (head : Z) : C cells Z := rd_at head 0.
Definition set_LIST_FIRST (head v : Z) : C cells () := wr_at head 0 v.
Definition LIST_NEXT (elm : Z) : C cells Z := rd_at elm o.
Definition set_LIST_NEXT (elm v : Z) : C cells () := wr_at elm o v.
Definition le_prev (elm : Z) : C cells Z := rd_at elm (o + 8).
Definition set_le_prev (elm v : Z) : C cells () := wr_at elm (o + 8) v.

Definition LIST_EMPTY (head : Z) : C cells bool := f ← LIST_FIRST head; mret (f =? 0).

(** The checks of a kernel with INVARIANTS: true is a panic. *)
Definition QMD_LIST_CHECK_HEAD (head : Z) : C cells bool :=
  f ← LIST_FIRST head;
  if f =? 0 then mret false else
  p ← le_prev f;
  mret (negb (p =? head)).
Definition QMD_LIST_CHECK_NEXT (elm : Z) : C cells bool :=
  n ← LIST_NEXT elm;
  if n =? 0 then mret false else
  p ← le_prev n;
  mret (negb (p =? elm + o)).
Definition QMD_LIST_CHECK_PREV (elm : Z) : C cells bool :=
  p ← le_prev elm;
  v ← rd p;
  mret (negb (v =? elm)).

Definition LIST_FOREACH {A} (head : Z) : A → (Z → A → C cells A) → C cells A :=
  foreach (LIST_FIRST head) LIST_NEXT.
Definition LIST_FOREACH_SAFE {A} (head : Z) : A → (Z → A → C cells A) → C cells A :=
  foreach_safe (LIST_FIRST head) LIST_NEXT.

Definition LIST_INIT (head : Z) : C cells () := set_LIST_FIRST head 0.

Definition LIST_INSERT_AFTER (listelm elm : Z) : C cells () :=
  n ← LIST_NEXT listelm;
  set_LIST_NEXT elm n;;
  (if n =? 0 then mret () else
   n' ← LIST_NEXT listelm;
   set_le_prev n' (elm + o));;
  set_LIST_NEXT listelm elm;;
  set_le_prev elm (listelm + o).

Definition LIST_INSERT_BEFORE (listelm elm : Z) : C cells () :=
  p ← le_prev listelm;
  set_le_prev elm p;;
  set_LIST_NEXT elm listelm;;
  p' ← le_prev listelm;
  wr p' elm;;
  set_le_prev listelm (elm + o).

Definition LIST_INSERT_HEAD (head elm : Z) : C cells () :=
  f ← LIST_FIRST head;
  set_LIST_NEXT elm f;;
  (if f =? 0 then mret () else
   f' ← LIST_FIRST head;
   set_le_prev f' (elm + o));;
  set_LIST_FIRST head elm;;
  set_le_prev elm head.

Definition LIST_REMOVE (elm : Z) : C cells () :=
  n ← LIST_NEXT elm;
  (if n =? 0 then mret () else
   n' ← LIST_NEXT elm;
   p ← le_prev elm;
   set_le_prev n' p);;
  n ← LIST_NEXT elm;
  p ← le_prev elm;
  wr p n.

Definition LIST_SWAP (head1 head2 : Z) : C cells () :=
  swap_tmp ← LIST_FIRST head1;
  f ← LIST_FIRST head2;
  set_LIST_FIRST head1 f;;
  set_LIST_FIRST head2 swap_tmp;;
  swap_tmp ← LIST_FIRST head1;
  (if swap_tmp =? 0 then mret () else set_le_prev swap_tmp head1);;
  swap_tmp ← LIST_FIRST head2;
  (if swap_tmp =? 0 then mret () else set_le_prev swap_tmp head2).

(** ** Tail queues *)

Definition TAILQ_FIRST (head : Z) : C cells Z := rd_at head 0.
Definition set_TAILQ_FIRST (head v : Z) : C cells () := wr_at head 0 v.
Definition tqh_last (head : Z) : C cells Z := rd_at head 8.
Definition set_tqh_last (head v : Z) : C cells () := wr_at head 8 v.
Definition TAILQ_NEXT (elm : Z) : C cells Z := rd_at elm o.
Definition set_TAILQ_NEXT (elm v : Z) : C cells () := wr_at elm o v.
Definition tqe_prev (elm : Z) : C cells Z := rd_at elm (o + 8).
Definition set_tqe_prev (elm v : Z) : C cells () := wr_at elm (o + 8) v.

Definition TAILQ_EMPTY (head : Z) : C cells bool := f ← TAILQ_FIRST head; mret (f =? 0).

(** The checks of a kernel with INVARIANTS: true is a panic. *)
Definition QMD_TAILQ_CHECK_HEAD (head : Z) : C cells bool :=
  e ← TAILQ_EMPTY head;
  if e : bool then mret false else
  f ← TAILQ_FIRST head;
  p ← tqe_prev f;
  mret (negb (p =? head)).
Definition QMD_TAILQ_CHECK_TAIL (head : Z) : C cells bool :=
  l ← tqh_last head;
  v ← rd l;
  mret (negb (v =? 0)).
Definition QMD_TAILQ_CHECK_NEXT (elm : Z) : C cells bool :=
  n ← TAILQ_NEXT elm;
  if n =? 0 then mret false else
  p ← tqe_prev n;
  mret (negb (p =? elm + o)).
Definition QMD_TAILQ_CHECK_PREV (elm : Z) : C cells bool :=
  p ← tqe_prev elm;
  v ← rd p;
  mret (negb (v =? elm)).

Definition TAILQ_INIT (head : Z) : C cells () :=
  set_TAILQ_FIRST head 0;;
  set_tqh_last head head.

Definition TAILQ_CONCAT (head1 head2 : Z) : C cells () :=
  e ← TAILQ_EMPTY head2;
  if e : bool then mret () else
  f ← TAILQ_FIRST head2;
  l ← tqh_last head1;
  wr l f;;
  f ← TAILQ_FIRST head2;
  l ← tqh_last head1;
  set_tqe_prev f l;;
  l2 ← tqh_last head2;
  set_tqh_last head1 l2;;
  TAILQ_INIT head2.

(** The head and an entry begin alike: a next pointer, then the address of
    the previous next pointer. *)
Definition TAILQ_LAST (head : Z) : C cells Z :=
  l ← tqh_last head;
  p ← tqh_last l;
  rd p.
Definition TAILQ_PREV (elm : Z) : C cells Z :=
  p ← tqe_prev elm;
  l ← tqh_last p;
  rd l.

Definition TAILQ_FOREACH {A} (head : Z) : A → (Z → A → C cells A) → C cells A :=
  foreach (TAILQ_FIRST head) TAILQ_NEXT.
Definition TAILQ_FOREACH_SAFE {A} (head : Z) : A → (Z → A → C cells A) → C cells A :=
  foreach_safe (TAILQ_FIRST head) TAILQ_NEXT.
Definition TAILQ_FOREACH_REVERSE {A} (head : Z) : A → (Z → A → C cells A) → C cells A :=
  foreach (TAILQ_LAST head) TAILQ_PREV.
Definition TAILQ_FOREACH_REVERSE_SAFE {A} (head : Z) : A → (Z → A → C cells A) → C cells A :=
  foreach_safe (TAILQ_LAST head) TAILQ_PREV.

Definition TAILQ_INSERT_AFTER (head listelm elm : Z) : C cells () :=
  n ← TAILQ_NEXT listelm;
  set_TAILQ_NEXT elm n;;
  (if n =? 0 then set_tqh_last head (elm + o) else
   n' ← TAILQ_NEXT elm;
   set_tqe_prev n' (elm + o));;
  set_TAILQ_NEXT listelm elm;;
  set_tqe_prev elm (listelm + o).

Definition TAILQ_INSERT_BEFORE (listelm elm : Z) : C cells () :=
  p ← tqe_prev listelm;
  set_tqe_prev elm p;;
  set_TAILQ_NEXT elm listelm;;
  p' ← tqe_prev listelm;
  wr p' elm;;
  set_tqe_prev listelm (elm + o).

Definition TAILQ_INSERT_HEAD (head elm : Z) : C cells () :=
  f ← TAILQ_FIRST head;
  set_TAILQ_NEXT elm f;;
  (if f =? 0 then set_tqh_last head (elm + o) else
   f' ← TAILQ_FIRST head;
   set_tqe_prev f' (elm + o));;
  set_TAILQ_FIRST head elm;;
  set_tqe_prev elm head.

Definition TAILQ_INSERT_TAIL (head elm : Z) : C cells () :=
  set_TAILQ_NEXT elm 0;;
  l ← tqh_last head;
  set_tqe_prev elm l;;
  l ← tqh_last head;
  wr l elm;;
  set_tqh_last head (elm + o).

Definition TAILQ_REMOVE (head elm : Z) : C cells () :=
  n ← TAILQ_NEXT elm;
  (if n =? 0 then
     p ← tqe_prev elm;
     set_tqh_last head p
   else
     n' ← TAILQ_NEXT elm;
     p ← tqe_prev elm;
     set_tqe_prev n' p);;
  n ← TAILQ_NEXT elm;
  p ← tqe_prev elm;
  wr p n.

Definition TAILQ_SWAP (head1 head2 : Z) : C cells () :=
  swap_first ← TAILQ_FIRST head1;
  swap_last ← tqh_last head1;
  f ← TAILQ_FIRST head2;
  set_TAILQ_FIRST head1 f;;
  l ← tqh_last head2;
  set_tqh_last head1 l;;
  set_TAILQ_FIRST head2 swap_first;;
  set_tqh_last head2 swap_last;;
  swap_first ← TAILQ_FIRST head1;
  (if swap_first =? 0 then set_tqh_last head1 head1 else set_tqe_prev swap_first head1);;
  swap_first ← TAILQ_FIRST head2;
  (if swap_first =? 0 then set_tqh_last head2 head2 else set_tqe_prev swap_first head2).

End Queue.
