(* ===== verification/QueueSpec.v ===== *)
(** * Lists represented by queues

    What the lists of Queue.v stand for.  [queue m h l]: the head at [h]
    represents the list [l] of element addresses.  One definition serves the
    four kinds: [back] says whether entries have a pointer to the previous
    link, [tail] whether the head has a pointer to the last link.  Every
    insertion and every removal of the four kinds is an instance of
    [insert_at] or [remove_at]. *)

From S2P Require Import Prelude.
From S2P Require Import Queue.

Section Spec.
Context (o : Z) (back tail : bool).

(** Sizes of the link field and of the head. *)
Definition esize : Z := if back then 16 else 8.
Definition hsize : Z := if tail then 16 else 8.

(** The address of the last link of a list whose first link is at [pp]. *)
Fixpoint endc (pp : Z) (l : list Z) : Z :=
  match l with [] => pp | e :: l => endc (e + o) l end.

Definition first (q : Z) (l : list Z) : Z := match l with [] => q | e :: _ => e end.

(** The links from [pp] run through [l] and end in [q]. *)
Fixpoint seg (m : cells) (pp : Z) (l : list Z) (q : Z) : Prop :=
  match l with
  | [] => m !! pp = Some q
  | e :: l => m !! pp = Some e ∧ e ≠ 0 ∧ (back = true → m !! (e + (o + 8)) = Some pp) ∧ seg m (e + o) l q
  end.

(** The heads and the elements of a program: objects that do not overlap. *)
Record world (heads elems : list Z) : Prop := {
  w_elems : ∀ e e', e ∈ elems → e' ∈ elems → e ≠ e' → esize ≤ Z.abs (e - e');
  w_heads : ∀ h e, h ∈ heads → e ∈ elems → h + hsize ≤ e + o ∨ e + o + esize ≤ h;
  w_apart : ∀ h h', h ∈ heads → h' ∈ heads → h ≠ h' → hsize ≤ Z.abs (h - h');
  w_elem0 : 0 ∉ elems;
  w_link0 : ∀ e, e ∈ elems → e + o ≠ 0;
  w_head0 : 0 ∉ heads }.

Record alive (heads elems : list Z) (m : cells) : Prop := {
  al_first : ∀ h, h ∈ heads → is_Some (m !! h);
  al_last : ∀ h, h ∈ heads → tail = true → is_Some (m !! (h + 8));
  al_next : ∀ e, e ∈ elems → is_Some (m !! (e + o));
  al_prev : ∀ e, e ∈ elems → back = true → is_Some (m !! (e + (o + 8))) }.

Record queue (elems : list Z) (m : cells) (h : Z) (l : list Z) : Prop := {
  q_elems : l ⊆ elems;
  q_nodup : NoDup l;
  q_seg : seg m h l 0;
  q_last : tail = true → m !! (h + 8) = Some (endc h l) }.

(** ** Segments *)

Lemma endc_app pp l1 l2 : endc pp (l1 ++ l2) = endc (endc pp l1) l2.
Proof. revert pp. induction l1 as [|e l1 IH]; intros pp; simpl; [done|apply IH]. Qed.

Lemma endc_in pp l : endc pp l = pp ∨ ∃ e, e ∈ l ∧ endc pp l = e + o.
Proof.
  revert pp. induction l as [|e l IH]; intros pp; simpl; [by left|]. right.
  destruct (IH (e + o)) as [->|(e' & He & ->)]; [exists e|exists e']; split; [set_solver|done|set_solver|done].
Qed.

Lemma endc_cons_any pp pp' e l : endc pp (e :: l) = endc pp' (e :: l).
Proof. done. Qed.

Lemma seg_app m pp l1 l2 q :
  seg m pp (l1 ++ l2) q ↔ seg m pp l1 (first q l2) ∧ seg m (endc pp l1) l2 q.
Proof.
  revert pp. induction l1 as [|e l1 IH]; intros pp; simpl.
  - destruct l2; simpl; naive_solver.
  - rewrite IH. naive_solver.
Qed.

Lemma queue_seg_end m pp l q : seg m pp l q → m !! endc pp l = Some q.
Proof. revert pp. induction l as [|e l IH]; intros pp; simpl; [done|]. intros (_ & _ & _ & H). by apply IH. Qed.

(** The variables a segment reads. *)
Definition touches (pp : Z) (l : list Z) (a : Z) : Prop :=
  a = pp ∨ ∃ e, e ∈ l ∧ (a = e + o ∨ back = true ∧ a = e + (o + 8)).

Lemma seg_frame m m' pp l q :
  seg m pp l q → (∀ a, touches pp l a → m' !! a = m !! a) → seg m' pp l q.
Proof.
  revert pp. induction l as [|e l IH]; intros pp Hs Ha; simpl in *.
  - rewrite Ha; [done|by left].
  - destruct Hs as (H1 & H2 & H3 & H4). split_and!; [rewrite Ha; [done|by left]|done| |].
    + intros Hb. rewrite Ha; [by apply H3|]. right. exists e. split; [set_solver|auto].
    + apply IH; [done|]. intros a [->|(e' & He & Hc)]; apply Ha; right;
        [exists e|exists e']; (split; [set_solver|auto]).
Qed.

(** The first link of a suffix is the head or the link of an element of the
    prefix. *)
Lemma endc_cases h l1 :
  l1 = [] ∧ endc h l1 = h ∨ ∃ x, x ∈ l1 ∧ endc h l1 = x + o.
Proof.
  destruct l1 as [|e l1]; [by left|right]. simpl. destruct (endc_in (e + o) l1) as [->|(x & ? & ->)];
    [exists e|exists x]; split; [set_solver|done|set_solver|done].
Qed.

(** The variables that belong to the head and to elements of [l]. *)
Definition owned (h : Z) (l : list Z) (a : Z) : Prop := touches h l a ∨ tail = true ∧ a = h + 8.

Lemma owned_next h l e : e ∈ l → owned h l (e + o).
Proof. left. right. eauto. Qed.

Lemma owned_prev h l e : back = true → e ∈ l → owned h l (e + (o + 8)).
Proof. left. right. eauto. Qed.

Lemma owned_head h l : owned h l h.
Proof. by left; left. Qed.

Lemma owned_last h l : tail = true → owned h l (h + 8).
Proof. by right. Qed.

Lemma owned_end h l l1 : l1 ⊆ l → owned h l (endc h l1).
Proof.
  intros Hs. destruct (endc_cases h l1) as [[_ ->]|(x & Hx & ->)]; [apply owned_head|apply owned_next; set_solver].
Qed.

(** Redirecting the end of a segment. *)
Lemma seg_relink m m' pp l q q' :
  seg m pp l q → NoDup l →
  (∀ e e', e ∈ l → e' ∈ l → e ≠ e' → esize ≤ Z.abs (e - e')) →
  (∀ e, e ∈ l → pp ≠ e + o ∧ (back = true → pp ≠ e + (o + 8))) →
  (∀ a, touches pp l a → a ≠ endc pp l → m' !! a = m !! a) →
  m' !! endc pp l = Some q' → seg m' pp l q'.
Proof.
  revert pp. induction l as [|e l IH]; intros pp Hs Hnd Hee Hpp Ha Hq; simpl in *; [done|].
  destruct Hs as (H1 & H2 & H3 & H4). apply NoDup_cons in Hnd as [Hn Hnd].
  assert (He' : ∀ e', e' ∈ l → esize ≤ Z.abs (e - e'))
    by (intros e' ?; apply Hee; [set_solver|set_solver|by intros ->]).
  assert (Hend : pp ≠ endc (e + o) l).
  { destruct (endc_in (e + o) l) as [->|(e' & ? & ->)]; apply Hpp; set_solver. }
  split_and!; [rewrite Ha; [done|by left|done]|done| |].
  - intros Hb. rewrite Ha; [by apply H3|right; exists e; split; [set_solver|auto]|].
    destruct (endc_in (e + o) l) as [->|(e' & ? & ->)]; [lia|].
    specialize (He' e' ltac:(done)). unfold esize in He'. rewrite Hb in He'. lia.
  - apply IH; [done|done|intros; apply Hee; set_solver| | |done].
    + intros e' Hin. specialize (He' e' Hin). split; [|intros Hb]; unfold esize in He'; destruct back; lia.
    + intros a [->|(e' & ? & Hc)] Hne; apply Ha; try done; right; [exists e|exists e']; (split; [set_solver|auto]).
Qed.

(** ** Insertion and removal *)

Context (heads elems : list Z).
Hypothesis W : world heads elems.

(** A head is apart from every link of an element. *)
Lemma head_apart h e : h ∈ heads → e ∈ elems →
  h ≠ e + o ∧ (back = true → h ≠ e + (o + 8)) ∧
  (tail = true → h + 8 ≠ e + o ∧ (back = true → h + 8 ≠ e + (o + 8))).
Proof.
  intros Hh He. pose proof (w_heads _ _ W h e Hh He) as H. unfold hsize, esize in H.
  destruct back, tail; repeat split; intros; try discriminate; lia.
Qed.

Lemma elem_apart e e' : e ∈ elems → e' ∈ elems → e ≠ e' →
  e + o ≠ e' + o ∧ (back = true → e + o ≠ e' + (o + 8) ∧ e + (o + 8) ≠ e' + o ∧ e + (o + 8) ≠ e' + (o + 8)).
Proof.
  intros He He' Hne. pose proof (w_elems _ _ W e e' He He' Hne) as H. unfold esize in H.
  destruct back; repeat split; intros; try discriminate; lia.
Qed.

Lemma elem_nonnull e : e ∈ elems → e ≠ 0.
Proof. intros He ->. exact (w_elem0 _ _ W He). Qed.

Lemma head_nonnull h : h ∈ heads → h ≠ 0.
Proof. intros He ->. exact (w_head0 _ _ W He). Qed.

(** What a link of [l2] is compared with the link where [l2] begins. *)
Lemma link_apart h l1 e : h ∈ heads → l1 ⊆ elems → e ∈ elems → e ∉ l1 →
  endc h l1 ≠ e + o ∧ (back = true → endc h l1 ≠ e + (o + 8)).
Proof.
  intros Hh Hs He Hn. destruct (endc_cases h l1) as [[_ ->]|(x & Hx & ->)].
  - split; intros; by apply head_apart.
  - assert (x ≠ e) by (intros ->; done). split; intros; apply elem_apart; auto.
Qed.

Lemma last_apart h l1 : h ∈ heads → l1 ⊆ elems → tail = true → endc h l1 ≠ h + 8.
Proof.
  intros Hh Hs Ht. destruct (endc_cases h l1) as [[_ ->]|(x & Hx & ->)]; [lia|].
  destruct (head_apart h x Hh (Hs x Hx)) as (_ & _ & H). destruct (H Ht) as [H1 _]. congruence.
Qed.

(** The prefix of a queue, redirected. *)
Lemma prefix_relink m m' h l1 q q' :
  h ∈ heads → l1 ⊆ elems → NoDup l1 → seg m h l1 q →
  (∀ a, touches h l1 a → a ≠ endc h l1 → m' !! a = m !! a) →
  m' !! endc h l1 = Some q' → seg m' h l1 q'.
Proof.
  intros Hh Hs Hnd Hseg Ha Hq. eapply seg_relink; [exact Hseg|done| | |done|done].
  - intros e e' He He' Hne. apply (w_elems _ _ W); auto.
  - intros e He. destruct (head_apart h e Hh (Hs e He)) as (H1 & H2 & _). auto.
Qed.

(** Replacing the part [k] of a queue by [k'], where [k'] is linked up
    already: the variables of the rest may change only at the two ends. *)
Section Splice.
Context (m m' : cells) (h : Z) (l1 k k' l2 : list Z).
Hypothesis Hh : h ∈ heads.
Hypothesis Hq : queue elems m h (l1 ++ k ++ l2).
Hypothesis Hk : k' ⊆ elems.
Hypothesis Hnd' : NoDup (l1 ++ k' ++ l2).
Hypothesis Hk' : seg m' (endc h l1) k' (first 0 l2).
Hypothesis Hfix : back = true → l2 ≠ [] → m' !! (first 0 l2 + (o + 8)) = Some (endc (endc h l1) k').
Hypothesis Htail : tail = true → l2 = [] → m' !! (h + 8) = Some (endc (endc h l1) k').
Hypothesis Hother : ∀ a, touches h (l1 ++ l2) a ∨ tail = true ∧ a = h + 8 → a ≠ endc h l1 →
  (back = true → l2 ≠ [] → a ≠ first 0 l2 + (o + 8)) → (tail = true → l2 = [] → a ≠ h + 8) → m' !! a = m !! a.

Local Lemma spl_sub : l1 ⊆ elems ∧ l2 ⊆ elems.
Proof. destruct Hq as [Hs _ _ _]. split; set_solver. Qed.

Local Lemma spl_dis x : x ∈ l1 → x ∉ l2.
Proof. apply NoDup_app in Hnd' as (_ & H & _). set_solver. Qed.

Local Lemma splice_prefix : seg m' h l1 (first (first 0 l2) k').
Proof.
  destruct spl_sub as [Hsub1 Hsub2]. pose proof spl_dis as Hdis.
  destruct Hq as [_ _ Hseg _]. apply seg_app in Hseg as [Hs1 _].
  eapply prefix_relink; [done|done| |exact Hs1| |by destruct k'; [|destruct Hk'] ].
  { by apply NoDup_app in Hnd' as (? & _). }
  intros a Ha Hne. apply Hother; [left; destruct Ha as [->|(x & ? & ?)]; [by left|right; exists x; set_solver]|done| |].
  - intros Hb Hl2. destruct l2 as [|y l2'] eqn:El2; [done|]. simpl. destruct Ha as [->|(x & Hx & Ha)].
    + apply head_apart; set_solver.
    + assert (x ≠ y) by (intros ->; apply (Hdis y Hx); set_solver).
      assert (Hy := elem_apart x y ltac:(set_solver) ltac:(set_solver) ltac:(done)).
      destruct Ha as [->|[_ ->]]; by apply Hy.
  - intros Ht _. destruct Ha as [->|(x & Hx & Ha)]; [lia|].
    destruct (head_apart h x Hh ltac:(set_solver)) as (_ & _ & H). destruct (H Ht) as [Hq1 Hq2].
    destruct Ha as [->|[Hb ->]]; [congruence|by apply not_eq_sym, Hq2].
Qed.

Local Lemma splice_suffix : seg m' (endc (endc h l1) k') l2 0.
Proof.
  destruct spl_sub as [Hsub1 Hsub2]. pose proof spl_dis as Hdis. destruct Hq as [_ Hnd Hseg _].
  pose proof (queue_seg_end _ _ _ _ Hk') as Hcell.
  apply seg_app in Hseg as [_ Hs2]. apply seg_app in Hs2 as [_ Hs2].
  apply NoDup_app in Hnd as (_ & _ & Hnd2). apply NoDup_app in Hnd2 as (_ & _ & Hnd2).
  destruct l2 as [|y l2'] eqn:El2; [done|]. simpl in Hs2, Hcell |- *.
  destruct Hs2 as (_ & Hy0 & _ & Hs2). split_and!; [done|done|by intros; apply Hfix|].
  apply NoDup_cons in Hnd2 as [Hy Hnd2]. eapply seg_frame; [exact Hs2|].
  intros a Ha. assert (Hin : ∃ x, x ∈ y :: l2' ∧ (a = x + o ∨ back = true ∧ a = x + (o + 8) ∧ x ≠ y)).
  { destruct Ha as [->|(x & Hx & Ha)]; [exists y|exists x]; (split; [set_solver|]); [auto|].
    assert (x ≠ y) by (intros ->; done). naive_solver. }
  clear Ha. destruct Hin as (x & Hx & Ha). apply Hother; [left; right; exists x; set_solver|..].
  - assert (Hx1 : x ∉ l1) by (intros Hx1; by apply (Hdis x)).
    destruct (link_apart h l1 x Hh Hsub1 ltac:(set_solver) Hx1) as [Hq1 Hq2].
    destruct Ha as [->|(Hb & -> & _)]; [by apply not_eq_sym|by apply not_eq_sym, Hq2].
  - intros Hb _. destruct (decide (x = y)) as [->|Hxy]; [destruct Ha as [->|(_ & _ & Ha)]; simpl; [lia|done]|].
    assert (Hxy' := elem_apart x y ltac:(set_solver) ltac:(set_solver) Hxy).
    destruct Ha as [->|(_ & -> & _)]; by apply Hxy'.
  - done.
Qed.

Lemma splice : queue elems m' h (l1 ++ k' ++ l2).
Proof.
  destruct spl_sub as [Hsub1 Hsub2]. split; [set_solver|done| |].
  - apply seg_app. split; [|apply seg_app; split; [done|apply splice_suffix]].
    replace (first 0 (k' ++ l2)) with (first (first 0 l2) k') by (by destruct k'). apply splice_prefix.
  - intros Ht. rewrite !endc_app. destruct l2 as [|y l2'] eqn:El2; [by apply Htail|].
    rewrite <- (endc_cons_any (endc (endc h l1) k)), <- !endc_app.
    rewrite Hother; [by apply (q_last _ _ _ _ Hq)|auto|apply not_eq_sym, last_apart; auto| |done].
    intros Hb _. simpl. destruct (head_apart h y Hh ltac:(set_solver)) as (_ & _ & H). by apply H.
Qed.

End Splice.

Lemma insert_at m m' h l1 l2 e :
  h ∈ heads → e ∈ elems → e ∉ l1 ++ l2 → queue elems m h (l1 ++ l2) →
  m' !! endc h l1 = Some e → m' !! (e + o) = Some (first 0 l2) →
  (back = true → m' !! (e + (o + 8)) = Some (endc h l1)) →
  (back = true → l2 ≠ [] → m' !! (first 0 l2 + (o + 8)) = Some (e + o)) →
  (tail = true → l2 = [] → m' !! (h + 8) = Some (e + o)) →
  (∀ a, a ≠ endc h l1 → a ≠ e + o → (back = true → a ≠ e + (o + 8)) →
     (back = true → l2 ≠ [] → a ≠ first 0 l2 + (o + 8)) →
     (tail = true → l2 = [] → a ≠ h + 8) → m' !! a = m !! a) →
  queue elems m' h (l1 ++ e :: l2).
Proof.
  intros Hh He Hn Hq Hp Hnext Hprev Hfix Htail Hother.
  change (e :: l2) with ([e] ++ l2). apply (splice m m' h l1 [] [e] l2); try done.
  - set_solver.
  - destruct Hq as [_ Hnd _ _]. apply (NoDup_Permutation_proper _ (e :: l1 ++ l2)).
    + by rewrite Permutation_middle.
    + by apply NoDup_cons.
  - split_and!; [done|by apply elem_nonnull|done|done].
  - destruct Hq as [Hs _ _ _]. intros a Ha Hp' Hf Ht.
    assert (a ≠ e + o ∧ (back = true → a ≠ e + (o + 8))) as [? ?]; [|by apply Hother].
    destruct (head_apart h e Hh He) as (H1 & H2 & H3).
    destruct Ha as [[->|(x & Hx & Ha)]|[Ht' ->]]; [done| |by apply H3].
    destruct (elem_apart x e ltac:(set_solver) He ltac:(set_solver)) as [H4 H5].
    destruct Ha as [->|[Hb ->]]; (split; [try apply H4; by apply H5|intros; by apply H5]).
Qed.

Lemma remove_at m m' h l1 l2 e :
  h ∈ heads → queue elems m h (l1 ++ e :: l2) →
  m' !! endc h l1 = Some (first 0 l2) →
  (back = true → l2 ≠ [] → m' !! (first 0 l2 + (o + 8)) = Some (endc h l1)) →
  (tail = true → l2 = [] → m' !! (h + 8) = Some (endc h l1)) →
  (∀ a, a ≠ endc h l1 → (back = true → l2 ≠ [] → a ≠ first 0 l2 + (o + 8)) →
     (tail = true → l2 = [] → a ≠ h + 8) → m' !! a = m !! a) →
  queue elems m' h (l1 ++ l2).
Proof.
  intros Hh Hq Hp Hfix Htail Hother.
  apply (splice m m' h l1 [e] [] l2); [done|done|set_solver| |done|done|done|].
  - destruct Hq as [_ Hnd _ _]. rewrite <- Permutation_middle in Hnd. by apply NoDup_cons in Hnd as [_ ?].
  - intros a _. apply Hother.
Qed.

(** A queue depends on its own variables only. *)
Lemma queue_frame m m' h l :
  queue elems m h l →
  (∀ a, touches h l a ∨ tail = true ∧ a = h + 8 → m' !! a = m !! a) → queue elems m' h l.
Proof.
  intros [H1 H2 H3 H4] Ha. split; [done|done| |].
  - eapply seg_frame; [exact H3|]. auto.
  - intros Ht. rewrite Ha; auto.
Qed.

(** The elements of a queue under another head. *)
Lemma rehead m m' h h' l :
  h ∈ heads → h' ∈ heads → queue elems m h l →
  m' !! h' = Some (first 0 l) →
  (back = true → l ≠ [] → m' !! (first 0 l + (o + 8)) = Some h') →
  (tail = true → m' !! (h' + 8) = Some (endc h' l)) →
  (∀ a, (∃ e, e ∈ l ∧ (a = e + o ∨ back = true ∧ a = e + (o + 8) ∧ e ≠ first 0 l)) → m' !! a = m !! a) →
  queue elems m' h' l.
Proof.
  intros Hh Hh' [Hs Hnd Hg Hl] Hf Hp Ht Ha. split; [done|done| |done].
  destruct l as [|y l]; [done|]. simpl in *. destruct Hg as (_ & Hy & _ & Hg).
  apply NoDup_cons in Hnd as [Hn _]. split_and!; [done|done|by intros; apply Hp|].
  eapply seg_frame; [exact Hg|]. intros a [->|(e & He & Hae)]; apply Ha; [exists y|exists e];
    (split; [set_solver|]); [auto|]. assert (e ≠ y) by (intros ->; done). naive_solver.
Qed.

(** The links behind the first element are apart from every head and from the
    back pointer of the first. *)
Lemma rest_apart h y l a :
  h ∈ heads → y :: l ⊆ elems → NoDup (y :: l) → touches (y + o) l a →
  a ≠ h ∧ (tail = true → a ≠ h + 8) ∧ (back = true → a ≠ y + (o + 8)).
Proof.
  intros Hh Hs Hnd Ht. apply NoDup_cons in Hnd as [Hn _].
  assert (Hx : ∃ x, x ∈ y :: l ∧ (a = x + o ∨ back = true ∧ a = x + (o + 8) ∧ x ≠ y)).
  { destruct Ht as [->|(x & Hx & Ha)]; [exists y|exists x]; (split; [set_solver|]); [auto|].
    assert (x ≠ y) by (intros ->; done). naive_solver. }
  destruct Hx as (x & Hx & Ha). destruct (head_apart h x Hh ltac:(set_solver)) as (H1 & H2 & H3).
  split_and!.
  - destruct Ha as [->|(Hb & -> & _)]; [by apply not_eq_sym|by apply not_eq_sym, H2].
  - intros Htl. destruct (H3 Htl) as [H4 H5].
    destruct Ha as [->|(Hb & -> & _)]; [by apply not_eq_sym|by apply not_eq_sym, H5].
  - intros Hb. destruct (decide (x = y)) as [->|Hxy]; [destruct Ha as [->|(_ & _ & Ha)]; [lia|done]|].
    destruct (elem_apart x y ltac:(set_solver) ltac:(set_solver) Hxy) as [_ H4].
    destruct (H4 Hb) as (H5 & _ & H6). by destruct Ha as [->|(_ & -> & _)].
Qed.

(** Two queues of the same program: their variables are apart. *)
Lemma owned_apart h1 l1 h2 l2 a :
  h1 ∈ heads → h2 ∈ heads → h1 ≠ h2 → l1 ⊆ elems → l2 ⊆ elems → (∀ x, x ∈ l1 → x ∉ l2) →
  owned h1 l1 a → ¬ owned h2 l2 a.
Proof.
  intros Hh1 Hh2 Hne Hs1 Hs2 Hd H1 H2.
  pose proof (w_apart _ _ W h1 h2 Hh1 Hh2 Hne) as Ha.
  destruct H1 as [[E1|(x & Hx & E1)]|[E0 E1]], H2 as [[E2|(y & Hy & E2)]|[E3 E2]].
  - congruence.
  - pose proof (w_heads _ _ W h1 y Hh1 ltac:(set_solver)). unfold hsize, esize in *. destruct back, tail; lia.
  - unfold hsize in *. rewrite E3 in *. lia.
  - pose proof (w_heads _ _ W h2 x Hh2 ltac:(set_solver)). unfold hsize, esize in *. destruct back, tail; lia.
  - assert (Hxy : x ≠ y) by (intros ->; by apply (Hd y)).
    pose proof (w_elems _ _ W x y ltac:(set_solver) ltac:(set_solver) Hxy). unfold esize in *. destruct back; lia.
  - pose proof (w_heads _ _ W h2 x Hh2 ltac:(set_solver)). unfold hsize, esize in *. rewrite E3 in *. destruct back; lia.
  - unfold hsize in *. rewrite E0 in *. lia.
  - pose proof (w_heads _ _ W h1 y Hh1 ltac:(set_solver)). unfold hsize, esize in *. rewrite E0 in *. destruct back; lia.
  - lia.
Qed.

(** A queue is no longer than memory: the fuel of the loops is enough. *)
Lemma queue_size m h l : queue elems m h l → (length l ≤ size m)%nat.
Proof.
  intros [_ Hnd Hg _]. set (k := map (λ e, e + o) l).
  assert (Hk : NoDup k) by (apply NoDup_fmap_2; [intros x y; lia|done]).
  assert (Hsub : (list_to_set k : gset Z) ⊆ dom m).
  { intros a Ha. apply elem_of_list_to_set, list_elem_of_fmap in Ha as (e & -> & He).
    apply list_elem_of_split in He as (l1 & l2 & ->). apply seg_app in Hg as [_ (_ & _ & _ & Hg)].
    apply elem_of_dom. destruct l2; [eauto|destruct Hg; eauto]. }
  apply subseteq_size in Hsub. rewrite size_list_to_set, size_dom in Hsub by done.
  unfold k in Hsub. by rewrite length_map in Hsub.
Qed.

(** The parts of a queue around one of its elements. *)
Lemma around m h l1 x l2 :
  h ∈ heads → queue elems m h (l1 ++ x :: l2) →
  x ∈ elems ∧ x ≠ 0 ∧ m !! endc h l1 = Some x ∧ (back = true → m !! (x + (o + 8)) = Some (endc h l1)) ∧
  m !! (x + o) = Some (first 0 l2) ∧ (∀ y l, l2 = y :: l →
    y ∈ elems ∧ x ≠ y ∧ y ≠ 0 ∧ (back = true → m !! (y + (o + 8)) = Some (x + o)) ∧
    endc h l1 ≠ y + o ∧ (back = true → endc h l1 ≠ y + (o + 8))) ∧
  endc h l1 ≠ x + o ∧ (back = true → endc h l1 ≠ x + (o + 8)) ∧ (tail = true → endc h l1 ≠ h + 8).
Proof.
  intros Hh [Hs Hnd Hg Hq]. apply seg_app in Hg as [Hg1 (H1 & H2 & H3 & H4)]. simpl in H1.
  assert (Hx : x ∈ elems) by set_solver. apply NoDup_app in Hnd as (_ & Hd & Hnd).
  apply NoDup_cons in Hnd as [Hnx _].
  assert (Hs1 : l1 ⊆ elems) by set_solver.
  assert (Hx1 : x ∉ l1) by (intros ?; apply (Hd x); set_solver).
  destruct (link_apart h l1 x Hh Hs1 Hx Hx1) as [H5 H6].
  split_and!; auto; [by destruct l2; [|destruct H4]| |intros; by apply last_apart].
  intros y l ->. destruct H4 as (H7 & H8 & H9 & _).
  assert (Hy1 : y ∉ l1) by (intros ?; apply (Hd y); set_solver).
  destruct (link_apart h l1 y Hh Hs1 ltac:(set_solver) Hy1) as [H10 H11].
  split_and!; auto; set_solver.
Qed.

Lemma alive_insert m a v : alive heads elems m → alive heads elems (<[a := v]> m).
Proof.
  assert (H : ∀ k, is_Some (m !! k) → is_Some (<[a := v]> m !! k)).
  { intros k Hk. destruct (decide (a = k)) as [->|]; [rewrite lookup_insert_eq; eauto|by rewrite lookup_insert_ne]. }
  intros [H1 H2 H3 H4]. split; eauto.
Qed.

(** What an operation on the queue at [h] leaves: the queue [l'], and every
    variable but those of [h] and of [l] as it was. *)
Record result (m : cells) (h : Z) (l l' : list Z) (m' : cells) : Prop := {
  r_queue : queue elems m' h l';
  r_alive : alive heads elems m';
  r_frame : ∀ a, ¬ owned h l a → m' !! a = m !! a }.

End Spec.


(** ** Running the macros *)

Lemma rd_ok m a v : m !! a = Some v → rd a m = Done v m.
Proof. intros H. unfold rd. by rewrite H. Qed.

Lemma wr_ok m a v : is_Some (m !! a) → wr a v m = Done () (<[a := v]> m).
Proof. intros [x H]. unfold wr. by rewrite H. Qed.

Lemma rd_at_ok m p off v : p ≠ 0 → m !! (p + off) = Some v → rd_at p off m = Done v m.
Proof. intros Hp H. unfold rd_at. replace (p =? 0) with false by lia. by apply rd_ok. Qed.

Lemma rd_at_0 m p v : p ≠ 0 → m !! p = Some v → rd_at p 0 m = Done v m.
Proof. intros Hp H. apply rd_at_ok; [done|]. by rewrite Z.add_0_r. Qed.

Lemma wr_at_ok m p off v : p ≠ 0 → is_Some (m !! (p + off)) → wr_at p off v m = Done () (<[p + off := v]> m).
Proof. intros Hp H. unfold wr_at. replace (p =? 0) with false by lia. by apply wr_ok. Qed.

Lemma wr_at_0 m p v : p ≠ 0 → is_Some (m !! p) → wr_at p 0 v m = Done () (<[p := v]> m).
Proof. intros Hp H. rewrite wr_at_ok; rewrite ?Z.add_0_r; done. Qed.

(** A lookup in a map with known updates. *)
Ltac lk :=
  repeat first [rewrite lookup_insert_eq | rewrite lookup_insert_ne by lia];
  first [eassumption | reflexivity].

Ltac lk_some := eexists; lk.

Ltac nonnull := first [assumption | lia].

(** One step of a macro run on a map with known contents. *)
Ltac qstep :=
  lazymatch goal with
  | |- mbind ?k (mbind ?k1 ?c) ?m = _ => rewrite bind_assoc
  | |- mbind ?k (mret ?x) ?m = _ => rewrite bind_ret
  | |- mbind ?k (if ?b then ?c else ?d) ?m = _ =>
      first [ replace b with true by lia | replace b with false by lia ]
  | |- mbind ?k (rd_at ?p 0) ?m = _ => erewrite (bind_done (rd_at p 0) k); [|apply rd_at_0; [nonnull|lk]]
  | |- mbind ?k (rd_at ?p ?q) ?m = _ => erewrite (bind_done (rd_at p q) k); [|apply rd_at_ok; [nonnull|lk]]
  | |- mbind ?k (wr_at ?p 0 ?v) ?m = _ => erewrite (bind_done (wr_at p 0 v) k); [|apply wr_at_0; [nonnull|lk_some]]
  | |- mbind ?k (wr_at ?p ?q ?v) ?m = _ => erewrite (bind_done (wr_at p q v) k); [|apply wr_at_ok; [nonnull|lk_some]]
  | |- mbind ?k (rd ?p) ?m = _ => erewrite (bind_done (rd p) k); [|apply rd_ok; lk]
  | |- mbind ?k (wr ?p ?v) ?m = _ => erewrite (bind_done (wr p v) k); [|apply wr_ok; lk_some]
  | |- wr_at ?p 0 ?v ?m = _ => apply wr_at_0; [nonnull|lk_some]
  | |- wr_at ?p ?q ?v ?m = _ => apply wr_at_ok; [nonnull|lk_some]
  | |- wr ?p ?v ?m = _ => apply wr_ok; lk_some
  | |- rd_at ?p 0 ?m = _ => apply rd_at_0; [nonnull|lk]
  | |- rd_at ?p ?q ?m = _ => apply rd_at_ok; [nonnull|lk]
  | |- rd ?p ?m = _ => apply rd_ok; lk
  | |- mret ?x ?m = _ => reflexivity
  | |- (if ?b then ?c else ?d) ?m = _ =>
      first [ replace b with true by lia | replace b with false by lia ]
  end; cbn beta iota.

Ltac qrun := repeat qstep.

(** The loop of the singly-linked removals. *)
Lemma seek_before_ok o back tail heads elems m h l1 c k x l2 :
  world o back tail heads elems → h ∈ heads → queue o back tail elems m h (l1 ++ (c :: k) ++ x :: l2) →
  seek_before (λ e, rd_at e o) c x m = Done (List.last (c :: k) c) m.
Proof.
  intros W Hh Hq. unfold seek_before. rewrite bind_done with (a := m) (s' := m) by done.
  assert (Hf : (length k < foreach_fuel m)%nat).
  { pose proof (queue_size _ _ _ _ _ _ _ Hq) as H. rewrite !length_app in H. simpl in H. unfold foreach_fuel. lia. }
  revert Hf. generalize (foreach_fuel m) as fuel. revert l1 c Hq. induction k as [|d k IH]; intros l1 c Hq fuel Hf.
  - destruct (around o back tail heads elems W m h l1 c (x :: l2) Hh Hq) as (_ & Hc0 & _ & _ & Hn & _).
    destruct fuel as [|fuel]; [lia|]. simpl. rewrite bind_assoc. qstep. by rewrite Z.eqb_refl.
  - destruct (around o back tail heads elems W m h l1 c ((d :: k) ++ x :: l2) Hh Hq) as (_ & Hc0 & _ & _ & Hn & _).
    assert (Hdx : d ≠ x).
    { intros ->. destruct Hq as [_ Hnd _ _]. apply NoDup_app in Hnd as (_ & _ & Hnd). simpl in Hnd.
      apply NoDup_cons in Hnd as [_ Hnd]. apply NoDup_cons in Hnd as [Hnd _]. set_solver. }
    destruct fuel as [|fuel]; [simpl in Hf; lia|]. cbn [while]. rewrite bind_assoc. qstep.
    simpl. replace (d =? x) with false by lia. rewrite bind_ret.
    rewrite (IH (l1 ++ [c]) d); [|by rewrite <- app_assoc|simpl in Hf; lia].
    destruct k; [done|]. f_equal. simpl. clear. revert z. induction k as [|z' k IHk]; intros z; [done|]. apply IHk.
Qed.

(** ** Discharging the conditions *)

Lemma mem_app_l (x : Z) l1 l2 : x ∈ l1 → x ∈ l1 ++ l2.
Proof. rewrite elem_of_app. auto. Qed.
Lemma mem_app_r (x : Z) l1 l2 : x ∈ l2 → x ∈ l1 ++ l2.
Proof. rewrite elem_of_app. auto. Qed.
Lemma sub_refl (l : list Z) : l ⊆ l.
Proof. done. Qed.
Lemma sub_cons (x : Z) (l l' : list Z) : l ⊆ l' → l ⊆ x :: l'.
Proof. set_solver. Qed.
Lemma sub_app_l (l l1 l2 : list Z) : l ⊆ l1 → l ⊆ l1 ++ l2.
Proof. set_solver. Qed.

Create HintDb qdb discriminated.
#[export] Hint Resolve list_elem_of_here list_elem_of_further mem_app_l mem_app_r : qdb.
#[export] Hint Resolve sub_refl sub_cons sub_app_l : qdb.

Ltac own :=
  lazymatch goal with
  | |- owned _ _ _ _ _ (endc _ _ _) => apply owned_end; solve [eauto 6 with qdb]
  | |- owned _ _ _ ?h _ ?h => apply owned_head
  | |- owned _ _ _ ?h _ (?h + 8) => apply owned_last; reflexivity
  | |- owned _ _ _ _ _ (_ + (_ + 8)) => apply owned_prev; [reflexivity|solve [eauto 6 with qdb]]
  | |- owned _ _ _ _ _ (_ + _) => apply owned_next; solve [eauto 6 with qdb]
  end.

Ltac result_tac :=
  split; [| repeat apply alive_insert; assumption
          | let a := fresh in let Ha := fresh in intros a Ha; rewrite !lookup_insert_ne;
            [done|..]; intros <-; apply Ha; own ].

(** The layout facts about a head, an element and pairs of them, for [lia]. *)
Ltac geo_h h Hh :=
  match goal with W : world _ _ _ _ _ |- _ => pose proof (head_nonnull _ _ _ _ _ W h Hh) end.
Ltac geo_he h e Hh He :=
  match goal with W : world _ _ _ _ _ |- _ =>
    let H := fresh in pose proof (w_heads _ _ _ _ _ W h e Hh He) as H; unfold hsize, esize in H;
    let H0 := fresh in pose proof (elem_nonnull _ _ _ _ _ W e He) as H0
  end.
Ltac geo_ee e e' He He' Hne :=
  match goal with W : world _ _ _ _ _ |- _ =>
    let H := fresh in pose proof (w_elems _ _ _ _ _ W e e' He He' Hne) as H; unfold esize in H
  end.

(** Hypotheses that ask for a flag or for the shape of a list. *)
Ltac spec_hyps :=
  repeat match goal with
  | H : true = true → _ |- _ => specialize (H eq_refl)
  | H : _ :: _ ≠ [] → _ |- _ => specialize (H ltac:(discriminate))
  | H : [] = [] → _ |- _ => specialize (H eq_refl)
  | H : [] ≠ [] |- _ => destruct (H eq_refl)
  | H : _ :: _ = [] |- _ => discriminate H
  | H : false = true |- _ => discriminate H
  end.

(** The side conditions of [insert_at] and [remove_at]. *)
Ltac links :=
  simpl; intros; spec_hyps;
  lazymatch goal with
  | |- _ !! _ = Some _ => lk
  | |- _ !! ?a = _ !! ?a => rewrite !lookup_insert_ne by congruence; reflexivity
  | _ => first [assumption | discriminate | congruence | done]
  end.
