(* ===== verification/TailQueue.v ===== *)
(** * Tail queues refine lists

    Every macro of the TAILQ family does to the represented list what its
    name says, touches nothing but the links of the elements and heads it is
    about, and passes the consistency checks of a debugging kernel. *)

From S2P Require Import Prelude.
From S2P Require Import Queue.
From S2P Require Import QueueSpec.

Section TailQ.
Context (o : Z) (heads elems : list Z).
Hypothesis W : world o true true heads elems.

Notation tailq := (queue o true true elems).
Notation live := (alive o true true heads elems).

(** The values the links of a fresh element and the end pointer have. *)
Ltac vals Hl h e Hh He :=
  destruct (al_next _ _ _ _ _ _ Hl e He) as [? ?]; destruct (al_prev _ _ _ _ _ _ Hl e He eq_refl) as [? ?];
  destruct (al_last _ _ _ _ _ _ Hl h Hh eq_refl) as [? ?].

Ltac macro :=
  unfold TAILQ_INSERT_HEAD, TAILQ_INSERT_TAIL, TAILQ_INSERT_AFTER, TAILQ_INSERT_BEFORE, TAILQ_REMOVE,
    TAILQ_CONCAT, TAILQ_SWAP, TAILQ_INIT, TAILQ_EMPTY, TAILQ_LAST, TAILQ_PREV,
    TAILQ_FIRST, TAILQ_NEXT, tqh_last, tqe_prev, set_TAILQ_NEXT, set_tqh_last, set_tqe_prev, set_TAILQ_FIRST.

Lemma tailq_init m h l :
  h ∈ heads → live m → ∃ m', TAILQ_INIT h m = Done () m' ∧ result o true true heads elems m h l [] m'.
Proof.
  intros Hh Hl. pose proof (head_nonnull _ _ _ _ _ W h Hh).
  destruct (al_first _ _ _ _ _ _ Hl h Hh) as [v1 ?]. destruct (al_last _ _ _ _ _ _ Hl h Hh eq_refl) as [v2 ?].
  macro. eexists. split; [qrun|]. result_tac. split; [set_solver|constructor|simpl; lk|intros _; simpl; lk].
Qed.

Lemma tailq_insert_head m h l e :
  h ∈ heads → e ∈ elems → e ∉ l → live m → tailq m h l →
  ∃ m', TAILQ_INSERT_HEAD o h e m = Done () m' ∧ result o true true heads elems m h (e :: l) (e :: l) m'.
Proof.
  intros Hh He Hn Hl Hq. pose proof (head_nonnull _ _ _ _ _ W h Hh) as Hh0. geo_he h e Hh He. vals Hl h e Hh He.
  pose proof (q_seg _ _ _ _ _ _ _ Hq) as Hs. destruct l as [|y l]; simpl in Hs.
  - macro. eexists. split; [qrun|]. result_tac.
    apply (insert_at o true true heads elems W m _ h [] [] e); links.
  - destruct Hs as (Hf & Hy0 & Hp & _). specialize (Hp eq_refl).
    assert (Hy : y ∈ elems) by (apply (q_elems _ _ _ _ _ _ _ Hq); set_solver). assert (Hey : e ≠ y) by set_solver.
    geo_he h y Hh Hy. geo_ee e y He Hy Hey.
    macro. eexists. split; [qrun|]. result_tac.
    apply (insert_at o true true heads elems W m _ h [] (y :: l) e); links.
Qed.

(** Where the last link of a queue is, and what it holds. *)
Lemma tailq_end m h l :
  h ∈ heads → tailq m h l →
  m !! endc o h l = Some 0 ∧ m !! (h + 8) = Some (endc o h l) ∧ endc o h l ≠ h + 8.
Proof.
  intros Hh [Hs _ Hg Hq]. split_and!; [by apply queue_seg_end in Hg|by apply Hq|].
  by apply (last_apart o true true heads elems W).
Qed.

Lemma tailq_insert_tail m h l e :
  h ∈ heads → e ∈ elems → e ∉ l → live m → tailq m h l →
  ∃ m', TAILQ_INSERT_TAIL o h e m = Done () m' ∧ result o true true heads elems m h (e :: l) (l ++ [e]) m'.
Proof.
  intros Hh He Hn Hl Hq. pose proof (head_nonnull _ _ _ _ _ W h Hh) as Hh0. geo_he h e Hh He. vals Hl h e Hh He.
  destruct (tailq_end m h l Hh Hq) as (K1 & K2 & K3).
  destruct (link_apart o true true heads elems W h l e Hh (q_elems _ _ _ _ _ _ _ Hq) He Hn) as [K4 K5].
  specialize (K5 eq_refl). macro. eexists. split; [qrun|]. result_tac.
  apply (insert_at o true true heads elems W m _ h l [] e); rewrite ?app_nil_r; links.
Qed.

Lemma tailq_insert_after m h l1 x l2 e :
  h ∈ heads → e ∈ elems → e ∉ l1 ++ x :: l2 → live m → tailq m h (l1 ++ x :: l2) →
  ∃ m', TAILQ_INSERT_AFTER o h x e m = Done () m' ∧
    result o true true heads elems m h (e :: l1 ++ x :: l2) (l1 ++ x :: e :: l2) m'.
Proof.
  intros Hh He Hn Hl Hq. pose proof (head_nonnull _ _ _ _ _ W h Hh) as Hh0. geo_he h e Hh He. vals Hl h e Hh He.
  destruct (around o true true heads elems W m h l1 x l2 Hh Hq) as (Hx & Hx0 & K1 & K2 & K3 & K4 & _); spec_hyps.
  assert (Hex : e ≠ x) by set_solver. geo_he h x Hh Hx. geo_ee e x He Hx Hex.
  assert (Hq' : tailq m h ((l1 ++ [x]) ++ l2)) by (by rewrite <- app_assoc).
  assert (He' : endc o h (l1 ++ [x]) = x + o) by (by rewrite endc_app).
  replace (l1 ++ x :: e :: l2) with ((l1 ++ [x]) ++ e :: l2) by (by rewrite <- app_assoc).
  destruct l2 as [|y l2]; simpl in K3.
  - macro. eexists. split; [qrun|]. result_tac.
    apply (insert_at o true true heads elems W m _ h (l1 ++ [x]) [] e); rewrite ?He', <- ?app_assoc; links.
  - destruct (K4 y l2 eq_refl) as (Hy & Hxy & Hy0 & K5 & _); spec_hyps.
    assert (Hey : e ≠ y) by set_solver. geo_he h y Hh Hy. geo_ee e y He Hy Hey. geo_ee x y Hx Hy Hxy.
    macro. eexists. split; [qrun|]. result_tac.
    apply (insert_at o true true heads elems W m _ h (l1 ++ [x]) (y :: l2) e); rewrite ?He', <- ?app_assoc; links.
Qed.

Lemma tailq_insert_before m h l1 x l2 e :
  h ∈ heads → e ∈ elems → e ∉ l1 ++ x :: l2 → live m → tailq m h (l1 ++ x :: l2) →
  ∃ m', TAILQ_INSERT_BEFORE o x e m = Done () m' ∧
    result o true true heads elems m h (e :: l1 ++ x :: l2) (l1 ++ e :: x :: l2) m'.
Proof.
  intros Hh He Hn Hl Hq. pose proof (head_nonnull _ _ _ _ _ W h Hh) as Hh0. geo_he h e Hh He. vals Hl h e Hh He.
  destruct (around o true true heads elems W m h l1 x l2 Hh Hq) as (Hx & Hx0 & K1 & K2 & K3 & _ & K5 & K6 & K7); spec_hyps.
  assert (Hex : e ≠ x) by set_solver. geo_he h x Hh Hx. geo_ee e x He Hx Hex.
  destruct (link_apart o true true heads elems W h l1 e Hh) as [K8 K9]; [|done|set_solver|].
  { pose proof (q_elems _ _ _ _ _ _ _ Hq). set_solver. }
  specialize (K9 eq_refl). macro. eexists. split; [qrun|]. result_tac.
  apply (insert_at o true true heads elems W m _ h l1 (x :: l2) e); links.
Qed.

Lemma tailq_remove m h l1 x l2 :
  h ∈ heads → live m → tailq m h (l1 ++ x :: l2) →
  ∃ m', TAILQ_REMOVE o h x m = Done () m' ∧
    result o true true heads elems m h (l1 ++ x :: l2) (l1 ++ l2) m'.
Proof.
  intros Hh Hl Hq. pose proof (head_nonnull _ _ _ _ _ W h Hh) as Hh0.
  destruct (around o true true heads elems W m h l1 x l2 Hh Hq) as (Hx & Hx0 & K1 & K2 & K3 & K4 & K5 & K6 & K7); spec_hyps.
  geo_he h x Hh Hx. destruct (al_last _ _ _ _ _ _ Hl h Hh eq_refl) as [? ?].
  destruct l2 as [|y l2]; simpl in K3.
  - macro. eexists. split; [qrun|]. result_tac. apply (remove_at o true true heads elems W m _ h l1 [] x); links.
  - destruct (K4 y l2 eq_refl) as (Hy & Hxy & Hy0 & K8 & K9 & K10); spec_hyps. geo_he h y Hh Hy. geo_ee x y Hx Hy Hxy.
    macro. eexists. split; [qrun|]. result_tac.
    apply (remove_at o true true heads elems W m _ h l1 (y :: l2) x); links.
Qed.

Lemma tailq_concat m h1 h2 l1 l2 :
  h1 ∈ heads → h2 ∈ heads → h1 ≠ h2 → (∀ x, x ∈ l1 → x ∉ l2) → live m → tailq m h1 l1 → tailq m h2 l2 →
  ∃ m', TAILQ_CONCAT o h1 h2 m = Done () m' ∧ tailq m' h1 (l1 ++ l2) ∧ tailq m' h2 [] ∧ live m' ∧
    ∀ a, ¬ owned o true true h1 l1 a → ¬ owned o true true h2 l2 a → m' !! a = m !! a.
Proof.
  intros Hh1 Hh2 Hne Hd Hl Hq1 Hq2.
  pose proof (head_nonnull _ _ _ _ _ W h1 Hh1). pose proof (head_nonnull _ _ _ _ _ W h2 Hh2).
  pose proof (w_apart _ _ _ _ _ W h1 h2 Hh1 Hh2 Hne) as Ha. unfold hsize in Ha.
  destruct (tailq_end m h1 l1 Hh1 Hq1) as (K1 & K2 & K3). pose proof (q_last _ _ _ _ _ _ _ Hq2 eq_refl) as K4.
  pose proof (q_seg _ _ _ _ _ _ _ Hq2) as Hs. pose proof (q_elems _ _ _ _ _ _ _ Hq1) as Hs1.
  pose proof (q_elems _ _ _ _ _ _ _ Hq2) as Hs2.
  destruct l2 as [|y l2]; simpl in Hs.
  { exists m. rewrite app_nil_r. split_and!; auto. macro. qrun. }
  destruct Hs as (Kf & Ky & Kp & Kg). specialize (Kp eq_refl).
  assert (Hy : y ∈ elems) by set_solver. geo_he h1 y Hh1 Hy. geo_he h2 y Hh2 Hy.
  assert (Hy1 : y ∉ l1) by (intros ?; apply (Hd y); set_solver).
  destruct (link_apart o true true heads elems W h1 l1 y Hh1 Hs1 Hy Hy1) as [K5 K6]. specialize (K6 eq_refl).
  assert (Hown : owned o true true h1 l1 (endc o h1 l1)) by (apply owned_end; set_solver).
  assert (Hno : ∀ a, owned o true true h2 (y :: l2) a → endc o h1 l1 ≠ a).
  { intros a Ho <-. by apply (owned_apart o true true heads elems W h1 l1 h2 (y :: l2) (endc o h1 l1)). }
  assert (Kh1 : endc o h1 l1 ≠ h2) by (apply Hno; own).
  assert (Kh2 : endc o h1 l1 ≠ h2 + 8) by (apply Hno; own).
  assert (Hrest : ∀ h a, h ∈ heads → touches o true (y + o) l2 a → a ≠ h ∧ a ≠ h + 8 ∧ a ≠ y + (o + 8)).
  { intros h a Hh Ht. destruct (rest_apart o true true heads elems W h y l2 a Hh Hs2 (q_nodup _ _ _ _ _ _ _ Hq2) Ht) as (? & ? & ?). auto. }
  macro. eexists. split; [qrun|]. split_and!.
  - rewrite <- (app_nil_r (l1 ++ y :: l2)), <- app_assoc.
    apply (splice o true true heads elems W m _ h1 l1 [] (y :: l2) []); rewrite ?app_nil_r; [done|done|done|..].
    + apply NoDup_app. split_and!; [apply Hq1|set_solver|apply Hq2].
    + simpl. split_and!; [lk|done|intros _; lk|]. eapply seg_frame; [exact Kg|].
      intros a Hta. destruct (Hrest h1 a Hh1 Hta) as (? & ? & ?). destruct (Hrest h2 a Hh2 Hta) as (? & ? & _).
      assert (endc o h1 l1 ≠ a) by (apply Hno; left; right; destruct Hta as [->|(x & ? & ?)]; [exists y|exists x]; set_solver).
      rewrite !lookup_insert_ne by congruence. done.
    + done.
    + intros _ _. simpl. lk.
    + intros a Hta ? _ ?. spec_hyps. assert (Hoa : owned o true true h1 l1 a) by exact Hta.
      assert (Hno2 : ∀ b, owned o true true h2 (y :: l2) b → b ≠ a).
      { intros b Hb ->. by apply (owned_apart o true true heads elems W h1 l1 h2 (y :: l2) a). }
      assert (h2 ≠ a) by (apply Hno2; own). assert (h2 + 8 ≠ a) by (apply Hno2; own).
      assert (y + (o + 8) ≠ a) by (apply Hno2; own). rewrite !lookup_insert_ne by congruence. done.
  - split; [set_solver|constructor|simpl; lk|intros _; simpl; lk].
  - by repeat apply alive_insert.
  - intros a Ho1 Ho2. rewrite !lookup_insert_ne; [done|..]; intros <-; first [apply Ho1; own | apply Ho2; own].
Qed.

(** The end of TAILQ_SWAP, for one of the heads: the list that was at [h0]
    gets the back pointer or the end pointer of its new head. *)
Definition swap_fix (h : Z) : C cells () :=
  swap_first ← TAILQ_FIRST h;
  if swap_first =? 0 then set_tqh_last h h else set_tqe_prev o swap_first h.

(** The links between the elements of [l]: all but the back pointer of the
    first. *)
Definition inner (l : list Z) (a : Z) : Prop :=
  ∃ e, e ∈ l ∧ (a = e + o ∨ true = true ∧ a = e + (o + 8) ∧ e ≠ first 0 l).

Lemma inner_apart h l a : h ∈ heads → l ⊆ elems → inner l a → a ≠ h ∧ a ≠ h + 8 ∧ a ≠ first 0 l + (o + 8).
Proof.
  intros Hh Hs (e & He & Ha). assert (He' : e ∈ elems) by set_solver. geo_he h e Hh He'.
  destruct (decide (e = first 0 l)) as [Heq|Hne]; [lia|].
  assert (Hy : first 0 l ∈ elems) by (destruct l; simpl; set_solver). geo_ee e (first 0 l) He' Hy Hne. lia.
Qed.

Lemma swap_fix_ok m0 m h0 h l :
  h0 ∈ heads → h ∈ heads → live m → tailq m0 h0 l →
  m !! h = Some (first 0 l) → m !! (h + 8) = Some (endc o h0 l) → (∀ a, inner l a → m !! a = m0 !! a) →
  ∃ m', swap_fix h m = Done () m' ∧ result o true true heads elems m h l l m' ∧ m' !! h = m !! h.
Proof.
  intros Hh0 Hh Hl Hq Hf Hlast Hin. pose proof (head_nonnull _ _ _ _ _ W h Hh).
  pose proof (q_elems _ _ _ _ _ _ _ Hq) as Hs. unfold swap_fix.
  assert (Hap := λ a, inner_apart h l a Hh Hs).
  destruct l as [|y l]; simpl in Hf, Hlast, Hap.
  - macro. eexists. split; [qrun|]. split; [|lk]. result_tac.
    apply (rehead o true true heads elems W m0 _ h0 h); [done..|links|links|links|].
    intros a (e & He & _). set_solver.
  - assert (Hy : y ∈ elems) by set_solver. geo_he h y Hh Hy.
    destruct (al_prev _ _ _ _ _ _ Hl y Hy eq_refl) as [? ?].
    macro. eexists. split; [qrun|]. split; [|lk]. result_tac.
    apply (rehead o true true heads elems W m0 _ h0 h); [done..|links|links|links|].
    intros a Ha. destruct (Hap a Ha) as (_ & _ & Hne). rewrite lookup_insert_ne by congruence. by apply Hin.
Qed.

Lemma tailq_swap m h1 h2 l1 l2 :
  h1 ∈ heads → h2 ∈ heads → h1 ≠ h2 → (∀ x, x ∈ l1 → x ∉ l2) → live m → tailq m h1 l1 → tailq m h2 l2 →
  ∃ m', TAILQ_SWAP o h1 h2 m = Done () m' ∧ tailq m' h1 l2 ∧ tailq m' h2 l1 ∧ live m' ∧
    ∀ a, ¬ owned o true true h1 l1 a → ¬ owned o true true h2 l2 a → m' !! a = m !! a.
Proof.
  intros Hh1 Hh2 Hne Hd Hl Hq1 Hq2.
  pose proof (head_nonnull _ _ _ _ _ W h1 Hh1). pose proof (head_nonnull _ _ _ _ _ W h2 Hh2).
  pose proof (w_apart _ _ _ _ _ W h1 h2 Hh1 Hh2 Hne) as Ha. unfold hsize in Ha.
  pose proof (q_last _ _ _ _ _ _ _ Hq1 eq_refl) as K3. pose proof (q_last _ _ _ _ _ _ _ Hq2 eq_refl) as K4.
  assert (K1 : m !! h1 = Some (first 0 l1)) by (pose proof (q_seg _ _ _ _ _ _ _ Hq1); by destruct l1; simpl in *; destruct_and?).
  assert (K2 : m !! h2 = Some (first 0 l2)) by (pose proof (q_seg _ _ _ _ _ _ _ Hq2); by destruct l2; simpl in *; destruct_and?).
  pose proof (q_elems _ _ _ _ _ _ _ Hq1) as Hs1. pose proof (q_elems _ _ _ _ _ _ _ Hq2) as Hs2.
  set (m1 := <[h2 + 8 := endc o h1 l1]> (<[h2 := first 0 l1]> (<[h1 + 8 := endc o h2 l2]> (<[h1 := first 0 l2]> m)))).
  assert (Hl1 : live m1) by (by repeat apply alive_insert).
  assert (Hm1 : ∀ l a, l ⊆ elems → inner l a → m1 !! a = m !! a).
  { intros l a Hsl Hi. destruct (inner_apart h1 l a Hh1 Hsl Hi) as (? & ? & _).
    destruct (inner_apart h2 l a Hh2 Hsl Hi) as (? & ? & _). unfold m1. by rewrite !lookup_insert_ne by congruence. }
  destruct (swap_fix_ok m m1 h2 h1 l2) as (m2 & Hr2 & [Q2 A2 F2] & E2); [done|done|done|done|unfold m1; lk|unfold m1; lk|intros a; by apply Hm1|].
  assert (Hoff : ∀ a, owned o true true h2 l1 a → m2 !! a = m1 !! a).
  { intros a Ho. apply F2. by apply (owned_apart o true true heads elems W h2 l1 h1 l2). }
  destruct (swap_fix_ok m m2 h1 h2 l1) as (m3 & Hr3 & [Q3 A3 F3] & _); [done|done|done|done| | | |].
  { rewrite Hoff by own. unfold m1. lk. }
  { rewrite Hoff by own. unfold m1. lk. }
  { intros a Hi. rewrite <- (Hm1 l1) by done. apply Hoff. destruct Hi as (e & ? & ?). left. right. exists e. naive_solver. }
  exists m3. split_and!; [|eapply queue_frame; [exact Q2|]|done|done|].
  - assert (Hrun : TAILQ_SWAP o h1 h2 m = (swap_fix h1;; swap_fix h2) m1).
    { unfold swap_fix. macro. do 8 qstep. by rewrite bind_assoc. }
    rewrite Hrun, (bind_done _ _ _ _ _ Hr2). done.
  - intros a Ho. apply F3. apply (owned_apart o true true heads elems W h1 l2 h2 l1); naive_solver.
  - intros a Ho1 Ho2. rewrite F3, F2; [unfold m1; rewrite !lookup_insert_ne; [done|..]; intros <-; first [apply Ho1; own|apply Ho2; own]| |].
    + intros [[->|(e & He & Hae)]|[_ ->]]; [apply Ho1; own| |apply Ho1; own]. apply Ho2. left. right. eauto.
    + intros [[->|(e & He & Hae)]|[_ ->]]; [apply Ho2; own| |apply Ho2; own]. apply Ho1. left. right. eauto.
Qed.

End TailQ.
