(* ===== verification/LinkedLists.v ===== *)
(** * Lists, singly-linked lists and singly-linked tail queues refine lists

    The macros of the LIST, SLIST and STAILQ families, as TailQueue.v has
    those of the TAILQ family. *)

From S2P Require Import Prelude.
From S2P Require Import Queue.
From S2P Require Import QueueSpec.

Ltac macro :=
  unfold LIST_INSERT_HEAD, LIST_INSERT_AFTER, LIST_INSERT_BEFORE, LIST_REMOVE, LIST_INIT, LIST_EMPTY,
    LIST_FIRST, LIST_NEXT, le_prev, set_LIST_NEXT, set_le_prev, set_LIST_FIRST,
    SLIST_INSERT_HEAD, SLIST_INSERT_AFTER, SLIST_REMOVE_AFTER, SLIST_REMOVE_HEAD, SLIST_INIT, SLIST_EMPTY,
    SLIST_FIRST, SLIST_NEXT, set_SLIST_NEXT, set_SLIST_FIRST,
    STAILQ_INSERT_HEAD, STAILQ_INSERT_TAIL, STAILQ_INSERT_AFTER, STAILQ_REMOVE_AFTER, STAILQ_REMOVE_HEAD,
    STAILQ_LAST, STAILQ_CONCAT, STAILQ_INIT, STAILQ_EMPTY,
    STAILQ_FIRST, STAILQ_NEXT, stqh_last, set_STAILQ_NEXT, set_stqh_last, set_STAILQ_FIRST.

(** The second case of a list: its first element and the layout around it. *)
Ltac second h e y Hh He Hq Hn :=
  let Hy := fresh in let Hey := fresh in
  assert (Hy : y ∈ _) by (apply (q_elems _ _ _ _ _ _ _ Hq); set_solver);
  assert (Hey : e ≠ y) by set_solver; geo_he h y Hh Hy; geo_ee e y He Hy Hey.


(** ** LIST *)

Section List.
Context (o : Z) (heads elems : list Z).
Hypothesis W : world o true false heads elems.

Notation blist := (queue o true false elems).
Notation live := (alive o true false heads elems).
Notation res := (result o true false heads elems).

Lemma list_init m h l :
  h ∈ heads → live m → ∃ m', LIST_INIT h m = Done () m' ∧ res m h l [] m'.
Proof.
  intros Hh Hl. geo_h h Hh. destruct (al_first _ _ _ _ _ _ Hl h Hh) as [? ?].
  macro. eexists. split; [qrun|]. result_tac. split; [set_solver|constructor|simpl; lk|done].
Qed.

Lemma list_insert_head m h l e :
  h ∈ heads → e ∈ elems → e ∉ l → live m → blist m h l →
  ∃ m', LIST_INSERT_HEAD o h e m = Done () m' ∧ res m h (e :: l) (e :: l) m'.
Proof.
  intros Hh He Hn Hl Hq. geo_h h Hh. geo_he h e Hh He.
  destruct (al_next _ _ _ _ _ _ Hl e He) as [? ?]. destruct (al_prev _ _ _ _ _ _ Hl e He eq_refl) as [? ?].
  pose proof (q_seg _ _ _ _ _ _ _ Hq) as Hs. destruct l as [|y l]; simpl in Hs; destruct_and?; spec_hyps.
  - macro. eexists. split; [qrun|]. result_tac. apply (insert_at o true false heads elems W m _ h [] [] e); links.
  - second h e y Hh He Hq Hn. macro. eexists. split; [qrun|]. result_tac.
    apply (insert_at o true false heads elems W m _ h [] (y :: l) e); links.
Qed.

Lemma list_insert_after m h l1 x l2 e :
  h ∈ heads → e ∈ elems → e ∉ l1 ++ x :: l2 → live m → blist m h (l1 ++ x :: l2) →
  ∃ m', LIST_INSERT_AFTER o x e m = Done () m' ∧ res m h (e :: l1 ++ x :: l2) (l1 ++ x :: e :: l2) m'.
Proof.
  intros Hh He Hn Hl Hq. geo_h h Hh. geo_he h e Hh He.
  destruct (al_next _ _ _ _ _ _ Hl e He) as [? ?]. destruct (al_prev _ _ _ _ _ _ Hl e He eq_refl) as [? ?].
  destruct (around o true false heads elems W m h l1 x l2 Hh Hq) as (Hx & Hx0 & K1 & K2 & K3 & K4 & _); spec_hyps.
  assert (Hex : e ≠ x) by set_solver. geo_he h x Hh Hx. geo_ee e x He Hx Hex.
  assert (Hq' : blist m h ((l1 ++ [x]) ++ l2)) by (by rewrite <- app_assoc).
  assert (He' : endc o h (l1 ++ [x]) = x + o) by (by rewrite endc_app).
  replace (l1 ++ x :: e :: l2) with ((l1 ++ [x]) ++ e :: l2) by (by rewrite <- app_assoc).
  destruct l2 as [|y l2]; simpl in K3.
  - macro. eexists. split; [qrun|]. result_tac.
    apply (insert_at o true false heads elems W m _ h (l1 ++ [x]) [] e); rewrite ?He', <- ?app_assoc; links.
  - destruct (K4 y l2 eq_refl) as (Hy & Hxy & Hy0 & K5 & _); spec_hyps.
    assert (Hey : e ≠ y) by set_solver. geo_he h y Hh Hy. geo_ee e y He Hy Hey. geo_ee x y Hx Hy Hxy.
    macro. eexists. split; [qrun|]. result_tac.
    apply (insert_at o true false heads elems W m _ h (l1 ++ [x]) (y :: l2) e); rewrite ?He', <- ?app_assoc; links.
Qed.

Lemma list_insert_before m h l1 x l2 e :
  h ∈ heads → e ∈ elems → e ∉ l1 ++ x :: l2 → live m → blist m h (l1 ++ x :: l2) →
  ∃ m', LIST_INSERT_BEFORE o x e m = Done () m' ∧ res m h (e :: l1 ++ x :: l2) (l1 ++ e :: x :: l2) m'.
Proof.
  intros Hh He Hn Hl Hq. geo_h h Hh. geo_he h e Hh He.
  destruct (al_next _ _ _ _ _ _ Hl e He) as [? ?]. destruct (al_prev _ _ _ _ _ _ Hl e He eq_refl) as [? ?].
  destruct (around o true false heads elems W m h l1 x l2 Hh Hq) as (Hx & Hx0 & K1 & K2 & K3 & _ & K5 & K6 & _); spec_hyps.
  assert (Hex : e ≠ x) by set_solver. geo_he h x Hh Hx. geo_ee e x He Hx Hex.
  destruct (link_apart o true false heads elems W h l1 e Hh) as [K8 K9]; [|done|set_solver|].
  { pose proof (q_elems _ _ _ _ _ _ _ Hq). set_solver. }
  spec_hyps. macro. eexists. split; [qrun|]. result_tac.
  apply (insert_at o true false heads elems W m _ h l1 (x :: l2) e); links.
Qed.

Lemma list_remove m h l1 x l2 :
  h ∈ heads → live m → blist m h (l1 ++ x :: l2) →
  ∃ m', LIST_REMOVE o x m = Done () m' ∧ res m h (l1 ++ x :: l2) (l1 ++ l2) m'.
Proof.
  intros Hh Hl Hq. geo_h h Hh.
  destruct (around o true false heads elems W m h l1 x l2 Hh Hq) as (Hx & Hx0 & K1 & K2 & K3 & K4 & K5 & K6 & _); spec_hyps.
  geo_he h x Hh Hx. destruct l2 as [|y l2]; simpl in K3.
  - macro. eexists. split; [qrun|]. result_tac. apply (remove_at o true false heads elems W m _ h l1 [] x); links.
  - destruct (K4 y l2 eq_refl) as (Hy & Hxy & Hy0 & K8 & K9 & K10); spec_hyps. geo_he h y Hh Hy. geo_ee x y Hx Hy Hxy.
    macro. eexists. split; [qrun|]. result_tac.
    apply (remove_at o true false heads elems W m _ h l1 (y :: l2) x); links.
Qed.

End List.

(** ** SLIST *)

Section SList.
Context (o : Z) (heads elems : list Z).
Hypothesis W : world o false false heads elems.

Notation slist := (queue o false false elems).
Notation live := (alive o false false heads elems).
Notation res := (result o false false heads elems).

Lemma slist_init m h l :
  h ∈ heads → live m → ∃ m', SLIST_INIT h m = Done () m' ∧ res m h l [] m'.
Proof.
  intros Hh Hl. geo_h h Hh. destruct (al_first _ _ _ _ _ _ Hl h Hh) as [? ?].
  macro. eexists. split; [qrun|]. result_tac. split; [set_solver|constructor|simpl; lk|done].
Qed.

Lemma slist_insert_head m h l e :
  h ∈ heads → e ∈ elems → e ∉ l → live m → slist m h l →
  ∃ m', SLIST_INSERT_HEAD o h e m = Done () m' ∧ res m h (e :: l) (e :: l) m'.
Proof.
  intros Hh He Hn Hl Hq. geo_h h Hh. geo_he h e Hh He. destruct (al_next _ _ _ _ _ _ Hl e He) as [? ?].
  assert (Hf : m !! h = Some (first 0 l)) by (pose proof (q_seg _ _ _ _ _ _ _ Hq); by destruct l; simpl in *; destruct_and?).
  macro. eexists. split; [qrun|]. result_tac. apply (insert_at o false false heads elems W m _ h [] l e); links.
Qed.

Lemma slist_insert_after m h l1 x l2 e :
  h ∈ heads → e ∈ elems → e ∉ l1 ++ x :: l2 → live m → slist m h (l1 ++ x :: l2) →
  ∃ m', SLIST_INSERT_AFTER o x e m = Done () m' ∧ res m h (e :: l1 ++ x :: l2) (l1 ++ x :: e :: l2) m'.
Proof.
  intros Hh He Hn Hl Hq. geo_h h Hh. geo_he h e Hh He. destruct (al_next _ _ _ _ _ _ Hl e He) as [? ?].
  destruct (around o false false heads elems W m h l1 x l2 Hh Hq) as (Hx & Hx0 & K1 & _ & K3 & K4 & _).
  assert (Hex : e ≠ x) by set_solver. geo_he h x Hh Hx. geo_ee e x He Hx Hex.
  assert (He' : endc o h (l1 ++ [x]) = x + o) by (by rewrite endc_app).
  replace (l1 ++ x :: e :: l2) with ((l1 ++ [x]) ++ e :: l2) by (by rewrite <- app_assoc).
  macro. eexists. split; [qrun|]. result_tac.
  apply (insert_at o false false heads elems W m _ h (l1 ++ [x]) l2 e); rewrite ?He', <- ?app_assoc; links.
Qed.

Lemma slist_remove_head m h x l :
  h ∈ heads → live m → slist m h (x :: l) →
  ∃ m', SLIST_REMOVE_HEAD o h m = Done () m' ∧ res m h (x :: l) l m'.
Proof.
  intros Hh Hl Hq. geo_h h Hh.
  destruct (around o false false heads elems W m h [] x l Hh Hq) as (Hx & Hx0 & K1 & _ & K3 & _). simpl in K1.
  geo_he h x Hh Hx. macro. eexists. split; [qrun|]. result_tac.
  apply (remove_at o false false heads elems W m _ h [] l x); links.
Qed.

Lemma slist_remove_after m h l1 p x l2 :
  h ∈ heads → live m → slist m h (l1 ++ p :: x :: l2) →
  ∃ m', SLIST_REMOVE_AFTER o p m = Done () m' ∧ res m h (l1 ++ p :: x :: l2) (l1 ++ p :: l2) m'.
Proof.
  intros Hh Hl Hq. geo_h h Hh.
  destruct (around o false false heads elems W m h l1 p (x :: l2) Hh Hq) as (Hp & Hp0 & _ & _ & K3 & K4 & _).
  destruct (K4 x l2 eq_refl) as (Hx & Hpx & Hx0 & _). simpl in K3.
  assert (Hq' : slist m h ((l1 ++ [p]) ++ x :: l2)) by (by rewrite <- app_assoc).
  destruct (around o false false heads elems W m h (l1 ++ [p]) x l2 Hh Hq') as (_ & _ & _ & _ & K5 & _).
  assert (He' : endc o h (l1 ++ [p]) = p + o) by (by rewrite endc_app).
  replace (l1 ++ p :: l2) with ((l1 ++ [p]) ++ l2) by (by rewrite <- app_assoc).
  macro. eexists. split; [qrun|]. result_tac.
  apply (remove_at o false false heads elems W m _ h (l1 ++ [p]) l2 x); rewrite ?He'; links.
Qed.

(** Removal anywhere: the loop finds the element before. *)
Lemma slist_remove m h l1 x l2 :
  h ∈ heads → live m → slist m h (l1 ++ x :: l2) →
  ∃ m', SLIST_REMOVE o h x m = Done () m' ∧ res m h (l1 ++ x :: l2) (l1 ++ l2) m'.
Proof.
  intros Hh Hl Hq. geo_h h Hh. unfold SLIST_REMOVE.
  destruct l1 as [|c k].
  - destruct (around o false false heads elems W m h [] x l2 Hh Hq) as (_ & _ & K1 & _). simpl in K1.
    unfold SLIST_FIRST. setoid_rewrite (bind_done _ _ m m x); [|qstep]. rewrite Z.eqb_refl.
    by apply slist_remove_head.
  - destruct (around o false false heads elems W m h [] c (k ++ x :: l2) Hh Hq) as (_ & _ & K1 & _). simpl in K1.
    assert (Hcx : c ≠ x) by (intros ->; destruct Hq as [_ Hnd _ _]; apply NoDup_cons in Hnd as [Hnd _]; set_solver).
    unfold SLIST_FIRST. setoid_rewrite (bind_done _ _ m m c); [|qstep].
    replace (c =? x) with false by lia. setoid_rewrite (bind_done _ _ m m c); [|qstep].
    pose proof (seek_before_ok o false false heads elems m h [] c k x l2 W Hh Hq) as Hsb.
    setoid_rewrite (bind_done _ _ m m _ Hsb).
    destruct (@exists_last _ (c :: k)) as (k' & p & Hk'); [done|]. rewrite Hk' in *. rewrite last_last.
    rewrite <- !app_assoc in *. by apply slist_remove_after.
Qed.

End SList.

(** ** STAILQ *)

Section STailQ.
Context (o : Z) (heads elems : list Z).
Hypothesis W : world o false true heads elems.

Notation stailq := (queue o false true elems).
Notation live := (alive o false true heads elems).
Notation res := (result o false true heads elems).

Lemma stailq_init m h l :
  h ∈ heads → live m → ∃ m', STAILQ_INIT h m = Done () m' ∧ res m h l [] m'.
Proof.
  intros Hh Hl. geo_h h Hh. destruct (al_first _ _ _ _ _ _ Hl h Hh) as [? ?].
  destruct (al_last _ _ _ _ _ _ Hl h Hh eq_refl) as [? ?].
  macro. eexists. split; [qrun|]. result_tac. split; [set_solver|constructor|simpl; lk|intros _; simpl; lk].
Qed.

Lemma stailq_insert_head m h l e :
  h ∈ heads → e ∈ elems → e ∉ l → live m → stailq m h l →
  ∃ m', STAILQ_INSERT_HEAD o h e m = Done () m' ∧ res m h (e :: l) (e :: l) m'.
Proof.
  intros Hh He Hn Hl Hq. geo_h h Hh. geo_he h e Hh He. destruct (al_next _ _ _ _ _ _ Hl e He) as [? ?].
  destruct (al_last _ _ _ _ _ _ Hl h Hh eq_refl) as [? ?].
  pose proof (q_seg _ _ _ _ _ _ _ Hq) as Hs. destruct l as [|y l]; simpl in Hs; destruct_and?.
  - macro. eexists. split; [qrun|]. result_tac. apply (insert_at o false true heads elems W m _ h [] [] e); links.
  - macro. eexists. split; [qrun|]. result_tac. apply (insert_at o false true heads elems W m _ h [] (y :: l) e); links.
Qed.

Lemma stailq_insert_tail m h l e :
  h ∈ heads → e ∈ elems → e ∉ l → live m → stailq m h l →
  ∃ m', STAILQ_INSERT_TAIL o h e m = Done () m' ∧ res m h (e :: l) (l ++ [e]) m'.
Proof.
  intros Hh He Hn Hl Hq. geo_h h Hh. geo_he h e Hh He. destruct (al_next _ _ _ _ _ _ Hl e He) as [? ?].
  pose proof (queue_seg_end _ _ _ _ _ _ (q_seg _ _ _ _ _ _ _ Hq)) as K1.
  pose proof (q_last _ _ _ _ _ _ _ Hq eq_refl) as K2.
  pose proof (last_apart o false true heads elems W h l Hh (q_elems _ _ _ _ _ _ _ Hq) eq_refl) as K3.
  destruct (link_apart o false true heads elems W h l e Hh (q_elems _ _ _ _ _ _ _ Hq) He Hn) as [K4 _].
  macro. eexists. split; [qrun|]. result_tac.
  apply (insert_at o false true heads elems W m _ h l [] e); rewrite ?app_nil_r; links.
Qed.

Lemma stailq_insert_after m h l1 x l2 e :
  h ∈ heads → e ∈ elems → e ∉ l1 ++ x :: l2 → live m → stailq m h (l1 ++ x :: l2) →
  ∃ m', STAILQ_INSERT_AFTER o h x e m = Done () m' ∧ res m h (e :: l1 ++ x :: l2) (l1 ++ x :: e :: l2) m'.
Proof.
  intros Hh He Hn Hl Hq. geo_h h Hh. geo_he h e Hh He. destruct (al_next _ _ _ _ _ _ Hl e He) as [? ?].
  destruct (al_last _ _ _ _ _ _ Hl h Hh eq_refl) as [? ?].
  destruct (around o false true heads elems W m h l1 x l2 Hh Hq) as (Hx & Hx0 & K1 & _ & K3 & K4 & _).
  assert (Hex : e ≠ x) by set_solver. geo_he h x Hh Hx. geo_ee e x He Hx Hex.
  assert (He' : endc o h (l1 ++ [x]) = x + o) by (by rewrite endc_app).
  replace (l1 ++ x :: e :: l2) with ((l1 ++ [x]) ++ e :: l2) by (by rewrite <- app_assoc).
  destruct l2 as [|y l2]; simpl in K3.
  - macro. eexists. split; [qrun|]. result_tac.
    apply (insert_at o false true heads elems W m _ h (l1 ++ [x]) [] e); rewrite ?He', <- ?app_assoc; links.
  - destruct (K4 y l2 eq_refl) as (_ & _ & Hy0 & _). macro. eexists. split; [qrun|]. result_tac.
    apply (insert_at o false true heads elems W m _ h (l1 ++ [x]) (y :: l2) e); rewrite ?He', <- ?app_assoc; links.
Qed.

Lemma stailq_remove_head m h x l :
  h ∈ heads → live m → stailq m h (x :: l) →
  ∃ m', STAILQ_REMOVE_HEAD o h m = Done () m' ∧ res m h (x :: l) l m'.
Proof.
  intros Hh Hl Hq. geo_h h Hh. destruct (al_last _ _ _ _ _ _ Hl h Hh eq_refl) as [? ?].
  destruct (around o false true heads elems W m h [] x l Hh Hq) as (Hx & Hx0 & K1 & _ & K3 & K4 & _). simpl in K1.
  geo_he h x Hh Hx. destruct l as [|y l]; simpl in K3.
  - macro. eexists. split; [qrun|]. result_tac. apply (remove_at o false true heads elems W m _ h [] [] x); links.
  - destruct (K4 y l eq_refl) as (_ & _ & Hy0 & _). macro. eexists. split; [qrun|]. result_tac.
    apply (remove_at o false true heads elems W m _ h [] (y :: l) x); links.
Qed.

Lemma stailq_remove_after m h l1 p x l2 :
  h ∈ heads → live m → stailq m h (l1 ++ p :: x :: l2) →
  ∃ m', STAILQ_REMOVE_AFTER o h p m = Done () m' ∧ res m h (l1 ++ p :: x :: l2) (l1 ++ p :: l2) m'.
Proof.
  intros Hh Hl Hq. geo_h h Hh. destruct (al_last _ _ _ _ _ _ Hl h Hh eq_refl) as [? ?].
  destruct (around o false true heads elems W m h l1 p (x :: l2) Hh Hq) as (Hp & Hp0 & _ & _ & K3 & K4 & _).
  destruct (K4 x l2 eq_refl) as (Hx & Hpx & Hx0 & _). simpl in K3. geo_he h p Hh Hp.
  assert (Hq' : stailq m h ((l1 ++ [p]) ++ x :: l2)) by (by rewrite <- app_assoc).
  destruct (around o false true heads elems W m h (l1 ++ [p]) x l2 Hh Hq') as (_ & _ & _ & _ & K5 & K6 & _).
  assert (He' : endc o h (l1 ++ [p]) = p + o) by (by rewrite endc_app).
  replace (l1 ++ p :: l2) with ((l1 ++ [p]) ++ l2) by (by rewrite <- app_assoc).
  destruct l2 as [|y l2]; simpl in K5.
  - macro. eexists. split; [qrun|]. result_tac.
    apply (remove_at o false true heads elems W m _ h (l1 ++ [p]) [] x); rewrite ?He'; links.
  - destruct (K6 y l2 eq_refl) as (_ & _ & Hy0 & _). macro. eexists. split; [qrun|]. result_tac.
    apply (remove_at o false true heads elems W m _ h (l1 ++ [p]) (y :: l2) x); rewrite ?He'; links.
Qed.

(** Removal anywhere: the loop finds the element before. *)
Lemma stailq_remove m h l1 x l2 :
  h ∈ heads → live m → stailq m h (l1 ++ x :: l2) →
  ∃ m', STAILQ_REMOVE o h x m = Done () m' ∧ res m h (l1 ++ x :: l2) (l1 ++ l2) m'.
Proof.
  intros Hh Hl Hq. geo_h h Hh. unfold STAILQ_REMOVE.
  destruct l1 as [|c k].
  - destruct (around o false true heads elems W m h [] x l2 Hh Hq) as (_ & _ & K1 & _). simpl in K1.
    unfold STAILQ_FIRST. setoid_rewrite (bind_done _ _ m m x); [|qstep]. rewrite Z.eqb_refl.
    by apply stailq_remove_head.
  - destruct (around o false true heads elems W m h [] c (k ++ x :: l2) Hh Hq) as (_ & _ & K1 & _). simpl in K1.
    assert (Hcx : c ≠ x) by (intros ->; destruct Hq as [_ Hnd _ _]; apply NoDup_cons in Hnd as [Hnd _]; set_solver).
    unfold STAILQ_FIRST. setoid_rewrite (bind_done _ _ m m c); [|qstep].
    replace (c =? x) with false by lia. setoid_rewrite (bind_done _ _ m m c); [|qstep].
    pose proof (seek_before_ok o false true heads elems m h [] c k x l2 W Hh Hq) as Hsb.
    setoid_rewrite (bind_done _ _ m m _ Hsb).
    destruct (@exists_last _ (c :: k)) as (k' & p & Hk'); [done|]. rewrite Hk' in *. rewrite last_last.
    rewrite <- !app_assoc in *. by apply stailq_remove_after.
Qed.

Lemma stailq_last m h l : h ∈ heads → stailq m h l → STAILQ_LAST o h m = Done (List.last l 0) m.
Proof.
  intros Hh Hq. geo_h h Hh. pose proof (q_last _ _ _ _ _ _ _ Hq eq_refl) as K.
  pose proof (q_seg _ _ _ _ _ _ _ Hq) as Hs. destruct l as [|y l]; simpl in Hs.
  - macro. qrun.
  - destruct Hs as (Hf & Hy0 & _ & _).
    destruct (@exists_last _ (y :: l)) as (l' & z & Hz); [done|]. rewrite Hz in *. rewrite last_last.
    rewrite endc_app in K. simpl in K. macro. qrun. unfold mret, C_ret. f_equal. lia.
Qed.

End STailQ.
