(* ===== verification/QueuePairs.v ===== *)
(** * The operations on two lists

    SWAP of the four families of sys/queue.h and CONCAT of the two with an end
    pointer: the lists change places, or the second is appended to the first,
    and nothing but the variables of the two lists is touched. *)

From S2P Require Import Prelude.
From S2P Require Import Queue.
From S2P Require Import QueueSpec.
From S2P Require Import TailQueue.

(** ** Two queues of one program *)

Section Pair.
Context (o : Z) (back tail : bool) (heads elems : list Z).
Hypothesis W : world o back tail heads elems.

Notation qu := (queue o back tail elems).
Notation live := (alive o back tail heads elems).

(** What an operation on the queues at [h1] and [h2] leaves. *)
Record pair_result (m : cells) (h1 : Z) (l1 : list Z) (h2 : Z) (l2 l1' l2' : list Z) (m' : cells) : Prop := {
  pr_first : qu m' h1 l1';
  pr_second : qu m' h2 l2';
  pr_alive : live m';
  pr_frame : ∀ a, ¬ owned o back tail h1 l1 a → ¬ owned o back tail h2 l2 a → m' !! a = m !! a }.

(** A third queue keeps its contents. *)
Lemma third_queue m h1 l1 h2 l2 l1' l2' m' h l :
  pair_result m h1 l1 h2 l2 l1' l2' m' → h ∈ heads → h1 ∈ heads → h2 ∈ heads → h ≠ h1 → h ≠ h2 →
  l1 ⊆ elems → l2 ⊆ elems → (∀ x, x ∈ l → x ∉ l1) → (∀ x, x ∈ l → x ∉ l2) → qu m h l → qu m' h l.
Proof using W.
  intros [_ _ _ Hf] Hh Hh1 Hh2 Hn1 Hn2 Hs1 Hs2 Hd1 Hd2 Hq. pose proof (q_elems _ _ _ _ _ _ _ Hq) as Hs.
  eapply queue_frame; [exact Hq|]. intros a Ha.
  apply Hf; by apply (owned_apart o back tail heads elems W h l).
Qed.

(** The links between the elements of [l]: all but the back pointer of the
    first. *)
Definition between (l : list Z) (a : Z) : Prop :=
  ∃ e, e ∈ l ∧ (a = e + o ∨ back = true ∧ a = e + (o + 8) ∧ e ≠ first 0 l).

Lemma between_apart h l a :
  h ∈ heads → l ⊆ elems → between l a → h ≠ a ∧ (tail = true → h + 8 ≠ a).
Proof using W.
  intros Hh Hs (e & He & Ha). pose proof (w_heads _ _ _ _ _ W h e Hh ltac:(set_solver)) as Hw.
  unfold hsize, esize in Hw. destruct back, tail; destruct Ha as [->|(? & -> & _)]; try done; split; intros; lia.
Qed.

Lemma between_owned h l a : between l a → owned o back tail h l a.
Proof using. intros (e & He & Ha). left. right. exists e. split; [done|]. destruct Ha as [->|(? & -> & _)]; auto. Qed.

(** The same elements under another head own the same variables but those of
    the head. *)
Lemma owned_swap h h' l l' a :
  ¬ owned o back tail h l a → ¬ owned o back tail h' l' a → ¬ owned o back tail h l' a.
Proof using.
  intros H1 H2 [[->|(e & He & Ha)]|[Ht ->]]; [by apply H1, owned_head| |by apply H1, owned_last].
  apply H2. left. right. by exists e.
Qed.

(** The heads have been exchanged, and [fixup] adjusts the pointers to them. *)
Section Swap.
Context (fixup : Z → C cells ()).
Hypothesis fixup_ok : ∀ m0 m h0 h l,
  h0 ∈ heads → h ∈ heads → live m → qu m0 h0 l →
  m !! h = Some (first 0 l) → (tail = true → m !! (h + 8) = Some (endc o h0 l)) →
  (∀ a, between l a → m !! a = m0 !! a) →
  ∃ m', fixup h m = Done () m' ∧ result o back tail heads elems m h l l m'.

Lemma swap_heads m m1 h1 h2 l1 l2 :
  h1 ∈ heads → h2 ∈ heads → h1 ≠ h2 → (∀ x, x ∈ l1 → x ∉ l2) → qu m h1 l1 → qu m h2 l2 → live m1 →
  m1 !! h1 = Some (first 0 l2) → m1 !! h2 = Some (first 0 l1) →
  (tail = true → m1 !! (h1 + 8) = Some (endc o h2 l2)) → (tail = true → m1 !! (h2 + 8) = Some (endc o h1 l1)) →
  (∀ a, h1 ≠ a → h2 ≠ a → (tail = true → h1 + 8 ≠ a ∧ h2 + 8 ≠ a) → m1 !! a = m !! a) →
  ∃ m', (fixup h1;; fixup h2) m1 = Done () m' ∧ pair_result m h1 l1 h2 l2 l2 l1 m'.
Proof using W fixup_ok.
  intros Hh1 Hh2 Hne Hd Hq1 Hq2 Hl1 E1 E2 E3 E4 Hsame.
  pose proof (q_elems _ _ _ _ _ _ _ Hq1) as Hs1. pose proof (q_elems _ _ _ _ _ _ _ Hq2) as Hs2.
  assert (Hm1 : ∀ l a, l ⊆ elems → between l a → m1 !! a = m !! a).
  { intros l a Hsl Hi. destruct (between_apart h1 l a Hh1 Hsl Hi), (between_apart h2 l a Hh2 Hsl Hi).
    apply Hsame; auto. }
  destruct (fixup_ok m m1 h2 h1 l2) as (m2 & Hr2 & [Q2 A2 F2]); [done..|intros a; by apply Hm1|].
  assert (Hoff : ∀ a, owned o back tail h2 l1 a → m2 !! a = m1 !! a).
  { intros a Ho. apply F2. apply (owned_apart o back tail heads elems W h2 l1 h1 l2); auto. }
  destruct (fixup_ok m m2 h1 h2 l1) as (m3 & Hr3 & [Q3 A3 F3]); [done..| | | |].
  { by rewrite Hoff by apply owned_head. }
  { intros Ht. rewrite Hoff by (by apply owned_last). auto. }
  { intros a Hi. rewrite <- (Hm1 l1) by done. by apply Hoff, between_owned. }
  exists m3. rewrite (bind_done _ _ _ _ _ Hr2). split; [done|]. split; [|done|done|].
  - eapply queue_frame; [exact Q2|]. intros a Ho. apply F3.
    apply (owned_apart o back tail heads elems W h1 l2 h2 l1); naive_solver.
  - intros a Ho1 Ho2. rewrite F3 by (by apply (owned_swap h2 h1 l2)). rewrite F2 by (by apply (owned_swap h1 h2 l1)).
    apply Hsame; [intros <-; apply Ho1, owned_head|intros <-; apply Ho2, owned_head|].
    intros Ht. split; intros <-; [by apply Ho1, owned_last|by apply Ho2, owned_last].
Qed.
End Swap.
End Pair.

(** What the heads hold. *)
Ltac heads_hold Hq1 Hq2 l1 l2 m h1 h2 :=
  assert (m !! h1 = Some (first 0 l1))
    by (pose proof (q_seg _ _ _ _ _ _ _ Hq1); by destruct l1; simpl in *; destruct_and?);
  assert (m !! h2 = Some (first 0 l2))
    by (pose proof (q_seg _ _ _ _ _ _ _ Hq2); by destruct l2; simpl in *; destruct_and?).

(** ** SLIST *)

Section SList.
Context (o : Z) (heads elems : list Z).
Hypothesis W : world o false false heads elems.

Lemma slist_swap m h1 h2 l1 l2 :
  h1 ∈ heads → h2 ∈ heads → h1 ≠ h2 → (∀ x, x ∈ l1 → x ∉ l2) → alive o false false heads elems m →
  queue o false false elems m h1 l1 → queue o false false elems m h2 l2 →
  ∃ m', SLIST_SWAP h1 h2 m = Done () m' ∧ pair_result o false false heads elems m h1 l1 h2 l2 l2 l1 m'.
Proof.
  intros Hh1 Hh2 Hne Hd Hl Hq1 Hq2. geo_h h1 Hh1. geo_h h2 Hh2. heads_hold Hq1 Hq2 l1 l2 m h1 h2.
  destruct (swap_heads o false false heads elems W (λ _, mret ())) with (m := m) (h1 := h1) (h2 := h2) (l1 := l1)
    (l2 := l2) (m1 := <[h2 := first 0 l1]> (<[h1 := first 0 l2]> m)) as (m' & Hr & Hp); [|done..| | | | | | |].
  - intros m0 m1 h0 h l Hh0 Hh Hl1 Hq Hf _ Hin. exists m1. split; [done|]. split; [|done|done].
    by apply (rehead o false false heads elems W m0 m1 h0 h).
  - by repeat apply alive_insert.
  - lk.
  - lk.
  - done.
  - done.
  - intros a Ha1 Ha2 _. by rewrite !lookup_insert_ne.
  - exists m'. split; [|done]. rewrite <- Hr. unfold SLIST_SWAP, SLIST_FIRST, set_SLIST_FIRST. qrun.
Qed.
End SList.

(** ** LIST *)

Section List.
Context (o : Z) (heads elems : list Z).
Hypothesis W : world o true false heads elems.

(** The end of LIST_SWAP, for one of the heads. *)
Definition list_fixup (h : Z) : C cells () :=
  swap_tmp ← LIST_FIRST h; if swap_tmp =? 0 then mret () else set_le_prev o swap_tmp h.

Lemma list_fixup_ok m0 m h0 h l :
  h0 ∈ heads → h ∈ heads → alive o true false heads elems m → queue o true false elems m0 h0 l →
  m !! h = Some (first 0 l) → (false = true → m !! (h + 8) = Some (endc o h0 l)) →
  (∀ a, between o true l a → m !! a = m0 !! a) →
  ∃ m', list_fixup h m = Done () m' ∧ result o true false heads elems m h l l m'.
Proof.
  intros Hh0 Hh Hl Hq Hf _ Hin. geo_h h Hh. pose proof (q_elems _ _ _ _ _ _ _ Hq) as Hs.
  unfold list_fixup, LIST_FIRST, set_le_prev. destruct l as [|y l]; simpl in Hf.
  - exists m. split; [qrun|]. split; [|done|done].
    by apply (rehead o true false heads elems W m0 m h0 h).
  - assert (Hy : y ∈ elems) by set_solver. geo_he h y Hh Hy.
    destruct (al_prev _ _ _ _ _ _ Hl y Hy eq_refl) as [? ?].
    eexists. split; [qrun|]. result_tac.
    apply (rehead o true false heads elems W m0 _ h0 h); [done..|links|links|links|].
    intros a (e & He & Ha). rewrite lookup_insert_ne; [by apply Hin; exists e|].
    destruct (decide (e = y)) as [->|Hey]; [destruct Ha as [->|(_ & _ & Ha)]; [lia|done]|].
    assert (He' : e ∈ elems) by set_solver. geo_ee e y He' Hy Hey. lia.
Qed.

Lemma list_swap m h1 h2 l1 l2 :
  h1 ∈ heads → h2 ∈ heads → h1 ≠ h2 → (∀ x, x ∈ l1 → x ∉ l2) → alive o true false heads elems m →
  queue o true false elems m h1 l1 → queue o true false elems m h2 l2 →
  ∃ m', LIST_SWAP o h1 h2 m = Done () m' ∧ pair_result o true false heads elems m h1 l1 h2 l2 l2 l1 m'.
Proof.
  intros Hh1 Hh2 Hne Hd Hl Hq1 Hq2. geo_h h1 Hh1. geo_h h2 Hh2. heads_hold Hq1 Hq2 l1 l2 m h1 h2.
  destruct (swap_heads o true false heads elems W list_fixup list_fixup_ok) with (m := m) (h1 := h1) (h2 := h2)
    (l1 := l1) (l2 := l2) (m1 := <[h2 := first 0 l1]> (<[h1 := first 0 l2]> m)) as (m' & Hr & Hp); [done..| | | | | | |].
  - by repeat apply alive_insert.
  - lk.
  - lk.
  - done.
  - done.
  - intros a Ha1 Ha2 _. by rewrite !lookup_insert_ne.
  - exists m'. split; [|done]. rewrite <- Hr. unfold list_fixup, LIST_SWAP, LIST_FIRST, set_LIST_FIRST.
    do 4 qstep. by rewrite bind_assoc.
Qed.
End List.

(** ** STAILQ *)

Section STailQ.
Context (o : Z) (heads elems : list Z).
Hypothesis W : world o false true heads elems.

(** The end of STAILQ_SWAP, for one of the heads. *)
Definition stailq_fixup (h : Z) : C cells () :=
  e ← STAILQ_EMPTY h; if e : bool then set_stqh_last h h else mret ().

Lemma stailq_fixup_ok m0 m h0 h l :
  h0 ∈ heads → h ∈ heads → alive o false true heads elems m → queue o false true elems m0 h0 l →
  m !! h = Some (first 0 l) → (true = true → m !! (h + 8) = Some (endc o h0 l)) →
  (∀ a, between o false l a → m !! a = m0 !! a) →
  ∃ m', stailq_fixup h m = Done () m' ∧ result o false true heads elems m h l l m'.
Proof.
  intros Hh0 Hh Hl Hq Hf Hlast Hin. geo_h h Hh. specialize (Hlast eq_refl).
  unfold stailq_fixup, STAILQ_EMPTY, STAILQ_FIRST, set_stqh_last. destruct l as [|y l]; simpl in Hf, Hlast.
  - eexists. split; [qrun|]. result_tac.
    apply (rehead o false true heads elems W m0 _ h0 h); [done..|links|links|links|].
    intros a (e & He & _). set_solver.
  - pose proof (q_elems _ _ _ _ _ _ _ Hq) as Hs. assert (Hy : y ∈ elems) by set_solver. geo_he h y Hh Hy.
    exists m. split; [qrun|]. split; [|done|done].
    by apply (rehead o false true heads elems W m0 m h0 h).
Qed.

Lemma stailq_swap m h1 h2 l1 l2 :
  h1 ∈ heads → h2 ∈ heads → h1 ≠ h2 → (∀ x, x ∈ l1 → x ∉ l2) → alive o false true heads elems m →
  queue o false true elems m h1 l1 → queue o false true elems m h2 l2 →
  ∃ m', STAILQ_SWAP h1 h2 m = Done () m' ∧ pair_result o false true heads elems m h1 l1 h2 l2 l2 l1 m'.
Proof.
  intros Hh1 Hh2 Hne Hd Hl Hq1 Hq2. geo_h h1 Hh1. geo_h h2 Hh2. heads_hold Hq1 Hq2 l1 l2 m h1 h2.
  pose proof (w_apart _ _ _ _ _ W h1 h2 Hh1 Hh2 Hne) as Ha. unfold hsize in Ha.
  pose proof (q_last _ _ _ _ _ _ _ Hq1 eq_refl). pose proof (q_last _ _ _ _ _ _ _ Hq2 eq_refl).
  destruct (swap_heads o false true heads elems W stailq_fixup stailq_fixup_ok) with (m := m) (h1 := h1) (h2 := h2)
    (l1 := l1) (l2 := l2) (m1 := <[h2 + 8 := endc o h1 l1]> (<[h2 := first 0 l1]> (<[h1 + 8 := endc o h2 l2]>
      (<[h1 := first 0 l2]> m)))) as (m' & Hr & Hp); [done..| | | | | | |].
  - by repeat apply alive_insert.
  - lk.
  - lk.
  - intros _. lk.
  - intros _. lk.
  - intros a Ha1 Ha2 Ha3. destruct (Ha3 eq_refl). by rewrite !lookup_insert_ne.
  - exists m'. split; [|done]. rewrite <- Hr.
    unfold stailq_fixup, STAILQ_SWAP, STAILQ_FIRST, stqh_last, set_STAILQ_FIRST.
    unfold set_stqh_last. do 8 qstep. by rewrite bind_assoc.
Qed.

Lemma stailq_concat m h1 h2 l1 l2 :
  h1 ∈ heads → h2 ∈ heads → h1 ≠ h2 → (∀ x, x ∈ l1 → x ∉ l2) → alive o false true heads elems m →
  queue o false true elems m h1 l1 → queue o false true elems m h2 l2 →
  ∃ m', STAILQ_CONCAT h1 h2 m = Done () m' ∧ pair_result o false true heads elems m h1 l1 h2 l2 (l1 ++ l2) [] m'.
Proof.
  intros Hh1 Hh2 Hne Hd Hl Hq1 Hq2. geo_h h1 Hh1. geo_h h2 Hh2.
  pose proof (w_apart _ _ _ _ _ W h1 h2 Hh1 Hh2 Hne) as Ha. unfold hsize in Ha.
  pose proof (q_elems _ _ _ _ _ _ _ Hq1) as Hs1. pose proof (q_elems _ _ _ _ _ _ _ Hq2) as Hs2.
  pose proof (queue_seg_end _ _ _ _ _ _ (q_seg _ _ _ _ _ _ _ Hq1)) as K1.
  pose proof (q_last _ _ _ _ _ _ _ Hq1 eq_refl) as K2. pose proof (q_last _ _ _ _ _ _ _ Hq2 eq_refl) as K4.
  pose proof (last_apart o false true heads elems W h1 l1 Hh1 Hs1 eq_refl) as K3.
  pose proof (q_seg _ _ _ _ _ _ _ Hq2) as Hs. unfold STAILQ_CONCAT, STAILQ_EMPTY, STAILQ_FIRST.
  destruct l2 as [|y l2]; simpl in Hs.
  { exists m. rewrite app_nil_r. split; [qrun|by split]. }
  destruct Hs as (Kf & Ky & _ & Kg).
  assert (Hno : ∀ a, owned o false true h2 (y :: l2) a → endc o h1 l1 ≠ a).
  { intros a Ho <-. apply (owned_apart o false true heads elems W h1 l1 h2 (y :: l2) (endc o h1 l1)); auto.
    apply owned_end. done. }
  assert (Kh1 : endc o h1 l1 ≠ h2) by (apply Hno; own).
  assert (Kh2 : endc o h1 l1 ≠ h2 + 8) by (apply Hno; own).
  assert (Hrest : ∀ h a, h ∈ heads → touches o false (y + o) l2 a → a ≠ h ∧ a ≠ h + 8).
  { intros h a Hh Ht.
    destruct (rest_apart o false true heads elems W h y l2 a Hh Hs2 (q_nodup _ _ _ _ _ _ _ Hq2) Ht) as (? & ? & ?). auto. }
  unfold STAILQ_INIT, stqh_last, set_stqh_last, set_STAILQ_FIRST. eexists. split; [qrun|]. split.
  - rewrite <- (app_nil_r (l1 ++ y :: l2)), <- app_assoc.
    apply (splice o false true heads elems W m _ h1 l1 [] (y :: l2) []); rewrite ?app_nil_r; [done|done|done|..].
    + apply NoDup_app. split_and!; [apply Hq1|set_solver|apply Hq2].
    + simpl. split_and!; [lk|done|done|]. eapply seg_frame; [exact Kg|].
      intros a Hta. destruct (Hrest h1 a Hh1 Hta). destruct (Hrest h2 a Hh2 Hta).
      assert (endc o h1 l1 ≠ a) by (apply Hno; left; right; destruct Hta as [->|(x & ? & ?)]; [exists y|exists x]; set_solver).
      rewrite !lookup_insert_ne by congruence. done.
    + done.
    + intros _ _. simpl. lk.
    + intros a Hta ? _ ?. spec_hyps. assert (Hno2 : ∀ b, owned o false true h2 (y :: l2) b → b ≠ a).
      { intros b Hb ->. by apply (owned_apart o false true heads elems W h1 l1 h2 (y :: l2) a). }
      assert (h2 ≠ a) by (apply Hno2; own). assert (h2 + 8 ≠ a) by (apply Hno2; own).
      rewrite !lookup_insert_ne by congruence. done.
  - split; [set_solver|constructor|simpl; lk|intros _; simpl; lk].
  - by repeat apply alive_insert.
  - intros a Ho1 Ho2. rewrite !lookup_insert_ne; [done|..]; intros <-; first [apply Ho1; own | apply Ho2; own].
Qed.
End STailQ.
