(* ===== verification/QueueFamily.v ===== *)
(** * The four families of lists refine lists

    A client of sys/queue.h uses one family of macros on the heads and
    elements of its program.  Every sequence of operations it may make, on one
    list or on two, is shown to do to the represented lists what the abstract
    operations say; traversals and the draining loop follow. *)

From S2P Require Import Prelude.
From S2P Require Import Queue.
From S2P Require Import QueueSpec.
From S2P Require Import TailQueue.
From S2P Require Import LinkedLists.
From S2P Require Import QueuePairs.

(** ** The abstract operations *)

Inductive list_op :=
| Init
| InsertHead (e : Z)
| InsertTail (e : Z)
| InsertAfter (x e : Z)
| InsertBefore (x e : Z)
| Remove (x : Z)
| RemoveHead
| RemoveAfter (x : Z).

Fixpoint insert_after (x e : Z) (l : list Z) : list Z :=
  match l with [] => [] | y :: l => if y =? x then y :: e :: l else y :: insert_after x e l end.
Fixpoint insert_before (x e : Z) (l : list Z) : list Z :=
  match l with [] => [] | y :: l => if y =? x then e :: y :: l else y :: insert_before x e l end.
Fixpoint remove (x : Z) (l : list Z) : list Z :=
  match l with [] => [] | y :: l => if y =? x then l else y :: remove x l end.
Fixpoint remove_after (x : Z) (l : list Z) : list Z :=
  match l with [] => [] | y :: l => if y =? x then y :: tail l else y :: remove_after x l end.

Definition abs_op (op : list_op) (l : list Z) : list Z :=
  match op with
  | Init => []
  | InsertHead e => e :: l
  | InsertTail e => l ++ [e]
  | InsertAfter x e => insert_after x e l
  | InsertBefore x e => insert_before x e l
  | Remove x => remove x l
  | RemoveHead => tail l
  | RemoveAfter x => remove_after x l
  end.

(** The elements an operation adds. *)
Definition added (op : list_op) : list Z :=
  match op with
  | InsertHead e | InsertTail e | InsertAfter _ e | InsertBefore _ e => [e]
  | _ => []
  end.

(** What a client has to respect: elements are inserted once, and are in the
    list when they are referred to. *)
Definition legal (elems : list Z) (op : list_op) (l : list Z) : Prop :=
  (∀ e, e ∈ added op → e ∈ elems ∧ e ∉ l) ∧
  match op with
  | InsertAfter x _ | InsertBefore x _ | Remove x => x ∈ l
  | RemoveHead => l ≠ []
  | RemoveAfter x => ∃ l1 y l2, l = l1 ++ x :: y :: l2
  | _ => True
  end.

Section Around.
Context (x : Z) (l1 l2 : list Z).
Hypothesis Hx : x ∉ l1.

Lemma insert_after_at e : insert_after x e (l1 ++ x :: l2) = l1 ++ x :: e :: l2.
Proof.
  induction l1 as [|y l IH]; simpl; [by rewrite Z.eqb_refl|].
  replace (y =? x) with false by (symmetry; apply Z.eqb_neq; set_solver). rewrite IH; [done|set_solver].
Qed.
Lemma insert_before_at e : insert_before x e (l1 ++ x :: l2) = l1 ++ e :: x :: l2.
Proof.
  induction l1 as [|y l IH]; simpl; [by rewrite Z.eqb_refl|].
  replace (y =? x) with false by (symmetry; apply Z.eqb_neq; set_solver). rewrite IH; [done|set_solver].
Qed.
Lemma remove_is : remove x (l1 ++ x :: l2) = l1 ++ l2.
Proof.
  induction l1 as [|y l IH]; simpl; [by rewrite Z.eqb_refl|].
  replace (y =? x) with false by (symmetry; apply Z.eqb_neq; set_solver). rewrite IH; [done|set_solver].
Qed.
Lemma remove_after_at y : remove_after x (l1 ++ x :: y :: l2) = l1 ++ x :: l2.
Proof.
  induction l1 as [|z l IH]; simpl; [by rewrite Z.eqb_refl|].
  replace (z =? x) with false by (symmetry; apply Z.eqb_neq; set_solver). rewrite IH; [done|set_solver].
Qed.
End Around.

(** ** The macros of a family *)

Inductive family := SLIST | STAILQ | LIST | TAILQ.

(** Which have back pointers in the elements, and an end pointer in the head. *)
Definition has_back (f : family) : bool := match f with LIST | TAILQ => true | _ => false end.
Definition has_tail (f : family) : bool := match f with STAILQ | TAILQ => true | _ => false end.

(** The macro for an operation on the list at [h], if the family has one. *)
Definition macro_of (f : family) (o h : Z) (op : list_op) : option (C cells ()) :=
  match f, op with
  | SLIST, Init => Some (SLIST_INIT h)
  | SLIST, InsertHead e => Some (SLIST_INSERT_HEAD o h e)
  | SLIST, InsertAfter x e => Some (SLIST_INSERT_AFTER o x e)
  | SLIST, Remove x => Some (SLIST_REMOVE o h x)
  | SLIST, RemoveHead => Some (SLIST_REMOVE_HEAD o h)
  | SLIST, RemoveAfter x => Some (SLIST_REMOVE_AFTER o x)
  | STAILQ, Init => Some (STAILQ_INIT h)
  | STAILQ, InsertHead e => Some (STAILQ_INSERT_HEAD o h e)
  | STAILQ, InsertTail e => Some (STAILQ_INSERT_TAIL o h e)
  | STAILQ, InsertAfter x e => Some (STAILQ_INSERT_AFTER o h x e)
  | STAILQ, Remove x => Some (STAILQ_REMOVE o h x)
  | STAILQ, RemoveHead => Some (STAILQ_REMOVE_HEAD o h)
  | STAILQ, RemoveAfter x => Some (STAILQ_REMOVE_AFTER o h x)
  | LIST, Init => Some (LIST_INIT h)
  | LIST, InsertHead e => Some (LIST_INSERT_HEAD o h e)
  | LIST, InsertAfter x e => Some (LIST_INSERT_AFTER o x e)
  | LIST, InsertBefore x e => Some (LIST_INSERT_BEFORE o x e)
  | LIST, Remove x => Some (LIST_REMOVE o x)
  | TAILQ, Init => Some (TAILQ_INIT h)
  | TAILQ, InsertHead e => Some (TAILQ_INSERT_HEAD o h e)
  | TAILQ, InsertTail e => Some (TAILQ_INSERT_TAIL o h e)
  | TAILQ, InsertAfter x e => Some (TAILQ_INSERT_AFTER o h x e)
  | TAILQ, InsertBefore x e => Some (TAILQ_INSERT_BEFORE o x e)
  | TAILQ, Remove x => Some (TAILQ_REMOVE o h x)
  | _, _ => None
  end.

(** The operations on two lists. *)
Definition swap_macro (f : family) (o h1 h2 : Z) : C cells () :=
  match f with
  | SLIST => SLIST_SWAP h1 h2
  | STAILQ => STAILQ_SWAP h1 h2
  | LIST => LIST_SWAP o h1 h2
  | TAILQ => TAILQ_SWAP o h1 h2
  end.

Definition concat_macro (f : family) (o h1 h2 : Z) : option (C cells ()) :=
  match f with
  | STAILQ => Some (STAILQ_CONCAT h1 h2)
  | TAILQ => Some (TAILQ_CONCAT o h1 h2)
  | SLIST | LIST => None
  end.

(** Splitting a list at an element that occurs once. *)
Lemma split_once (l : list Z) x :
  NoDup l → x ∈ l → ∃ l1 l2, l = l1 ++ x :: l2 ∧ x ∉ l1.
Proof.
  intros Hnd (l1 & l2 & ->)%list_elem_of_split. exists l1, l2. split; [done|].
  apply NoDup_app in Hnd as (_ & H & _). intros ?. by apply (H x); set_solver.
Qed.

(** Reducing an operation at an element to its two sides. *)
Ltac at_elem Hq :=
  match goal with
  | Hx : ?x ∈ ?l |- _ =>
      let l1 := fresh "l" in let l2 := fresh "l" in let Hn := fresh in
      destruct (split_once l x (q_nodup _ _ _ _ _ _ _ Hq) Hx) as (l1 & l2 & -> & Hn);
      cbn [abs_op added app]; rewrite ?insert_after_at, ?insert_before_at, ?remove_is by done
  end.

Ltac fresh_elem Hf :=
  match goal with |- context [added (_ ?e)] => destruct (Hf e) as [? ?]; [set_solver|]
                | |- context [added (_ _ ?e)] => destruct (Hf e) as [? ?]; [set_solver|] end.

(** An operation at the successor of an element. *)
Ltac at_pair Hq Hleg :=
  destruct Hleg as (l1 & y & l2 & ->); cbn [abs_op added app];
  rewrite remove_after_at by
    (destruct Hq as [_ Hnd _ _]; apply NoDup_app in Hnd as (_ & Hd & _); intros ?; eapply Hd; [eassumption|set_solver]).

Section Families.
Context (f : family) (o : Z) (heads elems : list Z).
Hypothesis W : world o (has_back f) (has_tail f) heads elems.

Notation qu := (queue o (has_back f) (has_tail f) elems).
Notation live := (alive o (has_back f) (has_tail f) heads elems).

(** Each macro of each family does what the operation says. *)
Lemma macro_ok m h l op c :
  h ∈ heads → live m → qu m h l → macro_of f o h op = Some c → legal elems op l →
  ∃ m', c m = Done () m' ∧ result o (has_back f) (has_tail f) heads elems m h (added op ++ l) (abs_op op l) m'.
Proof.
  intros Hh Hl Hq Hc [Hf Hleg].
  destruct f, op; cbn [macro_of has_back has_tail] in *; try discriminate Hc; injection Hc as <-; try (fresh_elem Hf).
  - by apply slist_init.
  - by apply slist_insert_head.
  - at_elem Hq. by apply slist_insert_after.
  - at_elem Hq. by apply slist_remove.
  - destruct l; [done|]. by apply slist_remove_head.
  - at_pair Hq Hleg. by apply slist_remove_after.
  - by apply stailq_init.
  - by apply stailq_insert_head.
  - by apply stailq_insert_tail.
  - at_elem Hq. by apply stailq_insert_after.
  - at_elem Hq. by apply stailq_remove.
  - destruct l; [done|]. by apply stailq_remove_head.
  - at_pair Hq Hleg. by apply stailq_remove_after.
  - by apply list_init.
  - by apply list_insert_head.
  - at_elem Hq. by apply list_insert_after.
  - at_elem Hq. by apply list_insert_before.
  - at_elem Hq. by apply list_remove.
  - by apply tailq_init.
  - by apply tailq_insert_head.
  - by apply tailq_insert_tail.
  - at_elem Hq. by apply tailq_insert_after.
  - at_elem Hq. by apply tailq_insert_before.
  - at_elem Hq. by apply tailq_remove.
Qed.

Lemma swap_macro_ok m h1 h2 l1 l2 :
  h1 ∈ heads → h2 ∈ heads → h1 ≠ h2 → (∀ x, x ∈ l1 → x ∉ l2) → live m → qu m h1 l1 → qu m h2 l2 →
  ∃ m', swap_macro f o h1 h2 m = Done () m' ∧
    pair_result o (has_back f) (has_tail f) heads elems m h1 l1 h2 l2 l2 l1 m'.
Proof.
  intros. destruct f; cbn [swap_macro has_back has_tail] in *.
  - by apply slist_swap.
  - by apply stailq_swap.
  - by apply list_swap.
  - destruct (tailq_swap o heads elems W m h1 h2 l1 l2) as (m' & ? & ? & ? & ? & ?); [done..|]. by exists m'.
Qed.

Lemma concat_macro_ok m h1 h2 l1 l2 c :
  h1 ∈ heads → h2 ∈ heads → h1 ≠ h2 → (∀ x, x ∈ l1 → x ∉ l2) → live m → qu m h1 l1 → qu m h2 l2 →
  concat_macro f o h1 h2 = Some c →
  ∃ m', c m = Done () m' ∧
    pair_result o (has_back f) (has_tail f) heads elems m h1 l1 h2 l2 (l1 ++ l2) [] m'.
Proof.
  intros ? ? ? ? ? ? ? Hc. destruct f; cbn [concat_macro has_back has_tail] in *; try discriminate Hc; injection Hc as <-.
  - by apply stailq_concat.
  - destruct (tailq_concat o heads elems W m h1 h2 l1 l2) as (m' & ? & ? & ? & ? & ?); [done..|]. by exists m'.
Qed.
End Families.

(** ** Programs on the lists *)

Inductive queue_op :=
| On (h : Z) (op : list_op)
| Concat (h1 h2 : Z)
| Swap (h1 h2 : Z).

Definition run_op (f : family) (o : Z) (q : queue_op) : C cells () :=
  match q with
  | On h op => default ub (macro_of f o h op)
  | Concat h1 h2 => default ub (concat_macro f o h1 h2)
  | Swap h1 h2 => swap_macro f o h1 h2
  end.

Fixpoint run_ops (f : family) (o : Z) (qs : list queue_op) : C cells () :=
  match qs with
  | [] => mret ()
  | q :: qs => run_op f o q;; run_ops f o qs
  end.

(** Abstractly, each head has a list. *)
Definition upd (c : Z → list Z) (h : Z) (l : list Z) : Z → list Z := λ k, if k =? h then l else c k.

Definition abs_queue_op (q : queue_op) (c : Z → list Z) : Z → list Z :=
  match q with
  | On h op => upd c h (abs_op op (c h))
  | Concat h1 h2 => upd (upd c h1 (c h1 ++ c h2)) h2 []
  | Swap h1 h2 => upd (upd c h1 (c h2)) h2 (c h1)
  end.

Definition abs_ops (qs : list queue_op) (c : Z → list Z) : Z → list Z := foldl (λ c q, abs_queue_op q c) c qs.

(** What a client has to respect: it uses operations the family has, on the
    heads of its program, and inserts elements that are in no list. *)
Definition legal_queue_op (f : family) (o : Z) (heads elems : list Z) (q : queue_op) (c : Z → list Z) : Prop :=
  match q with
  | On h op => h ∈ heads ∧ is_Some (macro_of f o h op) ∧ legal elems op (c h) ∧
      ∀ e h', e ∈ added op → h' ∈ heads → e ∉ c h'
  | Concat h1 h2 => h1 ∈ heads ∧ h2 ∈ heads ∧ h1 ≠ h2 ∧ is_Some (concat_macro f o h1 h2)
  | Swap h1 h2 => h1 ∈ heads ∧ h2 ∈ heads ∧ h1 ≠ h2
  end.

Fixpoint legal_ops (f : family) (o : Z) (heads elems : list Z) (qs : list queue_op) (c : Z → list Z) : Prop :=
  match qs with
  | [] => True
  | q :: qs => legal_queue_op f o heads elems q c ∧ legal_ops f o heads elems qs (abs_queue_op q c)
  end.

(** Memory holds the list [c h] at every head [h], and no element twice. *)
Record holds (f : family) (o : Z) (heads elems : list Z) (m : cells) (c : Z → list Z) : Prop := {
  ho_queue : ∀ h, h ∈ heads → queue o (has_back f) (has_tail f) elems m h (c h);
  ho_apart : ∀ h h' x, h ∈ heads → h' ∈ heads → h ≠ h' → x ∈ c h → x ∉ c h' }.

Lemma abs_op_sub op l : abs_op op l ⊆ added op ++ l.
Proof.
  assert (Ha : ∀ x e l, insert_after x e l ⊆ e :: l).
  { intros x e l'. induction l' as [|y l' IH]; simpl; [set_solver|]. case_match; set_solver. }
  assert (Hb : ∀ x e l, insert_before x e l ⊆ e :: l).
  { intros x e l'. induction l' as [|y l' IH]; simpl; [set_solver|]. case_match; set_solver. }
  assert (Hr : ∀ x l, remove x l ⊆ l).
  { intros x l'. induction l' as [|y l' IH]; simpl; [set_solver|]. case_match; set_solver. }
  assert (Hs : ∀ x l, remove_after x l ⊆ l).
  { intros x l'. induction l' as [|y l' IH]; simpl; [set_solver|]. case_match; [destruct l'; set_solver|set_solver]. }
  destruct op; simpl; auto; [set_solver|set_solver|]. destruct l; set_solver.
Qed.

Lemma upd_eq c h l : upd c h l h = l.
Proof. unfold upd. by rewrite Z.eqb_refl. Qed.

Lemma upd_ne c h l k : k ≠ h → upd c h l k = c k.
Proof. intros Hk. unfold upd. by replace (k =? h) with false by lia. Qed.

Section Client.
Context (f : family) (o : Z) (heads elems : list Z).
Hypothesis W : world o (has_back f) (has_tail f) heads elems.

Notation qu := (queue o (has_back f) (has_tail f) elems).
Notation live := (alive o (has_back f) (has_tail f) heads elems).

(** Another queue keeps its contents. *)
Lemma other_queue m m' h l d l' h2 l2 :
  result o (has_back f) (has_tail f) heads elems m h d l' m' → h ∈ heads → h2 ∈ heads → h2 ≠ h →
  d ⊆ elems → (∀ x, x ∈ l2 → x ∉ d) → qu m h l → qu m h2 l2 → qu m' h2 l2.
Proof.
  intros [_ _ Hf] Hh Hh2 Hne Hd Hdis Hq Hq2. eapply queue_frame; [exact Hq2|].
  intros a Ha. apply Hf. apply (owned_apart o (has_back f) (has_tail f) heads elems W h2 l2 h d); try done.
  apply (q_elems _ _ _ _ _ _ _ Hq2).
Qed.

Lemma on_ok m c h op :
  live m → holds f o heads elems m c → legal_queue_op f o heads elems (On h op) c →
  ∃ m', run_op f o (On h op) m = Done () m' ∧ live m' ∧ holds f o heads elems m' (abs_queue_op (On h op) c).
Proof.
  intros Hl [Hq Hap] (Hh & [k Hk] & Hleg & Hfresh).
  destruct (macro_ok f o heads elems W m h (c h) op k Hh Hl (Hq h Hh) Hk Hleg) as (m' & Hr & Hres).
  exists m'. cbn [run_op]. rewrite Hk. split; [done|]. split; [apply Hres|].
  assert (Hnew : ∀ h' x, h' ∈ heads → h' ≠ h → x ∈ c h' → x ∉ added op ++ c h).
  { intros h' x Hh' Hne Hx [Ha|Ha]%elem_of_app; [by apply (Hfresh x h')|by apply (Hap h' h x)]. }
  split; cbn [abs_queue_op].
  - intros h' Hh'. destruct (decide (h' = h)) as [->|Hne]; [rewrite upd_eq; apply Hres|rewrite upd_ne by done].
    eapply other_queue; [exact Hres|done|done|done| |by intros x; apply Hnew|by apply Hq|by apply Hq].
    intros x [Hx|Hx]%elem_of_app; [by apply Hleg|by apply (q_elems _ _ _ _ _ _ _ (Hq h Hh))].
  - intros h1 h2 x Hh1 Hh2 Hne Hx. destruct (decide (h1 = h)) as [->|H1], (decide (h2 = h)) as [->|H2]; [done|..];
      rewrite ?upd_eq, ?upd_ne in * by done.
    + intros Hx2. apply abs_op_sub in Hx. by apply (Hnew h2 x).
    + intros Hx2%abs_op_sub. by apply (Hnew h1 x).
    + by apply (Hap h1 h2).
Qed.

(** An operation that leaves [l1] and [l2], made of the elements they had, at
    two heads. *)
Lemma two_ok m c h1 h2 l1 l2 m' :
  holds f o heads elems m c → h1 ∈ heads → h2 ∈ heads → h1 ≠ h2 →
  pair_result o (has_back f) (has_tail f) heads elems m h1 (c h1) h2 (c h2) l1 l2 m' →
  (∀ x, x ∈ l1 ∨ x ∈ l2 → x ∈ c h1 ∨ x ∈ c h2) → (∀ x, x ∈ l1 → x ∉ l2) →
  live m' ∧ holds f o heads elems m' (upd (upd c h1 l1) h2 l2).
Proof.
  intros [Hq Hap] Hh1 Hh2 Hne Hres Hsub Hdis. split; [apply Hres|]. split.
  - intros h Hh. destruct (decide (h = h2)) as [->|Hn2]; [rewrite upd_eq; apply Hres|rewrite upd_ne by done].
    destruct (decide (h = h1)) as [->|Hn1]; [rewrite upd_eq; apply Hres|rewrite upd_ne by done].
    eapply (third_queue o _ _ heads elems W m h1 (c h1) h2 (c h2)); eauto.
    + apply (q_elems _ _ _ _ _ _ _ (Hq h1 Hh1)).
    + apply (q_elems _ _ _ _ _ _ _ (Hq h2 Hh2)).
  - assert (Hout : ∀ h x, h ∈ heads → h ≠ h1 → h ≠ h2 → x ∈ c h → x ∉ l1 ∧ x ∉ l2).
    { intros h x Hh Hn1 Hn2 Hx. split; intros Hx'; destruct (Hsub x) as [Hc|Hc]; auto;
        [by apply (Hap h h1 x)|by apply (Hap h h2 x)|by apply (Hap h h1 x)|by apply (Hap h h2 x)]. }
    intros h h' x Hh Hh' Hnn. unfold upd.
    destruct (h =? h2) eqn:E1, (h' =? h2) eqn:E2, (h =? h1) eqn:E3, (h' =? h1) eqn:E4; zb; subst; try done;
      intros Hx Hx'; first [by apply (Hap h h' x) | by destruct (Hout h x); auto | by destruct (Hout h' x); auto
                           | by apply (Hdis x)].
Qed.

Lemma run_op_ok m c q :
  live m → holds f o heads elems m c → legal_queue_op f o heads elems q c →
  ∃ m', run_op f o q m = Done () m' ∧ live m' ∧ holds f o heads elems m' (abs_queue_op q c).
Proof.
  intros Hl Hc Hleg. destruct q as [h op|h1 h2|h1 h2]; [by apply on_ok|..].
  - destruct Hleg as (Hh1 & Hh2 & Hne & [k Hk]). cbn [run_op]. rewrite Hk.
    destruct (concat_macro_ok f o heads elems W m h1 h2 (c h1) (c h2) k) as (m' & Hr & Hres);
      [done..|by intros x; apply Hc|done|by apply Hc|by apply Hc|done|].
    exists m'. split; [done|]. eapply two_ok; eauto; [set_solver|set_solver].
  - destruct Hleg as (Hh1 & Hh2 & Hne). cbn [run_op].
    destruct (swap_macro_ok f o heads elems W m h1 h2 (c h1) (c h2)) as (m' & Hr & Hres);
      [done..|by intros x; apply Hc|done|by apply Hc|by apply Hc|].
    exists m'. split; [done|]. eapply two_ok; eauto; [naive_solver|]. intros x Hx Hx'. by apply (ho_apart _ _ _ _ _ _ Hc h2 h1 x).
Qed.

Lemma run_ops_ok qs : ∀ m c,
  live m → holds f o heads elems m c → legal_ops f o heads elems qs c →
  ∃ m', run_ops f o qs m = Done () m' ∧ live m' ∧ holds f o heads elems m' (abs_ops qs c).
Proof.
  induction qs as [|q qs IH]; intros m c Hl Hc Hleg; [by exists m|].
  destruct Hleg as [Hq Hleg]. destruct (run_op_ok m c q Hl Hc Hq) as (m1 & Hr & Hl1 & Hc1).
  destruct (IH m1 _ Hl1 Hc1 Hleg) as (m2 & Hr2 & Hl2 & Hc2). exists m2. split; [|done].
  cbn [run_ops]. by rewrite (bind_done _ _ _ _ _ Hr).
Qed.
End Client.

(** C4. The lists of sys/queue.h refine lists.  For each of the families SLIST,
    STAILQ, LIST and TAILQ, any sequence of its INIT, INSERT, REMOVE, CONCAT
    and SWAP macros that a client may make on the heads of its program runs
    without a trap and leaves at every head the list that the abstract
    operations give; a head the sequence does not name keeps its list. *)
Theorem queue_refines_list f o heads elems m c qs :
  world o (has_back f) (has_tail f) heads elems → alive o (has_back f) (has_tail f) heads elems m →
  holds f o heads elems m c → legal_ops f o heads elems qs c →
  ∃ m', run_ops f o qs m = Done () m' ∧ alive o (has_back f) (has_tail f) heads elems m' ∧
    holds f o heads elems m' (abs_ops qs c).
Proof. intros W. by apply run_ops_ok. Qed.

(** ** Traversals *)

(** A chain of elements that [nxt] follows in [m], from [var] on. *)
Fixpoint follows (nxt : Z → C cells Z) (m : cells) (var : Z) (l : list Z) : Prop :=
  match l with
  | [] => var = 0
  | e :: l => var = e ∧ e ≠ 0 ∧ ∃ v, nxt e m = Done v m ∧ follows nxt m v l
  end.

Lemma foreach_follows {A} fst nxt (body : Z → A → C cells A) (I : list Z → A → Prop) m l v acc :
  fst m = Done v m → follows nxt m v l → (length l ≤ size m)%nat → I [] acc →
  (∀ vis e acc, I vis acc → ∃ acc', body e acc m = Done acc' m ∧ I (vis ++ [e]) acc') →
  ∃ acc', foreach fst nxt acc body m = Done acc' m ∧ I l acc'.
Proof.
  intros Hf Hc Hlen Hi Hb. unfold foreach. rewrite bind_done with (a := m) (s' := m) by done.
  rewrite (bind_done _ _ _ _ _ Hf). clear Hf. unfold foreach_fuel.
  assert (Hfuel : (length l < S (size m))%nat) by lia. clear Hlen.
  change l with ([] ++ l). revert Hi Hc Hfuel. generalize (@nil Z) as vis, (S (size m)) as fuel.
  intros vis fuel. revert v vis fuel acc. induction l as [|e l IH]; intros v vis fuel acc Hi Hc Hfuel.
  - destruct fuel as [|fuel]; [simpl in Hfuel; lia|]. simpl in Hc. subst v. exists acc.
    rewrite app_nil_r. by split.
  - destruct Hc as (-> & He & v' & Hn & Hc). destruct fuel as [|fuel]; [simpl in Hfuel; lia|].
    destruct (Hb vis e acc Hi) as (acc1 & Hb1 & Hi1).
    destruct (IH v' (vis ++ [e]) fuel acc1 Hi1 Hc ltac:(simpl in Hfuel; lia)) as (acc2 & Hr & Hi2).
    exists acc2. rewrite <- app_assoc in Hi2. split; [|done]. cbn [while].
    replace (e =? 0) with false by lia. rewrite bind_assoc, (bind_done _ _ _ _ _ Hb1), bind_assoc, (bind_done _ _ _ _ _ Hn), bind_ret.
    exact Hr.
Qed.

Lemma queue_follows o back tail heads elems m h l :
  world o back tail heads elems → h ∈ heads → queue o back tail elems m h l →
  ∃ v, rd_at h 0 m = Done v m ∧ follows (λ e, rd_at e o) m v l.
Proof.
  intros W Hh [_ _ Hg _]. geo_h h Hh. exists (first 0 l).
  assert (Hf : ∀ pp l, seg o back m pp l 0 → m !! pp = Some (first 0 l)) by (intros pp [|]; simpl; naive_solver).
  split; [apply rd_at_0; [done|by apply Hf]|].
  assert (Hgen : ∀ pp l, seg o back m pp l 0 → follows (λ e, rd_at e o) m (first 0 l) l); [|by eapply Hgen].
  clear -Hf. intros pp l. revert pp. induction l as [|e l IH]; intros pp; simpl; [done|].
  intros (H1 & H2 & _ & H4). split_and!; [done|done|]. exists (first 0 l).
  split; [|by eapply IH]. apply rd_at_ok; [done|]. by apply Hf.
Qed.

(** [SLIST_FOREACH], [STAILQ_FOREACH], [LIST_FOREACH] and [TAILQ_FOREACH]
    visit the elements of the list once each, in order: a body that computes
    [step] without changing memory sees exactly the left fold over the list. *)
Theorem foreach_is_fold {A} o back tail heads elems m h l (step : A → Z → A) (acc : A) :
  world o back tail heads elems → h ∈ heads → queue o back tail elems m h l →
  SLIST_FOREACH o h acc (λ e a, mret (step a e)) m = Done (foldl step acc l) m ∧
  STAILQ_FOREACH o h acc (λ e a, mret (step a e)) m = Done (foldl step acc l) m ∧
  LIST_FOREACH o h acc (λ e a, mret (step a e)) m = Done (foldl step acc l) m ∧
  TAILQ_FOREACH o h acc (λ e a, mret (step a e)) m = Done (foldl step acc l) m.
Proof.
  intros W Hh Hq. destruct (queue_follows _ _ _ _ _ _ _ _ W Hh Hq) as (v & Hf & Hc).
  destruct (foreach_follows _ _ (λ e a, mret (step a e)) (λ vis a, a = foldl step acc vis) m l v acc Hf Hc) as (a & Hr & ->).
  - by apply queue_size in Hq.
  - done.
  - intros vis e a ->. eexists. split; [done|]. by rewrite foldl_app.
  - split_and!; exact Hr.
Qed.

Lemma has_remove f o h x : is_Some (macro_of f o h (Remove x)).
Proof. by destruct f; eexists. Qed.

(** The draining loop. *)
Section Drain.
Context (f : family) (o : Z) (heads elems : list Z).
Hypothesis W : world o (has_back f) (has_tail f) heads elems.

(** [X_FOREACH_SAFE(var, head) X_REMOVE(head, var)], noting the elements. *)
Definition drain (h : Z) : C cells (list Z) :=
  foreach_safe (rd_at h 0) (λ e, rd_at e o) [] (λ e acc, default ub (macro_of f o h (Remove e));; mret (acc ++ [e])).

Lemma drain_ok m h l :
  h ∈ heads → alive o (has_back f) (has_tail f) heads elems m → queue o (has_back f) (has_tail f) elems m h l →
  ∃ m', drain h m = Done l m' ∧ queue o (has_back f) (has_tail f) elems m' h [] ∧ alive o (has_back f) (has_tail f) heads elems m'.
Proof.
  intros Hh Hl Hq. unfold drain, foreach_safe. rewrite bind_done with (a := m) (s' := m) by done.
  destruct (queue_follows _ _ _ _ _ _ _ _ W Hh Hq) as (v & Hf & Hc). rewrite (bind_done _ _ _ _ _ Hf).
  assert (Hfuel : (length l < foreach_fuel m)%nat) by (apply queue_size in Hq; unfold foreach_fuel; lia).
  set (body := λ '(var, acc), _). change l with ([] ++ l) at 1.
  assert (Hgen : ∀ l m v fuel vis, alive o (has_back f) (has_tail f) heads elems m → queue o (has_back f) (has_tail f) elems m h l →
    follows (λ e, rd_at e o) m v l → (length l < fuel)%nat →
    ∃ m', while fuel (v, vis) body m = Done (vis ++ l) m' ∧ queue o (has_back f) (has_tail f) elems m' h [] ∧
      alive o (has_back f) (has_tail f) heads elems m'); [|by apply Hgen].
  clear m l v Hl Hq Hf Hc Hfuel. unfold body.
  induction l as [|e l IH]; intros m v fuel vis Hl Hq Hc Hfuel; (destruct fuel as [|fuel]; [simpl in Hfuel; lia|]).
  - simpl in Hc. subst v. exists m. rewrite app_nil_r. split_and!; [reflexivity|done|done].
  - destruct Hc as (-> & He & v' & Hn & Hc).
    destruct (has_remove f o h e) as [c Hcm].
    destruct (macro_ok f o heads elems W m h (e :: l) (Remove e) c Hh Hl Hq Hcm) as (m1 & Hr & Hres).
    { split; [simpl; set_solver|simpl; set_solver]. }
    cbn [abs_op remove] in Hres. rewrite Z.eqb_refl in Hres. destruct Hres as [Hq1 Hl1 _].
    destruct (queue_follows _ _ _ _ _ _ _ _ W Hh Hq1) as (v1 & Hf1 & Hc1).
    assert (v1 = v') as ->.
    { clear -Hc Hc1. destruct l; simpl in *; [congruence|]. destruct Hc as (-> & _), Hc1 as (-> & _). done. }
    destruct (IH m1 v' fuel (vis ++ [e]) Hl1 Hq1 Hc1 ltac:(simpl in Hfuel; lia)) as (m2 & Hr2 & Hq2 & Hl2).
    exists m2. rewrite <- app_assoc in Hr2. split_and!; [|done|done]. cbn [while].
    replace (e =? 0) with false by lia.
    rewrite bind_assoc, (bind_done _ _ _ _ _ Hn), bind_assoc, bind_assoc.
    rewrite Hcm. cbn [default from_option id]. rewrite (bind_done _ _ _ _ _ Hr), bind_ret, bind_ret.
    exact Hr2.
Qed.

End Drain.

(** The FOREACH_SAFE loops allow the body to remove the element it is at:
    draining a list with X_FOREACH_SAFE and X_REMOVE, for any family, visits
    every element once, in order, and leaves the list empty. *)
Theorem drain_empties f o heads elems m h l :
  world o (has_back f) (has_tail f) heads elems → h ∈ heads →
  alive o (has_back f) (has_tail f) heads elems m → queue o (has_back f) (has_tail f) elems m h l →
  ∃ m', drain f o h m = Done l m' ∧ queue o (has_back f) (has_tail f) elems m' h [] ∧ alive o (has_back f) (has_tail f) heads elems m'.
Proof. intros W Hh Hl Hq. by apply (drain_ok f o heads elems W). Qed.

(** ** Tail queues backwards *)

Section Backwards.
Context (o : Z) (heads elems : list Z).
Hypothesis W : world o true true heads elems.
Context (m : cells) (h : Z) (l : list Z).
Hypothesis Hh : h ∈ heads.
Hypothesis Hq : queue o true true elems m h l.

(** The address of a link and the variable 8 bytes after it: the end pointer
    of the head, or the back pointer of an element. *)
Lemma link_back l1 :
  (∃ l2, l = l1 ++ l2) →
  endc o h l1 ≠ 0 ∧ ∃ p, tqh_last (endc o h l1) m = Done p m ∧ rd p m = Done (List.last l1 0) m.
Proof.
  intros [l2 Hl]. geo_h h Hh. destruct (decide (l1 = [])) as [->|Hne].
  - simpl. split; [done|]. exists (endc o h l). split.
    + apply rd_at_ok; [done|]. by apply (q_last _ _ _ _ _ _ _ Hq).
    + apply rd_ok. exact (queue_seg_end _ _ _ _ _ _ (q_seg _ _ _ _ _ _ _ Hq)).
  - destruct (@exists_last _ l1 Hne) as (k & z & ->). rewrite last_last, endc_app. simpl.
    rewrite <- app_assoc in Hl. pose proof Hq as Hq'. rewrite Hl in Hq'.
    destruct (around o true true heads elems W m h k z l2 Hh Hq') as (Hz & Hz0 & K1 & K2 & _); spec_hyps.
    split; [by apply (w_link0 _ _ _ _ _ W)|]. exists (endc o h k). split.
    + apply rd_at_ok; [by apply (w_link0 _ _ _ _ _ W)|]. by rewrite <- Z.add_assoc.
    + by apply rd_ok.
Qed.

Lemma tailq_last_ok : TAILQ_LAST h m = Done (List.last l 0) m.
Proof.
  geo_h h Hh. unfold TAILQ_LAST. unfold tqh_last at 1.
  erewrite (bind_done (rd_at h 8)); [|apply rd_at_ok; [done|by apply (q_last _ _ _ _ _ _ _ Hq)]].
  destruct (link_back l) as (_ & p & H1 & H2); [exists []; by rewrite app_nil_r|].
  by rewrite (bind_done _ _ _ _ _ H1).
Qed.

Lemma tailq_prev_ok l1 x l2 : l = l1 ++ x :: l2 → TAILQ_PREV o x m = Done (List.last l1 0) m.
Proof.
  intros Hl. pose proof Hq as Hq'. rewrite Hl in Hq'.
  destruct (around o true true heads elems W m h l1 x l2 Hh Hq') as (Hx & Hx0 & _ & K2 & _); spec_hyps.
  unfold TAILQ_PREV, tqe_prev. erewrite (bind_done (rd_at x (o + 8))); [|by apply rd_at_ok].
  destruct (link_back l1) as (_ & p & H1 & H2); [by exists (x :: l2)|].
  by rewrite (bind_done _ _ _ _ _ H1).
Qed.

Lemma tailq_follows_back l1 : (∃ l2, l = l1 ++ l2) → follows (TAILQ_PREV o) m (List.last l1 0) (rev l1).
Proof.
  induction l1 as [|z k IH] using rev_ind; intros [l2 Hl]; [done|].
  rewrite last_last, rev_app_distr. simpl.
  assert (Hz : z ∈ elems) by (apply (q_elems _ _ _ _ _ _ _ Hq); rewrite Hl; set_solver).
  split_and!; [done|by apply (elem_nonnull _ _ _ _ _ W)|]. exists (List.last k 0). split.
  - apply (tailq_prev_ok k z l2). by rewrite Hl, <- app_assoc.
  - apply IH. exists (z :: l2). by rewrite Hl, <- app_assoc.
Qed.

(** No consistency check of a debugging kernel fires. *)
Lemma tailq_checks :
  QMD_TAILQ_CHECK_HEAD o h m = Done false m ∧ QMD_TAILQ_CHECK_TAIL h m = Done false m ∧
  ∀ x, x ∈ l → QMD_TAILQ_CHECK_NEXT o x m = Done false m ∧ QMD_TAILQ_CHECK_PREV o x m = Done false m.
Proof.
  geo_h h Hh. pose proof (q_seg _ _ _ _ _ _ _ Hq) as Hg. split_and!.
  - unfold QMD_TAILQ_CHECK_HEAD, TAILQ_EMPTY, TAILQ_FIRST, tqe_prev.
    destruct l as [|y k]; simpl in Hg; destruct_and?; spec_hyps; qrun. by rewrite Z.eqb_refl.
  - unfold QMD_TAILQ_CHECK_TAIL, tqh_last. pose proof (q_last _ _ _ _ _ _ _ Hq eq_refl). apply queue_seg_end in Hg. by qrun.
  - intros x Hx. apply list_elem_of_split in Hx as (l1 & l2 & Hl). pose proof Hq as Hq'. rewrite Hl in Hq'.
    destruct (around o true true heads elems W m h l1 x l2 Hh Hq') as (Hx & Hx0 & K1 & K2 & K3 & K4 & _); spec_hyps.
    unfold QMD_TAILQ_CHECK_NEXT, QMD_TAILQ_CHECK_PREV, TAILQ_NEXT, tqe_prev. split; [|qrun; by rewrite Z.eqb_refl].
    destruct l2 as [|y l2]; simpl in K3; [by qrun|]. destruct (K4 y l2 eq_refl) as (_ & _ & Hy0 & K5 & _); spec_hyps.
    qrun. by rewrite Z.eqb_refl.
Qed.

End Backwards.

(** TAILQ_LAST is the last element or NULL, TAILQ_PREV the element before or
    NULL, the reverse traversal is the fold over the reversed list, and no
    consistency check of a debugging kernel fires: the cast of a link field
    to a head that these macros rely on is sound. *)
Theorem tailq_backwards {A} o heads elems m h l (step : A → Z → A) (acc : A) :
  world o true true heads elems → h ∈ heads → queue o true true elems m h l →
  TAILQ_LAST h m = Done (List.last l 0) m ∧
  (∀ l1 x l2, l = l1 ++ x :: l2 → TAILQ_PREV o x m = Done (List.last l1 0) m) ∧
  TAILQ_FOREACH_REVERSE o h acc (λ e a, mret (step a e)) m = Done (foldl step acc (rev l)) m ∧
  QMD_TAILQ_CHECK_HEAD o h m = Done false m ∧ QMD_TAILQ_CHECK_TAIL h m = Done false m ∧
  ∀ x, x ∈ l → QMD_TAILQ_CHECK_NEXT o x m = Done false m ∧ QMD_TAILQ_CHECK_PREV o x m = Done false m.
Proof.
  intros W Hh Hq. split_and!; [by eapply tailq_last_ok|by intros; eapply tailq_prev_ok| |by eapply tailq_checks..].
  destruct (foreach_follows (TAILQ_LAST h) (TAILQ_PREV o) (λ e a, mret (step a e)) (λ vis a, a = foldl step acc vis) m (rev l)
    (List.last l 0) acc) as (a & Hr & ->).
  - by eapply tailq_last_ok.
  - eapply tailq_follows_back; [done|done|done|exists []; by rewrite app_nil_r].
  - rewrite length_rev. by apply queue_size in Hq.
  - done.
  - intros vis e a ->. eexists. split; [done|]. by rewrite foldl_app.
  - exact Hr.
Qed.

(** ** A concrete program: two heads, three elements with the links at 8 *)

Definition two_heads : list Z := [0x100; 0x200].
Definition three_elems : list Z := [0x1000; 0x1040; 0x1080].

Definition sample_cells : cells :=
  list_to_map [(0x100, 0); (0x108, 0x100); (0x200, 0); (0x208, 0x200);
    (0x1008, 0); (0x1010, 0); (0x1048, 0); (0x1050, 0); (0x1088, 0); (0x1090, 0)].

Ltac each := repeat (match goal with H : _ ∈ _ :: _ |- _ => apply elem_of_cons in H as [->|H] end);
  try match goal with H : _ ∈ [] |- _ => by apply elem_of_nil in H end.

Lemma sample_family f : world 8 (has_back f) (has_tail f) two_heads three_elems.
Proof.
  unfold two_heads, three_elems. split.
  - intros e e' He He' Hne. destruct f; unfold esize; cbn [has_back]; each; lia.
  - intros h e Hh He. destruct f; unfold hsize, esize; cbn [has_back has_tail]; each; lia.
  - intros h h' Hh Hh' Hne. destruct f; unfold hsize; cbn [has_tail]; each; lia.
  - intros H. repeat (apply elem_of_cons in H as [H|H]; [discriminate H|]). by apply elem_of_nil in H.
  - intros e He. each; lia.
  - intros H. repeat (apply elem_of_cons in H as [H|H]; [discriminate H|]). by apply elem_of_nil in H.
Qed.

Lemma sample_live f : alive 8 (has_back f) (has_tail f) two_heads three_elems sample_cells.
Proof.
  unfold two_heads, three_elems. split; intros x Hx; intros; each; eexists; vm_compute; reflexivity.
Qed.

Lemma sample_holds f : holds f 8 two_heads three_elems sample_cells (λ _, []).
Proof.
  split; [|set_solver]. intros h Hh. unfold two_heads in Hh.
  split; [set_solver|constructor|each; vm_compute; reflexivity|intros _; each; vm_compute; reflexivity].
Qed.

Definition sample_world : world 8 true true two_heads three_elems := sample_family TAILQ.
Definition sample_alive : alive 8 true true two_heads three_elems sample_cells := sample_live TAILQ.

Lemma sample_queue : queue 8 true true three_elems sample_cells 0x100 [].
Proof. split; [set_solver|constructor|vm_compute; reflexivity|intros _; vm_compute; reflexivity]. Qed.

(** A program every family has the macros for. *)
Definition sample_ops : list queue_op :=
  [On 0x100 (InsertHead 0x1000); On 0x100 (InsertAfter 0x1000 0x1040); On 0x200 (InsertHead 0x1080);
   Swap 0x100 0x200; On 0x200 (Remove 0x1000)].

Lemma in_heads : 0x100 ∈ two_heads.
Proof. unfold two_heads. set_solver. Qed.

Lemma sample_legal f : legal_ops f 8 two_heads three_elems sample_ops (λ _, []).
Proof.
  assert (H2 : 0x200 ∈ two_heads) by (unfold two_heads; set_solver). pose proof in_heads as H1.
  assert (He : ∀ e, e ∈ [0x1000; 0x1040; 0x1080] → e ∈ three_elems) by done.
  assert (Hm : ∀ h op, op ∈ [InsertHead 0x1000; InsertAfter 0x1000 0x1040; InsertHead 0x1080; Remove 0x1000] →
    is_Some (macro_of f 8 h op)) by (intros h op Hop; destruct f; each; eexists; reflexivity).
  unfold sample_ops. cbn [legal_ops legal_queue_op abs_queue_op]. unfold legal.
  cbn [added abs_op insert_after upd Z.eqb Pos.eqb].
  split_and!; try (apply Hm; set_solver); try set_solver;
    intros e h' Hin Hh'; unfold upd; repeat case_match; set_solver.
Qed.

Lemma queue_refines_list_witness :
  Forall (λ f, ∃ m', run_ops f 8 sample_ops sample_cells = Done () m' ∧
    queue 8 (has_back f) (has_tail f) three_elems m' 0x100 [0x1080] ∧
    queue 8 (has_back f) (has_tail f) three_elems m' 0x200 [0x1040]) [SLIST; STAILQ; LIST; TAILQ].
Proof.
  assert (H : ∀ f, ∃ m', run_ops f 8 sample_ops sample_cells = Done () m' ∧
    queue 8 (has_back f) (has_tail f) three_elems m' 0x100 [0x1080] ∧
    queue 8 (has_back f) (has_tail f) three_elems m' 0x200 [0x1040]).
  { intros f. destruct (queue_refines_list f 8 two_heads three_elems sample_cells (λ _, []) sample_ops
      (sample_family f) (sample_live f) (sample_holds f) (sample_legal f)) as (m' & H1 & _ & [H2 _]).
    exists m'. split; [exact H1|]. split; [exact (H2 0x100 in_heads)|apply (H2 0x200)].
    unfold two_heads. apply elem_of_cons. right. apply elem_of_cons. left. reflexivity. }
  repeat constructor; apply H.
Defined.

(** The memory after inserting two elements. *)
Lemma sample_two : ∃ m, alive 8 true true two_heads three_elems m ∧ queue 8 true true three_elems m 0x100 [0x1000; 0x1040].
Proof.
  destruct (tailq_insert_tail 8 two_heads three_elems sample_world sample_cells 0x100 [] 0x1000 in_heads) as (m1 & _ & [H1 H2 _]);
    [unfold three_elems; set_solver|set_solver|exact sample_alive|exact sample_queue|].
  destruct (tailq_insert_tail 8 two_heads three_elems sample_world m1 0x100 [0x1000] 0x1040 in_heads) as (m2 & _ & [H3 H4 _]);
    [unfold three_elems; set_solver|set_solver|exact H2|exact H1|]. exists m2. split; [exact H4|exact H3].
Qed.

Lemma foreach_is_fold_witness :
  ∃ m, TAILQ_FOREACH 8 0x100 0 (λ e a, mret (a + e)) m = Done (0x1000 + 0x1040) m.
Proof.
  destruct sample_two as (m & _ & Hq). exists m.
  destruct (foreach_is_fold 8 true true two_heads three_elems m 0x100 [0x1000; 0x1040] Z.add 0 sample_world in_heads Hq)
    as (_ & _ & _ & H). exact H.
Defined.

Lemma drain_empties_witness :
  ∃ m m', drain TAILQ 8 0x100 m = Done [0x1000; 0x1040] m' ∧ queue 8 true true three_elems m' 0x100 [].
Proof.
  destruct sample_two as (m & Hl & Hq).
  destruct (drain_empties TAILQ 8 two_heads three_elems m 0x100 [0x1000; 0x1040] sample_world in_heads Hl Hq)
    as (m' & H1 & H2 & _). exists m, m'. split; [exact H1|exact H2].
Defined.

Lemma tailq_backwards_witness :
  ∃ m, TAILQ_LAST 0x100 m = Done 0x1040 m ∧
    TAILQ_FOREACH_REVERSE 8 0x100 [] (λ e a, mret (a ++ [e])) m = Done [0x1040; 0x1000] m.
Proof.
  destruct sample_two as (m & _ & Hq). exists m.
  destruct (tailq_backwards 8 two_heads three_elems m 0x100 [0x1000; 0x1040] (λ a e, a ++ [e]) [] sample_world in_heads Hq)
    as (H1 & _ & H3 & _). split; [exact H1|exact H3].
Defined.
