(* ===== verification/BufRing.v ===== *)
(** * The ring buffer, run by one thread

    include/sys/buf_ring.h: the multi-producer, multi-consumer ring buffer.
    This file has the structure and its operations as functions, run without
    interference; BufRingSteps.v has the interleavings.  DEBUG_BUFRING is
    off. *)

From S2P Require Import Prelude.

Definition ENOBUFS : Z := 55.

(** The fields the operations use; [br_ring] is the array behind the
    structure. *)
Record buf_ring := BufRing {
  br_prod_head : Z;
  br_prod_tail : Z;
  br_prod_size : Z;
  br_prod_mask : Z;
  br_prod_bufs : Z;
  br_prod_bytes : Z;
  br_cons_head : Z;
  br_cons_tail : Z;
  br_cons_mask : Z;
  br_ring : list Z }.

Definition set_prod_head (v : Z) (b : buf_ring) : buf_ring :=
  BufRing v b.(br_prod_tail) b.(br_prod_size) b.(br_prod_mask) b.(br_prod_bufs) b.(br_prod_bytes)
    b.(br_cons_head) b.(br_cons_tail) b.(br_cons_mask) b.(br_ring).
Definition set_prod_tail (v : Z) (b : buf_ring) : buf_ring :=
  BufRing b.(br_prod_head) v b.(br_prod_size) b.(br_prod_mask) b.(br_prod_bufs) b.(br_prod_bytes)
    b.(br_cons_head) b.(br_cons_tail) b.(br_cons_mask) b.(br_ring).
Definition set_prod_bufs (v : Z) (b : buf_ring) : buf_ring :=
  BufRing b.(br_prod_head) b.(br_prod_tail) b.(br_prod_size) b.(br_prod_mask) v b.(br_prod_bytes)
    b.(br_cons_head) b.(br_cons_tail) b.(br_cons_mask) b.(br_ring).
Definition set_prod_bytes (v : Z) (b : buf_ring) : buf_ring :=
  BufRing b.(br_prod_head) b.(br_prod_tail) b.(br_prod_size) b.(br_prod_mask) b.(br_prod_bufs) v
    b.(br_cons_head) b.(br_cons_tail) b.(br_cons_mask) b.(br_ring).
Definition set_cons_head (v : Z) (b : buf_ring) : buf_ring :=
  BufRing b.(br_prod_head) b.(br_prod_tail) b.(br_prod_size) b.(br_prod_mask) b.(br_prod_bufs) b.(br_prod_bytes)
    v b.(br_cons_tail) b.(br_cons_mask) b.(br_ring).
Definition set_cons_tail (v : Z) (b : buf_ring) : buf_ring :=
  BufRing b.(br_prod_head) b.(br_prod_tail) b.(br_prod_size) b.(br_prod_mask) b.(br_prod_bufs) b.(br_prod_bytes)
    b.(br_cons_head) v b.(br_cons_mask) b.(br_ring).
Definition set_ring (l : list Z) (b : buf_ring) : buf_ring :=
  BufRing b.(br_prod_head) b.(br_prod_tail) b.(br_prod_size) b.(br_prod_mask) b.(br_prod_bufs) b.(br_prod_bytes)
    b.(br_cons_head) b.(br_cons_tail) b.(br_cons_mask) l.

(** [br->br_ring[i]] as a value and as a target. *)
Definition ring_get (i : Z) : C buf_ring Z := λ b,
  match b.(br_ring) !! Z.to_nat i with Some v => Done v b | None => UB end.
Definition ring_set (i v : Z) : C buf_ring () := λ b,
  if bool_decide (Z.to_nat i < length b.(br_ring))%nat
  then Done () (set_ring (<[Z.to_nat i := v]> b.(br_ring)) b) else UB.

(** [atomic_cmpset_int(&br->field, old, new)] *)
Definition cmpset (get : buf_ring → Z) (set : Z → buf_ring → buf_ring) (old new : Z) : C buf_ring bool := λ b,
  if get b =? old then Done true (set new b) else Done false b.

(** [(i + n) & mask] on uint32_t. *)
Definition advance (mask i n : Z) : Z := Z.land (u32 (i + n)) (u32 mask).

(** The do-while loop of the enqueue: [inr None] is the early return. *)
Definition enqueue_round (_ : ()) : C buf_ring (() + option (Z * Z)) :=
  prod_head ← gets br_prod_head;
  cons_tail ← gets br_cons_tail;
  mask ← gets br_prod_mask;
  let prod_next := advance mask prod_head 1 in
  if prod_next =? cons_tail then mret (inr None) else
  success ← cmpset br_prod_head set_prod_head prod_head prod_next;
  if success : bool then mret (inr (Some (prod_head, prod_next))) else mret (inl ()).

(** [while (tail != head) cpu_spinwait();] *)
Definition spin (tail : buf_ring → Z) (head : Z) (fuel : nat) : C buf_ring () :=
  while fuel () (λ _, t ← gets tail; if t =? head then mret (inr ()) else mret (inl ())).

(** One thread alone never repeats either loop: [fuel] of one round is
    enough. *)
Definition buf_ring_enqueue_bytes (fuel : nat) (buf nbytes : Z) : C buf_ring Z :=
  r ← while fuel () enqueue_round;
  match r with
  | None => mret ENOBUFS
  | Some (prod_head, prod_next) =>
      ring_set prod_head buf;;
      spin br_prod_tail prod_head fuel;;
      n ← gets br_prod_bufs;
      modifyS (set_prod_bufs (u64 (n + 1)));;
      n ← gets br_prod_bytes;
      modifyS (set_prod_bytes (u64 (n + nbytes)));;
      modifyS (set_prod_tail prod_next);;
      mret 0
  end.

Definition buf_ring_enqueue (fuel : nat) (buf : Z) : C buf_ring Z := buf_ring_enqueue_bytes fuel buf 0.

Definition dequeue_round (_ : ()) : C buf_ring (() + option (Z * Z)) :=
  cons_head ← gets br_cons_head;
  prod_tail ← gets br_prod_tail;
  mask ← gets br_cons_mask;
  let cons_next := advance mask cons_head 1 in
  if cons_head =? prod_tail then mret (inr None) else
  success ← cmpset br_cons_head set_cons_head cons_head cons_next;
  if success : bool then mret (inr (Some (cons_head, cons_next))) else mret (inl ()).

Definition buf_ring_dequeue_mc (fuel : nat) : C buf_ring Z :=
  r ← while fuel () dequeue_round;
  match r with
  | None => mret 0
  | Some (cons_head, cons_next) =>
      buf ← ring_get cons_head;
      spin br_cons_tail cons_head fuel;;
      modifyS (set_cons_tail cons_next);;
      mret buf
  end.

Definition buf_ring_dequeue_sc : C buf_ring Z :=
  cons_head ← gets br_cons_head;
  prod_tail ← gets br_prod_tail;
  mask ← gets br_cons_mask;
  let cons_next := advance mask cons_head 1 in
  if cons_head =? prod_tail then mret 0 else
  modifyS (set_cons_head cons_next);;
  buf ← ring_get cons_head;
  modifyS (set_cons_tail cons_next);;
  mret buf.

Definition buf_ring_peek : C buf_ring Z :=
  cons_head ← gets br_cons_head;
  prod_tail ← gets br_prod_tail;
  if cons_head =? prod_tail then mret 0 else
  cons_head ← gets br_cons_head;
  ring_get cons_head.

Definition buf_ring_full (b : buf_ring) : bool :=
  advance b.(br_prod_mask) b.(br_prod_head) 1 =? b.(br_cons_tail).

Definition buf_ring_empty (b : buf_ring) : bool := b.(br_cons_head) =? b.(br_prod_tail).

(** The arithmetic is in uint32_t; the result is returned as an int. *)
Definition buf_ring_count (b : buf_ring) : Z :=
  i32 (Z.land (u32 (b.(br_prod_size) + b.(br_prod_tail) - b.(br_cons_tail))) (u32 b.(br_prod_mask))).

(** ** The queue a ring represents *)

(** A ring of [2 ^ k] slots at rest, holding [q]. *)
Record ring_holds (k : Z) (b : buf_ring) (q : list Z) : Prop := {
  rh_k : 1 ≤ k < 31;
  rh_size : b.(br_prod_size) = 2 ^ k;
  rh_pmask : b.(br_prod_mask) = 2 ^ k - 1;
  rh_cmask : b.(br_cons_mask) = 2 ^ k - 1;
  rh_slots : Z.of_nat (length b.(br_ring)) = 2 ^ k;
  rh_head : 0 ≤ b.(br_cons_head) < 2 ^ k;
  rh_tails : b.(br_cons_tail) = b.(br_cons_head) ∧ b.(br_prod_tail) = b.(br_prod_head);
  rh_len : Z.of_nat (length q) < 2 ^ k;
  rh_prod : b.(br_prod_head) = (b.(br_cons_head) + Z.of_nat (length q)) mod 2 ^ k;
  rh_items : ∀ i x, q !! i = Some x →
    b.(br_ring) !! Z.to_nat ((b.(br_cons_head) + Z.of_nat i) mod 2 ^ k) = Some x }.

Lemma advance_mod k i n : 0 ≤ k < 31 → 0 ≤ i + n < 2 ^ 32 → advance (2 ^ k - 1) i n = (i + n) mod 2 ^ k.
Proof.
  intros Hk Hi. unfold advance. pose proof (Z.pow_pos_nonneg 2 k ltac:(lia) ltac:(lia)).
  pose proof (Z.pow_le_mono_r 2 k 31 ltac:(lia) ltac:(lia)). change (2 ^ 31) with 2147483648 in *.
  unfold u32. rewrite (Z.mod_small (i + n)), (Z.mod_small (2 ^ k - 1)) by lia.
  replace (2 ^ k - 1) with (Z.ones k) by (rewrite Z.ones_equiv; lia). apply Z.land_ones. lia.
Qed.

(** The index of an item is where the head is only for the next lap. *)
Lemma lap_eq n a d : 0 < n → 0 ≤ a < n → 0 ≤ d < n → (a + d) mod n = a ↔ d = 0.
Proof.
  intros Hn Ha Hd. split; [|intros ->; rewrite Z.add_0_r; by apply Z.mod_small].
  intros H. destruct (Z_lt_dec (a + d) n).
  - rewrite Z.mod_small in H by lia. lia.
  - assert ((a + d) mod n = a + d - n) by (symmetry; apply (Z.mod_unique_pos _ _ 1); lia). lia.
Qed.

Section Rest.
Context (k : Z) (b : buf_ring) (q : list Z).
Hypothesis R : ring_holds k b q.

Let Hpow : 2 ≤ 2 ^ k < 2 ^ 31.
Proof.
  destruct (rh_k _ _ _ R). split; [apply (Z.pow_le_mono_r 2 1 k); lia|]. apply Z.pow_lt_mono_r; lia.
Qed.

Lemma prod_range : 0 ≤ b.(br_prod_head) < 2 ^ k.
Proof. rewrite (rh_prod _ _ _ R). apply Z.mod_pos_bound. lia. Qed.

Lemma prod_next :
  advance b.(br_prod_mask) b.(br_prod_head) 1 = (b.(br_cons_head) + Z.of_nat (length q) + 1) mod 2 ^ k.
Proof.
  pose proof prod_range. destruct (rh_k _ _ _ R). rewrite (rh_pmask _ _ _ R), advance_mod by lia.
  rewrite (rh_prod _ _ _ R). by rewrite Zplus_mod_idemp_l.
Qed.

Lemma cons_next : advance b.(br_cons_mask) b.(br_cons_head) 1 = (b.(br_cons_head) + 1) mod 2 ^ k.
Proof. pose proof (rh_head _ _ _ R). destruct (rh_k _ _ _ R). rewrite (rh_cmask _ _ _ R), advance_mod by lia. done. Qed.

Lemma full_iff : buf_ring_full b = true ↔ Z.of_nat (length q) = 2 ^ k - 1.
Proof.
  pose proof (rh_head _ _ _ R). pose proof (rh_len _ _ _ R). destruct (rh_tails _ _ _ R) as [Ht _].
  unfold buf_ring_full. rewrite prod_next, Ht, Z.eqb_eq, <- Z.add_assoc.
  destruct (decide (Z.of_nat (length q) = 2 ^ k - 1)) as [He|Hne].
  - rewrite He. replace (br_cons_head b + (2 ^ k - 1 + 1)) with (br_cons_head b + 1 * 2 ^ k) by lia.
    rewrite Z.mod_add, Z.mod_small by lia. lia.
  - rewrite lap_eq by lia. lia.
Qed.

Lemma empty_iff : buf_ring_empty b = true ↔ q = [].
Proof.
  pose proof (rh_head _ _ _ R). pose proof (rh_len _ _ _ R). destruct (rh_tails _ _ _ R) as [_ Ht].
  unfold buf_ring_empty. rewrite Ht, (rh_prod _ _ _ R), Z.eqb_eq.
  assert (∀ x, br_cons_head b = x ↔ x = br_cons_head b) as -> by (split; congruence).
  rewrite lap_eq by lia. destruct q; simpl; split; intros; try lia; done.
Qed.

Lemma count_is : buf_ring_count b = Z.of_nat (length q).
Proof.
  pose proof (rh_head _ _ _ R). pose proof (rh_len _ _ _ R). destruct (rh_tails _ _ _ R) as [Hc Hp].
  destruct (rh_k _ _ _ R). unfold buf_ring_count.
  pose proof prod_range. pose proof (rh_prod _ _ _ R) as Hprod. rewrite Hc, Hp, (rh_size _ _ _ R), (rh_pmask _ _ _ R).
  set (h := br_cons_head b) in *. set (n := Z.of_nat (length q)) in *.
  pose proof (advance_mod k (2 ^ k + br_prod_head b) (- h) ltac:(lia) ltac:(lia)) as Ha.
  unfold advance in Ha. rewrite Z.add_opp_r in Ha. rewrite Ha, Hprod.
  replace (2 ^ k + (h + n) mod 2 ^ k - h) with ((h + n) mod 2 ^ k + (2 ^ k - h)) by lia.
  rewrite Zplus_mod_idemp_l. replace (h + n + (2 ^ k - h)) with (n + 1 * 2 ^ k) by lia.
  rewrite Z.mod_add, Z.mod_small by lia. unfold i32, signed. rewrite Z.mod_small by lia.
  replace (n <? 2 ^ (32 - 1)) with true by (symmetry; apply Z.ltb_lt; change (2 ^ (32 - 1)) with (2 ^ 31); lia). done.
Qed.

(** One round of a loop that runs alone. *)
Lemma spin_ok fuel (tail : buf_ring → Z) head s : (0 < fuel)%nat → tail s = head → spin tail head fuel s = Done () s.
Proof. intros Hf <-. destruct fuel as [|fuel]; [lia|]. unfold spin. simpl. unfold gets, mbind, C_bind. by rewrite Z.eqb_refl. Qed.

Lemma enqueue_ok fuel x n :
  (0 < fuel)%nat → Z.of_nat (length q) < 2 ^ k - 1 →
  ∃ b', buf_ring_enqueue_bytes fuel x n b = Done 0 b' ∧ ring_holds k b' (q ++ [x]) ∧
    b'.(br_prod_bufs) = u64 (b.(br_prod_bufs) + 1) ∧ b'.(br_prod_bytes) = u64 (b.(br_prod_bytes) + n).
Proof.
  intros Hf Hlen. pose proof full_iff as Hfull. unfold buf_ring_full in Hfull.
  assert (Hnf : (advance (br_prod_mask b) (br_prod_head b) 1 =? br_cons_tail b) = false)
    by (apply not_true_is_false; rewrite Hfull; lia).
  pose proof prod_range as Hpr. destruct (rh_tails _ _ _ R) as [Hc Hp]. pose proof (rh_slots _ _ _ R) as Hsl.
  pose proof (rh_head _ _ _ R) as Hh. pose proof prod_next as Hn.
  unfold buf_ring_enqueue_bytes. set (b1 := set_prod_head (advance (br_prod_mask b) (br_prod_head b) 1) b).
  assert (Hr : while fuel () enqueue_round b = Done (Some (br_prod_head b, advance (br_prod_mask b) (br_prod_head b) 1)) b1).
  { destruct fuel as [|fuel]; [lia|]. simpl. unfold enqueue_round, gets, cmpset, mbind, C_bind. rewrite Hnf, Z.eqb_refl. done. }
  rewrite (bind_done _ _ _ _ _ Hr). set (i := br_prod_head b) in *.
  assert (Hs : ring_set i x b1 = Done () (set_ring (<[Z.to_nat i := x]> b.(br_ring)) b1)).
  { unfold ring_set. rewrite bool_decide_eq_true_2; [done|]. simpl. lia. }
  rewrite (bind_done _ _ _ _ _ Hs), (bind_done _ _ _ _ _ (spin_ok fuel br_prod_tail i (set_ring (<[Z.to_nat i := x]> b.(br_ring)) b1) Hf Hp)).
  eexists. split; [reflexivity|]. split; [|done]. destruct R. split; simpl; try done.
  - by rewrite length_insert.
  - rewrite length_app. simpl. lia.
  - rewrite Hn, length_app. f_equal. simpl. lia.
  - intros j y Hj. apply lookup_app_Some in Hj as [Hj|[Hj1 Hj2]].
    + rewrite list_lookup_insert_ne; [by apply rh_items0|].
      pose proof (lookup_lt_Some _ _ _ Hj). unfold i. rewrite (rh_prod _ _ _ R). intros Heq.
      apply Z2Nat.inj in Heq; [|apply Z.mod_pos_bound; lia..].
      pose proof (lap_eq (2 ^ k) ((br_cons_head b + Z.of_nat j) mod 2 ^ k) (Z.of_nat (length q) - Z.of_nat j)
        ltac:(lia) ltac:(apply Z.mod_pos_bound; lia) ltac:(lia)) as Hlap.
      rewrite Zplus_mod_idemp_l in Hlap. replace (br_cons_head b + Z.of_nat j + (Z.of_nat (length q) - Z.of_nat j))
        with (br_cons_head b + Z.of_nat (length q)) in Hlap by lia. apply Hlap in Heq. lia.
    + destruct (j - length q)%nat as [|j'] eqn:Hj'; [|done]. simpl in Hj2. injection Hj2 as <-.
      replace j with (length q) by lia. rewrite <- (rh_prod _ _ _ R). apply list_lookup_insert_eq. lia.
Qed.

Lemma enqueue_full fuel x n :
  (0 < fuel)%nat → Z.of_nat (length q) = 2 ^ k - 1 → buf_ring_enqueue_bytes fuel x n b = Done ENOBUFS b.
Proof.
  intros Hf Hlen. apply full_iff in Hlen. unfold buf_ring_full in Hlen.
  unfold buf_ring_enqueue_bytes. destruct fuel as [|fuel]; [lia|]. simpl.
  unfold enqueue_round, gets, mbind, C_bind. by rewrite Hlen.
Qed.

Lemma dequeue_empty fuel :
  (0 < fuel)%nat → q = [] → buf_ring_dequeue_mc fuel b = Done 0 b ∧ buf_ring_dequeue_sc b = Done 0 b ∧
    buf_ring_peek b = Done 0 b.
Proof.
  intros Hf He. apply empty_iff in He. unfold buf_ring_empty in He.
  unfold buf_ring_dequeue_mc, buf_ring_dequeue_sc, buf_ring_peek. destruct fuel as [|fuel]; [lia|]. simpl.
  unfold dequeue_round, gets, mbind, C_bind. by rewrite He.
Qed.

Lemma dequeue_ok fuel x q' :
  (0 < fuel)%nat → q = x :: q' →
  ∃ b', buf_ring_dequeue_mc fuel b = Done x b' ∧ buf_ring_dequeue_sc b = Done x b' ∧
    buf_ring_peek b = Done x b ∧ ring_holds k b' q'.
Proof.
  intros Hf He. assert (Hne : (br_cons_head b =? br_prod_tail b) = false).
  { apply not_true_is_false. intros H. apply empty_iff in H. by rewrite H in He. }
  destruct (rh_tails _ _ _ R) as [Hc Hp]. pose proof (rh_head _ _ _ R) as Hh.
  assert (Hx : b.(br_ring) !! Z.to_nat (br_cons_head b) = Some x).
  { pose proof (rh_items _ _ _ R 0 x) as H. rewrite He in H. rewrite Z.add_0_r, Z.mod_small in H by lia. by apply H. }
  set (nx := advance (br_cons_mask b) (br_cons_head b) 1). set (b1 := set_cons_head nx b).
  exists (set_cons_tail nx b1).
  assert (Hg : ring_get (br_cons_head b) b1 = Done x b1) by (unfold ring_get; simpl; by rewrite Hx).
  split_and!.
  - unfold buf_ring_dequeue_mc.
    assert (Hr : while fuel () dequeue_round b = Done (Some (br_cons_head b, nx)) b1).
    { destruct fuel as [|fuel]; [lia|]. simpl. unfold dequeue_round, gets, cmpset, mbind, C_bind. rewrite Hne, Z.eqb_refl. done. }
    rewrite (bind_done _ _ _ _ _ Hr), (bind_done _ _ _ _ _ Hg).
    by rewrite (bind_done _ _ _ _ _ (spin_ok fuel br_cons_tail (br_cons_head b) b1 Hf Hc)).
  - unfold buf_ring_dequeue_sc. rewrite !(bind_done _ _ _ _ _ (eq_refl : gets _ b = Done _ b)), Hne.
    rewrite (bind_done _ _ _ _ _ (eq_refl : modifyS (set_cons_head nx) b = Done () b1)). by rewrite (bind_done _ _ _ _ _ Hg).
  - unfold buf_ring_peek. rewrite !(bind_done _ _ _ _ _ (eq_refl : gets _ b = Done _ b)), Hne.
    rewrite !(bind_done _ _ _ _ _ (eq_refl : gets _ b = Done _ b)). unfold ring_get. by rewrite Hx.
  - pose proof cons_next as Hn. pose proof (rh_prod _ _ _ R) as Hpr. pose proof (rh_len _ _ _ R) as Hlen.
    rewrite He in Hpr, Hlen. cbn [length] in Hpr, Hlen. rewrite Nat2Z.inj_succ in Hpr, Hlen.
    assert (Hitems := rh_items _ _ _ R). destruct R. split; simpl; try done.
    + unfold nx. rewrite Hn. apply Z.mod_pos_bound. lia.
    + lia.
    + unfold nx. rewrite Hn, Zplus_mod_idemp_l, Hpr. f_equal. lia.
    + intros i y Hy. unfold nx. rewrite Hn, Zplus_mod_idemp_l.
      replace (br_cons_head b + 1 + Z.of_nat i) with (br_cons_head b + Z.of_nat (S i)) by lia.
      apply Hitems. by rewrite He.
Qed.

End Rest.

(** C25. Run by one thread, a ring of 2^k slots is a queue that holds up to 2^k - 1
    items: an enqueue appends or, on a full ring, returns ENOBUFS and changes
    nothing; both dequeues take the first item or give NULL; peek shows it;
    full, empty and count tell the truth.  One round of each loop is
    enough. *)
Theorem buf_ring_refines_queue k b q fuel x n :
  ring_holds k b q → (0 < fuel)%nat →
  (if bool_decide (Z.of_nat (length q) = 2 ^ k - 1)
   then buf_ring_enqueue_bytes fuel x n b = Done ENOBUFS b
   else ∃ b', buf_ring_enqueue_bytes fuel x n b = Done 0 b' ∧ ring_holds k b' (q ++ [x]) ∧
     b'.(br_prod_bufs) = u64 (b.(br_prod_bufs) + 1) ∧ b'.(br_prod_bytes) = u64 (b.(br_prod_bytes) + n)) ∧
  match q with
  | [] => buf_ring_dequeue_mc fuel b = Done 0 b ∧ buf_ring_dequeue_sc b = Done 0 b ∧ buf_ring_peek b = Done 0 b
  | y :: q' => ∃ b', buf_ring_dequeue_mc fuel b = Done y b' ∧ buf_ring_dequeue_sc b = Done y b' ∧
      buf_ring_peek b = Done y b ∧ ring_holds k b' q'
  end ∧
  (buf_ring_full b = true ↔ Z.of_nat (length q) = 2 ^ k - 1) ∧ (buf_ring_empty b = true ↔ q = []) ∧
  buf_ring_count b = Z.of_nat (length q).
Proof.
  intros R Hf. split_and!.
  - case_bool_decide as H; [by eapply enqueue_full|]. eapply enqueue_ok; [done|done|]. pose proof (rh_len _ _ _ R). lia.
  - destruct q; [by eapply dequeue_empty|by eapply dequeue_ok].
  - by apply full_iff.
  - by eapply empty_iff.
  - by eapply count_is.
Qed.

(** A ring of four slots with one item, one step before the wrap. *)
Definition sample_ring : buf_ring := BufRing 0 0 4 3 0 0 3 3 3 [0; 0; 0; 7].

Lemma sample_ring_holds : ring_holds 2 sample_ring [7].
Proof.
  split; simpl; try lia; try done.
  intros [|i] x Hx; [by injection Hx as <-|discriminate Hx].
Qed.

Lemma buf_ring_refines_queue_witness :
  ∃ b', buf_ring_enqueue_bytes 1 9 100 sample_ring = Done 0 b' ∧ ring_holds 2 b' [7; 9].
Proof.
  destruct (buf_ring_refines_queue 2 sample_ring [7] 1 9 100 sample_ring_holds (le_n 1)) as ((b' & H1 & H2 & _) & _).
  exists b'. split; [exact H1|exact H2].
Defined.
