(* ===== verification/BufRingSteps.v ===== *)
(** * The ring buffer, run by many threads

    The enqueue and the multi-consumer dequeue of include/sys/buf_ring.h as
    threads that interleave at every access to the shared structure; accesses
    are sequentially consistent (the code's wmb and rmb and the order of x86
    loads and of x86 stores).  The masks and the size never change, so
    reading them is no step.

    Beside the real fields the configuration has ghost counters that do not
    wrap: how many slots have been reserved and published by producers
    ([g_ph], [g_pt]) and by consumers ([g_ch], [g_ct]), the items in the order
    their slots were reserved ([g_log]) and the items in the order they were
    given out ([g_out]).  Ghost fields are written, never read, by a step. *)

From S2P Require Import Prelude.
From S2P Require Import BufRing.

(** Where a thread is.  The last argument is a ghost: the counter behind the
    index it has read, or the number of its slot. *)
Inductive pc :=
| Idle
| E_head (buf nbytes : Z)
| E_tail (buf nbytes prod_head a : Z)
| E_cas (buf nbytes prod_head prod_next a : Z)
| E_store (buf nbytes prod_head prod_next i : Z)
| E_wait (buf nbytes prod_head prod_next i : Z)
| E_bufs (buf nbytes prod_next i : Z)
| E_bytes (buf nbytes prod_next i : Z)
| E_publish (buf prod_next i : Z)
| E_return (result : Z)
| D_head
| D_tail (cons_head a : Z)
| D_cas (cons_head cons_next a : Z)
| D_load (cons_head cons_next i : Z)
| D_wait (buf cons_head cons_next i : Z)
| D_publish (buf cons_next i : Z)
| D_return (buf : Z).

Record shared := Shared {
  s_ring : buf_ring;
  g_ph : Z; g_pt : Z; g_ch : Z; g_ct : Z;
  g_log : list Z;
  g_out : list Z }.

Definition with_ring (s : shared) (b : buf_ring) : shared :=
  Shared b s.(g_ph) s.(g_pt) s.(g_ch) s.(g_ct) s.(g_log) s.(g_out).

(** One access to the shared structure by a thread. *)
Definition tstep (s : shared) (p : pc) : option (shared * pc) :=
  let b := s.(s_ring) in
  match p with
  | Idle | E_return _ | D_return _ => None
  | E_head buf n => Some (s, E_tail buf n b.(br_prod_head) s.(g_ph))
  | E_tail buf n ph a =>
      let nx := advance b.(br_prod_mask) ph 1 in
      Some (s, if nx =? b.(br_cons_tail) then E_return ENOBUFS else E_cas buf n ph nx a)
  | E_cas buf n ph nx a =>
      if b.(br_prod_head) =? ph then
        Some (Shared (set_prod_head nx b) (s.(g_ph) + 1) s.(g_pt) s.(g_ch) s.(g_ct) (s.(g_log) ++ [buf]) s.(g_out),
              E_store buf n ph nx s.(g_ph))
      else Some (s, E_head buf n)
  | E_store buf n ph nx i =>
      if bool_decide (Z.to_nat ph < length b.(br_ring))%nat
      then Some (with_ring s (set_ring (<[Z.to_nat ph := buf]> b.(br_ring)) b), E_wait buf n ph nx i) else None
  | E_wait buf n ph nx i =>
      Some (s, if b.(br_prod_tail) =? ph then E_bufs buf n nx i else E_wait buf n ph nx i)
  | E_bufs buf n nx i =>
      Some (with_ring s (set_prod_bufs (u64 (b.(br_prod_bufs) + 1)) b), E_bytes buf n nx i)
  | E_bytes buf n nx i =>
      Some (with_ring s (set_prod_bytes (u64 (b.(br_prod_bytes) + n)) b), E_publish buf nx i)
  | E_publish buf nx i =>
      Some (Shared (set_prod_tail nx b) s.(g_ph) (s.(g_pt) + 1) s.(g_ch) s.(g_ct) s.(g_log) s.(g_out), E_return 0)
  | D_head => Some (s, D_tail b.(br_cons_head) s.(g_ch))
  | D_tail ch a =>
      let nx := advance b.(br_cons_mask) ch 1 in
      Some (s, if ch =? b.(br_prod_tail) then D_return 0 else D_cas ch nx a)
  | D_cas ch nx a =>
      if b.(br_cons_head) =? ch then
        Some (Shared (set_cons_head nx b) s.(g_ph) s.(g_pt) (s.(g_ch) + 1) s.(g_ct) s.(g_log) s.(g_out),
              D_load ch nx s.(g_ch))
      else Some (s, D_head)
  | D_load ch nx i =>
      buf ← b.(br_ring) !! Z.to_nat ch;
      Some (s, D_wait buf ch nx i)
  | D_wait buf ch nx i =>
      Some (s, if b.(br_cons_tail) =? ch then D_publish buf nx i else D_wait buf ch nx i)
  | D_publish buf nx i =>
      Some (Shared (set_cons_tail nx b) s.(g_ph) s.(g_pt) s.(g_ch) (s.(g_ct) + 1) s.(g_log) (s.(g_out) ++ [buf]),
            D_return buf)
  end.

Record conf := Conf { c_shared : shared; c_threads : list pc }.

Definition finished (p : pc) : bool :=
  match p with Idle | E_return _ | D_return _ => true | _ => false end.

(** A thread takes a step, or one that has nothing to do starts a call. *)
Inductive step : conf → nat → conf → Prop :=
| step_run c t p s p' :
    c.(c_threads) !! t = Some p → tstep c.(c_shared) p = Some (s, p') →
    step c t (Conf s (<[t := p']> c.(c_threads)))
| step_enqueue c t p buf n :
    c.(c_threads) !! t = Some p → finished p = true →
    step c t (Conf c.(c_shared) (<[t := E_head buf n]> c.(c_threads)))
| step_dequeue c t p :
    c.(c_threads) !! t = Some p → finished p = true →
    step c t (Conf c.(c_shared) (<[t := D_head]> c.(c_threads))).

(** An empty ring of [2 ^ k] slots and [n] threads. *)
Definition start_ring (k : Z) : buf_ring :=
  BufRing 0 0 (2 ^ k) (2 ^ k - 1) 0 0 0 0 (2 ^ k - 1) (replicate (Z.to_nat (2 ^ k)) 0).
Definition start (k : Z) (n : nat) : conf :=
  Conf (Shared (start_ring k) 0 0 0 0 [] []) (replicate n Idle).

(** The thread has not been overtaken by a whole lap since it read the index
    it is about to compare. *)
Definition timely (N : Z) (s : shared) (p : pc) : Prop :=
  match p with
  | E_cas _ _ _ _ a => s.(g_ph) < a + N
  | D_cas _ _ a => s.(g_ch) < a + N
  | _ => True
  end.

Inductive runs (k : Z) (n : nat) : conf → Prop :=
| runs_start : runs k n (start k n)
| runs_step c t p c' :
    runs k n c → step c t c' → c.(c_threads) !! t = Some p → timely (2 ^ k) c.(c_shared) p → runs k n c'.

(** ** The invariant *)

Record shared_ok (k : Z) (s : shared) : Prop := {
  so_k : 1 ≤ k < 31;
  so_order : 0 ≤ s.(g_ct) ≤ s.(g_ch) ∧ s.(g_ch) ≤ s.(g_pt) ≤ s.(g_ph);
  so_room : s.(g_ph) - s.(g_ct) ≤ 2 ^ k - 1;
  so_ph : s.(s_ring).(br_prod_head) = s.(g_ph) mod 2 ^ k;
  so_pt : s.(s_ring).(br_prod_tail) = s.(g_pt) mod 2 ^ k;
  so_ch : s.(s_ring).(br_cons_head) = s.(g_ch) mod 2 ^ k;
  so_ct : s.(s_ring).(br_cons_tail) = s.(g_ct) mod 2 ^ k;
  so_size : s.(s_ring).(br_prod_size) = 2 ^ k;
  so_pmask : s.(s_ring).(br_prod_mask) = 2 ^ k - 1;
  so_cmask : s.(s_ring).(br_cons_mask) = 2 ^ k - 1;
  so_slots : Z.of_nat (length s.(s_ring).(br_ring)) = 2 ^ k;
  so_log : Z.of_nat (length s.(g_log)) = s.(g_ph);
  so_out : s.(g_out) = take (Z.to_nat s.(g_ct)) s.(g_log);
  so_items : ∀ i, s.(g_ct) ≤ i < s.(g_pt) →
    s.(s_ring).(br_ring) !! Z.to_nat (i mod 2 ^ k) = s.(g_log) !! Z.to_nat i }.

(** The slot a thread has reserved, as a producer and as a consumer. *)
Definition owns_p (p : pc) : option Z :=
  match p with
  | E_store _ _ _ _ i | E_wait _ _ _ _ i | E_bufs _ _ _ i | E_bytes _ _ _ i | E_publish _ _ i => Some i
  | _ => None
  end.
Definition owns_c (p : pc) : option Z :=
  match p with
  | D_load _ _ i | D_wait _ _ _ i | D_publish _ _ i => Some i
  | _ => None
  end.

(** What a producer that owns slot [i] knows. *)
Definition producing (k : Z) (s : shared) (buf nx i : Z) : Prop :=
  s.(g_pt) ≤ i < s.(g_ph) ∧ nx = (i + 1) mod 2 ^ k ∧ s.(g_log) !! Z.to_nat i = Some buf.
Definition stored (k : Z) (s : shared) (buf i : Z) : Prop :=
  s.(s_ring).(br_ring) !! Z.to_nat (i mod 2 ^ k) = Some buf.
Definition consuming (k : Z) (s : shared) (nx i : Z) : Prop :=
  s.(g_ct) ≤ i < s.(g_ch) ∧ nx = (i + 1) mod 2 ^ k.

Definition pc_ok (k : Z) (s : shared) (p : pc) : Prop :=
  match p with
  | Idle | E_head _ _ | E_return _ | D_head | D_return _ => True
  | E_tail _ _ ph a => 0 ≤ a ≤ s.(g_ph) ∧ ph = a mod 2 ^ k
  | E_cas _ _ ph nx a => 0 ≤ a ≤ s.(g_ph) ∧ ph = a mod 2 ^ k ∧ nx = (a + 1) mod 2 ^ k ∧
      (s.(g_ph) = a → a - s.(g_ct) ≤ 2 ^ k - 2)
  | E_store buf _ ph nx i => ph = i mod 2 ^ k ∧ producing k s buf nx i
  | E_wait buf _ ph nx i => ph = i mod 2 ^ k ∧ producing k s buf nx i ∧ stored k s buf i
  | E_bufs buf _ nx i | E_bytes buf _ nx i => i = s.(g_pt) ∧ producing k s buf nx i ∧ stored k s buf i
  | E_publish buf nx i => i = s.(g_pt) ∧ producing k s buf nx i ∧ stored k s buf i
  | D_tail ch a => 0 ≤ a ≤ s.(g_ch) ∧ ch = a mod 2 ^ k
  | D_cas ch nx a => 0 ≤ a ≤ s.(g_ch) ∧ ch = a mod 2 ^ k ∧ nx = (a + 1) mod 2 ^ k ∧ (s.(g_ch) = a → a < s.(g_pt))
  | D_load ch nx i => ch = i mod 2 ^ k ∧ consuming k s nx i
  | D_wait buf ch nx i => ch = i mod 2 ^ k ∧ consuming k s nx i ∧ s.(g_log) !! Z.to_nat i = Some buf
  | D_publish buf nx i => i = s.(g_ct) ∧ consuming k s nx i ∧ s.(g_log) !! Z.to_nat i = Some buf
  end.

Record conf_ok (k : Z) (c : conf) : Prop := {
  co_shared : shared_ok k c.(c_shared);
  co_pcs : ∀ t p, c.(c_threads) !! t = Some p → pc_ok k c.(c_shared) p;
  co_p : ∀ t t' p p' i, c.(c_threads) !! t = Some p → c.(c_threads) !! t' = Some p' →
    owns_p p = Some i → owns_p p' = Some i → t = t';
  co_c : ∀ t t' p p' i, c.(c_threads) !! t = Some p → c.(c_threads) !! t' = Some p' →
    owns_c p = Some i → owns_c p' = Some i → t = t';
  co_pall : ∀ i, c.(c_shared).(g_pt) ≤ i < c.(c_shared).(g_ph) →
    ∃ t p, c.(c_threads) !! t = Some p ∧ owns_p p = Some i;
  co_call : ∀ i, c.(c_shared).(g_ct) ≤ i < c.(c_shared).(g_ch) →
    ∃ t p, c.(c_threads) !! t = Some p ∧ owns_c p = Some i }.

(** ** Preservation *)

Lemma pow_bounds k : 1 ≤ k < 31 → 2 ≤ 2 ^ k < 2 ^ 31.
Proof. intros. split; [apply (Z.pow_le_mono_r 2 1 k); lia|]. apply Z.pow_lt_mono_r; lia. Qed.

(** Indices less than a lap apart. *)
Lemma mod_inj N a b : 0 < N → a mod N = b mod N → a - N < b < a + N → a = b.
Proof.
  intros HN He Hd. pose proof (Z.div_mod a N ltac:(lia)). pose proof (Z.div_mod b N ltac:(lia)).
  assert (a - b = N * (a / N - b / N)) by lia.
  destruct (Z.lt_trichotomy (a / N - b / N) 0) as [|[|]]; nia.
Qed.

Lemma slot_ne N i j : 0 < N → i < j < i + N → Z.to_nat (i mod N) ≠ Z.to_nat (j mod N).
Proof.
  intros HN Hd He. apply Z2Nat.inj in He; [|apply Z.mod_pos_bound; lia..].
  apply mod_inj in He; lia.
Qed.

Lemma next_mod k i : 1 ≤ k < 31 → 0 ≤ i → advance (2 ^ k - 1) (i mod 2 ^ k) 1 = (i + 1) mod 2 ^ k.
Proof.
  intros Hk Hi. pose proof (pow_bounds k Hk). pose proof (Z.mod_pos_bound i (2 ^ k) ltac:(lia)).
  rewrite advance_mod by lia. by rewrite Zplus_mod_idemp_l.
Qed.

Section Steps.
Context (k : Z) (s : shared).
Hypothesis S : shared_ok k s.

Local Lemma HN : 2 ≤ 2 ^ k < 2 ^ 31.
Proof. apply pow_bounds, (so_k _ _ S). Qed.

(** A producer reserves the next slot. *)
Definition reserve_p (buf nx : Z) : shared :=
  Shared (set_prod_head nx s.(s_ring)) (s.(g_ph) + 1) s.(g_pt) s.(g_ch) s.(g_ct) (s.(g_log) ++ [buf]) s.(g_out).

Lemma reserve_p_shared buf nx :
  nx = (s.(g_ph) + 1) mod 2 ^ k → s.(g_ph) - s.(g_ct) ≤ 2 ^ k - 2 → shared_ok k (reserve_p buf nx).
Proof.
  intros -> Hr. pose proof HN. destruct S. split; simpl; try done; try lia.
  - rewrite length_app. simpl. lia.
  - rewrite take_app_le by lia. done.
  - intros i Hi. rewrite lookup_app_l by lia. by apply so_items0.
Qed.

Lemma reserve_p_pc buf nx p : pc_ok k s p → pc_ok k (reserve_p buf nx) p.
Proof.
  assert (Hlog : ∀ i x, s.(g_log) !! i = Some x → (s.(g_log) ++ [buf]) !! i = Some x) by (intros; by apply lookup_app_l_Some).
  destruct p; simpl; unfold producing, stored, consuming; simpl; try done; intros; destruct_and?; split_and!; auto; lia.
Qed.

(** It stores its item. *)
Definition store_item (buf i : Z) : shared :=
  with_ring s (set_ring (<[Z.to_nat (i mod 2 ^ k) := buf]> s.(s_ring).(br_ring)) s.(s_ring)).

Lemma store_shared buf i : s.(g_pt) ≤ i < s.(g_ph) → shared_ok k (store_item buf i).
Proof.
  intros Hi. pose proof HN. destruct S. split; simpl; try done.
  - by rewrite length_insert.
  - intros j Hj. rewrite list_lookup_insert_ne; [by apply so_items0|]. apply not_eq_sym, slot_ne; lia.
Qed.

Lemma store_pc buf i p :
  s.(g_pt) ≤ i < s.(g_ph) → (∀ j, owns_p p = Some j → j ≠ i) → pc_ok k s p → pc_ok k (store_item buf i) p.
Proof.
  intros Hi Hown. assert (Hst : ∀ b j, s.(g_pt) ≤ j < s.(g_ph) → j ≠ i → stored k s b j → stored k (store_item buf i) b j).
  { intros b j Hj Hne Hs. unfold stored in *. simpl. rewrite list_lookup_insert_ne; [done|]. pose proof HN. destruct S.
    destruct (Z_lt_dec i j); [apply slot_ne|apply not_eq_sym, slot_ne]; lia. }
  destruct p; simpl in *; try done; unfold producing in *; simpl in *; intros; destruct_and?; split_and!; auto.
Qed.

Lemma stored_now buf i : stored k (store_item buf i) buf i.
Proof.
  unfold stored. simpl. apply list_lookup_insert_eq. pose proof HN. destruct S.
  pose proof (Z.mod_pos_bound i (2 ^ k) ltac:(lia)). lia.
Qed.

(** It publishes its slot, the oldest one. *)
Definition publish_p (nx : Z) : shared :=
  Shared (set_prod_tail nx s.(s_ring)) s.(g_ph) (s.(g_pt) + 1) s.(g_ch) s.(g_ct) s.(g_log) s.(g_out).

Lemma publish_p_shared buf nx :
  producing k s buf nx s.(g_pt) → stored k s buf s.(g_pt) → shared_ok k (publish_p nx).
Proof.
  intros (Hi & -> & Hlog) Hst. pose proof HN. destruct S. split; simpl; try done; try lia.
  intros i Hr. destruct (decide (i = s.(g_pt))) as [->|]; [by rewrite Hlog|]. apply so_items0. lia.
Qed.

Lemma publish_p_pc nx p : (∀ j, owns_p p = Some j → j ≠ s.(g_pt)) → pc_ok k s p → pc_ok k (publish_p nx) p.
Proof.
  intros Hown.
  destruct p; simpl in *; try done; unfold producing, stored, consuming in *; simpl in *; intros; destruct_and?;
    try (exfalso; by eapply Hown); try specialize (Hown _ eq_refl); split_and!; auto; try lia.
Qed.

(** A consumer reserves the next item. *)
Definition reserve_c (nx : Z) : shared :=
  Shared (set_cons_head nx s.(s_ring)) s.(g_ph) s.(g_pt) (s.(g_ch) + 1) s.(g_ct) s.(g_log) s.(g_out).

Lemma reserve_c_shared nx : nx = (s.(g_ch) + 1) mod 2 ^ k → s.(g_ch) < s.(g_pt) → shared_ok k (reserve_c nx).
Proof. intros -> Hr. pose proof HN. destruct S. split; simpl; try done; lia. Qed.

Lemma reserve_c_pc nx p : pc_ok k s p → pc_ok k (reserve_c nx) p.
Proof.
  destruct p; simpl; unfold producing, stored, consuming; simpl; try done; intros; destruct_and?; split_and!; auto; lia.
Qed.

(** It gives its item out, the oldest one. *)
Definition publish_c (buf nx : Z) : shared :=
  Shared (set_cons_tail nx s.(s_ring)) s.(g_ph) s.(g_pt) s.(g_ch) (s.(g_ct) + 1) s.(g_log) (s.(g_out) ++ [buf]).

Lemma publish_c_shared buf nx :
  consuming k s nx s.(g_ct) → s.(g_log) !! Z.to_nat s.(g_ct) = Some buf → shared_ok k (publish_c buf nx).
Proof.
  intros (Hi & ->) Hlog. pose proof HN. destruct S. split; simpl; try done; try lia.
  - rewrite so_out0. replace (Z.to_nat (g_ct s + 1)) with (Datatypes.S (Z.to_nat (g_ct s))) by lia.
    by rewrite (take_S_r _ _ buf).
  - intros i Hr. apply so_items0. lia.
Qed.

Lemma publish_c_pc buf nx p : (∀ j, owns_c p = Some j → j ≠ s.(g_ct)) → pc_ok k s p → pc_ok k (publish_c buf nx) p.
Proof.
  intros Hown.
  destruct p; simpl in *; try done; unfold producing, stored, consuming in *; simpl in *; intros; destruct_and?;
    try (exfalso; by eapply Hown); try specialize (Hown _ eq_refl); split_and!; auto; try lia.
Qed.

(** The statistics are no part of the invariant. *)
Lemma stats_shared n : shared_ok k (with_ring s (set_prod_bufs n s.(s_ring))) ∧ shared_ok k (with_ring s (set_prod_bytes n s.(s_ring))).
Proof. destruct S. by split; split. Qed.

Lemma stats_pc n p : pc_ok k s p →
  pc_ok k (with_ring s (set_prod_bufs n s.(s_ring))) p ∧ pc_ok k (with_ring s (set_prod_bytes n s.(s_ring))) p.
Proof. by destruct p. Qed.

End Steps.

(** ** Every timely step preserves the invariant *)

(** A step of thread [t] from [p] to [p']: what is left to show once the other
    threads are known to be unaffected. *)
Lemma conf_step k c t p s' p' :
  conf_ok k c → c.(c_threads) !! t = Some p →
  shared_ok k s' → pc_ok k s' p' →
  (∀ q, (∀ i, owns_p q = Some i → owns_p p ≠ Some i) → (∀ i, owns_c q = Some i → owns_c p ≠ Some i) →
     pc_ok k c.(c_shared) q → pc_ok k s' q) →
  (∀ i, owns_p p' = Some i → owns_p p = Some i ∨ i = c.(c_shared).(g_ph)) →
  (∀ i, owns_c p' = Some i → owns_c p = Some i ∨ i = c.(c_shared).(g_ch)) →
  (∀ i, s'.(g_pt) ≤ i < s'.(g_ph) →
     owns_p p' = Some i ∨ c.(c_shared).(g_pt) ≤ i < c.(c_shared).(g_ph) ∧ owns_p p ≠ Some i) →
  (∀ i, s'.(g_ct) ≤ i < s'.(g_ch) →
     owns_c p' = Some i ∨ c.(c_shared).(g_ct) ≤ i < c.(c_shared).(g_ch) ∧ owns_c p ≠ Some i) →
  conf_ok k (Conf s' (<[t := p']> c.(c_threads))).
Proof.
  intros [Hs Hpcs Hp Hc Hpall Hcall] Ht Hs' Hp' Hfr Hop Hoc Hap Hac.
  assert (Hlt : (t < length (c_threads c))%nat) by (by apply lookup_lt_Some in Ht).
  assert (Hbp : ∀ q i, pc_ok k (c_shared c) q → owns_p q = Some i → i < (c_shared c).(g_ph)).
  { intros q j Hq Hi. destruct q; simpl in *; simplify_eq; unfold producing in *; lia. }
  assert (Hbc : ∀ q i, pc_ok k (c_shared c) q → owns_c q = Some i → i < (c_shared c).(g_ch)).
  { intros q j Hq Hi. destruct q; simpl in *; simplify_eq; unfold consuming in *; lia. }
  assert (Hget : ∀ u q, <[t := p']> (c_threads c) !! u = Some q → u = t ∧ q = p' ∨ u ≠ t ∧ c_threads c !! u = Some q).
  { intros u q Hu. destruct (decide (u = t)) as [->|Hne].
    - rewrite list_lookup_insert_eq in Hu by done. naive_solver.
    - rewrite list_lookup_insert_ne in Hu by done. naive_solver. }
  split; simpl.
  - done.
  - intros u q [[-> ->]|[Hne Hu]]%Hget; [done|]. apply Hfr; [| |by eapply Hpcs].
    + intros i Hi Hpi. apply Hne. by eapply Hp.
    + intros i Hi Hpi. apply Hne. by eapply Hc.
  - intros u u' q q' i [[-> ->]|[Hne Hu]]%Hget [[-> ->]|[Hne' Hu']]%Hget Hi Hi'; [done| | |by eapply Hp].
    + destruct (Hop i Hi) as [Hpi| ->]; [by eapply Hp|]. specialize (Hbp q' _ (Hpcs _ _ Hu') Hi'). lia.
    + destruct (Hop i Hi') as [Hpi| ->]; [by eapply Hp|]. specialize (Hbp q _ (Hpcs _ _ Hu) Hi). lia.
  - intros u u' q q' i [[-> ->]|[Hne Hu]]%Hget [[-> ->]|[Hne' Hu']]%Hget Hi Hi'; [done| | |by eapply Hc].
    + destruct (Hoc i Hi) as [Hpi| ->]; [by eapply Hc|]. specialize (Hbc q' _ (Hpcs _ _ Hu') Hi'). lia.
    + destruct (Hoc i Hi') as [Hpi| ->]; [by eapply Hc|]. specialize (Hbc q _ (Hpcs _ _ Hu) Hi). lia.
  - intros i Hi. destruct (Hap i Hi) as [Hi'|[Hi' Hno]]; [exists t, p'; by rewrite list_lookup_insert_eq|].
    destruct (Hpall i Hi') as (u & q & Hu & Hq). exists u, q. rewrite list_lookup_insert_ne; [done|congruence].
  - intros i Hi. destruct (Hac i Hi) as [Hi'|[Hi' Hno]]; [exists t, p'; by rewrite list_lookup_insert_eq|].
    destruct (Hcall i Hi') as (u & q & Hu & Hq). exists u, q. rewrite list_lookup_insert_ne; [done|congruence].
Qed.

(** The ownership of a slot that stays where it is. *)
Lemma same_slots (own : pc → option Z) p p' lo hi :
  own p' = own p → ∀ i, lo ≤ i < hi → own p' = Some i ∨ lo ≤ i < hi ∧ own p ≠ Some i.
Proof. intros -> i Hi. destruct (decide (own p = Some i)); auto. Qed.

(** A step that leaves the shared structure alone. *)
Lemma local_step k c t p p' :
  conf_ok k c → c.(c_threads) !! t = Some p → pc_ok k c.(c_shared) p' →
  owns_p p' = owns_p p → owns_c p' = owns_c p →
  conf_ok k (Conf c.(c_shared) (<[t := p']> c.(c_threads))).
Proof.
  intros H Ht Hp' Hop Hoc. eapply conf_step; [done|done|apply H|done|auto|..].
  - rewrite Hop. auto.
  - rewrite Hoc. auto.
  - by apply same_slots.
  - by apply same_slots.
Qed.

Lemma enqueue_step k c t p s' p' :
  conf_ok k c → c.(c_threads) !! t = Some p → timely (2 ^ k) c.(c_shared) p →
  match p with E_head _ _ | E_tail _ _ _ _ | E_cas _ _ _ _ _ | E_store _ _ _ _ _ | E_wait _ _ _ _ _
    | E_bufs _ _ _ _ | E_bytes _ _ _ _ | E_publish _ _ _ => True | _ => False end →
  tstep c.(c_shared) p = Some (s', p') → conf_ok k (Conf s' (<[t := p']> c.(c_threads))).
Proof.
  intros Hc Ht Htm Hkind Hstep. pose proof (co_shared _ _ Hc) as S. pose proof (co_pcs _ _ Hc t p Ht) as Hp.
  pose proof (so_order _ _ S) as Ho. pose proof (so_room _ _ S) as Hroom. pose proof (pow_bounds k (so_k _ _ S)) as HN.
  destruct p; try done; simpl in Hstep, Hp, Htm.
  - injection Hstep as <- <-. apply (local_step _ _ _ _ _ Hc Ht); simpl; [|done|done]. split; [lia|apply (so_ph _ _ S)].
  - destruct Hp as [Ha ->]. rewrite (so_pmask _ _ S), next_mod, (so_ct _ _ S) in Hstep by (apply S || lia).
    injection Hstep as <- <-. case_match eqn:Heq; apply (local_step _ _ _ _ _ Hc Ht); simpl; try done.
    split_and!; [lia|lia|done|done|]. intros Hpha. apply Z.eqb_neq in Heq.
    assert (a - g_ct (c_shared c) ≠ 2 ^ k - 1); [|lia]. intros Hd. apply Heq.
    replace (a + 1) with (g_ct (c_shared c) + 1 * 2 ^ k) by lia. apply Z.mod_add. lia.
  - destruct Hp as (Ha & -> & -> & Hcas). rewrite (so_ph _ _ S) in Hstep.
    destruct (Z.eqb_spec (g_ph (c_shared c) mod 2 ^ k) (a mod 2 ^ k)) as [Heq|Hne]; injection Hstep as <- <-;
      [|by apply (local_step _ _ _ _ _ Hc Ht)].
    apply mod_inj in Heq; [|lia|lia]. subst a. eapply conf_step; [done|done|..].
    + apply reserve_p_shared; [done|done|auto].
    + simpl. split; [done|]. split_and!; simpl; [lia|lia|done|].
      rewrite lookup_app_r by (pose proof (so_log _ _ S); lia).
      replace (_ - _)%nat with 0%nat by (pose proof (so_log _ _ S); lia). done.
    + intros q _ _. by apply reserve_p_pc.
    + simpl. intros j [= <-]. by right.
    + done.
    + simpl. intros j Hj. destruct (decide (j = g_ph (c_shared c))) as [->|]; [by left|right]. split; [lia|done].
    + by apply same_slots.
  - destruct Hp as (-> & Hpr). destruct Hpr as (Hi & -> & Hlog).
    case_bool_decide as Hlt; [|done]. injection Hstep as <- <-. eapply conf_step; [done|done|..].
    + by apply store_shared.
    + simpl. split_and!; [done|done|apply (stored_now k _ S)].
    + intros q Hq _. apply store_pc; [done|done|]. intros j Hj ->. by apply (Hq i).
    + auto.
    + done.
    + by apply same_slots.
    + by apply same_slots.
  - destruct Hp as (-> & Hpr & Hst). injection Hstep as <- <-. case_match eqn:Heq.
    + apply (local_step _ _ _ _ _ Hc Ht); [|done|done]. simpl. split_and!; [|done|done].
      apply Z.eqb_eq in Heq. rewrite (so_pt _ _ S) in Heq. destruct Hpr as (Hi & _). symmetry. apply (mod_inj (2 ^ k)); lia.
    + apply (local_step _ _ _ _ _ Hc Ht); simpl; auto.
  - injection Hstep as <- <-. eapply conf_step; [done|done|by apply stats_shared| | |auto|done|by apply same_slots..].
    + by apply stats_pc.
    + intros q _ _ Hq. by apply stats_pc.
  - injection Hstep as <- <-. eapply conf_step; [done|done|by apply stats_shared| | |auto|done|by apply same_slots..].
    + apply (stats_pc k (c_shared c) _ (E_publish buf prod_next i)). done.
    + intros q _ _ Hq. by apply stats_pc.
  - destruct Hp as (-> & Hpr & Hst). injection Hstep as <- <-. eapply conf_step; [done|done|by eapply publish_p_shared|done| |done|done|..].
    + intros q Hq _. apply publish_p_pc. intros j Hj ->. by apply (Hq _ Hj).
    + simpl. intros j Hj. right. split; [lia|]. intros [= <-]. lia.
    + by apply same_slots.
Qed.

Lemma dequeue_step k c t p s' p' :
  conf_ok k c → c.(c_threads) !! t = Some p → timely (2 ^ k) c.(c_shared) p →
  match p with D_head | D_tail _ _ | D_cas _ _ _ | D_load _ _ _ | D_wait _ _ _ _ | D_publish _ _ _ => True
    | _ => False end →
  tstep c.(c_shared) p = Some (s', p') → conf_ok k (Conf s' (<[t := p']> c.(c_threads))).
Proof.
  intros Hc Ht Htm Hkind Hstep. pose proof (co_shared _ _ Hc) as S. pose proof (co_pcs _ _ Hc t p Ht) as Hp.
  pose proof (so_order _ _ S) as Ho. pose proof (so_room _ _ S) as Hroom. pose proof (pow_bounds k (so_k _ _ S)) as HN.
  destruct p; try done; simpl in Hstep, Hp, Htm.
  - injection Hstep as <- <-. apply (local_step _ _ _ _ _ Hc Ht); simpl; [|done|done]. split; [lia|apply (so_ch _ _ S)].
  - destruct Hp as [Ha ->]. rewrite (so_cmask _ _ S), next_mod, (so_pt _ _ S) in Hstep by (apply S || lia).
    injection Hstep as <- <-. case_match eqn:Heq; apply (local_step _ _ _ _ _ Hc Ht); simpl; try done.
    split_and!; [lia|lia|done|done|]. intros Hpha. apply Z.eqb_neq in Heq.
    assert (a ≠ g_pt (c_shared c)); [|lia]. intros Hd. apply Heq. by rewrite Hd.
  - destruct Hp as (Ha & -> & -> & Hcas). rewrite (so_ch _ _ S) in Hstep.
    destruct (Z.eqb_spec (g_ch (c_shared c) mod 2 ^ k) (a mod 2 ^ k)) as [Heq|Hne]; injection Hstep as <- <-;
      [|by apply (local_step _ _ _ _ _ Hc Ht)].
    apply mod_inj in Heq; [|lia|lia]. subst a. eapply conf_step; [done|done|..].
    + apply reserve_c_shared; [done|done|auto].
    + simpl. split; [done|]. split; simpl; [lia|done].
    + intros q _ _. by apply reserve_c_pc.
    + done.
    + simpl. intros j [= <-]. by right.
    + by apply same_slots.
    + simpl. intros j Hj. destruct (decide (j = g_ch (c_shared c))) as [->|]; [by left|right]. split; [lia|done].
  - destruct Hp as (-> & Hi & ->). apply bind_Some in Hstep as (buf & Hb & [= <- <-]).
    apply (local_step _ _ _ _ _ Hc Ht); [|done|done]. simpl. split_and!; [done|done|].
    by rewrite <- (so_items _ _ S) by lia.
  - destruct Hp as (-> & Hcs & Hst). injection Hstep as <- <-. case_match eqn:Heq.
    + apply (local_step _ _ _ _ _ Hc Ht); [|done|done]. simpl. split_and!; [|done|done].
      apply Z.eqb_eq in Heq. rewrite (so_ct _ _ S) in Heq. destruct Hcs as (Hi & _). symmetry. apply (mod_inj (2 ^ k)); lia.
    + apply (local_step _ _ _ _ _ Hc Ht); simpl; auto.
  - destruct Hp as (-> & Hcs & Hst). injection Hstep as <- <-. eapply conf_step; [done|done|by apply publish_c_shared|done| |done|done|..].
    + intros q _ Hq. apply publish_c_pc. intros j Hj ->. by apply (Hq _ Hj).
    + by apply same_slots.
    + simpl. intros j Hj. right. split; [lia|]. intros [= <-]. lia.
Qed.

Lemma step_ok k c t p c' :
  conf_ok k c → step c t c' → c.(c_threads) !! t = Some p → timely (2 ^ k) c.(c_shared) p → conf_ok k c'.
Proof.
  intros Hc Hstep Ht Htm. inversion Hstep as [? ? q s p' Hq Hts|? ? q buf n Hq Hf|? ? q Hq Hf]; subst; simplify_eq.
  - destruct p; try discriminate Hts; first [by eapply enqueue_step | by eapply dequeue_step].
  - apply (local_step _ _ _ _ _ Hc Ht); [done|by destruct p..].
  - apply (local_step _ _ _ _ _ Hc Ht); [done|by destruct p..].
Qed.

Lemma start_ok k n : 1 ≤ k < 31 → conf_ok k (start k n).
Proof.
  intros Hk. pose proof (pow_bounds k Hk).
  assert (Hidle : ∀ t p, replicate n Idle !! t = Some p → p = Idle) by (intros t p Ht; by apply lookup_replicate in Ht as [-> _]).
  split; simpl.
  - split; simpl; try done; try lia.
    + rewrite length_replicate. lia.
  - by intros t p ->%Hidle.
  - by intros t t' p p' i ->%Hidle.
  - by intros t t' p p' i ->%Hidle.
  - lia.
  - lia.
Qed.

Lemma runs_ok k n c : 1 ≤ k < 31 → runs k n c → conf_ok k c.
Proof. intros Hk. induction 1 as [|c t p c' _ IH Hs Ht Htm]; [by apply start_ok|by eapply step_ok]. Qed.

(** ** What the threads together do *)

(** No access leaves the array. *)
Lemma step_defined k c t p :
  conf_ok k c → c.(c_threads) !! t = Some p → finished p = false → is_Some (tstep c.(c_shared) p).
Proof.
  intros Hc Ht Hf. pose proof (co_shared _ _ Hc) as S. pose proof (co_pcs _ _ Hc t p Ht) as Hp.
  pose proof (pow_bounds k (so_k _ _ S)) as HN. pose proof (so_slots _ _ S) as Hsl.
  assert (Hlt : ∀ i, (Z.to_nat (i mod 2 ^ k) < length (br_ring (s_ring (c_shared c))))%nat).
  { intros i. pose proof (Z.mod_pos_bound i (2 ^ k) ltac:(lia)). lia. }
  destruct p; try discriminate Hf; simpl in *; try (eexists; reflexivity).
  - by case_match; eexists.
  - destruct Hp as [-> _]. rewrite bool_decide_eq_true_2 by auto. by eexists.
  - by case_match; eexists.
  - destruct Hp as [-> _]. destruct (lookup_lt_is_Some_2 _ _ (Hlt i)) as [v ->]. by eexists.
Qed.

(** At rest the ring holds what has been put in and not been given out. *)
Lemma rest_holds k c :
  conf_ok k c → Forall (λ p, finished p = true) c.(c_threads) →
  ring_holds k c.(c_shared).(s_ring) (drop (length c.(c_shared).(g_out)) c.(c_shared).(g_log)).
Proof.
  intros Hc Hall. pose proof (co_shared _ _ Hc) as S. rewrite Forall_lookup in Hall.
  set (s := c_shared c) in *. pose proof (so_order _ _ S) as Ho. pose proof (pow_bounds k (so_k _ _ S)) as HN.
  assert (Hpt : g_pt s = g_ph s).
  { destruct (decide (g_pt s < g_ph s)); [|lia]. destruct (co_pall _ _ Hc (g_pt s)) as (t & p & Ht & Hp); [fold s; lia|].
    specialize (Hall _ _ Ht). by destruct p. }
  assert (Hct : g_ct s = g_ch s).
  { destruct (decide (g_ct s < g_ch s)); [|lia]. destruct (co_call _ _ Hc (g_ct s)) as (t & p & Ht & Hp); [fold s; lia|].
    specialize (Hall _ _ Ht). by destruct p. }
  pose proof (so_log _ _ S) as Hlog. pose proof (so_room _ _ S) as Hroom.
  assert (Hout : length (g_out s) = Z.to_nat (g_ct s)) by (rewrite (so_out _ _ S), length_take; lia).
  rewrite Hout. assert (Hlen : Z.of_nat (length (drop (Z.to_nat (g_ct s)) (g_log s))) = g_ph s - g_ct s)
    by (rewrite length_drop; lia).
  split; [apply S|apply S|apply S|apply S|apply S|..].
  - rewrite (so_ch _ _ S). apply Z.mod_pos_bound. lia.
  - rewrite (so_ch _ _ S), (so_ct _ _ S), (so_pt _ _ S), (so_ph _ _ S), Hpt, Hct. done.
  - lia.
  - rewrite Hlen, (so_ch _ _ S), (so_ph _ _ S), Zplus_mod_idemp_l, Hct. f_equal. lia.
  - intros i x Hx. rewrite lookup_drop in Hx. pose proof (lookup_lt_Some _ _ _ Hx).
    rewrite (so_ch _ _ S), Zplus_mod_idemp_l, (so_items _ _ S) by lia. rewrite <- Hx. f_equal. lia.
Qed.

(** C3. The ring buffer is a queue for any number of concurrent producers and
    consumers, as long as no thread is overtaken by a whole lap between
    reading an index and its compare-and-set: what consumers get, in order, is
    what producers put in, in the order they reserved their slots, with
    nothing lost, doubled or overwritten; at most 2^k - 1 items are in the
    ring; no access leaves the array; and whenever all threads are at rest the
    ring is, for the sequential operations, the queue of the items not given
    out yet. *)
Theorem buf_ring_concurrent_fifo k n c :
  1 ≤ k < 31 → runs k n c →
  c.(c_shared).(g_out) = take (length c.(c_shared).(g_out)) c.(c_shared).(g_log) ∧
  Z.of_nat (length c.(c_shared).(g_log)) - Z.of_nat (length c.(c_shared).(g_out)) ≤ 2 ^ k - 1 ∧
  (∀ t p, c.(c_threads) !! t = Some p → finished p = false → is_Some (tstep c.(c_shared) p)) ∧
  (Forall (λ p, finished p = true) c.(c_threads) →
   ring_holds k c.(c_shared).(s_ring) (drop (length c.(c_shared).(g_out)) c.(c_shared).(g_log))).
Proof.
  intros Hk Hr. pose proof (runs_ok k n c Hk Hr) as Hc. pose proof (co_shared _ _ Hc) as S.
  pose proof (so_order _ _ S). pose proof (so_log _ _ S). pose proof (so_room _ _ S).
  assert (Hout : length (g_out (c_shared c)) = Z.to_nat (g_ct (c_shared c))) by (rewrite (so_out _ _ S), length_take; lia).
  split_and!.
  - rewrite Hout. apply (so_out _ _ S).
  - lia.
  - intros t p. by apply (step_defined k).
  - by apply rest_holds.
Qed.

(** ** Schedules *)

Inductive action :=
| Run (t : nat)
| Enqueue (t : nat) (buf n : Z)
| Dequeue (t : nat).

Definition thread_of (a : action) : nat := match a with Run t | Enqueue t _ _ | Dequeue t => t end.

Definition act (c : conf) (a : action) : option conf :=
  p ← c.(c_threads) !! thread_of a;
  match a with
  | Run t => '(s, p') ← tstep c.(c_shared) p; Some (Conf s (<[t := p']> c.(c_threads)))
  | Enqueue t buf n => if finished p then Some (Conf c.(c_shared) (<[t := E_head buf n]> c.(c_threads))) else None
  | Dequeue t => if finished p then Some (Conf c.(c_shared) (<[t := D_head]> c.(c_threads))) else None
  end.

Definition timelyb (N : Z) (s : shared) (p : pc) : bool :=
  match p with
  | E_cas _ _ _ _ a => s.(g_ph) <? a + N
  | D_cas _ _ a => s.(g_ch) <? a + N
  | _ => true
  end.

(** With [strict], only timely steps are taken. *)
Fixpoint exec (strict : bool) (N : Z) (c : conf) (l : list action) : option conf :=
  match l with
  | [] => Some c
  | a :: l =>
      p ← c.(c_threads) !! thread_of a;
      if negb strict || timelyb N c.(c_shared) p then c' ← act c a; exec strict N c' l else None
  end.

Lemma act_step c a c' : act c a = Some c' → step c (thread_of a) c'.
Proof.
  unfold act. intros (p & Hp & Ha)%bind_Some. destruct a; simpl in *.
  - apply bind_Some in Ha as ([s p'] & Hs & [= <-]). by econstructor.
  - destruct (finished p) eqn:Hf; [|done]. injection Ha as <-. by econstructor.
  - destruct (finished p) eqn:Hf; [|done]. injection Ha as <-. by econstructor.
Qed.

Lemma exec_runs k n l : ∀ c c', runs k n c → exec true (2 ^ k) c l = Some c' → runs k n c'.
Proof.
  induction l as [|a l IH]; intros c c' Hr; simpl; [by intros [= <-]|].
  intros (p & Hp & Ha)%bind_Some. destruct (timelyb (2 ^ k) (c_shared c) p) eqn:Ht; [|done].
  apply bind_Some in Ha as (c1 & Hc1 & Ha). eapply IH; [|exact Ha].
  eapply runs_step; [exact Hr|by apply act_step|exact Hp|]. destruct p; simpl in *; try done; lia.
Qed.

Fixpoint repeat_run (t n : nat) : list action := match n with O => [] | S n => Run t :: repeat_run t n end.

(** Two producers reserve slots at the same time, the second stores first; a
    consumer then takes an item. *)
Definition sample_schedule : list action :=
  [Enqueue 0 11 1; Enqueue 1 12 1] ++ repeat_run 0 3 ++ repeat_run 1 5 ++ repeat_run 0 5 ++ repeat_run 1 4 ++
  [Dequeue 2] ++ repeat_run 2 6.

Lemma buf_ring_concurrent_fifo_witness :
  ∃ c, exec true 4 (start 2 3) sample_schedule = Some c ∧ c.(c_shared).(g_out) = [11] ∧
    ring_holds 2 c.(c_shared).(s_ring) [12].
Proof.
  assert (Hex : ∃ c, exec true (2 ^ 2) (start 2 3) sample_schedule = Some c ∧ c.(c_shared).(g_out) = [11] ∧
    c.(c_shared).(g_log) = [11; 12] ∧ Forall (λ p, finished p = true) c.(c_threads)).
  { eexists. split; [vm_compute; reflexivity|]. split; [reflexivity|]. split; [reflexivity|]. repeat constructor. }
  destruct Hex as (c & H1 & H2 & H3 & H4). exists c. split; [exact H1|]. split; [exact H2|].
  destruct (buf_ring_concurrent_fifo 2 3 c) as (_ & _ & _ & H); [lia|exact (exec_runs 2 3 _ _ _ (runs_start 2 3) H1)|].
  specialize (H H4). rewrite H2, H3 in H. exact H.
Defined.

(** The compare-and-set cannot tell an index from the same index a lap later.
    In a ring of two slots, a producer that has seen room is overtaken by an
    enqueue, a dequeue and another enqueue; its compare-and-set succeeds on
    the full ring.  Both accepted items are lost: all threads are done, three
    items have been accepted and one given out, and the ring counts as
    empty. *)
Theorem buf_ring_enqueue_overtaken :
  ∃ l c, exec false 2 (start 1 3) l = Some c ∧ Forall (λ p, finished p = true) c.(c_threads) ∧
    c.(c_threads) !! 0%nat = Some (E_return 0) ∧
    c.(c_shared).(g_log) = [11; 12; 100] ∧ c.(c_shared).(g_out) = [11] ∧
    buf_ring_empty c.(c_shared).(s_ring) = true ∧ buf_ring_count c.(c_shared).(s_ring) = 0.
Proof.
  exists ([Enqueue 0 100 1] ++ repeat_run 0 2 ++ [Enqueue 1 11 1] ++ repeat_run 1 8 ++ [Dequeue 2] ++ repeat_run 2 6 ++
    [Enqueue 1 12 1] ++ repeat_run 1 8 ++ repeat_run 0 6).
  eexists. split; [vm_compute; reflexivity|]. split; [repeat constructor|]. by repeat split.
Qed.
