(* ===== verification/BitSet.v ===== *)
(** * Sets as arrays of words

    What the bit sets of the headers share: an array of [nw] words of [W]
    bits, its accesses and loops, and the set it represents.  A signed word
    (cpuset_t has longs) is kept as its two's-complement pattern, a number
    between 0 and 2^W. *)

From S2P Require Import Prelude.

Abbreviation words := (list Z).

(** [bits[i]] as a value and as a target; an index out of range is undefined. *)
Definition get_word (i : Z) : C words Z := λ l,
  if i <? 0 then UB else match l !! Z.to_nat i with Some w => Done w l | None => UB end.
Definition set_word (i w : Z) : C words () := λ l,
  if i <? 0 then UB else
  if bool_decide (Z.to_nat i < length l)%nat then Done () (<[Z.to_nat i := w]> l) else UB.

(** A word of another set that is only read. *)
Definition other_word (l : words) (i : Z) : C words Z := init (l !! Z.to_nat i).

(** [for (i = 0; i < nw; i++) body] *)
Definition each_word (nw : Z) (body : Z → C words ()) : C words () :=
  fold_range 0 nw () (λ i _, body i).

(** [for (i = 0; i < nw; i++) if (cond) break;] and whether it ran to the end. *)
Definition no_word (nw : Z) (cond : Z → C words bool) : C words bool :=
  r ← for_range 0 nw () (λ i _, b ← cond i; if b : bool then mret (inr ()) else mret (inl ()));
  match r with inl _ => mret true | inr _ => mret false end.

(** [~w] in [W] bits. *)
Definition flip (W w : Z) : Z := 2 ^ W - 1 - w.

Section BitSet.
Context (W : Z) (nw : nat).
Hypothesis HW : 0 < W.

Record words_ok (l : words) : Prop := {
  wo_len : length l = nw;
  wo_range : ∀ i w, l !! i = Some w → 0 ≤ w < 2 ^ W }.

(** Whether [n] is in the set. *)
Definition has (l : words) (n : Z) : bool :=
  match l !! Z.to_nat (n / W) with Some w => Z.testbit w (n mod W) | None => false end.

Definition size : Z := W * Z.of_nat nw.

Lemma word_index n : 0 ≤ n < size → (Z.to_nat (n / W) < nw)%nat ∧ 0 ≤ n / W.
Proof.
  unfold size. intros Hn. assert (0 ≤ n / W) by (apply Z.div_pos; lia).
  assert (n / W < Z.of_nat nw) by (apply Z.div_lt_upper_bound; lia). lia.
Qed.

Lemma word_at l n : words_ok l → 0 ≤ n < size → ∃ w, l !! Z.to_nat (n / W) = Some w ∧ has l n = Z.testbit w (n mod W).
Proof.
  intros Hl Hn. destruct (word_index n Hn) as [Hi _].
  destruct (lookup_lt_is_Some_2 l (Z.to_nat (n / W))) as [w Hw]; [rewrite (wo_len _ Hl); lia|].
  exists w. split; [done|]. unfold has. by rewrite Hw.
Qed.

Lemma same_word m n : 0 ≤ m < size → 0 ≤ n < size → Z.to_nat (m / W) = Z.to_nat (n / W) → m mod W = n mod W → m = n.
Proof.
  intros Hm Hn Hd Hr. destruct (word_index m Hm), (word_index n Hn). apply Z2Nat.inj in Hd; [|done|done].
  rewrite (Z.div_mod m W), (Z.div_mod n W) by lia. congruence.
Qed.

(** A word changed at the index of [n]. *)
Lemma has_insert l n m w :
  words_ok l → 0 ≤ n < size → 0 ≤ m < size →
  has (<[Z.to_nat (n / W) := w]> l) m =
    if bool_decide (Z.to_nat (m / W) = Z.to_nat (n / W)) then Z.testbit w (m mod W) else has l m.
Proof.
  intros Hl Hn Hm. destruct (word_index n Hn) as [Hi _]. unfold has. case_bool_decide as He.
  - rewrite He, list_lookup_insert_eq; [done|rewrite (wo_len _ Hl); lia].
  - by rewrite list_lookup_insert_ne by congruence.
Qed.

Lemma testbit_high w i : 0 ≤ w < 2 ^ W → W ≤ i → Z.testbit w i = false.
Proof.
  intros Hw Hi. destruct (decide (w = 0)) as [->|]; [apply Z.bits_0|].
  apply Z.bits_above_log2; [lia|]. apply Z.lt_le_trans with W; [|lia]. apply Z.log2_lt_pow2; lia.
Qed.

Lemma words_range w : (∀ i, W ≤ i → Z.testbit w i = false) → 0 ≤ w → 0 ≤ w < 2 ^ W.
Proof.
  intros Hh Hw. split; [done|]. destruct (decide (w = 0)) as [->|]; [lia|].
  apply Z.log2_lt_pow2; [lia|]. destruct (decide (Z.log2 w < W)); [done|].
  specialize (Hh (Z.log2 w) ltac:(lia)). rewrite Z.bit_log2 in Hh by lia. done.
Qed.

Lemma flip_testbit w i : 0 ≤ w < 2 ^ W → 0 ≤ i < W → Z.testbit (flip W w) i = negb (Z.testbit w i).
Proof.
  intros Hw Hi. unfold flip. replace (2 ^ W - 1 - w) with (Z.lnot w + 1 * 2 ^ W) by (unfold Z.lnot; lia).
  rewrite <- (Z.mod_pow2_bits_low _ W) by lia. rewrite Z.mod_add by lia. rewrite Z.mod_pow2_bits_low by lia.
  apply Z.lnot_spec. lia.
Qed.

Lemma flip_range w : 0 ≤ w < 2 ^ W → 0 ≤ flip W w < 2 ^ W.
Proof. unfold flip. lia. Qed.

Lemma words_insert l i w : words_ok l → 0 ≤ w < 2 ^ W → words_ok (<[i := w]> l).
Proof.
  intros [H1 H2] Hw. split; [by rewrite length_insert|]. intros j v Hj.
  apply list_lookup_insert_Some in Hj as [(-> & -> & _)|[_ Hj]]; [done|by eapply H2].
Qed.

(** Two sets with the same elements are the same words. *)
Lemma has_ext l l' : words_ok l → words_ok l' → (∀ n, 0 ≤ n < size → has l n = has l' n) → l = l'.
Proof.
  intros Hl Hl' He. apply list_eq_same_length with nw; [apply Hl'|apply Hl|].
  intros i x y Hi Hx Hy. apply Z.bits_inj'. intros b Hb.
  pose proof (wo_range _ Hl i x Hx). pose proof (wo_range _ Hl' i y Hy).
  destruct (decide (b < W)); [|by rewrite !testbit_high by (done || lia)].
  specialize (He (W * Z.of_nat i + b)). unfold has, size in He.
  assert (Hd : (W * Z.of_nat i + b) / W = Z.of_nat i) by (symmetry; apply Z.div_unique with b; lia).
  assert (Hm : (W * Z.of_nat i + b) mod W = b) by (symmetry; apply Z.mod_unique with (Z.of_nat i); lia).
  rewrite Hd, Hm, Nat2Z.id, Hx, Hy in He. apply He. nia.
Qed.

(** ** The loops *)

Lemma get_word_ok l i w : 0 ≤ i → l !! Z.to_nat i = Some w → get_word i l = Done w l.
Proof. intros Hi H. unfold get_word. destruct (Z.ltb_spec i 0); [lia|]. by rewrite H. Qed.

Lemma set_word_ok l i w v : 0 ≤ i → l !! Z.to_nat i = Some v → set_word i w l = Done () (<[Z.to_nat i := w]> l).
Proof.
  intros Hi H. unfold set_word. destruct (Z.ltb_spec i 0); [lia|].
  rewrite bool_decide_eq_true_2; [done|]. by eapply lookup_lt_Some.
Qed.

Lemma each_word_ok body g l :
  length l = nw →
  (∀ i w l, l !! Z.to_nat i = Some w → 0 ≤ i < Z.of_nat nw → body i l = Done () (<[Z.to_nat i := g (Z.to_nat i) w]> l)) →
  each_word (Z.of_nat nw) body l = Done () (imap g l).
Proof.
  intros Hlen Hb. unfold each_word, fold_range. rewrite Z.sub_0_r, Nat2Z.id.
  assert (Hgen : ∀ k i l, (i + k = nw)%nat → length l = nw →
    fold_up k (Z.of_nat i) () (λ i _, body i) l = Done () (take i l ++ imap (λ j, g (i + j)%nat) (drop i l))).
  { clear l Hlen. induction k as [|k IH]; intros i l Hik Hlen; simpl.
    - rewrite take_ge, drop_ge by lia. simpl. by rewrite app_nil_r.
    - destruct (lookup_lt_is_Some_2 l i) as [w Hw]; [lia|].
      rewrite (bind_done _ _ l (<[i := g i w]> l) ()).
      2:{ rewrite (Hb (Z.of_nat i) w l) by (rewrite ?Nat2Z.id; done || lia). by rewrite Nat2Z.id. }
      replace (Z.of_nat i + 1) with (Z.of_nat (S i)) by lia.
      rewrite IH by (rewrite ?length_insert; lia). f_equal.
      rewrite (take_S_r _ _ (g i w)) by (apply list_lookup_insert_eq; lia).
      rewrite take_insert_ge, drop_insert_lt by lia. rewrite (drop_S l w i) by done. simpl.
      rewrite <- app_assoc. simpl. rewrite Nat.add_0_r. do 2 f_equal.
      apply imap_ext. intros j x _. simpl. f_equal. lia. }
  specialize (Hgen nw 0%nat l ltac:(lia) Hlen). change (Z.of_nat 0) with 0 in Hgen.
  rewrite Hgen. simpl. by rewrite drop_0.
Qed.

Lemma no_word_ok cond p l :
  (∀ i, 0 ≤ i < Z.of_nat nw → cond i l = Done (p i) l) →
  ∃ b, no_word (Z.of_nat nw) cond l = Done b l ∧ (b = true ↔ ∀ i, 0 ≤ i < Z.of_nat nw → p i = false).
Proof.
  intros Hc. unfold no_word.
  erewrite bind_done; [|apply (for_range_first _ 0 (Z.of_nat nw) l p (λ _, ()))].
  2:{ intros i Hi. rewrite (bind_done _ _ _ _ _ (Hc i Hi)). by destruct (p i). }
  pose proof (first_in_spec 0 (Z.of_nat nw) p) as Hf. destruct (first_in 0 (Z.of_nat nw) p) as [i|].
  - exists false. split; [done|]. destruct Hf as (Hi & Hp & _). split; [done|]. intros H. by rewrite H in Hp.
  - exists true. split; [done|]. by split.
Qed.

(** A word-wise operation is a bit-wise one. *)
Lemma has_imap (g : nat → Z → Z) (l : words) n :
  has (imap g l) n = match l !! Z.to_nat (n / W) with Some w => Z.testbit (g (Z.to_nat (n / W)) w) (n mod W) | None => false end.
Proof. unfold has. rewrite list_lookup_imap. by destruct (l !! _). Qed.

Lemma words_imap (g : nat → Z → Z) (l : words) : words_ok l → (∀ i w, l !! i = Some w → 0 ≤ g i w < 2 ^ W) → words_ok (imap g l).
Proof.
  intros [H1 H2] Hg. split; [by rewrite length_imap|]. intros i w Hi.
  rewrite list_lookup_imap in Hi. apply fmap_Some in Hi as (v & Hv & ->). by apply Hg.
Qed.

(** A word is 0 exactly if none of its bits is set. *)
Lemma word_zero l i w : words_ok l → l !! i = Some w →
  w = 0 ↔ ∀ n, 0 ≤ n < size → Z.to_nat (n / W) = i → has l n = false.
Proof.
  intros Hl Hw. pose proof (lookup_lt_Some _ _ _ Hw) as Hi. rewrite (wo_len _ Hl) in Hi.
  pose proof (wo_range _ Hl _ _ Hw) as Hr. split.
  - intros -> n Hn <-. unfold has. rewrite Hw. apply Z.bits_0.
  - intros Hn. apply Z.bits_inj'. intros b Hb. rewrite Z.bits_0.
    destruct (decide (b < W)); [|by apply testbit_high; lia].
    assert (Hd : (W * Z.of_nat i + b) / W = Z.of_nat i) by (symmetry; apply Z.div_unique with b; lia).
    assert (Hm : (W * Z.of_nat i + b) mod W = b) by (symmetry; apply Z.mod_unique with (Z.of_nat i); lia).
    specialize (Hn (W * Z.of_nat i + b)). unfold has, size in Hn. rewrite Hd, Hm, Nat2Z.id, Hw in Hn. apply Hn; [nia|done].
Qed.

(** ** One bit *)

Lemma bit_iff m n : 0 ≤ m < size → 0 ≤ n < size → (Z.to_nat (m / W) = Z.to_nat (n / W) ∧ m mod W = n mod W) ↔ m = n.
Proof. intros Hm Hn. split; [|by intros ->]. intros [K1 K2]. by apply same_word. Qed.

Lemma pow_bit n i : 0 ≤ i → Z.testbit (2 ^ (n mod W)) i = (i =? n mod W).
Proof.
  intros Hi. pose proof (Z.mod_pos_bound n W HW).
  destruct (Z.eqb_spec i (n mod W)) as [->|]; [by apply Z.pow2_bits_true; lia|]. by apply Z.pow2_bits_false; lia.
Qed.

Lemma pow_range n : 0 ≤ 2 ^ (n mod W) < 2 ^ W.
Proof. pose proof (Z.mod_pos_bound n W HW). split; [lia|]. apply Z.pow_lt_mono_r; lia. Qed.

(** The single-bit operations, with [bit] the mask of [n] in its word. *)
Lemma set_bit_ok l n bit :
  words_ok l → 0 ≤ n < size → bit = 2 ^ (n mod W) →
  ∃ l', (w ← get_word (n / W); set_word (n / W) (Z.lor w bit)) l = Done () l' ∧ words_ok l' ∧
    ∀ m, 0 ≤ m < size → has l' m = (m =? n) || has l m.
Proof.
  intros Hl Hn ->. destruct (word_at l n Hl Hn) as (w & Hw & _). destruct (word_index n Hn) as [_ Hi0].
  pose proof (wo_range _ Hl _ _ Hw) as Hwr. pose proof (pow_range n) as Hmr.
  eexists. rewrite (bind_done _ _ _ _ _ (get_word_ok _ _ _ Hi0 Hw)).
  split; [by apply (set_word_ok _ _ _ w)|]. split.
  - apply words_insert; [done|]. apply words_range; [|apply Z.lor_nonneg; lia].
    intros i Hi. by rewrite Z.lor_spec, !testbit_high by (done || lia).
  - intros m Hm. rewrite has_insert by (done || lia). pose proof (bit_iff m n Hm Hn).
    pose proof (Z.mod_pos_bound m W HW). case_bool_decide as He.
    + rewrite Z.lor_spec, pow_bit by lia. unfold has. rewrite He, Hw.
      destruct (Z.eqb_spec (m mod W) (n mod W)), (Z.eqb_spec m n); try tauto; by rewrite ?orb_true_r, ?orb_false_r.
    + destruct (Z.eqb_spec m n); [tauto|done].
Qed.

Lemma clear_bit_ok l n bit :
  words_ok l → 0 ≤ n < size → bit = 2 ^ (n mod W) →
  ∃ l', (w ← get_word (n / W); set_word (n / W) (Z.land w (flip W bit))) l = Done () l' ∧ words_ok l' ∧
    ∀ m, 0 ≤ m < size → has l' m = negb (m =? n) && has l m.
Proof.
  intros Hl Hn ->. destruct (word_at l n Hl Hn) as (w & Hw & _). destruct (word_index n Hn) as [_ Hi0].
  pose proof (wo_range _ Hl _ _ Hw) as Hwr. pose proof (pow_range n) as Hmr. pose proof (flip_range _ Hmr) as Hfr.
  eexists. rewrite (bind_done _ _ _ _ _ (get_word_ok _ _ _ Hi0 Hw)).
  split; [by apply (set_word_ok _ _ _ w)|]. split.
  - apply words_insert; [done|]. apply words_range; [|apply Z.land_nonneg; lia].
    intros i Hi. by rewrite Z.land_spec, !testbit_high by (done || lia).
  - intros m Hm. rewrite has_insert by (done || lia). pose proof (bit_iff m n Hm Hn).
    pose proof (Z.mod_pos_bound m W HW). case_bool_decide as He.
    + rewrite Z.land_spec, flip_testbit, pow_bit by (done || lia). unfold has. rewrite He, Hw.
      destruct (Z.eqb_spec (m mod W) (n mod W)), (Z.eqb_spec m n); try tauto; by rewrite ?andb_false_r, ?andb_true_r.
    + destruct (Z.eqb_spec m n); [tauto|done].
Qed.

Lemma land_pow w n : Z.land w (2 ^ (n mod W)) = 0 ↔ Z.testbit w (n mod W) = false.
Proof.
  pose proof (Z.mod_pos_bound n W HW). split.
  - intros H0. apply (f_equal (λ z, Z.testbit z (n mod W))) in H0.
    rewrite Z.land_spec, Z.bits_0, pow_bit, Z.eqb_refl, andb_true_r in H0 by lia. done.
  - intros Hb. apply Z.bits_inj'. intros i Hi. rewrite Z.land_spec, Z.bits_0, pow_bit by lia.
    destruct (Z.eqb_spec i (n mod W)) as [->|]; [by rewrite Hb|apply andb_false_r].
Qed.

Lemma test_bit_ok l n bit :
  words_ok l → 0 ≤ n < size → bit = 2 ^ (n mod W) →
  (w ← get_word (n / W); mret (negb (Z.land w bit =? 0))) l = Done (has l n) l.
Proof.
  intros Hl Hn ->. destruct (word_at l n Hl Hn) as (w & Hw & Hh). destruct (word_index n Hn) as [_ Hi0].
  rewrite (bind_done _ _ _ _ _ (get_word_ok _ _ _ Hi0 Hw)), Hh. unfold mret, C_ret. f_equal.
  pose proof (land_pow w n) as [K1 K2]. destruct (Z.eqb_spec (Z.land w (2 ^ (n mod W))) 0) as [E|E]; simpl.
  - symmetry. by apply K1.
  - destruct (Z.testbit w (n mod W)); [done|]. exfalso. apply E, K2. done.
Qed.

(** ** Whole sets *)

(** A word-wise operation with another set. *)
Lemma words_op_ok (f : Z → Z → Z) (bf : bool → bool → bool) (body : Z → C words ()) l s :
  words_ok l → words_ok s →
  (∀ x y, 0 ≤ x < 2 ^ W → 0 ≤ y < 2 ^ W → 0 ≤ f x y < 2 ^ W) →
  (∀ x y i, 0 ≤ x < 2 ^ W → 0 ≤ y < 2 ^ W → 0 ≤ i < W → Z.testbit (f x y) i = bf (Z.testbit x i) (Z.testbit y i)) →
  (∀ i w x l, l !! Z.to_nat i = Some w → s !! Z.to_nat i = Some x → 0 ≤ i →
     body i l = Done () (<[Z.to_nat i := f w x]> l)) →
  ∃ l', each_word (Z.of_nat nw) body l = Done () l' ∧ words_ok l' ∧
    ∀ n, 0 ≤ n < size → has l' n = bf (has l n) (has s n).
Proof.
  intros Hl Hs Hf Hbf Hb. exists (imap (λ i w, f w (default 0 (s !! i))) l).
  assert (Hat : ∀ i w, l !! i = Some w → ∃ x, s !! i = Some x).
  { intros i w Hi. apply lookup_lt_is_Some_2. rewrite (wo_len _ Hs), <- (wo_len _ Hl). by eapply lookup_lt_Some. }
  split; [|split].
  - apply each_word_ok; [apply Hl|]. intros i w k Hk Hi.
    destruct (lookup_lt_is_Some_2 s (Z.to_nat i)) as [x Hx]; [rewrite (wo_len _ Hs); lia|].
    rewrite Hx. simpl. apply Hb; [done|done|lia].
  - apply words_imap; [done|]. intros i w Hw. destruct (Hat i w Hw) as [x Hx]. rewrite Hx. simpl.
    apply Hf; [by apply (wo_range _ Hl i)|by apply (wo_range _ Hs i)].
  - intros n Hn. rewrite has_imap. destruct (word_at l n Hl Hn) as (w & Hw & ->).
    destruct (word_at s n Hs Hn) as (x & Hx & ->). rewrite Hw, Hx. simpl.
    apply Hbf; [by eapply (wo_range _ Hl)|by eapply (wo_range _ Hs)|]. by apply Z.mod_pos_bound.
Qed.

(** A loop that looks for a word with some bit that fails [q]. *)
Lemma words_test_ok (p : Z → Z → bool) (q : bool → bool → bool) (cond : Z → C words bool) l s :
  words_ok l → words_ok s →
  (∀ x y, 0 ≤ x < 2 ^ W → 0 ≤ y < 2 ^ W →
     p x y = false ↔ ∀ i, 0 ≤ i < W → q (Z.testbit x i) (Z.testbit y i) = true) →
  (∀ i w x, l !! Z.to_nat i = Some w → s !! Z.to_nat i = Some x → 0 ≤ i → cond i l = Done (p w x) l) →
  ∃ b, no_word (Z.of_nat nw) cond l = Done b l ∧ (b = true ↔ ∀ n, 0 ≤ n < size → q (has l n) (has s n) = true).
Proof.
  intros Hl Hs Hp Hc.
  assert (Hat : ∀ k i, words_ok k → 0 ≤ i < Z.of_nat nw → k !! Z.to_nat i = Some (default 0 (k !! Z.to_nat i))).
  { intros k i Hk Hi. destruct (lookup_lt_is_Some_2 k (Z.to_nat i)) as [x Hx]; [rewrite (wo_len _ Hk); lia|]. by rewrite Hx. }
  set (at_ := λ k i, default 0 ((k : words) !! Z.to_nat i)).
  destruct (no_word_ok cond (λ i, p (at_ l i) (at_ s i)) l) as (b & Hb & Hiff).
  { intros i Hi. by apply Hc; [apply Hat|apply Hat|lia]. }
  exists b. split; [done|]. rewrite Hiff. split.
  - intros Hall n Hn. destruct (word_index n Hn) as [Hi Hi0]. specialize (Hall (n / W) ltac:(lia)).
    unfold has. rewrite (Hat l), (Hat s) by (done || lia). eapply Hp; [..|exact Hall|by apply Z.mod_pos_bound].
    + eapply (wo_range _ Hl), Hat; [done|lia].
    + eapply (wo_range _ Hs), Hat; [done|lia].
  - intros Hall i Hi. apply Hp; [by eapply (wo_range _ Hl), Hat|by eapply (wo_range _ Hs), Hat|].
    intros j Hj. specialize (Hall (W * i + j)). unfold has, size in Hall.
    assert (Hd : (W * i + j) / W = i) by (symmetry; apply Z.div_unique with j; lia).
    assert (Hm : (W * i + j) mod W = j) by (symmetry; apply Z.mod_unique with i; lia).
    rewrite Hd, Hm, (Hat l i Hl Hi), (Hat s i Hs Hi) in Hall. apply Hall. nia.
Qed.

(** ** The set *)

Definition universe : gset Z := list_to_set (seqZ 0 size).
Definition members (l : words) : gset Z := filter (λ n, has l n = true) universe.

Lemma elem_of_universe n : n ∈ universe ↔ 0 ≤ n < size.
Proof. unfold universe. rewrite elem_of_list_to_set, elem_of_seqZ. lia. Qed.

Lemma elem_of_members l n : n ∈ members l ↔ 0 ≤ n < size ∧ has l n = true.
Proof. unfold members. rewrite elem_of_filter, elem_of_universe. tauto. Qed.

Lemma members_bits l X :
  (∀ n, n ∈ X → 0 ≤ n < size) → (∀ n, 0 ≤ n < size → has l n = true ↔ n ∈ X) → members l = X.
Proof. intros HX Hh. apply set_eq. intros n. rewrite elem_of_members. pose proof (HX n). pose proof (Hh n). tauto. Qed.

Lemma members_inj l l' : words_ok l → words_ok l' → members l = members l' → l = l'.
Proof.
  intros Hl Hl' He. apply has_ext; [done|done|]. intros n Hn. apply eq_true_iff_eq.
  assert (n ∈ members l ↔ n ∈ members l') as Hi by by rewrite He. rewrite !elem_of_members in Hi. tauto.
Qed.

(** ** Operations on the set *)

#[local] Opaque members universe.

Lemma lor_range x y : 0 ≤ x < 2 ^ W → 0 ≤ y < 2 ^ W → 0 ≤ Z.lor x y < 2 ^ W.
Proof.
  intros Hx Hy. apply words_range; [|apply Z.lor_nonneg; lia].
  intros i Hi. by rewrite Z.lor_spec, !testbit_high by (done || lia).
Qed.

Lemma land_range x y : 0 ≤ x < 2 ^ W → 0 ≤ y < 2 ^ W → 0 ≤ Z.land x y < 2 ^ W.
Proof.
  intros Hx Hy. apply words_range; [|apply Z.land_nonneg; lia].
  intros i Hi. by rewrite Z.land_spec, !testbit_high by (done || lia).
Qed.

Lemma ones_bit i : 0 ≤ i < W → Z.testbit (2 ^ W - 1) i = true.
Proof. intros Hi. replace (2 ^ W - 1) with (Z.ones W) by (rewrite Z.ones_equiv; lia). apply Z.ones_spec_low. lia. Qed.

Lemma other_word_ok (s : words) i x (l : words) : s !! Z.to_nat i = Some x → other_word s i l = Done x l.
Proof. intros H. unfold other_word. by rewrite H. Qed.

(** [op] on [l] is defined, keeps the format and has the meaning [X]. *)
Definition does (op : C words ()) (l : words) (X : gset Z) : Prop :=
  ∃ l', op l = Done () l' ∧ words_ok l' ∧ members l' = X.

Lemma does_ret l : words_ok l → does (mret ()) l (members l).
Proof. intros Hl. by exists l. Qed.

Lemma does_then op op' l X Y :
  does op l X → (∀ l', words_ok l' → members l' = X → does op' l' Y) → does (op;; op') l Y.
Proof.
  intros (l' & E & Hl' & HX) H. destruct (H l' Hl' HX) as (l'' & E' & Hl'' & HY).
  exists l''. split; [by rewrite (bind_done _ _ _ _ _ E)|done].
Qed.

(** From a membership in set operations to the bits. *)
Ltac in_sets :=
  rewrite ?elem_of_union, ?elem_of_intersection, ?elem_of_difference, ?elem_of_singleton, ?elem_of_members,
    ?elem_of_universe, ?elem_of_empty, ?orb_true_iff, ?andb_true_iff, ?negb_true_iff, ?Z.eqb_eq, ?Z.eqb_neq, <- ?not_true_iff_false.

Lemma set_does l n bit : words_ok l → 0 ≤ n < size → bit = 2 ^ (n mod W) →
  does (w ← get_word (n / W); set_word (n / W) (Z.lor w bit)) l ({[n]} ∪ members l).
Proof.
  intros Hl Hn Hb. destruct (set_bit_ok l n bit Hl Hn Hb) as (l' & E & Hl' & Hh).
  exists l'. split; [done|]. split; [done|]. apply members_bits.
  - intros k. in_sets. intuition (subst; lia).
  - intros k Hk. rewrite Hh by done. in_sets. tauto.
Qed.

Lemma clear_does l n bit : words_ok l → 0 ≤ n < size → bit = 2 ^ (n mod W) →
  does (w ← get_word (n / W); set_word (n / W) (Z.land w (flip W bit))) l (members l ∖ {[n]}).
Proof.
  intros Hl Hn Hb. destruct (clear_bit_ok l n bit Hl Hn Hb) as (l' & E & Hl' & Hh).
  exists l'. split; [done|]. split; [done|]. apply members_bits.
  - intros k. in_sets. tauto.
  - intros k Hk. rewrite Hh by done. in_sets. tauto.
Qed.

Lemma isset_does l n bit : words_ok l → 0 ≤ n < size → bit = 2 ^ (n mod W) →
  (w ← get_word (n / W); mret (negb (Z.land w bit =? 0))) l = Done (bool_decide (n ∈ members l)) l.
Proof.
  intros Hl Hn Hb. rewrite (test_bit_ok l n bit Hl Hn Hb). f_equal.
  apply eq_true_iff_eq. rewrite bool_decide_eq_true, elem_of_members. tauto.
Qed.

(** The loops over all words; [s] is the other set. *)
Section Words.
Context (l s : words).
Hypothesis Hl : words_ok l.
Hypothesis Hs : words_ok s.

(** What the body of such a loop does, as a function of the two words. *)
Definition updates (f : Z → Z → Z) (body : Z → C words ()) : Prop :=
  ∀ i w x l, l !! Z.to_nat i = Some w → s !! Z.to_nat i = Some x → 0 ≤ i →
    body i l = Done () (<[Z.to_nat i := f w x]> l).
Definition checks (p : Z → Z → bool) (cond : Z → C words bool) : Prop :=
  ∀ i w x, l !! Z.to_nat i = Some w → s !! Z.to_nat i = Some x → 0 ≤ i → cond i l = Done (p w x) l.

Lemma op_does f bf body X :
  updates f body →
  (∀ x y, 0 ≤ x < 2 ^ W → 0 ≤ y < 2 ^ W → 0 ≤ f x y < 2 ^ W) →
  (∀ x y i, 0 ≤ x < 2 ^ W → 0 ≤ y < 2 ^ W → 0 ≤ i < W → Z.testbit (f x y) i = bf (Z.testbit x i) (Z.testbit y i)) →
  (∀ n, n ∈ X ↔ 0 ≤ n < size ∧ bf (has l n) (has s n) = true) →
  does (each_word (Z.of_nat nw) body) l X.
Proof.
  intros Hb Hf Hbf HX. destruct (words_op_ok f bf body l s Hl Hs Hf Hbf Hb) as (l' & E & Hl' & Hh).
  exists l'. split; [done|]. split; [done|]. apply members_bits.
  - intros n Hn. by apply HX.
  - intros n Hn. rewrite HX, Hh by done. tauto.
Qed.

Lemma or_does body : updates Z.lor body → does (each_word (Z.of_nat nw) body) l (members l ∪ members s).
Proof.
  intros Hb. apply (op_does Z.lor orb body _ Hb); [intros; by apply lor_range|intros; apply Z.lor_spec|].
  intros n. in_sets. tauto.
Qed.

Lemma and_does body : updates Z.land body → does (each_word (Z.of_nat nw) body) l (members l ∩ members s).
Proof.
  intros Hb. apply (op_does Z.land andb body _ Hb); [intros; by apply land_range|intros; apply Z.land_spec|].
  intros n. in_sets. tauto.
Qed.

Lemma nand_does body :
  updates (λ w x, Z.land w (flip W x)) body → does (each_word (Z.of_nat nw) body) l (members l ∖ members s).
Proof.
  intros Hb. apply (op_does _ (λ a b, a && negb b) body _ Hb).
  - intros. apply land_range; [done|by apply flip_range].
  - intros. by rewrite Z.land_spec, flip_testbit by lia.
  - intros n. in_sets. tauto.
Qed.

Lemma zero_does body : updates (λ _ _, 0) body → does (each_word (Z.of_nat nw) body) l ∅.
Proof.
  intros Hb. apply (op_does _ (λ _ _, false) body _ Hb); [lia|intros; apply Z.bits_0|].
  intros n. rewrite elem_of_empty. split; [done|by intros [_ ?]].
Qed.

Lemma fill_does body : updates (λ _ _, 2 ^ W - 1) body → does (each_word (Z.of_nat nw) body) l universe.
Proof.
  intros Hb. apply (op_does _ (λ _ _, true) body _ Hb); [lia|intros; by apply ones_bit|].
  intros n. rewrite elem_of_universe. tauto.
Qed.

Lemma copy_does body : updates (λ _ x, x) body → does (each_word (Z.of_nat nw) body) l (members s).
Proof. intros Hb. apply (op_does _ (λ _ b, b) body _ Hb); [done|done|]. intros n. by rewrite elem_of_members. Qed.

(** A test [f = g] on words is [bf = bg] on bits. *)
Lemma test_does (f g : Z → Z → Z) (bf bg : bool → bool → bool) cond :
  checks (λ w x, negb (f w x =? g w x)) cond →
  (∀ x y, 0 ≤ x < 2 ^ W → 0 ≤ y < 2 ^ W → 0 ≤ f x y < 2 ^ W ∧ 0 ≤ g x y < 2 ^ W) →
  (∀ x y i, 0 ≤ y < 2 ^ W → 0 ≤ i < W → Z.testbit (f x y) i = bf (Z.testbit x i) (Z.testbit y i)) →
  (∀ x y i, 0 ≤ y < 2 ^ W → 0 ≤ i < W → Z.testbit (g x y) i = bg (Z.testbit x i) (Z.testbit y i)) →
  ∃ b, no_word (Z.of_nat nw) cond l = Done b l ∧
    (b = true ↔ ∀ n, 0 ≤ n < size → bf (has l n) (has s n) = bg (has l n) (has s n)).
Proof.
  intros Hc Hr Hf Hg.
  destruct (words_test_ok (λ w x, negb (f w x =? g w x)) (λ a b, Bool.eqb (bf a b) (bg a b)) cond l s Hl Hs) as (b & Hb & Hiff); [|done|].
  - intros x y Hx Hy. destruct (Hr x y Hx Hy) as [Hfr Hgr]. rewrite negb_false_iff, Z.eqb_eq. split.
    + intros He i Hi. by rewrite <- Hf, <- Hg, He, eqb_reflx by done.
    + intros Hq. apply Z.bits_inj'. intros i Hi. destruct (decide (i < W)).
      * rewrite Hf, Hg by (done || lia). apply eqb_prop. by apply Hq.
      * by rewrite !testbit_high by (done || lia).
  - exists b. split; [done|]. rewrite Hiff. split; intros H n Hn; specialize (H n Hn).
    + by apply eqb_prop.
    + by rewrite H, eqb_reflx.
Qed.

Lemma empty_does cond : checks (λ w _, negb (w =? 0)) cond →
  no_word (Z.of_nat nw) cond l = Done (bool_decide (members l = ∅)) l.
Proof.
  intros Hc. destruct (test_does (λ w _, w) (λ _ _, 0) (λ a _, a) (λ _ _, false) cond Hc) as (b & Hb & Hiff);
    [lia|done|intros; apply Z.bits_0|].
  rewrite Hb. f_equal. apply eq_true_iff_eq. rewrite Hiff, bool_decide_eq_true. split.
  - intros H. apply set_eq. intros n. rewrite elem_of_members, elem_of_empty. split; [|done].
    intros [Hn Hh]. by rewrite H in Hh.
  - intros H n Hn. apply not_true_iff_false. intros Hh. apply (not_elem_of_empty (C := gset Z) n).
    rewrite <- H. by apply elem_of_members.
Qed.

Lemma full_does cond : checks (λ w _, negb (w =? 2 ^ W - 1)) cond →
  no_word (Z.of_nat nw) cond l = Done (bool_decide (members l = universe)) l.
Proof.
  intros Hc. destruct (test_does (λ w _, w) (λ _ _, 2 ^ W - 1) (λ a _, a) (λ _ _, true) cond Hc) as (b & Hb & Hiff);
    [lia|done|intros; by apply ones_bit|].
  rewrite Hb. f_equal. apply eq_true_iff_eq. rewrite Hiff, bool_decide_eq_true. split.
  - intros H. apply set_eq. intros n. rewrite elem_of_members, elem_of_universe. split; [by intros []|].
    intros Hn. split; [done|by apply H].
  - intros H n Hn. eapply elem_of_members. rewrite H. by apply elem_of_universe.
Qed.

Lemma subset_does cond : checks (λ w x, negb (Z.land x w =? x)) cond →
  no_word (Z.of_nat nw) cond l = Done (bool_decide (members s ⊆ members l)) l.
Proof.
  intros Hc. destruct (test_does (λ w x, Z.land x w) (λ _ x, x) (λ a b, b && a) (λ _ b, b) cond Hc) as (b & Hb & Hiff);
    [intros; split; [by apply land_range|done]|intros; apply Z.land_spec|done|].
  rewrite Hb. f_equal. apply eq_true_iff_eq. rewrite Hiff, bool_decide_eq_true. split.
  - intros H n. rewrite !elem_of_members. intros [Hn Hh]. specialize (H n Hn). rewrite Hh in H. by split.
  - intros H n Hn. destruct (has s n) eqn:Hh; [|done]. simpl. eapply elem_of_members, H. by apply elem_of_members.
Qed.

(** The other way round, with the complement. *)
Lemma masked_does cond : checks (λ w x, negb (Z.land w (flip W x) =? 0)) cond →
  no_word (Z.of_nat nw) cond l = Done (bool_decide (members l ⊆ members s)) l.
Proof.
  intros Hc. destruct (test_does (λ w x, Z.land w (flip W x)) (λ _ _, 0) (λ a b, a && negb b) (λ _ _, false) cond Hc) as (b & Hb & Hiff);
    [intros; split; [apply land_range; [done|by apply flip_range]|lia]|intros; by rewrite Z.land_spec, flip_testbit by lia|intros; apply Z.bits_0|].
  rewrite Hb. f_equal. apply eq_true_iff_eq. rewrite Hiff, bool_decide_eq_true. split.
  - intros H n. rewrite !elem_of_members. intros [Hn Hh]. specialize (H n Hn). rewrite Hh in H. split; [done|]. by destruct (has s n).
  - intros H n Hn. destruct (has l n) eqn:Hh; [|done]. simpl. apply negb_false_iff. eapply elem_of_members, H. by apply elem_of_members.
Qed.

Lemma overlap_does cond : checks (λ w x, negb (Z.land x w =? 0)) cond →
  no_word (Z.of_nat nw) cond l = Done (bool_decide (members l ∩ members s = ∅)) l.
Proof.
  intros Hc. destruct (test_does (λ w x, Z.land x w) (λ _ _, 0) (λ a b, b && a) (λ _ _, false) cond Hc) as (b & Hb & Hiff);
    [intros; split; [by apply land_range|lia]|intros; apply Z.land_spec|intros; apply Z.bits_0|].
  rewrite Hb. f_equal. apply eq_true_iff_eq. rewrite Hiff, bool_decide_eq_true. split.
  - intros H. apply set_eq. intros n. rewrite elem_of_intersection, !elem_of_members, elem_of_empty. split; [|done].
    intros [[Hn K1] [_ K2]]. specialize (H n Hn). by rewrite K1, K2 in H.
  - intros H n Hn. apply not_true_iff_false. intros [K1 K2]%andb_true_iff. apply (not_elem_of_empty (C := gset Z) n).
    rewrite <- H. by apply elem_of_intersection; split; apply elem_of_members.
Qed.

Lemma equal_does cond : checks (λ w x, negb (x =? w)) cond →
  no_word (Z.of_nat nw) cond l = Done (bool_decide (members l = members s)) l.
Proof.
  intros Hc. destruct (test_does (λ _ x, x) (λ w _, w) (λ _ b, b) (λ a _, a) cond Hc) as (b & Hb & Hiff); [done|done|done|].
  rewrite Hb. f_equal. apply eq_true_iff_eq. rewrite Hiff, bool_decide_eq_true. split.
  - intros H. apply set_eq. intros n. rewrite !elem_of_members. split; intros [Hn K]; (split; [done|]); specialize (H n Hn); congruence.
  - intros H n Hn. apply eq_true_iff_eq.
    assert (n ∈ members l ↔ n ∈ members s) as Hi by by rewrite H. rewrite !elem_of_members in Hi. tauto.
Qed.
End Words.

(** A single word of a set that was empty. *)
Lemma setof_does l n bit : words_ok l → members l = ∅ → 0 ≤ n < size → bit = 2 ^ (n mod W) →
  does (set_word (n / W) bit) l {[n]}.
Proof.
  intros Hl Hz Hn Hb. destruct (set_does l n bit Hl Hn Hb) as (l' & E & Hl' & HX).
  rewrite Hz, union_empty_r_L in HX. exists l'. split; [|done].
  destruct (word_at l n Hl Hn) as (w & Hw & _). destruct (word_index n Hn) as [_ Hi0].
  rewrite (bind_done _ _ _ _ _ (get_word_ok _ _ _ Hi0 Hw)) in E.
  assert (w = 0) as ->; [|exact E]. apply (word_zero l (Z.to_nat (n / W)) w Hl Hw).
  intros m Hm _. apply not_true_iff_false. intros Hh. apply (not_elem_of_empty (C := gset Z) m). rewrite <- Hz. by apply elem_of_members.
Qed.

End BitSet.

(** The bodies of the loops run on words that exist. *)
Ltac word_body :=
  intros ?; intros; simplify_eq;
  repeat (erewrite bind_done; [|first [by apply other_word_ok | by apply get_word_ok]]);
  first [ by eapply set_word_ok | reflexivity ].
