(* ===== verification/CpuSet.v ===== *)
(** * CPU sets and descriptor sets

    include/sys/_cpuset.h and include/sys/cpuset.h: sets of up to 128 CPUs in
    two 64-bit words; include/sys/select.h: sets of up to 1024 descriptors in
    sixteen. *)

From S2P Require Import Prelude.
From S2P Require Import BitSet.

Definition howmany (x y : Z) : Z := (x + (y - 1)) / y.

(** ** cpuset_t *)

Definition CPU_MAXSIZE : Z := 128.
Definition CPU_SETSIZE : Z := CPU_MAXSIZE.
Definition _NCPUBITS : Z := 8 * 8.
Definition _NCPUWORDS : Z := howmany CPU_SETSIZE _NCPUBITS.

Definition cpuset_mask (n : Z) : Z := u64 (Z.shiftl 1 (n mod _NCPUBITS)).

Definition CPU_CLR (n : Z) : C words () :=
  w ← get_word (n / _NCPUBITS);
  set_word (n / _NCPUBITS) (Z.land w (flip 64 (cpuset_mask n))).

Definition CPU_COPY (f : words) : C words () := putS f.

Definition CPU_ISSET (n : Z) : C words bool :=
  w ← get_word (n / _NCPUBITS);
  mret (negb (Z.land w (cpuset_mask n) =? 0)).

Definition CPU_SET (n : Z) : C words () :=
  w ← get_word (n / _NCPUBITS);
  set_word (n / _NCPUBITS) (Z.lor w (cpuset_mask n)).

Definition CPU_ZERO : C words () := each_word _NCPUWORDS (λ i, set_word i 0).

Definition CPU_FILL : C words () := each_word _NCPUWORDS (λ i, set_word i (u64 (-1))).

Definition CPU_SETOF (n : Z) : C words () :=
  CPU_ZERO;;
  set_word (n / _NCPUBITS) (cpuset_mask n).

Definition CPU_EMPTY : C words bool :=
  no_word _NCPUWORDS (λ i, w ← get_word i; mret (negb (w =? 0))).

Definition CPU_ISFULLSET : C words bool :=
  no_word _NCPUWORDS (λ i, w ← get_word i; mret (negb (w =? u64 (-1)))).

(** Is [c] a subset of the set [p] in the state? *)
Definition CPU_SUBSET (c : words) : C words bool :=
  no_word _NCPUWORDS (λ i, x ← other_word c i; w ← get_word i; mret (negb (Z.land x w =? x))).

Definition CPU_OVERLAP (c : words) : C words bool :=
  b ← no_word _NCPUWORDS (λ i, x ← other_word c i; w ← get_word i; mret (negb (Z.land x w =? 0)));
  mret (negb b).

(** 0 if equal, 1 otherwise *)
Definition CPU_CMP (c : words) : C words bool :=
  b ← no_word _NCPUWORDS (λ i, x ← other_word c i; w ← get_word i; mret (negb (x =? w)));
  mret (negb b).

Definition CPU_OR (s : words) : C words () :=
  each_word _NCPUWORDS (λ i, w ← get_word i; x ← other_word s i; set_word i (Z.lor w x)).
Definition CPU_AND (s : words) : C words () :=
  each_word _NCPUWORDS (λ i, w ← get_word i; x ← other_word s i; set_word i (Z.land w x)).
Definition CPU_NAND (s : words) : C words () :=
  each_word _NCPUWORDS (λ i, w ← get_word i; x ← other_word s i; set_word i (Z.land w (flip 64 x))).

(** The atomic variants, each word in one access. *)
Definition atomic_set_long (i v : Z) : C words () := w ← get_word i; set_word i (Z.lor w v).
Definition atomic_clear_long (i v : Z) : C words () := w ← get_word i; set_word i (Z.land w (flip 64 v)).
Definition atomic_store_rel_long (i v : Z) : C words () := set_word i v.

Definition CPU_CLR_ATOMIC (n : Z) : C words () := atomic_clear_long (n / _NCPUBITS) (cpuset_mask n).
Definition CPU_SET_ATOMIC (n : Z) : C words () := atomic_set_long (n / _NCPUBITS) (cpuset_mask n).
Definition CPU_OR_ATOMIC (s : words) : C words () :=
  each_word _NCPUWORDS (λ i, x ← other_word s i; atomic_set_long i x).
Definition CPU_COPY_STORE_REL (f : words) : C words () :=
  each_word _NCPUWORDS (λ i, x ← other_word f i; atomic_store_rel_long i x).

(** ** fd_set *)

Definition FD_SETSIZE : Z := 1024.
Definition _NFDBITS : Z := 8 * 8.

Definition fdset_mask (n : Z) : Z := u64 (Z.shiftl 1 (n mod _NFDBITS)).

Definition FD_CLR (n : Z) : C words () :=
  w ← get_word (n / _NFDBITS);
  set_word (n / _NFDBITS) (Z.land w (flip 64 (fdset_mask n))).
Definition FD_COPY (f : words) : C words () := putS f.
Definition FD_ISSET (n : Z) : C words bool :=
  w ← get_word (n / _NFDBITS);
  mret (negb (Z.land w (fdset_mask n) =? 0)).
Definition FD_SET (n : Z) : C words () :=
  w ← get_word (n / _NFDBITS);
  set_word (n / _NFDBITS) (Z.lor w (fdset_mask n)).
(** The loop runs from the last word to the first. *)
Definition FD_ZERO : C words () :=
  for_range 0 (howmany FD_SETSIZE _NFDBITS) () (λ i _,
    set_word (howmany FD_SETSIZE _NFDBITS - 1 - i) 0;; mret (inl () : () + ()));; mret ().

(** ** What they do *)

#[local] Opaque members universe.

Abbreviation cpus_ok := (words_ok 64 2).
Abbreviation cpus := (members 64 2).
Abbreviation fds_ok := (words_ok 64 16).
Abbreviation fds := (members 64 16).

(** The calls that change a set [p], and what they mean. *)
Inductive cpu_op :=
  | OpZero | OpFill | OpSetof (n : Z) | OpSet (n : Z) | OpClr (n : Z) | OpCopy (f : words)
  | OpOr (s : words) | OpAnd (s : words) | OpNand (s : words)
  | OpSetAtomic (n : Z) | OpClrAtomic (n : Z) | OpOrAtomic (s : words) | OpCopyStoreRel (f : words).

Definition run_cpu_op (op : cpu_op) : C words () :=
  match op with
  | OpZero => CPU_ZERO | OpFill => CPU_FILL | OpSetof n => CPU_SETOF n
  | OpSet n => CPU_SET n | OpClr n => CPU_CLR n | OpCopy f => CPU_COPY f
  | OpOr s => CPU_OR s | OpAnd s => CPU_AND s | OpNand s => CPU_NAND s
  | OpSetAtomic n => CPU_SET_ATOMIC n | OpClrAtomic n => CPU_CLR_ATOMIC n
  | OpOrAtomic s => CPU_OR_ATOMIC s | OpCopyStoreRel f => CPU_COPY_STORE_REL f
  end.

Definition cpu_op_spec (op : cpu_op) (X : gset Z) : gset Z :=
  match op with
  | OpZero => ∅ | OpFill => universe 64 2 | OpSetof n => {[n]}
  | OpSet n | OpSetAtomic n => {[n]} ∪ X | OpClr n | OpClrAtomic n => X ∖ {[n]}
  | OpCopy f | OpCopyStoreRel f => cpus f
  | OpOr s | OpOrAtomic s => X ∪ cpus s | OpAnd s => X ∩ cpus s | OpNand s => X ∖ cpus s
  end.

Definition cpu_op_ok (op : cpu_op) : Prop :=
  match op with
  | OpZero | OpFill => True
  | OpSetof n | OpSet n | OpClr n | OpSetAtomic n | OpClrAtomic n => 0 ≤ n < CPU_SETSIZE
  | OpCopy s | OpOr s | OpAnd s | OpNand s | OpOrAtomic s | OpCopyStoreRel s => cpus_ok s
  end.

(** Operations one after the other. *)
Fixpoint run_cpu_ops (ops : list cpu_op) : C words () :=
  match ops with [] => mret () | op :: ops => run_cpu_op op;; run_cpu_ops ops end.

Lemma mask_is n : u64 (Z.shiftl 1 (n mod 64)) = 2 ^ (n mod 64).
Proof.
  pose proof (Z.mod_pos_bound n 64 ltac:(lia)). rewrite Z.shiftl_1_l. unfold u64.
  apply Z.mod_small. split; [lia|]. apply Z.pow_lt_mono_r; lia.
Qed.

Lemma setsize_is : size 64 2 = CPU_SETSIZE ∧ size 64 16 = FD_SETSIZE.
Proof. done. Qed.

Lemma cpu_op_does op l : cpus_ok l → cpu_op_ok op → does 64 2 (run_cpu_op op) l (cpu_op_spec op (cpus l)).
Proof.
  intros Hl Hop. destruct op; cbn [run_cpu_op cpu_op_spec cpu_op_ok] in *.
  - apply (zero_does 64 2 ltac:(lia) l l Hl Hl). word_body.
  - apply (fill_does 64 2 ltac:(lia) l l Hl Hl). word_body.
  - apply (does_then 64 2 _ _ _ ∅); [apply (zero_does 64 2 ltac:(lia) l l Hl Hl); word_body|].
    intros k Hk Hz. exact (setof_does 64 2 ltac:(lia) k n _ Hk Hz Hop (mask_is n)).
  - exact (set_does 64 2 ltac:(lia) l n _ Hl Hop (mask_is n)).
  - exact (clear_does 64 2 ltac:(lia) l n _ Hl Hop (mask_is n)).
  - by exists f.
  - apply or_does; [lia|done|done|word_body].
  - apply and_does; [lia|done|done|word_body].
  - apply nand_does; [lia|done|done|word_body].
  - exact (set_does 64 2 ltac:(lia) l n _ Hl Hop (mask_is n)).
  - exact (clear_does 64 2 ltac:(lia) l n _ Hl Hop (mask_is n)).
  - apply or_does; [lia|done|done|]. unfold atomic_set_long. word_body.
  - apply (copy_does 64 2 ltac:(lia) l f Hl Hop). unfold atomic_store_rel_long. word_body.
Qed.

(** C31. The operations of cpuset.h, in any order and number, the atomic ones
    among them, are the set operations: with CPUs in range and sets of two
    words they are defined, keep the two words well formed, and the CPUs in the
    set are those of the mathematical set that zeroing, filling, inserting,
    removing, copying, union, intersection and difference give. *)
Theorem cpuset_refines_set ops l :
  cpus_ok l → Forall cpu_op_ok ops →
  does 64 2 (run_cpu_ops ops) l (foldl (λ X op, cpu_op_spec op X) (cpus l) ops).
Proof.
  intros Hl Hops. revert l Hl. induction Hops as [|op ops Hop _ IH]; intros l Hl; simpl; [exists l; split; [reflexivity|split; [exact Hl|reflexivity]]|].
  apply (does_then 64 2 _ _ _ _ _ (cpu_op_does op l Hl Hop)). intros l' Hl' <-. by apply IH.
Qed.

Lemma zero_words_ok : cpus_ok [0; 0].
Proof. split; [done|]. intros i w Hi. destruct i as [|[|i]]; simplify_eq/=; lia. Qed.

Lemma cpus_zero : cpus [0; 0] = ∅.
Proof.
  apply members_bits; [intros n; by rewrite elem_of_empty|]. intros n Hn. rewrite elem_of_empty. unfold has.
  destruct (Z.to_nat (n / 64)) as [|[|k]]; simpl; by rewrite ?Z.bits_0.
Qed.

Lemma cpuset_refines_set_witness :
  does 64 2 (run_cpu_ops [OpFill; OpClr 63; OpSetof 64; OpSet 127; OpOr [0; 0]; OpClrAtomic 64]) [0; 0] ({[127]}).
Proof.
  assert (E : foldl (λ X op, cpu_op_spec op X) (cpus [0; 0]) [OpFill; OpClr 63; OpSetof 64; OpSet 127; OpOr [0; 0]; OpClrAtomic 64] = {[127]}).
  { simpl. rewrite cpus_zero. set_solver by lia. }
  rewrite <- E. apply cpuset_refines_set; [exact zero_words_ok|].
  repeat first [apply Forall_cons_2 | apply Forall_nil_2]; simpl; try (exact zero_words_ok); unfold CPU_SETSIZE, CPU_MAXSIZE; try lia; exact I.
Defined.

(** The tests of cpuset.h answer what their comments say: membership,
    emptiness, fullness, "is c a subset of p", "are there any common bits" and
    "0 if equal 1 otherwise", and leave the sets alone. *)
Theorem cpuset_tests l c n :
  cpus_ok l → cpus_ok c → 0 ≤ n < CPU_SETSIZE →
  CPU_ISSET n l = Done (bool_decide (n ∈ cpus l)) l ∧
  CPU_EMPTY l = Done (bool_decide (cpus l = ∅)) l ∧
  CPU_ISFULLSET l = Done (bool_decide (cpus l = universe 64 2)) l ∧
  CPU_SUBSET c l = Done (bool_decide (cpus c ⊆ cpus l)) l ∧
  CPU_OVERLAP c l = Done (bool_decide (cpus l ∩ cpus c ≠ ∅)) l ∧
  CPU_CMP c l = Done (bool_decide (cpus l ≠ cpus c)) l.
Proof.
  intros Hl Hc Hn. split; [|split; [|split; [|split; [|split]]]].
  - exact (isset_does 64 2 ltac:(lia) l n _ Hl Hn (mask_is n)).
  - apply (empty_does 64 2 ltac:(lia) l l Hl Hl). word_body.
  - apply (full_does 64 2 ltac:(lia) l l Hl Hl). word_body.
  - apply (subset_does 64 2 ltac:(lia) l c Hl Hc). word_body.
  - unfold CPU_OVERLAP. erewrite bind_done; [|apply (overlap_does 64 2 ltac:(lia) l c Hl Hc); word_body].
    by rewrite bool_decide_not.
  - unfold CPU_CMP. erewrite bind_done; [|apply (equal_does 64 2 ltac:(lia) l c Hl Hc); word_body].
    by rewrite bool_decide_not.
Qed.

Lemma cpuset_tests_witness : CPU_EMPTY [0; 0] = Done true [0; 0].
Proof. destruct (cpuset_tests [0; 0] [0; 0] 5 zero_words_ok zero_words_ok ltac:(unfold CPU_SETSIZE, CPU_MAXSIZE; lia)) as (_ & H & _). exact H. Defined.

(** ** Descriptor sets *)

Inductive fd_op := FdZero | FdSet (n : Z) | FdClr (n : Z) | FdCopy (f : words).

Definition run_fd_op (op : fd_op) : C words () :=
  match op with FdZero => FD_ZERO | FdSet n => FD_SET n | FdClr n => FD_CLR n | FdCopy f => FD_COPY f end.
Definition fd_op_spec (op : fd_op) (X : gset Z) : gset Z :=
  match op with FdZero => ∅ | FdSet n => {[n]} ∪ X | FdClr n => X ∖ {[n]} | FdCopy f => fds f end.
Definition fd_op_ok (op : fd_op) : Prop :=
  match op with FdZero => True | FdSet n | FdClr n => 0 ≤ n < FD_SETSIZE | FdCopy f => fds_ok f end.
Fixpoint run_fd_ops (ops : list fd_op) : C words () :=
  match ops with [] => mret () | op :: ops => run_fd_op op;; run_fd_ops ops end.

Lemma fd_zero_does l : fds_ok l → does 64 16 FD_ZERO l ∅.
Proof.
  intros Hl. pose proof (wo_len _ _ _ Hl) as Hlen. exists (replicate 16 0). split; [|split].
  - do 16 (destruct l as [|? l]; [discriminate|]). destruct l; [|discriminate]. reflexivity.
  - split; [done|]. intros i w [-> _]%lookup_replicate. lia.
  - apply members_bits; [intros n; by rewrite elem_of_empty|]. intros n Hn. rewrite elem_of_empty. unfold has.
    destruct (replicate 16 0 !! _) as [w|] eqn:E; [|done]. apply lookup_replicate in E as [-> _]. by rewrite Z.bits_0.
Qed.

Lemma fd_op_does op l : fds_ok l → fd_op_ok op → does 64 16 (run_fd_op op) l (fd_op_spec op (fds l)).
Proof.
  intros Hl Hop. destruct op; cbn [run_fd_op fd_op_spec fd_op_ok] in *.
  - by apply fd_zero_does.
  - exact (set_does 64 16 ltac:(lia) l n _ Hl Hop (mask_is n)).
  - exact (clear_does 64 16 ltac:(lia) l n _ Hl Hop (mask_is n)).
  - by exists f.
Qed.

(** FD_ZERO, FD_SET, FD_CLR and FD_COPY with descriptors below FD_SETSIZE, in
    any order and number, give the set that the set operations give, and
    FD_ISSET tells the descriptors in it from the others. *)
Theorem fd_set_refines_set ops l n :
  fds_ok l → Forall fd_op_ok ops → 0 ≤ n < FD_SETSIZE →
  ∃ l', run_fd_ops ops l = Done () l' ∧
    FD_ISSET n l' = Done (bool_decide (n ∈ foldl (λ X op, fd_op_spec op X) (fds l) ops)) l'.
Proof.
  intros Hl Hops Hn.
  assert (does 64 16 (run_fd_ops ops) l (foldl (λ X op, fd_op_spec op X) (fds l) ops)) as (l' & E & Hl' & <-).
  { revert l Hl. induction Hops as [|op ops Hop _ IH]; intros l Hl; [exists l; split; [reflexivity|split; [exact Hl|reflexivity]]|].
    apply (does_then 64 16 _ _ _ _ _ (fd_op_does op l Hl Hop)). intros k Hk HX. cbn [foldl]. rewrite <- HX. by apply IH. }
  exists l'. split; [done|]. exact (isset_does 64 16 ltac:(lia) l' n _ Hl' Hn (mask_is n)).
Qed.

Lemma fd_set_refines_set_witness :
  ∃ l', run_fd_ops [FdZero; FdSet 1023; FdSet 3; FdClr 1023] (replicate 16 7) = Done () l' ∧
    FD_ISSET 1023 l' = Done (bool_decide (1023 ∈ foldl (λ X op, fd_op_spec op X) (fds (replicate 16 7)) [FdZero; FdSet 1023; FdSet 3; FdClr 1023])) l'.
Proof.
  apply fd_set_refines_set.
  - split; [done|]. intros i w [-> _]%lookup_replicate. lia.
  - repeat first [apply Forall_cons_2 | apply Forall_nil_2]; simpl; unfold FD_SETSIZE; try lia; exact I.
  - unfold FD_SETSIZE. lia.
Defined.
