(* ===== verification/SigSet.v ===== *)
(** * Signal sets

    include/sys/_sigset.h and the signal set macros and functions of
    include/sys/signalvar.h: sets of the signals 1 to 128 in four 32-bit
    words, signal 1 in bit 0. *)

From S2P Require Import Prelude.
From S2P Require Import BitSet.

Definition _SIG_WORDS : Z := 4.
Definition _SIG_MAXSIG : Z := 128.
Definition _SIG_IDX (sig : Z) : Z := sig - 1.
Definition _SIG_WORD (sig : Z) : Z := Z.shiftr (_SIG_IDX sig) 5.
Definition _SIG_BIT (sig : Z) : Z := u32 (Z.shiftl 1 (Z.land (_SIG_IDX sig) 31)).
Definition _SIG_VALID (sig : Z) : bool := (sig <=? _SIG_MAXSIG) && (0 <? sig).

Definition SIGKILL : Z := 9.
Definition SIGSTOP : Z := 17.
Definition SIGTSTP : Z := 18.
Definition SIGCONT : Z := 19.
Definition SIGTTIN : Z := 21.
Definition SIGTTOU : Z := 22.

Definition SIGADDSET (signo : Z) : C words () :=
  w ← get_word (_SIG_WORD signo);
  set_word (_SIG_WORD signo) (Z.lor w (_SIG_BIT signo)).

Definition SIGDELSET (signo : Z) : C words () :=
  w ← get_word (_SIG_WORD signo);
  set_word (_SIG_WORD signo) (Z.land w (flip 32 (_SIG_BIT signo))).

Definition SIGEMPTYSET : C words () := each_word _SIG_WORDS (λ i, set_word i 0).
Definition SIGFILLSET : C words () := each_word _SIG_WORDS (λ i, set_word i (flip 32 0)).

Definition SIGISMEMBER (signo : Z) : C words Z :=
  w ← get_word (_SIG_WORD signo);
  mret (Z.land w (_SIG_BIT signo)).

(** The functions that loop over the words return from inside the loop: 1 if
    it runs to its end. *)
Definition __sigisempty : C words Z :=
  b ← no_word _SIG_WORDS (λ i, w ← get_word i; mret (negb (w =? 0)));
  mret (if b : bool then 1 else 0).
Definition __sigseteq (set2 : words) : C words Z :=
  b ← no_word _SIG_WORDS (λ i, w ← get_word i; x ← other_word set2 i; mret (negb (w =? x)));
  mret (if b : bool then 1 else 0).
Definition sigsetmasked (mask : words) : C words Z :=
  b ← no_word _SIG_WORDS (λ i, w ← get_word i; x ← other_word mask i; mret (negb (Z.land w (flip 32 x) =? 0)));
  mret (if b : bool then 1 else 0).

Definition SIGISEMPTY : C words Z := __sigisempty.
Definition SIGNOTEMPTY : C words Z := r ← __sigisempty; mret (if c_true r then 0 else 1).
Definition SIGSETEQ (set2 : words) : C words Z := __sigseteq set2.
Definition SIGSETNEQ (set2 : words) : C words Z := r ← __sigseteq set2; mret (if c_true r then 0 else 1).

Definition SIGSETOR (set2 : words) : C words () :=
  each_word _SIG_WORDS (λ i, w ← get_word i; x ← other_word set2 i; set_word i (Z.lor w x)).
Definition SIGSETAND (set2 : words) : C words () :=
  each_word _SIG_WORDS (λ i, w ← get_word i; x ← other_word set2 i; set_word i (Z.land w x)).
Definition SIGSETNAND (set2 : words) : C words () :=
  each_word _SIG_WORDS (λ i, w ← get_word i; x ← other_word set2 i; set_word i (Z.land w (flip 32 x))).

Definition SIGSETLO (set2 : words) : C words () := x ← other_word set2 0; set_word 0 x.
Definition SIGSETOLD (oset : Z) : C words () := set_word 0 oset.

Definition SIG_CANTMASK : C words () := SIGDELSET SIGKILL;; SIGDELSET SIGSTOP.
Definition SIG_STOPSIGMASK : C words () :=
  SIGDELSET SIGSTOP;; SIGDELSET SIGTSTP;; SIGDELSET SIGTTIN;; SIGDELSET SIGTTOU.
Definition SIG_CONTSIGMASK : C words () := SIGDELSET SIGCONT.

Definition SIG2OSIG : C words Z := get_word 0.
Definition OSIG2SIG (osig : Z) : C words () := SIGEMPTYSET;; set_word 0 osig.

(** [SIGPENDING(td)]: the pending signals of the thread and of its process,
    against the mask of the thread. *)
Record thread := Thread { td_siglist : words; td_sigmask : words; p_siglist : words }.

Definition unmasked_pending (list mask : words) : outcome words bool :=
  (e ← SIGISEMPTY; if c_true e then mret false else r ← sigsetmasked mask; mret (negb (c_true r))) list.

Definition SIGPENDING (td : thread) : option bool :=
  match unmasked_pending td.(td_siglist) td.(td_sigmask) with
  | Done true _ => Some true
  | Done false _ =>
      match unmasked_pending td.(p_siglist) td.(td_sigmask) with Done b _ => Some b | _ => None end
  | _ => None
  end.

(** ** What they do *)

Abbreviation sigset_ok := (words_ok 32 4).

Definition signals (l : words) : gset Z :=
  filter (λ n, n - 1 ∈ members 32 4 l) (list_to_set (seqZ 1 128)).

Lemma elem_of_signals l n : n ∈ signals l ↔ 1 ≤ n ≤ 128 ∧ n - 1 ∈ members 32 4 l.
Proof. unfold signals. rewrite elem_of_filter, elem_of_list_to_set, elem_of_seqZ. intuition lia. Qed.

#[local] Opaque signals members universe.

Lemma in_words n : 1 ≤ n ≤ 128 → 0 ≤ n - 1 < size 32 4.
Proof. unfold size. simpl. lia. Qed.

Lemma sig_word n : _SIG_WORD n = (n - 1) / 32.
Proof. unfold _SIG_WORD, _SIG_IDX. by rewrite Z.shiftr_div_pow2 by lia. Qed.

Lemma sig_bit n : _SIG_BIT n = 2 ^ ((n - 1) mod 32).
Proof.
  unfold _SIG_BIT, _SIG_IDX. change 31 with (Z.ones 5). rewrite Z.land_ones by lia. change (2 ^ 5) with 32.
  pose proof (Z.mod_pos_bound (n - 1) 32 ltac:(lia)). rewrite Z.shiftl_1_l. unfold u32.
  apply Z.mod_small. split; [lia|]. apply Z.pow_lt_mono_r; lia.
Qed.

Lemma members_signals l i : i ∈ members 32 4 l ↔ 0 ≤ i < 128 ∧ i + 1 ∈ signals l.
Proof.
  rewrite elem_of_signals. replace (i + 1 - 1) with i by lia. split; [|tauto]. intros H. split; [|split; [|done]];
    apply elem_of_members in H as [H _]; unfold size in H; simpl in H; lia.
Qed.

Lemma signals_are l X : (∀ n, n ∈ X ↔ 1 ≤ n ≤ 128 ∧ n - 1 ∈ members 32 4 l) → signals l = X.
Proof. intros H. apply set_eq. intros n. by rewrite elem_of_signals, H. Qed.

(** [op] is defined on [l], keeps the format and leaves the signals [X]. *)
Definition makes (op : C words ()) (l : words) (X : gset Z) : Prop :=
  ∃ l', op l = Done () l' ∧ sigset_ok l' ∧ signals l' = X.

Lemma makes_does op l X Y :
  does 32 4 op l Y → (∀ n, n ∈ X ↔ 1 ≤ n ≤ 128 ∧ n - 1 ∈ Y) → makes op l X.
Proof.
  intros (l' & E & Hl' & HY) HX. exists l'. split; [done|]. split; [done|]. apply signals_are. intros n. by rewrite HX, HY.
Qed.

Lemma makes_then op op' l X Y :
  makes op l X → (∀ l', sigset_ok l' → signals l' = X → makes op' l' Y) → makes (op;; op') l Y.
Proof.
  intros (l' & E & Hl' & HX) H. destruct (H l' Hl' HX) as (l'' & E' & Hl'' & HY).
  exists l''. rewrite (bind_done _ _ _ _ _ E). exact (conj E' (conj Hl'' HY)).
Qed.

Lemma SIGADDSET_makes l n : sigset_ok l → 1 ≤ n ≤ 128 → makes (SIGADDSET n) l ({[n]} ∪ signals l).
Proof.
  intros Hl Hn. eapply makes_does.
  - unfold SIGADDSET. rewrite sig_word. apply (set_does 32 4 ltac:(lia) l (n - 1) _ Hl (in_words n Hn) (sig_bit n)).
  - intros k. rewrite elem_of_union, elem_of_union, elem_of_singleton, elem_of_singleton, elem_of_signals.
    generalize (k - 1 ∈ members 32 4 l). intuition lia.
Qed.

Lemma SIGDELSET_makes l n : sigset_ok l → 1 ≤ n ≤ 128 → makes (SIGDELSET n) l (signals l ∖ {[n]}).
Proof.
  intros Hl Hn. eapply makes_does.
  - unfold SIGDELSET. rewrite sig_word. apply (clear_does 32 4 ltac:(lia) l (n - 1) _ Hl (in_words n Hn) (sig_bit n)).
  - intros k. rewrite elem_of_difference, elem_of_difference, elem_of_singleton, elem_of_singleton, elem_of_signals.
    generalize (k - 1 ∈ members 32 4 l). intuition lia.
Qed.

(** Clearing signals one after the other. *)
Lemma del_then l n op X :
  sigset_ok l → 1 ≤ n ≤ 128 →
  (∀ l', sigset_ok l' → signals l' = signals l ∖ {[n]} → makes op l' X) → makes (SIGDELSET n;; op) l X.
Proof. intros Hl Hn H. by apply (makes_then _ _ _ _ _ (SIGDELSET_makes l n Hl Hn)). Qed.

Lemma SIGEMPTYSET_makes l : sigset_ok l → makes SIGEMPTYSET l ∅.
Proof.
  intros Hl. eapply makes_does; [apply (zero_does 32 4 ltac:(lia) l l Hl Hl); word_body|].
  intros n. rewrite !elem_of_empty. tauto.
Qed.

(** The first word written as a whole. *)
Lemma first_word_makes l w : sigset_ok l → 0 ≤ w < 2 ^ 32 →
  ∃ l', set_word 0 w l = Done () l' ∧ sigset_ok l' ∧
    ∀ n, n ∈ signals l' ↔ if bool_decide (1 ≤ n ≤ 32) then Z.testbit w (n - 1) = true else n ∈ signals l.
Proof.
  intros Hl Hw. destruct (lookup_lt_is_Some_2 l 0) as [w0 H0]; [rewrite (wo_len _ _ _ Hl); lia|].
  exists (<[0%nat := w]> l). split; [by apply (set_word_ok l 0 w w0)|]. split; [by apply words_insert|].
  intros n. rewrite elem_of_signals, elem_of_members. change 0%nat with (Z.to_nat (0 / 32)).
  destruct (decide (1 ≤ n ≤ 32)) as [Hn|Hn].
  - rewrite (bool_decide_eq_true_2 _ Hn), (has_insert 32 4) by (done || unfold size; simpl; lia).
    rewrite (Z.div_small (n - 1)), (Z.mod_small (n - 1)), bool_decide_eq_true_2 by (done || lia). unfold size. simpl. intuition lia.
  - rewrite (bool_decide_eq_false_2 _ Hn), elem_of_signals, elem_of_members.
    destruct (decide (1 ≤ n ≤ 128)) as [Hn'|Hn']; [|by split; intros [? _]].
    rewrite (has_insert 32 4) by (done || unfold size; simpl; lia).
    assert (1 ≤ (n - 1) / 32) by (apply Z.div_le_lower_bound; lia).
    rewrite bool_decide_eq_false_2 by (change (Z.to_nat (0 / 32)) with 0%nat; lia). done.
Qed.

(** The calls that change a set, and the sets they mean. *)
Inductive sig_op :=
  | OpAdd (n : Z) | OpDel (n : Z) | OpEmpty | OpFill | OpOr (s : words) | OpAnd (s : words) | OpNand (s : words)
  | OpLo (s : words) | OpOld (o : Z) | OpCantMask | OpStopSigMask | OpContSigMask | OpOsig2Sig (o : Z).

Definition run_sig_op (op : sig_op) : C words () :=
  match op with
  | OpAdd n => SIGADDSET n | OpDel n => SIGDELSET n | OpEmpty => SIGEMPTYSET | OpFill => SIGFILLSET
  | OpOr s => SIGSETOR s | OpAnd s => SIGSETAND s | OpNand s => SIGSETNAND s
  | OpLo s => SIGSETLO s | OpOld o => SIGSETOLD o
  | OpCantMask => SIG_CANTMASK | OpStopSigMask => SIG_STOPSIGMASK | OpContSigMask => SIG_CONTSIGMASK
  | OpOsig2Sig o => OSIG2SIG o
  end.

Definition all_signals : gset Z := list_to_set (seqZ 1 128).
Definition low_signals : gset Z := list_to_set (seqZ 1 32).
(** The signals of an old-style mask. *)
Definition old_signals (o : Z) : gset Z := filter (λ n, Z.testbit o (n - 1) = true) low_signals.

Definition sig_op_spec (op : sig_op) (X : gset Z) : gset Z :=
  match op with
  | OpAdd n => {[n]} ∪ X | OpDel n => X ∖ {[n]} | OpEmpty => ∅ | OpFill => all_signals
  | OpOr s => X ∪ signals s | OpAnd s => X ∩ signals s | OpNand s => X ∖ signals s
  | OpLo s => (signals s ∩ low_signals) ∪ (X ∖ low_signals)
  | OpOld o => old_signals o ∪ (X ∖ low_signals)
  | OpCantMask => X ∖ {[SIGKILL]} ∖ {[SIGSTOP]}
  | OpStopSigMask => X ∖ {[SIGSTOP]} ∖ {[SIGTSTP]} ∖ {[SIGTTIN]} ∖ {[SIGTTOU]}
  | OpContSigMask => X ∖ {[SIGCONT]}
  | OpOsig2Sig o => old_signals o
  end.

Definition sig_op_ok (op : sig_op) : Prop :=
  match op with
  | OpAdd n | OpDel n => _SIG_VALID n = true
  | OpOr s | OpAnd s | OpNand s | OpLo s => sigset_ok s
  | OpOld o | OpOsig2Sig o => 0 ≤ o < 2 ^ 32
  | _ => True
  end.

Fixpoint run_sig_ops (ops : list sig_op) : C words () :=
  match ops with [] => mret () | op :: ops => run_sig_op op;; run_sig_ops ops end.

Lemma elem_of_low n : n ∈ low_signals ↔ 1 ≤ n ≤ 32.
Proof. unfold low_signals. rewrite elem_of_list_to_set, elem_of_seqZ. lia. Qed.

Lemma elem_of_old o n : n ∈ old_signals o ↔ 1 ≤ n ≤ 32 ∧ Z.testbit o (n - 1) = true.
Proof. unfold old_signals. rewrite elem_of_filter, elem_of_low. tauto. Qed.

Lemma elem_of_all n : n ∈ all_signals ↔ 1 ≤ n ≤ 128.
Proof. unfold all_signals. rewrite elem_of_list_to_set, elem_of_seqZ. lia. Qed.

#[local] Opaque low_signals all_signals old_signals.

(** Writing the first word changes the first 32 signals only. *)
Lemma set_old_makes l o : sigset_ok l → 0 ≤ o < 2 ^ 32 → makes (set_word 0 o) l (old_signals o ∪ (signals l ∖ low_signals)).
Proof.
  intros Hl Ho. destruct (first_word_makes l o Hl Ho) as (l' & E & Hl' & Hs). exists l'. split; [done|]. split; [done|].
  apply set_eq. intros n. rewrite Hs, elem_of_union, elem_of_difference, elem_of_old, elem_of_low.
  case_bool_decide; tauto.
Qed.

Lemma set_low_makes l s : sigset_ok l → sigset_ok s → makes (SIGSETLO s) l ((signals s ∩ low_signals) ∪ (signals l ∖ low_signals)).
Proof.
  intros Hl Hs. destruct (lookup_lt_is_Some_2 s 0) as [x Hx]; [rewrite (wo_len _ _ _ Hs); lia|].
  pose proof (wo_range _ _ _ Hs _ _ Hx) as Hr.
  destruct (set_old_makes l x Hl Hr) as (l' & E & Hl' & HX). exists l'.
  split; [unfold SIGSETLO; by rewrite (bind_done _ _ _ _ _ (other_word_ok _ 0 _ _ Hx))|]. split; [done|]. rewrite HX. f_equal.
  apply set_eq. intros n. rewrite elem_of_old, elem_of_intersection, elem_of_low, elem_of_signals, elem_of_members.
  destruct (decide (1 ≤ n ≤ 32)) as [Hn|]; [|tauto].
  assert (has 32 s (n - 1) = Z.testbit x (n - 1)) as ->; [|unfold size; simpl; intuition lia].
  unfold has. rewrite Z.div_small, Z.mod_small by lia. change (Z.to_nat 0) with 0%nat. by rewrite Hx.
Qed.

(** A word-wise operation on the words is the same operation on the signals. *)
Lemma fill_makes l : sigset_ok l → makes SIGFILLSET l all_signals.
Proof.
  intros Hl. eapply makes_does; [apply (fill_does 32 4 ltac:(lia) l l Hl Hl); word_body|].
  intros n. rewrite elem_of_all, elem_of_universe. unfold size. simpl. lia.
Qed.

Lemma or_makes l s : sigset_ok l → sigset_ok s → makes (SIGSETOR s) l (signals l ∪ signals s).
Proof.
  intros Hl Hs. eapply makes_does; [apply (or_does 32 4 ltac:(lia) l s Hl Hs); word_body|].
  intros n. rewrite elem_of_union, elem_of_union, (elem_of_signals l), (elem_of_signals s).
  generalize (n - 1 ∈ members 32 4 l), (n - 1 ∈ members 32 4 s). tauto.
Qed.

Lemma and_makes l s : sigset_ok l → sigset_ok s → makes (SIGSETAND s) l (signals l ∩ signals s).
Proof.
  intros Hl Hs. eapply makes_does; [apply (and_does 32 4 ltac:(lia) l s Hl Hs); word_body|].
  intros n. rewrite elem_of_intersection, elem_of_intersection, (elem_of_signals l), (elem_of_signals s).
  generalize (n - 1 ∈ members 32 4 l), (n - 1 ∈ members 32 4 s). tauto.
Qed.

Lemma nand_makes l s : sigset_ok l → sigset_ok s → makes (SIGSETNAND s) l (signals l ∖ signals s).
Proof.
  intros Hl Hs. eapply makes_does; [apply (nand_does 32 4 ltac:(lia) l s Hl Hs); word_body|].
  intros n. rewrite elem_of_difference, elem_of_difference, (elem_of_signals l), (elem_of_signals s).
  generalize (n - 1 ∈ members 32 4 l), (n - 1 ∈ members 32 4 s). tauto.
Qed.

Lemma valid_range n : _SIG_VALID n = true → 1 ≤ n ≤ 128.
Proof. unfold _SIG_VALID, _SIG_MAXSIG. intros H. zb. lia. Qed.

Lemma osig_makes l o : sigset_ok l → 0 ≤ o < 2 ^ 32 → makes (OSIG2SIG o) l (old_signals o).
Proof.
  intros Hl Ho. apply (makes_then _ _ _ _ _ (SIGEMPTYSET_makes l Hl)). intros k Hk Hz.
  destruct (set_old_makes k o Hk Ho) as (k' & E & Hk' & HX). exists k'. split; [done|]. split; [done|].
  rewrite HX, Hz, (subseteq_empty_difference_L ∅) by apply empty_subseteq. apply union_empty_r_L.
Qed.

(** The masks that clear a fixed list of signals. *)
Lemma cantmask_makes l : sigset_ok l → makes SIG_CANTMASK l (signals l ∖ {[SIGKILL]} ∖ {[SIGSTOP]}).
Proof.
  intros Hl. apply del_then; [done|unfold SIGKILL; lia|]. intros k Hk <-. apply SIGDELSET_makes; [done|unfold SIGSTOP; lia].
Qed.

Lemma stopsigmask_makes l : sigset_ok l →
  makes SIG_STOPSIGMASK l (signals l ∖ {[SIGSTOP]} ∖ {[SIGTSTP]} ∖ {[SIGTTIN]} ∖ {[SIGTTOU]}).
Proof.
  intros Hl. apply del_then; [done|unfold SIGSTOP; lia|]. intros k Hk <-.
  apply del_then; [done|unfold SIGTSTP; lia|]. intros k2 Hk2 <-.
  apply del_then; [done|unfold SIGTTIN; lia|]. intros k3 Hk3 <-. apply SIGDELSET_makes; [done|unfold SIGTTOU; lia].
Qed.

Lemma sig_op_makes op l : sigset_ok l → sig_op_ok op → makes (run_sig_op op) l (sig_op_spec op (signals l)).
Proof.
  intros Hl Hop. destruct op; cbn [run_sig_op sig_op_spec sig_op_ok] in *.
  - exact (SIGADDSET_makes l n Hl (valid_range n Hop)).
  - exact (SIGDELSET_makes l n Hl (valid_range n Hop)).
  - exact (SIGEMPTYSET_makes l Hl).
  - exact (fill_makes l Hl).
  - exact (or_makes l s Hl Hop).
  - exact (and_makes l s Hl Hop).
  - exact (nand_makes l s Hl Hop).
  - exact (set_low_makes l s Hl Hop).
  - exact (set_old_makes l o Hl Hop).
  - exact (cantmask_makes l Hl).
  - exact (stopsigmask_makes l Hl).
  - apply SIGDELSET_makes; [exact Hl|unfold SIGCONT; lia].
  - exact (osig_makes l o Hl Hop).
Qed.

(** The operations on signal sets, in any order and number, are the set
    operations on signals 1 to 128: adding and deleting one, emptying, filling,
    union, intersection, difference, replacing the first 32 signals from a set
    or an old mask, and the masks that keep SIGKILL and SIGSTOP, the stop
    signals or SIGCONT out. *)
Theorem sigset_refines_set ops l :
  sigset_ok l → Forall sig_op_ok ops →
  makes (run_sig_ops ops) l (foldl (λ X op, sig_op_spec op X) (signals l) ops).
Proof.
  intros Hl Hops. revert l Hl. induction Hops as [|op ops Hop _ IH]; intros l Hl.
  - exists l. exact (conj eq_refl (conj Hl eq_refl)).
  - apply (makes_then _ _ _ _ _ (sig_op_makes op l Hl Hop)). intros k Hk HX. cbn [foldl]. rewrite <- HX. exact (IH k Hk).
Qed.

Lemma zero_sigset_ok : sigset_ok [0; 0; 0; 0].
Proof. split; [done|]. intros i w Hi. destruct i as [|[|[|[|i]]]]; simplify_eq/=; lia. Qed.

Lemma sigset_refines_set_witness :
  makes (run_sig_ops [OpFill; OpCantMask; OpDel 128; OpOsig2Sig 5]) [0; 0; 0; 0] (old_signals 5).
Proof.
  apply (sigset_refines_set [OpFill; OpCantMask; OpDel 128; OpOsig2Sig 5] [0; 0; 0; 0] zero_sigset_ok).
  repeat first [apply Forall_cons_2 | apply Forall_nil_2]; simpl; try exact I; try reflexivity; lia.
Defined.

Lemma signals_subset l s : members 32 4 l ⊆ members 32 4 s ↔ signals l ⊆ signals s.
Proof.
  split; intros H n.
  - rewrite (elem_of_signals l), (elem_of_signals s). intros [Hn K]. exact (conj Hn (H _ K)).
  - rewrite (members_signals l), (members_signals s). intros [Hn K]. exact (conj Hn (H _ K)).
Qed.

Lemma signals_equal l s : members 32 4 l = members 32 4 s ↔ signals l = signals s.
Proof.
  split; intros H; apply set_eq; intros n.
  - rewrite (elem_of_signals l), (elem_of_signals s), H. exact (iff_refl _).
  - rewrite (members_signals l), (members_signals s), H. exact (iff_refl _).
Qed.

Lemma signals_empty l : members 32 4 l = ∅ ↔ signals l = ∅.
Proof.
  split; intros H; apply elem_of_equiv_empty_L; intros n.
  - rewrite (elem_of_signals l), H. intros [_ K]. exact (not_elem_of_empty _ K).
  - rewrite (members_signals l), H. intros [_ K]. exact (not_elem_of_empty _ K).
Qed.

Definition truth (P : Prop) `{Decision P} : Z := if bool_decide P then 1 else 0.

Lemma isempty_ok l : sigset_ok l → __sigisempty l = Done (truth (signals l = ∅)) l.
Proof.
  intros Hl. unfold __sigisempty, truth. erewrite bind_done; [|apply (empty_does 32 4 ltac:(lia) l l Hl Hl); word_body].
  by rewrite (bool_decide_ext _ _ (signals_empty l)).
Qed.

Lemma seteq_ok l s : sigset_ok l → sigset_ok s → __sigseteq s l = Done (truth (signals l = signals s)) l.
Proof.
  intros Hl Hs. unfold __sigseteq, truth. erewrite bind_done; [|apply (equal_does 32 4 ltac:(lia) l s Hl Hs)].
  - by rewrite (bool_decide_ext _ _ (signals_equal l s)).
  - intros i w x Hw Hx Hi. erewrite bind_done; [|by apply get_word_ok]. erewrite bind_done; [|by apply other_word_ok].
    by rewrite Z.eqb_sym.
Qed.

Lemma masked_ok l s : sigset_ok l → sigset_ok s → sigsetmasked s l = Done (truth (signals l ⊆ signals s)) l.
Proof.
  intros Hl Hs. unfold sigsetmasked, truth. erewrite bind_done; [|apply (masked_does 32 4 ltac:(lia) l s Hl Hs); word_body].
  by rewrite (bool_decide_ext _ _ (signals_subset l s)).
Qed.

(** The tests on signal sets: membership, emptiness and equality, and
    sigsetmasked, which returns 1 exactly if every signal of the set is
    masked. *)
Theorem sigset_tests l s n :
  sigset_ok l → sigset_ok s → 1 ≤ n ≤ 128 →
  (∃ v, SIGISMEMBER n l = Done v l ∧ (v ≠ 0 ↔ n ∈ signals l)) ∧
  SIGISEMPTY l = Done (truth (signals l = ∅)) l ∧
  SIGNOTEMPTY l = Done (truth (signals l ≠ ∅)) l ∧
  SIGSETEQ s l = Done (truth (signals l = signals s)) l ∧
  SIGSETNEQ s l = Done (truth (signals l ≠ signals s)) l ∧
  sigsetmasked s l = Done (truth (signals l ⊆ signals s)) l.
Proof.
  intros Hl Hs Hn. split; [|split; [|split; [|split; [|split]]]].
  - destruct (word_at 32 4 ltac:(lia) l (n - 1) Hl (in_words n Hn)) as (w & Hw & Hh).
    assert (0 ≤ (n - 1) / 32) by (apply Z.div_pos; lia).
    exists (Z.land w (_SIG_BIT n)). unfold SIGISMEMBER. rewrite sig_word. split; [by erewrite bind_done; [|by apply get_word_ok]|].
    rewrite sig_bit, elem_of_signals, elem_of_members, Hh, land_pow, not_false_iff_true by lia.
    pose proof (in_words n Hn). tauto.
  - exact (isempty_ok l Hl).
  - unfold SIGNOTEMPTY. rewrite (bind_done _ _ _ _ _ (isempty_ok l Hl)). unfold truth. rewrite bool_decide_not. by case_bool_decide.
  - exact (seteq_ok l s Hl Hs).
  - unfold SIGSETNEQ. rewrite (bind_done _ _ _ _ _ (seteq_ok l s Hl Hs)). unfold truth. rewrite bool_decide_not. by case_bool_decide.
  - exact (masked_ok l s Hl Hs).
Qed.

Lemma sigset_tests_witness : sigsetmasked [0; 0; 0; 0] [0; 0; 0; 0] = Done (truth (signals [0; 0; 0; 0] ⊆ signals [0; 0; 0; 0])) [0; 0; 0; 0].
Proof. destruct (sigset_tests [0; 0; 0; 0] [0; 0; 0; 0] 9 zero_sigset_ok zero_sigset_ok ltac:(lia)) as (_ & _ & _ & _ & _ & H). exact H. Defined.

(** SIGPENDING: a thread has something to do exactly if some signal pending
    for it or for its process is not in its mask. *)
Theorem sigpending_spec td :
  sigset_ok td.(td_siglist) → sigset_ok td.(td_sigmask) → sigset_ok td.(p_siglist) →
  SIGPENDING td = Some (negb (bool_decide (signals td.(td_siglist) ∪ signals td.(p_siglist) ⊆ signals td.(td_sigmask)))).
Proof.
  intros Ht Hm Hp.
  assert (Hone : ∀ l, sigset_ok l → unmasked_pending l td.(td_sigmask) = Done (negb (bool_decide (signals l ⊆ signals td.(td_sigmask)))) l).
  { intros l Hl. unfold unmasked_pending, SIGISEMPTY. rewrite (bind_done _ _ _ _ _ (isempty_ok l Hl)). unfold truth.
    case_bool_decide as He.
    - rewrite bool_decide_eq_true_2; [done|]. rewrite He. apply empty_subseteq.
    - change (c_true 0) with false. cbn iota. erewrite bind_done; [|exact (masked_ok l _ Hl Hm)]. unfold truth.
      destruct (bool_decide _); reflexivity. }
  unfold SIGPENDING. rewrite (Hone _ Ht), (Hone _ Hp).
  rewrite (bool_decide_ext _ _ (union_subseteq (signals td.(td_siglist)) _ _)).
  rewrite bool_decide_and. by destruct (bool_decide (signals td.(td_siglist) ⊆ _)), (bool_decide (signals td.(p_siglist) ⊆ _)).
Qed.

Lemma sigpending_spec_witness :
  SIGPENDING (Thread [0; 0; 0; 0] [0; 0; 0; 0] [0; 0; 0; 0]) =
    Some (negb (bool_decide (signals [0; 0; 0; 0] ∪ signals [0; 0; 0; 0] ⊆ signals [0; 0; 0; 0]))).
Proof. exact (sigpending_spec (Thread [0; 0; 0; 0] [0; 0; 0; 0] [0; 0; 0; 0]) zero_sigset_ok zero_sigset_ok zero_sigset_ok). Defined.
