(* ===== verification/TimeArith.v ===== *)
(** * Arithmetic on times

    include/sys/time.h and include/sys/timespec.h: binary times (seconds and
    a 64-bit fraction), timespecs and timevals, their sums, differences,
    multiples, comparisons and conversions.  The macros and functions take
    pointers, which may be the same: the times live in a store. *)

From S2P Require Import Prelude.

(** struct bintime, struct timespec, struct timeval: whole seconds, and the
    fraction, the nanoseconds or the microseconds. *)
Record time := Time { sec : Z; sub : Z }.
Abbreviation times := (gmap Z time).

#[export] Instance time_eq_dec : EqDecision time.
Proof. solve_decision. Defined.

Definition load_time (p : Z) : C times time := λ m, match m !! p with Some t => Done t m | None => UB end.
Definition get_sec (p : Z) : C times Z := t ← load_time p; mret t.(sec).
Definition get_sub (p : Z) : C times Z := t ← load_time p; mret t.(sub).
Definition set_sec (p v : Z) : C times () := t ← load_time p; modifyS <[p := Time v t.(sub)]>.
Definition set_sub (p v : Z) : C times () := t ← load_time p; modifyS <[p := Time t.(sec) v]>.

(** A signed 64-bit result; overflow is undefined. *)
Definition fits64 (z : Z) : bool := (- 2 ^ 63 <=? z) && (z <? 2 ^ 63).
Definition signed64 (z : Z) : C times Z := if fits64 z then mret z else ub.

(** ** struct bintime *)

Definition bintime_addx (bt x : Z) : C times () :=
  u ← get_sub bt;
  set_sub bt (u64 (u + x));;
  f ← get_sub bt;
  if f <? u then s ← get_sec bt; s' ← signed64 (s + 1); set_sec bt s' else mret ().

Definition bintime_add (bt bt2 : Z) : C times () :=
  u ← get_sub bt;
  f2 ← get_sub bt2;
  set_sub bt (u64 (u + f2));;
  f ← get_sub bt;
  (if f <? u then s ← get_sec bt; s' ← signed64 (s + 1); set_sec bt s' else mret ());;
  s ← get_sec bt;
  s2 ← get_sec bt2;
  s' ← signed64 (s + s2);
  set_sec bt s'.

Definition bintime_sub (bt bt2 : Z) : C times () :=
  u ← get_sub bt;
  f2 ← get_sub bt2;
  set_sub bt (u64 (u - f2));;
  f ← get_sub bt;
  (if u <? f then s ← get_sec bt; s' ← signed64 (s - 1); set_sec bt s' else mret ());;
  s ← get_sec bt;
  s2 ← get_sec bt2;
  s' ← signed64 (s - s2);
  set_sec bt s'.

(** [bt->sec += p2 >> 32] adds as unsigned numbers and converts back. *)
Definition bintime_mul (bt x : Z) : C times () :=
  frac ← get_sub bt;
  let p1 := u64 (Z.land frac 0xffffffff * x) in
  let p2 := u64 (Z.shiftr frac 32 * x + Z.shiftr p1 32) in
  s ← get_sec bt;
  s' ← signed64 (s * x);
  set_sec bt s';;
  s ← get_sec bt;
  set_sec bt (i64 (s + Z.shiftr p2 32));;
  set_sub bt (Z.lor (u64 (Z.shiftl p2 32)) (Z.land p1 0xffffffff)).

Definition bintime_clear (a : Z) : C times () := set_sub a 0;; set_sec a 0.
Definition bintime_isset (a : Z) : C times bool :=
  s ← get_sec a; if c_true s then mret true else f ← get_sub a; mret (c_true f).

(** The comparisons take the operator as an argument. *)
Definition bintime_cmp (a b : Z) (cmp : Z → Z → bool) : C times bool :=
  sa ← get_sec a; sb ← get_sec b;
  if sa =? sb then fa ← get_sub a; fb ← get_sub b; mret (cmp fa fb) else mret (cmp sa sb).

Definition bintime2timespec (bt ts : Z) : C times () :=
  s ← get_sec bt;
  set_sec ts s;;
  f ← get_sub bt;
  set_sub ts (Z.shiftr (u64 (1000000000 * u32 (Z.shiftr f 32))) 32).

Definition timespec2bintime (ts bt : Z) : C times () :=
  s ← get_sec ts;
  set_sec bt s;;
  n ← get_sub ts;
  set_sub bt (u64 (n * 18446744073)).

Definition bintime2timeval (bt tv : Z) : C times () :=
  s ← get_sec bt;
  set_sec tv s;;
  f ← get_sub bt;
  set_sub tv (Z.shiftr (u64 (1000000 * u32 (Z.shiftr f 32))) 32).

Definition timeval2bintime (tv bt : Z) : C times () :=
  s ← get_sec tv;
  set_sec bt s;;
  n ← get_sub tv;
  set_sub bt (u64 (n * 18446744073709)).

(** ** struct timespec and struct timeval *)

Definition timespecclear (tvp : Z) : C times () := set_sub tvp 0;; set_sec tvp 0.
Definition timespecisset (tvp : Z) : C times bool :=
  s ← get_sec tvp; if c_true s then mret true else n ← get_sub tvp; mret (c_true n).
Definition timespeccmp (tvp uvp : Z) (cmp : Z → Z → bool) : C times bool :=
  s ← get_sec tvp; s2 ← get_sec uvp;
  if s =? s2 then n ← get_sub tvp; n2 ← get_sub uvp; mret (cmp n n2) else mret (cmp s s2).

Definition timespecadd (vvp uvp : Z) : C times () :=
  s ← get_sec vvp; s2 ← get_sec uvp; s' ← signed64 (s + s2);
  set_sec vvp s';;
  n ← get_sub vvp; n2 ← get_sub uvp; n' ← signed64 (n + n2);
  set_sub vvp n';;
  n ← get_sub vvp;
  if 1000000000 <=? n then
    s ← get_sec vvp; s' ← signed64 (s + 1);
    set_sec vvp s';;
    n ← get_sub vvp; n' ← signed64 (n - 1000000000);
    set_sub vvp n'
  else mret ().

Definition timespecsub (vvp uvp : Z) : C times () :=
  s ← get_sec vvp; s2 ← get_sec uvp; s' ← signed64 (s - s2);
  set_sec vvp s';;
  n ← get_sub vvp; n2 ← get_sub uvp; n' ← signed64 (n - n2);
  set_sub vvp n';;
  n ← get_sub vvp;
  if n <? 0 then
    s ← get_sec vvp; s' ← signed64 (s - 1);
    set_sec vvp s';;
    n ← get_sub vvp; n' ← signed64 (n + 1000000000);
    set_sub vvp n'
  else mret ().

Definition timevalclear (tvp : Z) : C times () := set_sub tvp 0;; set_sec tvp 0.
Definition timevalisset (tvp : Z) : C times bool :=
  s ← get_sec tvp; if c_true s then mret true else n ← get_sub tvp; mret (c_true n).
Definition timevalcmp (tvp uvp : Z) (cmp : Z → Z → bool) : C times bool :=
  s ← get_sec tvp; s2 ← get_sec uvp;
  if s =? s2 then n ← get_sub tvp; n2 ← get_sub uvp; mret (cmp n n2) else mret (cmp s s2).

(** The names outside the kernel. *)
Definition timerclear (tvp : Z) : C times () := set_sub tvp 0;; set_sec tvp 0.
Definition timerisset (tvp : Z) : C times bool :=
  s ← get_sec tvp; if c_true s then mret true else n ← get_sub tvp; mret (c_true n).
Definition timercmp (tvp uvp : Z) (cmp : Z → Z → bool) : C times bool :=
  s ← get_sec tvp; s2 ← get_sec uvp;
  if s =? s2 then n ← get_sub tvp; n2 ← get_sub uvp; mret (cmp n n2) else mret (cmp s s2).

Definition timeradd (tvp uvp vvp : Z) : C times () :=
  s ← get_sec tvp; s2 ← get_sec uvp; s' ← signed64 (s + s2);
  set_sec vvp s';;
  n ← get_sub tvp; n2 ← get_sub uvp; n' ← signed64 (n + n2);
  set_sub vvp n';;
  n ← get_sub vvp;
  if 1000000 <=? n then
    s ← get_sec vvp; s' ← signed64 (s + 1);
    set_sec vvp s';;
    n ← get_sub vvp; n' ← signed64 (n - 1000000);
    set_sub vvp n'
  else mret ().

Definition timersub (tvp uvp vvp : Z) : C times () :=
  s ← get_sec tvp; s2 ← get_sec uvp; s' ← signed64 (s - s2);
  set_sec vvp s';;
  n ← get_sub tvp; n2 ← get_sub uvp; n' ← signed64 (n - n2);
  set_sub vvp n';;
  n ← get_sub vvp;
  if n <? 0 then
    s ← get_sec vvp; s' ← signed64 (s - 1);
    set_sec vvp s';;
    n ← get_sub vvp; n' ← signed64 (n + 1000000);
    set_sub vvp n'
  else mret ().

(** C's division truncates towards zero. *)
Definition TIMEVAL_TO_TIMESPEC (tv ts : Z) : C times () :=
  s ← get_sec tv; set_sec ts s;;
  u ← get_sub tv; n ← signed64 (u * 1000); set_sub ts n.
Definition TIMESPEC_TO_TIMEVAL (tv ts : Z) : C times () :=
  s ← get_sec ts; set_sec tv s;;
  n ← get_sub ts; set_sub tv (Z.quot n 1000).

(** ** What they compute *)

(** The time in units of 1 / [K] seconds, with [sub] counting those units. *)
Definition time_value (K : Z) (t : time) : Z := t.(sec) * K + t.(sub).
Definition normal (K : Z) (t : time) : Prop := 0 ≤ t.(sub) < K.
(** Seconds that a sum of two cannot take out of range. *)
Definition moderate (t : time) : Prop := - 2 ^ 61 ≤ t.(sec) < 2 ^ 61.

Lemma value_inj K t t' : normal K t → normal K t' → time_value K t = time_value K t' → t = t'.
Proof. unfold normal, time_value. destruct t as [s n], t' as [s' n']; simpl. intros ? ? ?. assert (s = s') by nia. subst. f_equal; lia. Qed.

Lemma get_sec_ok (m : times) p t : m !! p = Some t → get_sec p m = Done t.(sec) m.
Proof. intros H. unfold get_sec, load_time. c_unfold. by rewrite H. Qed.
Lemma get_sub_ok (m : times) p t : m !! p = Some t → get_sub p m = Done t.(sub) m.
Proof. intros H. unfold get_sub, load_time. c_unfold. by rewrite H. Qed.
Lemma set_sec_ok (m : times) p t v : m !! p = Some t → set_sec p v m = Done () (<[p := Time v t.(sub)]> m).
Proof. intros H. unfold set_sec, load_time. c_unfold. by rewrite H. Qed.
Lemma set_sub_ok (m : times) p t v : m !! p = Some t → set_sub p v m = Done () (<[p := Time t.(sec) v]> m).
Proof. intros H. unfold set_sub, load_time. c_unfold. by rewrite H. Qed.
Lemma signed64_ok (m : times) z : - 2 ^ 63 ≤ z < 2 ^ 63 → signed64 z m = Done z m.
Proof. intros H. unfold signed64, fits64. by rewrite (proj2 (Z.leb_le _ _)), (proj2 (Z.ltb_lt _ _)) by lia. Qed.

(** Run the accesses to times that are there. *)
Ltac t_at := by simplify_map_eq.
Ltac t_do :=
  first [ eapply get_sec_ok; t_at | eapply get_sub_ok; t_at | eapply set_sec_ok; t_at | eapply set_sub_ok; t_at
        | apply signed64_ok; cbn [sec sub]; unfold moderate, normal in *; lia ].
Ltac t_run :=
  repeat first [ rewrite bind_assoc | rewrite bind_ret | erewrite bind_done; [|t_do]; cbn [sec sub]; rewrite ?insert_insert_eq ];
  try (first [ erewrite set_sec_ok by t_at | erewrite set_sub_ok by t_at ]; cbn [sec sub]; rewrite ?insert_insert_eq).

(** The sums and differences of both types, with the units of a second as a
    parameter; the operands may be the same time, and the target one of them. *)
Definition add_units (K tvp uvp vvp : Z) : C times () :=
  s ← get_sec tvp; s2 ← get_sec uvp; s' ← signed64 (s + s2);
  set_sec vvp s';;
  n ← get_sub tvp; n2 ← get_sub uvp; n' ← signed64 (n + n2);
  set_sub vvp n';;
  n ← get_sub vvp;
  if K <=? n then
    s ← get_sec vvp; s' ← signed64 (s + 1);
    set_sec vvp s';;
    n ← get_sub vvp; n' ← signed64 (n - K);
    set_sub vvp n'
  else mret ().

Definition sub_units (K tvp uvp vvp : Z) : C times () :=
  s ← get_sec tvp; s2 ← get_sec uvp; s' ← signed64 (s - s2);
  set_sec vvp s';;
  n ← get_sub tvp; n2 ← get_sub uvp; n' ← signed64 (n - n2);
  set_sub vvp n';;
  n ← get_sub vvp;
  if n <? 0 then
    s ← get_sec vvp; s' ← signed64 (s - 1);
    set_sec vvp s';;
    n ← get_sub vvp; n' ← signed64 (n + K);
    set_sub vvp n'
  else mret ().

Section Units.
Context (K : Z) (m : times) (p q v : Z) (a b o : time).
Hypothesis HK : 0 < K < 2 ^ 62.
Hypothesis Hp : m !! p = Some a.
Hypothesis Hq : m !! q = Some b.
Hypothesis Hv : m !! v = Some o.
Hypothesis Ha : normal K a.
Hypothesis Hb : normal K b.
Hypothesis Hra : moderate a.
Hypothesis Hrb : moderate b.

Lemma sub_after_sec w r t : m !! r = Some t → ∃ t', <[v := Time w (o.(sub))]> m !! r = Some t' ∧ t'.(sub) = t.(sub).
Proof.
  intros Hr. destruct (decide (r = v)) as [->|].
  - eexists. rewrite lookup_insert_eq. split; [done|]. simpl. congruence.
  - exists t. by rewrite lookup_insert_ne.
Qed.

Lemma add_units_ok :
  ∃ c, add_units K p q v m = Done () (<[v := c]> m) ∧ normal K c ∧ time_value K c = time_value K a + time_value K b.
Proof.
  unfold add_units. t_run.
  destruct (sub_after_sec (sec a + sec b) p a Hp) as (a' & Hp' & Ea).
  destruct (sub_after_sec (sec a + sec b) q b Hq) as (b' & Hq' & Eb).
  rewrite (bind_done _ _ _ _ _ (get_sub_ok _ _ _ Hp')), (bind_done _ _ _ _ _ (get_sub_ok _ _ _ Hq')), Ea, Eb. t_run.
  unfold time_value, normal in *. destruct (Z.leb_spec K (sub a + sub b)).
  - t_run. eexists. split; [done|]. simpl. lia.
  - eexists. split; [done|]. simpl. lia.
Qed.

Lemma sub_units_ok :
  ∃ c, sub_units K p q v m = Done () (<[v := c]> m) ∧ normal K c ∧ time_value K c = time_value K a - time_value K b.
Proof.
  unfold sub_units. t_run.
  destruct (sub_after_sec (sec a - sec b) p a Hp) as (a' & Hp' & Ea).
  destruct (sub_after_sec (sec a - sec b) q b Hq) as (b' & Hq' & Eb).
  rewrite (bind_done _ _ _ _ _ (get_sub_ok _ _ _ Hp')), (bind_done _ _ _ _ _ (get_sub_ok _ _ _ Hq')), Ea, Eb. t_run.
  unfold time_value, normal in *. destruct (Z.ltb_spec (sub a - sub b) 0).
  - t_run. eexists. split; [done|]. simpl. lia.
  - eexists. split; [done|]. simpl. lia.
Qed.
End Units.

(** ** Binary times *)

Abbreviation bin := (2 ^ 64).

Lemma wrap_add B x y : 0 ≤ x < B → 0 ≤ y < B → (x + y) mod B = if x + y <? B then x + y else x + y - B.
Proof.
  intros Hx Hy. destruct (Z.ltb_spec (x + y) B); [by apply Z.mod_small; lia|].
  symmetry. apply Z.mod_unique with 1; lia.
Qed.

Lemma wrap_sub B x y : 0 ≤ x < B → 0 ≤ y < B → (x - y) mod B = if x <? y then x - y + B else x - y.
Proof.
  intros Hx Hy. destruct (Z.ltb_spec x y); [|by apply Z.mod_small; lia].
  symmetry. apply Z.mod_unique with (-1); lia.
Qed.

Section Bintime.
Context (m : times) (p q : Z) (a b : time).
Hypothesis Hp : m !! p = Some a.
Hypothesis Hq : m !! q = Some b.
Hypothesis Hpq : p ≠ q.
Hypothesis Ha : normal bin a.
Hypothesis Hb : normal bin b.
Hypothesis Hra : moderate a.
Hypothesis Hrb : moderate b.

Lemma bintime_addx_ok x : 0 ≤ x < bin →
  ∃ c, bintime_addx p x m = Done () (<[p := c]> m) ∧ normal bin c ∧ time_value bin c = time_value bin a + x.
Proof.
  intros Hx. unfold bintime_addx, u64. t_run. unfold normal, time_value, moderate in *.
  rewrite wrap_add by lia. destruct (Z.ltb_spec (sub a + x) bin);
    case_match; zb; try lia; t_run; (eexists; split; [done|]; simpl; lia).
Qed.

Lemma bintime_add_ok :
  ∃ c, bintime_add p q m = Done () (<[p := c]> m) ∧ normal bin c ∧ time_value bin c = time_value bin a + time_value bin b.
Proof.
  unfold bintime_add, u64. t_run. unfold normal, time_value in *.
  rewrite wrap_add by lia. destruct (Z.ltb_spec (sub a + sub b) bin);
    case_match; zb; try lia; t_run; (eexists; split; [done|]; simpl; lia).
Qed.

Lemma bintime_sub_ok :
  ∃ c, bintime_sub p q m = Done () (<[p := c]> m) ∧ normal bin c ∧ time_value bin c = time_value bin a - time_value bin b.
Proof.
  unfold bintime_sub, u64. t_run. unfold normal, time_value in *.
  rewrite wrap_sub by lia. destruct (Z.ltb_spec (sub a) (sub b));
    case_match; zb; try lia; t_run; (eexists; split; [done|]; simpl; lia).
Qed.
End Bintime.

Lemma low_bits z : Z.land z 0xffffffff = z mod 2 ^ 32.
Proof. change 0xffffffff with (Z.ones 32). by apply Z.land_ones. Qed.

(** A word made of two halves. *)
Lemma lor_halves h l : 0 ≤ l < 2 ^ 32 → Z.lor (h * 2 ^ 32) l = h * 2 ^ 32 + l.
Proof. by apply lor_low. Qed.

(** Schoolbook multiplication of the fraction in two halves. *)
Lemma mul_halves f x (p1 := u64 (Z.land f 0xffffffff * x)) (p2 := u64 (Z.shiftr f 32 * x + Z.shiftr p1 32)) :
  0 ≤ f < bin → 0 ≤ x < 2 ^ 32 →
  0 ≤ Z.shiftr p2 32 < 2 ^ 32 ∧
  Z.shiftr p2 32 * bin + Z.lor (u64 (Z.shiftl p2 32)) (Z.land p1 0xffffffff) = f * x ∧
  0 ≤ Z.lor (u64 (Z.shiftl p2 32)) (Z.land p1 0xffffffff) < bin.
Proof.
  intros Hf Hx. subst p2 p1. unfold u64. rewrite !low_bits, !Z.shiftr_div_pow2, !Z.shiftl_mul_pow2 by lia.
  pose proof (Z.div_mod f (2 ^ 32) ltac:(lia)) as Ef. pose proof (Z.mod_pos_bound f (2 ^ 32) ltac:(lia)).
  assert (0 ≤ f / 2 ^ 32 < 2 ^ 32) by (split; [apply Z.div_pos|apply Z.div_lt_upper_bound]; lia).
  set (L := f mod 2 ^ 32) in *. set (U := f / 2 ^ 32) in *.
  rewrite (Z.mod_small (L * x)) by nia.
  pose proof (Z.div_mod (L * x) (2 ^ 32) ltac:(lia)) as E1. pose proof (Z.mod_pos_bound (L * x) (2 ^ 32) ltac:(lia)).
  assert (0 ≤ L * x / 2 ^ 32 < 2 ^ 32) by (split; [apply Z.div_pos|apply Z.div_lt_upper_bound]; nia).
  rewrite (Z.mod_small (U * x + _)) by nia.
  set (P := U * x + L * x / 2 ^ 32) in *.
  pose proof (Z.div_mod P (2 ^ 32) ltac:(lia)) as E2. pose proof (Z.mod_pos_bound P (2 ^ 32) ltac:(lia)).
  replace (P * 2 ^ 32 mod bin) with (P mod 2 ^ 32 * 2 ^ 32) by (by rewrite <- Z.mul_mod_distr_r by lia).
  rewrite lor_halves by lia. split; [|split]; [|subst P; nia|nia].
  split; [apply Z.div_pos|apply Z.div_lt_upper_bound]; subst P; nia.
Qed.

Lemma bintime_mul_ok (m : times) p a x :
  m !! p = Some a → normal bin a → 0 ≤ x < 2 ^ 32 → - 2 ^ 62 ≤ a.(sec) * x < 2 ^ 62 →
  ∃ c, bintime_mul p x m = Done () (<[p := c]> m) ∧ normal bin c ∧ time_value bin c = time_value bin a * x.
Proof.
  intros Hp Ha Hx Hr. unfold bintime_mul. t_run. unfold normal, time_value in *.
  destruct (mul_halves (sub a) x Ha Hx) as (K1 & K2 & K3).
  assert (Ei : ∀ z, - 2 ^ 63 ≤ z < 2 ^ 63 → i64 z = z).
  { intros z Hz. unfold i64, signed. destruct (decide (0 ≤ z)).
    - rewrite Z.mod_small by lia. destruct (Z.ltb_spec z (2 ^ (64 - 1))); lia.
    - replace (z mod 2 ^ 64) with (z + 2 ^ 64) by (apply Z.mod_unique with (-1); lia).
      destruct (Z.ltb_spec (z + 2 ^ 64) (2 ^ (64 - 1))); lia. }
  rewrite Ei by lia. eexists. split; [done|]. cbn [sec sub]. split; [done|]. lia.
Qed.

(** C35. Binary times are exact: on moderate times the sum, the difference, the sum
    with a fraction and the product with a 32-bit factor, with all carries
    between fraction and seconds, are those of the times as 64.64-bit numbers. *)
Theorem bintime_exact (m : times) bt bt2 a b x y :
  m !! bt = Some a → m !! bt2 = Some b → bt ≠ bt2 →
  normal bin a → normal bin b → moderate a → moderate b →
  0 ≤ x < bin → 0 ≤ y < 2 ^ 32 → - 2 ^ 62 ≤ a.(sec) * y < 2 ^ 62 →
  (∃ c, bintime_add bt bt2 m = Done () (<[bt := c]> m) ∧ normal bin c ∧ time_value bin c = time_value bin a + time_value bin b) ∧
  (∃ c, bintime_sub bt bt2 m = Done () (<[bt := c]> m) ∧ normal bin c ∧ time_value bin c = time_value bin a - time_value bin b) ∧
  (∃ c, bintime_addx bt x m = Done () (<[bt := c]> m) ∧ normal bin c ∧ time_value bin c = time_value bin a + x) ∧
  (∃ c, bintime_mul bt y m = Done () (<[bt := c]> m) ∧ normal bin c ∧ time_value bin c = time_value bin a * y).
Proof.
  intros. split; [|split; [|split]].
  - by apply bintime_add_ok.
  - by apply bintime_sub_ok.
  - by apply bintime_addx_ok.
  - by apply bintime_mul_ok.
Qed.

Definition half_past : times := <[1 := Time 5 (2 ^ 63)]> (<[2 := Time (-3) (2 ^ 63 + 1)]> ∅).

Lemma bintime_exact_witness :
  ∃ c, bintime_add 1 2 half_past = Done () (<[1 := c]> half_past) ∧ normal bin c ∧
    time_value bin c = time_value bin (Time 5 (2 ^ 63)) + time_value bin (Time (-3) (2 ^ 63 + 1)).
Proof.
  destruct (bintime_exact half_past 1 2 (Time 5 (2 ^ 63)) (Time (-3) (2 ^ 63 + 1)) 1 7) as (H & _);
    [reflexivity|reflexivity|discriminate|split; simpl; lia..|exact H].
Defined.

(** Adding a binary time to itself in place goes wrong when the fraction
    carries: the carry is in the seconds before they are added to themselves,
    so that the result is one second too large. *)
Theorem bintime_add_in_place (m : times) bt a :
  m !! bt = Some a → normal bin a → moderate a → 2 ^ 63 ≤ a.(sub) →
  ∃ c, bintime_add bt bt m = Done () (<[bt := c]> m) ∧ time_value bin c = 2 * time_value bin a + bin.
Proof.
  intros Hp Ha Hra Hc. unfold bintime_add, u64. t_run. unfold normal, time_value in *. rewrite wrap_add by lia.
  destruct (Z.ltb_spec (sub a + sub a) bin); [lia|]. destruct (Z.ltb_spec (sub a + sub a - bin) (sub a)); [|lia].
  t_run. eexists. split; [done|]. simpl. lia.
Qed.

Lemma bintime_add_in_place_witness :
  ∃ c, bintime_add 1 1 half_past = Done () (<[1 := c]> half_past) ∧ time_value bin c = 2 * time_value bin (Time 5 (2 ^ 63)) + bin.
Proof. apply bintime_add_in_place; [reflexivity|split; simpl; lia|split; simpl; lia|simpl; lia]. Defined.

(** Sums and differences of timespecs and timevals are exact and normalised,
    also when operands and target are the same object; subtracting what was
    added restores the time. *)
Theorem time_units_exact (m : times) p q v a b o :
  m !! p = Some a → m !! q = Some b → m !! v = Some o → moderate a → moderate b →
  (normal 1000000000 a → normal 1000000000 b →
   (∃ c, timespecadd p q m = Done () (<[p := c]> m) ∧ normal 1000000000 c ∧
      time_value 1000000000 c = time_value 1000000000 a + time_value 1000000000 b ∧
      (p ≠ q → moderate c → timespecsub p q (<[p := c]> m) = Done () m)) ∧
   (∃ c, timespecsub p q m = Done () (<[p := c]> m) ∧ normal 1000000000 c ∧
      time_value 1000000000 c = time_value 1000000000 a - time_value 1000000000 b)) ∧
  (normal 1000000 a → normal 1000000 b →
   (∃ c, timeradd p q v m = Done () (<[v := c]> m) ∧ normal 1000000 c ∧ time_value 1000000 c = time_value 1000000 a + time_value 1000000 b) ∧
   (∃ c, timersub p q v m = Done () (<[v := c]> m) ∧ normal 1000000 c ∧ time_value 1000000 c = time_value 1000000 a - time_value 1000000 b)).
Proof.
  intros Hp Hq Hv Hra Hrb. split; intros Ha Hb; split.
  - destruct (add_units_ok 1000000000 m p q p a b a ltac:(lia) Hp Hq Hp Ha Hb Hra Hrb) as (c & E & Hc & Hval).
    exists c. split; [done|]. split; [done|]. split; [done|]. intros Hpq Hrc.
    destruct (sub_units_ok 1000000000 (<[p := c]> m) p q p c b c) as (d & E' & Hd & Hval');
      [lia|by simplify_map_eq..|done|done|done|done|].
    assert (d = a) as -> by (apply (value_inj 1000000000); [done|done|lia]).
    rewrite insert_insert_eq, (insert_id m p a Hp) in E'. exact E'.
  - by apply (sub_units_ok 1000000000 m p q p a b a ltac:(lia)).
  - by apply (add_units_ok 1000000 m p q v a b o ltac:(lia)).
  - by apply (sub_units_ok 1000000 m p q v a b o ltac:(lia)).
Qed.

Definition two_times : times := <[1 := Time 5 999999]> (<[2 := Time (-3) 2]> ∅).

Lemma time_units_exact_witness :
  ∃ c, timeradd 1 2 1 two_times = Done () (<[1 := c]> two_times) ∧ normal 1000000 c ∧
    time_value 1000000 c = time_value 1000000 (Time 5 999999) + time_value 1000000 (Time (-3) 2).
Proof.
  destruct (time_units_exact two_times 1 2 1 (Time 5 999999) (Time (-3) 2) (Time 5 999999)) as (_ & H);
    [reflexivity..|split; simpl; lia|split; simpl; lia|].
  destruct H as (H & _); [split; simpl; lia|split; simpl; lia|exact H].
Defined.

(** The comparison operators. *)
Definition comparisons : list (Z → Z → bool) := [Z.ltb; Z.leb; Z.gtb; Z.geb; Z.eqb; (λ x y, negb (x =? y))].

(** The first component decides, or the second if the first are equal. *)
Lemma lexicographic K s n s' n' (cmp : Z → Z → bool) :
  cmp ∈ comparisons → 0 ≤ n < K → 0 ≤ n' < K →
  (if s =? s' then cmp n n' else cmp s s') = cmp (s * K + n) (s' * K + n').
Proof.
  intros Hc Hn Hn'. assert (s < s' → s * K + n < s' * K + n') by nia. assert (s' < s → s' * K + n' < s * K + n) by nia.
  apply eq_true_iff_eq. unfold comparisons in Hc. rewrite !elem_of_cons, elem_of_nil in Hc.
  destruct (Z.eqb_spec s s') as [<-|]; destruct_or? Hc; subst cmp;
    rewrite ?negb_true_iff, <- ?not_true_iff_false, ?Z.gtb_ltb, ?Z.geb_leb, ?Z.ltb_lt, ?Z.leb_le, ?Z.eqb_eq; try lia; done.
Qed.

(** Every comparison macro compares the times, whichever operator it is given. *)
Theorem time_comparisons (m : times) p q a b cmp :
  m !! p = Some a → m !! q = Some b → cmp ∈ comparisons →
  (normal bin a → normal bin b → bintime_cmp p q cmp m = Done (cmp (time_value bin a) (time_value bin b)) m) ∧
  (normal 1000000000 a → normal 1000000000 b →
     timespeccmp p q cmp m = Done (cmp (time_value 1000000000 a) (time_value 1000000000 b)) m) ∧
  (normal 1000000 a → normal 1000000 b →
     timevalcmp p q cmp m = Done (cmp (time_value 1000000 a) (time_value 1000000 b)) m ∧
     timercmp p q cmp m = Done (cmp (time_value 1000000 a) (time_value 1000000 b)) m).
Proof.
  intros Hp Hq Hc.
  assert (Hlex : ∀ K, normal K a → normal K b → bintime_cmp p q cmp m = Done (cmp (time_value K a) (time_value K b)) m).
  { intros K Ha Hb. unfold bintime_cmp. t_run. unfold time_value. rewrite <- (lexicographic K) by done.
    destruct (Z.eqb_spec (sec a) (sec b)); [t_run; done|done]. }
  split; [|split; [|intros; split]]; intros; by apply Hlex.
Qed.

Lemma time_comparisons_witness : bintime_cmp 1 2 Z.ltb half_past = Done false half_past.
Proof.
  destruct (time_comparisons half_past 1 2 (Time 5 (2 ^ 63)) (Time (-3) (2 ^ 63 + 1)) Z.ltb) as (H & _);
    [reflexivity|reflexivity|by left|].
  rewrite H; [reflexivity|split; simpl; lia|split; simpl; lia].
Defined.

(** ** Conversions *)

(** Rounding down a fraction to units of 1 / [K] seconds, as the conversions
    do it: only the upper half of the fraction counts. *)
Lemma units_of_fraction K f : 0 < K < 2 ^ 32 → 0 ≤ f < bin →
  0 ≤ Z.shiftr (u64 (K * u32 (Z.shiftr f 32))) 32 < K ∧
  Z.shiftr (u64 (K * u32 (Z.shiftr f 32))) 32 = K * (f / 2 ^ 32) / 2 ^ 32.
Proof.
  intros HK Hf. rewrite !Z.shiftr_div_pow2 by lia. unfold u64, u32.
  assert (0 ≤ f / 2 ^ 32 < 2 ^ 32) by (split; [apply Z.div_pos|apply Z.div_lt_upper_bound]; lia).
  rewrite (Z.mod_small (f / 2 ^ 32)) by lia. rewrite Z.mod_small by nia. split; [|done].
  split; [apply Z.div_pos|apply Z.div_lt_upper_bound]; nia.
Qed.

(** Back and forth: with [c] the rounded-down fraction of one unit, [n] units
    become [n - 1], unless [n] is 0. *)
Lemma units_roundtrip K c n :
  0 < K → K * c < bin → bin - K * c < 2 ^ 32 → K * (bin - K * c) < bin - K * 2 ^ 32 → 0 ≤ n < K →
  K * (n * c / 2 ^ 32) / 2 ^ 32 = Z.max 0 (n - 1).
Proof.
  intros HK H1 H2 H3 Hn. symmetry. pose proof (Z.div_mod (n * c) (2 ^ 32) ltac:(lia)) as E.
  pose proof (Z.mod_pos_bound (n * c) (2 ^ 32) ltac:(lia)). set (h := n * c / 2 ^ 32) in *.
  destruct (decide (n = 0)) as [->|]; [simpl in E; replace h with 0 by lia; by rewrite Z.mul_0_r|].
  apply Z.div_unique with (K * h - (n - 1) * 2 ^ 32); [|lia]. left.
  assert (K * (n * c) = n * (K * c)) by ring. nia.
Qed.

(** The conversions of binary times: the result is normalised and rounded
    down; a timespec or timeval that goes to a binary time and back loses one
    unit, except that 0 stays 0, as the factors are rounded down too. *)
Theorem bintime_conversions (m : times) bt x a o :
  m !! bt = Some a → m !! x = Some o → bt ≠ x →
  (normal bin a →
    (∃ c, bintime2timespec bt x m = Done () (<[x := c]> m) ∧ normal 1000000000 c ∧ sec c = sec a ∧
       sub c * bin ≤ sub a * 1000000000 < sub c * bin + bin + 1000000000 * 2 ^ 32) ∧
    (∃ c, bintime2timeval bt x m = Done () (<[x := c]> m) ∧ normal 1000000 c ∧ sec c = sec a ∧
       sub c * bin ≤ sub a * 1000000 < sub c * bin + bin + 1000000 * 2 ^ 32)) ∧
  (normal 1000000000 o →
     (timespec2bintime x bt;; bintime2timespec bt x) m =
       Done () (<[x := Time (sec o) (Z.max 0 (sub o - 1))]> (<[bt := Time (sec o) (sub o * 18446744073)]> m))) ∧
  (normal 1000000 o →
     (timeval2bintime x bt;; bintime2timeval bt x) m =
       Done () (<[x := Time (sec o) (Z.max 0 (sub o - 1))]> (<[bt := Time (sec o) (sub o * 18446744073709)]> m))).
Proof.
  intros Hbt Hx Hne. split; [|split].
  - intros Ha. pose proof (Z.div_mod (sub a) (2 ^ 32) ltac:(lia)) as E. pose proof (Z.mod_pos_bound (sub a) (2 ^ 32) ltac:(lia)).
    split.
    + destruct (units_of_fraction 1000000000 (sub a) ltac:(lia) Ha) as [K1 K2]. unfold bintime2timespec. t_run.
      eexists. split; [done|]. split; [done|]. split; [done|]. cbn [sub]. rewrite K2.
      pose proof (Z.div_mod (1000000000 * (sub a / 2 ^ 32)) (2 ^ 32) ltac:(lia)).
      pose proof (Z.mod_pos_bound (1000000000 * (sub a / 2 ^ 32)) (2 ^ 32) ltac:(lia)). lia.
    + destruct (units_of_fraction 1000000 (sub a) ltac:(lia) Ha) as [K1 K2]. unfold bintime2timeval. t_run.
      eexists. split; [done|]. split; [done|]. split; [done|]. cbn [sub]. rewrite K2.
      pose proof (Z.div_mod (1000000 * (sub a / 2 ^ 32)) (2 ^ 32) ltac:(lia)).
      pose proof (Z.mod_pos_bound (1000000 * (sub a / 2 ^ 32)) (2 ^ 32) ltac:(lia)). lia.
  - intros Ho. unfold normal in Ho. unfold timespec2bintime, bintime2timespec. t_run.
    replace (u64 (sub o * 18446744073)) with (sub o * 18446744073) by (symmetry; apply Z.mod_small; lia). t_run.
    destruct (units_of_fraction 1000000000 (sub o * 18446744073) ltac:(lia) ltac:(lia)) as [_ ->].
    by rewrite (units_roundtrip 1000000000 18446744073) by lia.
  - intros Ho. unfold normal in Ho. unfold timeval2bintime, bintime2timeval. t_run.
    replace (u64 (sub o * 18446744073709)) with (sub o * 18446744073709) by (symmetry; apply Z.mod_small; lia). t_run.
    destruct (units_of_fraction 1000000 (sub o * 18446744073709) ltac:(lia) ltac:(lia)) as [_ ->].
    by rewrite (units_roundtrip 1000000 18446744073709) by lia.
Qed.

Lemma bintime_conversions_witness :
  (timespec2bintime 2 1;; bintime2timespec 1 2) two_times =
    Done () (<[2 := Time (-3) 1]> (<[1 := Time (-3) (2 * 18446744073)]> two_times)).
Proof.
  destruct (bintime_conversions two_times 1 2 (Time 5 999999) (Time (-3) 2)) as (_ & H & _);
    [reflexivity|reflexivity|discriminate|].
  rewrite H; [reflexivity|split; simpl; lia].
Defined.

(** Between timevals and timespecs: microseconds survive the way through
    nanoseconds, nanoseconds are rounded down to whole microseconds, and
    normalised times stay normalised. *)
Theorem timeval_timespec_roundtrip (m : times) tv ts a b :
  m !! tv = Some a → m !! ts = Some b → tv ≠ ts →
  (normal 1000000 a →
    ∃ c, TIMEVAL_TO_TIMESPEC tv ts m = Done () (<[ts := c]> m) ∧ normal 1000000000 c ∧
      time_value 1000000000 c = 1000 * time_value 1000000 a ∧ TIMESPEC_TO_TIMEVAL tv ts (<[ts := c]> m) = Done () (<[ts := c]> m)) ∧
  (normal 1000000000 b →
    ∃ c, TIMESPEC_TO_TIMEVAL tv ts m = Done () (<[tv := c]> m) ∧ normal 1000000 c ∧
      time_value 1000000 c = time_value 1000000000 b / 1000).
Proof.
  intros Ha Hb Hne. split; unfold normal, time_value; intros Hn.
  - unfold TIMEVAL_TO_TIMESPEC. t_run. eexists. split; [done|]. cbn [sec sub]. split; [lia|]. split; [lia|].
    unfold TIMESPEC_TO_TIMEVAL. t_run. rewrite Z.quot_mul by lia.
    rewrite (insert_id _ tv); [done|]. rewrite lookup_insert_ne by done. by destruct a.
  - unfold TIMESPEC_TO_TIMEVAL. t_run. eexists. split; [done|]. cbn [sec sub].
    rewrite Z.quot_div_nonneg by lia. split; [split; [by apply Z.div_pos; lia|by apply Z.div_lt_upper_bound; lia]|].
    replace (sec b * 1000000000 + sub b) with (sub b + (sec b * 1000000) * 1000) by lia. rewrite Z.div_add by lia. lia.
Qed.

Lemma timeval_timespec_roundtrip_witness :
  ∃ c, TIMEVAL_TO_TIMESPEC 1 2 two_times = Done () (<[2 := c]> two_times) ∧ normal 1000000000 c ∧
    time_value 1000000000 c = 1000 * time_value 1000000 (Time 5 999999) ∧
    TIMESPEC_TO_TIMEVAL 1 2 (<[2 := c]> two_times) = Done () (<[2 := c]> two_times).
Proof.
  destruct (timeval_timespec_roundtrip two_times 1 2 (Time 5 999999) (Time (-3) 2)) as (H & _);
    [reflexivity|reflexivity|discriminate|]. apply H. split; simpl; lia.
Defined.

(** The clearing macros make the value 0, and the isset macros tell a value
    that is not 0. *)
Lemma clear_and_isset K (m : times) p a : m !! p = Some a → normal K a →
  bintime_isset p m = Done (negb (time_value K a =? 0)) m ∧ bintime_clear p m = Done () (<[p := Time 0 0]> m).
Proof.
  unfold normal, time_value. intros Hp Ha. split.
  - unfold bintime_isset, c_true. t_run. destruct (Z.eqb_spec (sec a) 0) as [E|E]; simpl.
    + t_run. by rewrite E.
    + destruct (Z.eqb_spec (sec a * K + sub a) 0); [nia|done].
  - unfold bintime_clear. by t_run.
Qed.

Lemma other_clear_and_isset p :
  timespecisset p = bintime_isset p ∧ timevalisset p = bintime_isset p ∧ timerisset p = bintime_isset p ∧
  timespecclear p = bintime_clear p ∧ timevalclear p = bintime_clear p ∧ timerclear p = bintime_clear p.
Proof. done. Qed.
