(* ===== verification/IfQueue.v ===== *)
(** * Interface queues

    include/net/if_var.h, with the fields and tests of
    include/altq/if_altq.h: the packet queues of a network interface (the
    IF and IFQ macros), the queue owned by its driver (the IFQ_DRV macros) and
    the ring buffer interface of drivers (the drbr functions), which uses
    include/sys/buf_ring.h. *)

From S2P Require Import Prelude.
From S2P Require Import BufRing.

(** The fields of a packet header the queues use. *)
Record mbuf := Mbuf { m_nextpkt : Z; m_pkthdr_len : Z; m_flags : Z }.

(** The head, tail and length of a queue: [ifq_head], [ifq_tail], [ifq_len],
    or [ifq_drv_head], [ifq_drv_tail], [ifq_drv_len]. *)
Record pktq := Pktq { q_head : Z; q_tail : Z; q_len : Z }.

(** The packets, the output queue of the interface (struct ifaltq), its
    counters, and a ring with its count of drops. *)
Record net := Net {
  mbufs : gmap Z mbuf;
  ifq : pktq;
  ifq_maxlen : Z;
  ifq_drops : Z;
  ifq_mtx : bool;
  ifq_drv : pktq;
  ifq_drv_maxlen : Z;
  altq_flags : Z;
  altq_tbr : Z;
  if_obytes : Z;
  if_omcasts : Z;
  if_drv_flags : Z;
  ring : buf_ring;
  br_drops : Z }.

Definition M_MCAST : Z := 0x400.
Definition IFF_DRV_OACTIVE : Z := 0x400.
Definition ALTQF_READY : Z := 1.
Definition ALTQF_ENABLED : Z := 2.
Definition ALTDQ_REMOVE : Z := 1.
Definition ALTDQ_POLL : Z := 2.

Definition put_mbufs (v : gmap Z mbuf) (s : net) : net :=
  Net v s.(ifq) s.(ifq_maxlen) s.(ifq_drops) s.(ifq_mtx) s.(ifq_drv) s.(ifq_drv_maxlen) s.(altq_flags) s.(altq_tbr)
    s.(if_obytes) s.(if_omcasts) s.(if_drv_flags) s.(ring) s.(br_drops).
Definition put_ifq (v : pktq) (s : net) : net :=
  Net s.(mbufs) v s.(ifq_maxlen) s.(ifq_drops) s.(ifq_mtx) s.(ifq_drv) s.(ifq_drv_maxlen) s.(altq_flags) s.(altq_tbr)
    s.(if_obytes) s.(if_omcasts) s.(if_drv_flags) s.(ring) s.(br_drops).
Definition put_maxlen (v : Z) (s : net) : net :=
  Net s.(mbufs) s.(ifq) v s.(ifq_drops) s.(ifq_mtx) s.(ifq_drv) s.(ifq_drv_maxlen) s.(altq_flags) s.(altq_tbr)
    s.(if_obytes) s.(if_omcasts) s.(if_drv_flags) s.(ring) s.(br_drops).
Definition put_drops (v : Z) (s : net) : net :=
  Net s.(mbufs) s.(ifq) s.(ifq_maxlen) v s.(ifq_mtx) s.(ifq_drv) s.(ifq_drv_maxlen) s.(altq_flags) s.(altq_tbr)
    s.(if_obytes) s.(if_omcasts) s.(if_drv_flags) s.(ring) s.(br_drops).
Definition put_mtx (v : bool) (s : net) : net :=
  Net s.(mbufs) s.(ifq) s.(ifq_maxlen) s.(ifq_drops) v s.(ifq_drv) s.(ifq_drv_maxlen) s.(altq_flags) s.(altq_tbr)
    s.(if_obytes) s.(if_omcasts) s.(if_drv_flags) s.(ring) s.(br_drops).
Definition put_drv (v : pktq) (s : net) : net :=
  Net s.(mbufs) s.(ifq) s.(ifq_maxlen) s.(ifq_drops) s.(ifq_mtx) v s.(ifq_drv_maxlen) s.(altq_flags) s.(altq_tbr)
    s.(if_obytes) s.(if_omcasts) s.(if_drv_flags) s.(ring) s.(br_drops).
Definition put_flags (v : Z) (s : net) : net :=
  Net s.(mbufs) s.(ifq) s.(ifq_maxlen) s.(ifq_drops) s.(ifq_mtx) s.(ifq_drv) s.(ifq_drv_maxlen) v s.(altq_tbr)
    s.(if_obytes) s.(if_omcasts) s.(if_drv_flags) s.(ring) s.(br_drops).
Definition put_stats (b c : Z) (s : net) : net :=
  Net s.(mbufs) s.(ifq) s.(ifq_maxlen) s.(ifq_drops) s.(ifq_mtx) s.(ifq_drv) s.(ifq_drv_maxlen) s.(altq_flags) s.(altq_tbr)
    b c s.(if_drv_flags) s.(ring) s.(br_drops).
Definition put_ring (b : buf_ring) (d : Z) (s : net) : net :=
  Net s.(mbufs) s.(ifq) s.(ifq_maxlen) s.(ifq_drops) s.(ifq_mtx) s.(ifq_drv) s.(ifq_drv_maxlen) s.(altq_flags) s.(altq_tbr)
    s.(if_obytes) s.(if_omcasts) s.(if_drv_flags) b d.

(** Accesses to a packet; one that has been freed may not be touched. *)
Definition get_mbuf (m : Z) : C net mbuf := λ s, match s.(mbufs) !! m with Some b => Done b s | None => UB end.
Definition set_nextpkt (m v : Z) : C net () :=
  b ← get_mbuf m; modifyS (λ s, put_mbufs (<[m := Mbuf v b.(m_pkthdr_len) b.(m_flags)]> s.(mbufs)) s).

(** [n + 1] and [n - 1] on int: overflow is undefined. *)
Definition incr (n : Z) : C net Z := if n <? INT_MAX then mret (n + 1) else ub.
Definition decr (n : Z) : C net Z := if - INT_MAX - 1 <? n then mret (n - 1) else ub.

Definition add_int (a b : Z) : C net Z :=
  if (- INT_MAX - 1 <=? a + b) && (a + b <=? INT_MAX) then mret (a + b) else ub.

(** A mutex that its owner locks again is a panic. *)
Definition IF_LOCK : C net () := b ← gets ifq_mtx; if b : bool then ub else modifyS (put_mtx true).
Definition IF_UNLOCK : C net () := b ← gets ifq_mtx; if b : bool then modifyS (put_mtx false) else ub.

(** ** The queues *)

(** The two queues have the same fields and, in the macros, the same code. *)
Record lens := Lens { get : net → pktq; put : pktq → net → net }.
Definition main : lens := Lens ifq put_ifq.
Definition driver : lens := Lens ifq_drv put_drv.

Definition put_head (L : lens) (v : Z) : C net () :=
  modifyS (λ s, L.(put) (Pktq v (L.(get) s).(q_tail) (L.(get) s).(q_len)) s).
Definition put_tail (L : lens) (v : Z) : C net () :=
  modifyS (λ s, L.(put) (Pktq (L.(get) s).(q_head) v (L.(get) s).(q_len)) s).
Definition put_len (L : lens) (v : Z) : C net () :=
  modifyS (λ s, L.(put) (Pktq (L.(get) s).(q_head) (L.(get) s).(q_tail) v) s).

Definition append (L : lens) (m : Z) : C net () :=
  set_nextpkt m 0;;
  q ← gets L.(get);
  (if q.(q_tail) =? 0 then put_head L m else set_nextpkt q.(q_tail) m);;
  put_tail L m;;
  q ← gets L.(get);
  n ← incr q.(q_len);
  put_len L n.

Definition prepend (L : lens) (m : Z) : C net () :=
  q ← gets L.(get);
  set_nextpkt m q.(q_head);;
  q ← gets L.(get);
  (if q.(q_tail) =? 0 then put_tail L m else mret ());;
  put_head L m;;
  q ← gets L.(get);
  n ← incr q.(q_len);
  put_len L n.

(** The removal of the head [m], which is not NULL. *)
Definition unlink (L : lens) (m : Z) : C net () :=
  b ← get_mbuf m;
  put_head L b.(m_nextpkt);;
  (if b.(m_nextpkt) =? 0 then put_tail L 0 else mret ());;
  set_nextpkt m 0;;
  q ← gets L.(get);
  n ← decr q.(q_len);
  put_len L n.

Definition _IF_QFULL : C net bool :=
  q ← gets ifq; n ← gets ifq_maxlen; mret (n <=? q.(q_len)).
Definition _IF_DROP : C net () := n ← gets ifq_drops; n ← incr n; modifyS (put_drops n).
Definition _IF_QLEN : C net Z := q ← gets ifq; mret q.(q_len).
Definition _IF_ENQUEUE (m : Z) : C net () := append main m.
Definition IF_ENQUEUE (m : Z) : C net () := IF_LOCK;; _IF_ENQUEUE m;; IF_UNLOCK.
Definition _IF_PREPEND (m : Z) : C net () := prepend main m.
Definition IF_PREPEND (m : Z) : C net () := IF_LOCK;; _IF_PREPEND m;; IF_UNLOCK.
Definition _IF_DEQUEUE : C net Z :=
  q ← gets ifq;
  if q.(q_head) =? 0 then mret 0 else unlink main q.(q_head);; mret q.(q_head).
Definition IF_DEQUEUE : C net Z := IF_LOCK;; m ← _IF_DEQUEUE; IF_UNLOCK;; mret m.
Definition _IF_POLL : C net Z := q ← gets ifq; mret q.(q_head).
Definition IF_POLL : C net Z := _IF_POLL.

Definition IFQ_SET_READY : C net () := f ← gets altq_flags; modifyS (put_flags (Z.lor f ALTQF_READY)).
Definition IFQ_LOCK : C net () := IF_LOCK.
Definition IFQ_UNLOCK : C net () := IF_UNLOCK.
Definition IFQ_IS_EMPTY : C net bool := q ← gets ifq; mret (q.(q_len) =? 0).
Definition IFQ_INC_LEN : C net () := q ← gets ifq; n ← incr q.(q_len); put_len main n.
Definition IFQ_DEC_LEN : C net () := q ← gets ifq; n ← decr q.(q_len); put_len main n.
Definition IFQ_INC_DROPS : C net () := n ← gets ifq_drops; n ← incr n; modifyS (put_drops n).
Definition IFQ_SET_MAXLEN (len : Z) : C net () := modifyS (put_maxlen len).

Definition ALTQ_IS_ENABLED : C net bool := f ← gets altq_flags; mret (c_true (Z.land f ALTQF_ENABLED)).
Definition TBR_IS_ENABLED : C net bool := t ← gets altq_tbr; mret (c_true t).

(** What the kernel outside these headers does: free a packet, start output,
    free a ring, and the queueing discipline and token bucket that a queue may
    have. *)
Class Network := {
  m_freem : Z → C net ();
  if_start : C net ();
  buf_ring_free : C net ();
  altq_enqueue : Z → C net Z;
  altq_dequeue : Z → C net Z;
  altq_request_purge : C net ();
  tbr_dequeue_ptr : Z → C net Z }.

Section Queues.
Context `{Network}.

(** The loops take fuel: a queue of [n] packets needs [n + 1] rounds. *)
Definition _IF_DRAIN (fuel : nat) : C net () :=
  while fuel () (λ _, m ← _IF_DEQUEUE; if m =? 0 then mret (inr ()) else m_freem m;; mret (inl ())).
Definition IF_DRAIN (fuel : nat) : C net () := IF_LOCK;; _IF_DRAIN fuel;; IF_UNLOCK.

Definition IFQ_ENQUEUE (m : Z) : C net Z :=
  IF_LOCK;;
  a ← ALTQ_IS_ENABLED;
  err ← (if a : bool then altq_enqueue m
         else full ← _IF_QFULL;
              if full : bool then m_freem m;; mret ENOBUFS else _IF_ENQUEUE m;; mret 0);
  (if c_true err then n ← gets ifq_drops; n ← incr n; modifyS (put_drops n) else mret ());;
  IF_UNLOCK;;
  mret err.

Definition IFQ_DEQUEUE_NOLOCK : C net Z :=
  t ← TBR_IS_ENABLED;
  if t : bool then tbr_dequeue_ptr ALTDQ_REMOVE else
  a ← ALTQ_IS_ENABLED;
  if a : bool then altq_dequeue ALTDQ_REMOVE else _IF_DEQUEUE.
Definition IFQ_DEQUEUE : C net Z := IF_LOCK;; m ← IFQ_DEQUEUE_NOLOCK; IF_UNLOCK;; mret m.

Definition IFQ_POLL_NOLOCK : C net Z :=
  t ← TBR_IS_ENABLED;
  if t : bool then tbr_dequeue_ptr ALTDQ_POLL else
  a ← ALTQ_IS_ENABLED;
  if a : bool then altq_dequeue ALTDQ_POLL else _IF_POLL.
Definition IFQ_POLL : C net Z := IF_LOCK;; m ← IFQ_POLL_NOLOCK; IF_UNLOCK;; mret m.

Definition IFQ_PURGE_NOLOCK (fuel : nat) : C net () :=
  a ← ALTQ_IS_ENABLED;
  if a : bool then altq_request_purge else _IF_DRAIN fuel.
Definition IFQ_PURGE (fuel : nat) : C net () := IF_LOCK;; IFQ_PURGE_NOLOCK fuel;; IF_UNLOCK.

(** [mflags] is a short.  The packet is not looked at after it has been handed to the queue, which
    may have freed it. *)
Definition IFQ_HANDOFF_ADJ (m adj : Z) : C net Z :=
  b ← get_mbuf m;
  let len := b.(m_pkthdr_len) in
  let mflags := signed 16 b.(m_flags) in
  err ← IFQ_ENQUEUE m;
  (if err =? 0 then
     bytes ← add_int len adj;
     s ← getS;
     modifyS (put_stats (u64 (s.(if_obytes) + bytes))
       (if c_true (Z.land mflags M_MCAST) then u64 (s.(if_omcasts) + 1) else s.(if_omcasts)));;
     f ← gets if_drv_flags;
     if Z.land f IFF_DRV_OACTIVE =? 0 then if_start else mret ()
   else mret ());;
  mret err.
Definition IFQ_HANDOFF (m : Z) : C net Z := IFQ_HANDOFF_ADJ m 0.

(** ** The queue of the driver *)

Definition IFQ_DRV_DEQUEUE (fuel : nat) : C net Z :=
  q ← gets ifq_drv;
  if negb (q.(q_head) =? 0) then unlink driver q.(q_head);; mret q.(q_head)
  else
    IFQ_LOCK;;
    m ← IFQ_DEQUEUE_NOLOCK;
    while fuel () (λ _,
      q ← gets ifq_drv;
      n ← gets ifq_drv_maxlen;
      if q.(q_len) <? n then
        m0 ← IFQ_DEQUEUE_NOLOCK;
        if m0 =? 0 then mret (inr ()) else append driver m0;; mret (inl ())
      else mret (inr ()));;
    IFQ_UNLOCK;;
    mret m.

Definition IFQ_DRV_PREPEND (m : Z) : C net () := prepend driver m.

Definition IFQ_DRV_IS_EMPTY : C net bool :=
  d ← gets ifq_drv; q ← gets ifq; mret ((d.(q_len) =? 0) && (q.(q_len) =? 0)).

Definition IFQ_DRV_PURGE (fuel : nat) : C net () :=
  d ← gets ifq_drv;
  while fuel d.(q_head) (λ n,
    if n =? 0 then mret (inr ()) else b ← get_mbuf n; m_freem n;; mret (inl b.(m_nextpkt)));;
  put_tail driver 0;;
  put_head driver 0;;
  put_len driver 0;;
  IFQ_PURGE fuel.

(** ** Rings of packets *)

(** The drbr functions have code for a kernel built with ALTQ. *)
Context (ALTQ : bool).

(** An operation on the ring of the driver. *)
Definition on_ring {A} (c : C buf_ring A) : C net A := λ s,
  match c s.(ring) with Done a b => Done a (put_ring b s.(br_drops) s) | UB => UB | Timeout => Timeout end.

Definition altq_on : C net bool := if ALTQ then ALTQ_IS_ENABLED else mret false.

Definition drbr_stats_update (len mflags : Z) : C net () :=
  s ← getS;
  modifyS (put_stats (u64 (s.(if_obytes) + len))
    (if c_true (Z.land mflags M_MCAST) then u64 (s.(if_omcasts) + 1) else s.(if_omcasts))).

Definition drbr_enqueue (fuel : nat) (m : Z) : C net Z :=
  b ← get_mbuf m;
  let len := b.(m_pkthdr_len) in
  let mflags := b.(m_flags) in
  a ← altq_on;
  if a : bool then IFQ_ENQUEUE m else
  error ← on_ring (buf_ring_enqueue_bytes fuel m len);
  (if error =? ENOBUFS then
     modifyS (λ s, put_ring s.(ring) (u64 (s.(br_drops) + 1)) s);;
     m_freem m
   else drbr_stats_update len mflags);;
  mret error.

(** [has_ifp]: whether the interface is not NULL. *)
Definition drbr_flush (fuel : nat) (has_ifp : bool) : C net () :=
  a ← (if has_ifp then altq_on else mret false);
  (if a : bool then IFQ_PURGE fuel else mret ());;
  while fuel () (λ _,
    m ← on_ring buf_ring_dequeue_sc;
    if m =? 0 then mret (inr ()) else m_freem m;; mret (inl ())).

Definition drbr_free (fuel : nat) : C net () := drbr_flush fuel false;; buf_ring_free.

Definition drbr_dequeue : C net Z :=
  a ← altq_on;
  if a : bool then IFQ_DEQUEUE else on_ring buf_ring_dequeue_sc.

Definition drbr_dequeue_cond (func : Z → C net Z) : C net Z :=
  a ← altq_on;
  if a : bool then
    IFQ_LOCK;;
    m ← IFQ_POLL_NOLOCK;
    keep ← (if m =? 0 then mret false else r ← func m; mret (r =? 0));
    if keep : bool then IFQ_UNLOCK;; mret 0 else
    m ← IFQ_DEQUEUE_NOLOCK;
    IFQ_UNLOCK;;
    mret m
  else
    m ← on_ring buf_ring_peek;
    if m =? 0 then mret 0 else
    r ← func m;
    if r =? 0 then mret 0 else on_ring buf_ring_dequeue_sc.

Definition drbr_empty : C net bool :=
  a ← altq_on;
  if a : bool then IFQ_IS_EMPTY else b ← gets ring; mret (buf_ring_empty b).
Definition drbr_needs_enqueue : C net bool :=
  a ← altq_on;
  if a : bool then mret true else b ← gets ring; mret (negb (buf_ring_empty b)).
Definition drbr_inuse : C net Z :=
  a ← altq_on;
  if a : bool then q ← gets ifq; mret q.(q_len) else b ← gets ring; mret (buf_ring_count b).

End Queues.
