(* ===== verification/IfQueueSpec.v ===== *)
(** * What the interface queues do

    The queues of IfQueue.v against lists of packets: the output queue and the
    queue of its driver together are one first-in first-out queue, and the
    ring functions of drivers are one on top of the queue of buf_ring.h. *)

From S2P Require Import Prelude.
From S2P Require Import BufRing.
From S2P Require Import IfQueue.

(** ** Chains of packets *)

Fixpoint chain (M : gmap Z mbuf) (p : Z) (l : list Z) : Prop :=
  match l with
  | [] => p = 0
  | m :: l => p = m ∧ m ≠ 0 ∧ ∃ b, M !! m = Some b ∧ chain M b.(m_nextpkt) l
  end.

Record queued (M : gmap Z mbuf) (Q : pktq) (l : list Z) : Prop := {
  qd_chain : chain M Q.(q_head) l;
  qd_tail : Q.(q_tail) = default 0 (last l);
  qd_len : Q.(q_len) = Z.of_nat (length l) }.

(** Another link of a packet. *)
Definition relink (v : Z) (b : mbuf) : mbuf := Mbuf v b.(m_pkthdr_len) b.(m_flags).

Lemma chain_insert M p l m b : m ∉ l → chain M p l → chain (<[m := b]> M) p l.
Proof.
  revert p. induction l as [|x l IH]; intros p Hm Hc; [done|]. simpl in *. destruct Hc as (-> & Hx & c & Hl & Hc).
  apply not_elem_of_cons in Hm as [Hne Hm]. split; [done|]. split; [done|]. exists c.
  rewrite lookup_insert_ne by done. split; [done|]. by apply IH.
Qed.

Lemma chain_delete M p l m : m ∉ l → chain M p l → chain (delete m M) p l.
Proof.
  revert p. induction l as [|x l IH]; intros p Hm Hc; [done|]. simpl in *. destruct Hc as (-> & Hx & c & Hl & Hc).
  apply not_elem_of_cons in Hm as [Hne Hm]. split; [done|]. split; [done|]. exists c.
  rewrite lookup_delete_ne by done. split; [done|]. by apply IH.
Qed.

Lemma chain_live M p l m : chain M p l → m ∈ l → m ≠ 0 ∧ ∃ b, M !! m = Some b.
Proof.
  revert p. induction l as [|x l IH]; intros p Hc Hm; [by apply elem_of_nil in Hm|].
  simpl in Hc. destruct Hc as (-> & Hx & c & Hl & Hc). apply elem_of_cons in Hm as [->|Hm]; [by split; [|exists c]|by eapply IH].
Qed.

(** A packet [m] behind the last one. *)
Lemma chain_snoc M p l t b m bm :
  NoDup (l ++ [t]) → m ∉ l ++ [t] → m ≠ 0 → chain M p (l ++ [t]) → M !! t = Some b → M !! m = Some bm → m_nextpkt bm = 0 →
  chain (<[t := relink m b]> M) p (l ++ [t] ++ [m]).
Proof.
  revert p. induction l as [|x l IH]; intros p Hnd Hm Hm0 Hc Ht Hbm Hz; simpl in *.
  - destruct Hc as (-> & Ht0 & c & Hl & Hc). split; [done|]. split; [done|]. exists (relink m b).
    rewrite lookup_insert_eq. split; [done|]. simpl. split; [done|]. split; [done|]. exists bm.
    rewrite lookup_insert_ne; [done|]. intros ->. apply Hm. by left.
  - destruct Hc as (-> & Hx & c & Hl & Hc). apply NoDup_cons in Hnd as [Hxl Hnd]. apply not_elem_of_cons in Hm as [Hne Hm].
    split; [done|]. split; [done|]. exists c. rewrite lookup_insert_ne.
    + split; [done|]. by apply IH.
    + intros ->. apply Hxl. set_solver.
Qed.

Lemma last_snoc_default (l : list Z) m : default 0 (last (l ++ [m])) = m.
Proof. by rewrite last_snoc. Qed.

(** ** The three ways a queue changes *)

Definition appended (M : gmap Z mbuf) (Q : pktq) (m : Z) (bm : mbuf) : gmap Z mbuf :=
  let M1 := <[m := relink 0 bm]> M in
  if Q.(q_tail) =? 0 then M1
  else match M1 !! Q.(q_tail) with Some b => <[Q.(q_tail) := relink m b]> M1 | None => M1 end.
Definition appended_q (Q : pktq) (m : Z) : pktq :=
  Pktq (if Q.(q_tail) =? 0 then m else Q.(q_head)) m (Q.(q_len) + 1).

Lemma snoc_cases {A} (l : list A) : l = [] ∨ ∃ l' t, l = l' ++ [t].
Proof. destruct l as [|x l _] using rev_ind; [by left|right; by exists l, x]. Qed.

Lemma queued_append M Q l m bm :
  queued M Q l → NoDup l → m ∉ l → m ≠ 0 → M !! m = Some bm → queued (appended M Q m bm) (appended_q Q m) (l ++ [m]).
Proof.
  intros [Hc Ht Hn] Hnd Hm Hm0 Hbm. unfold appended, appended_q. destruct (snoc_cases l) as [->|(l' & t & ->)].
  - simpl in *. rewrite Ht. split; simpl; [|done|lia]. split; [done|]. split; [done|]. exists (relink 0 bm).
    by rewrite lookup_insert_eq.
  - rewrite last_snoc_default in Ht. rewrite Ht.
    destruct (chain_live M _ _ t Hc ltac:(set_solver)) as (Ht0 & b & Hb).
    rewrite (proj2 (Z.eqb_neq t 0) Ht0). rewrite lookup_insert_ne by (intros ->; set_solver). rewrite Hb.
    split; simpl; [|by rewrite last_snoc_default|rewrite !length_app in *; simpl in *; lia].
    rewrite <- app_assoc. eapply (chain_snoc _ _ l' t b m (relink 0 bm)); [done|done|done|by apply chain_insert| | |done].
    + rewrite lookup_insert_ne by (intros ->; set_solver). done.
    + by rewrite lookup_insert_eq.
Qed.

Lemma queued_prepend M Q l m bm :
  queued M Q l → m ∉ l → m ≠ 0 → M !! m = Some bm →
  queued (<[m := relink Q.(q_head) bm]> M) (Pktq m (if Q.(q_tail) =? 0 then m else Q.(q_tail)) (Q.(q_len) + 1)) (m :: l).
Proof.
  intros [Hc Ht Hn] Hm Hm0 Hbm. split; simpl; [| |lia].
  - split; [done|]. split; [done|]. exists (relink (q_head Q) bm). rewrite lookup_insert_eq. split; [done|]. by apply chain_insert.
  - destruct (snoc_cases l) as [->|(l' & t & ->)]; [by rewrite Ht|].
    rewrite last_snoc_default in Ht. rewrite Ht. destruct (chain_live M _ _ t Hc ltac:(set_solver)) as (Ht0 & _).
    rewrite (proj2 (Z.eqb_neq t 0) Ht0). change (m :: l' ++ [t]) with ((m :: l') ++ [t]). by rewrite last_snoc_default.
Qed.

Lemma queued_pop M Q m l b :
  queued M Q (m :: l) → m ∉ l → M !! m = Some b →
  q_head Q = m ∧ m ≠ 0 ∧ queued (<[m := relink 0 b]> M) (Pktq b.(m_nextpkt) (if b.(m_nextpkt) =? 0 then 0 else Q.(q_tail)) (Q.(q_len) - 1)) l.
Proof.
  intros [Hc Ht Hn] Hm Hb. simpl in Hc. destruct Hc as (Hh & Hm0 & c & Hl & Hc). simplify_eq.
  split; [done|]. split; [done|]. split; simpl.
  - by apply chain_insert.
  - destruct l as [|x l]; simpl in Hc; [by rewrite Hc|]. destruct Hc as (-> & Hx & _).
    rewrite (proj2 (Z.eqb_neq x 0) Hx), Ht. done.
  - simpl in Hn. lia.
Qed.

(** A queue that none of the changed packets belongs to stays as it is. *)
Lemma queued_insert M Q l m b : m ∉ l → queued M Q l → queued (<[m := b]> M) Q l.
Proof. intros Hm [Hc Ht Hn]. split; [by apply chain_insert|done|done]. Qed.

Lemma queued_delete M Q l m : m ∉ l → queued M Q l → queued (delete m M) Q l.
Proof. intros Hm [Hc Ht Hn]. split; [by apply chain_delete|done|done]. Qed.

Lemma queued_appended M Q l Q' l' m bm :
  m ∉ l → (∀ x, x ∈ l' → x ∉ l) → queued M Q l → queued M Q' l' → queued (appended M Q' m bm) Q l.
Proof.
  intros Hm Hd Hq [Hc Ht _]. unfold appended. destruct (Z.eqb_spec (q_tail Q') 0) as [|Hne]; [by apply queued_insert|].
  case_match; [|by apply queued_insert]. apply queued_insert; [|by apply queued_insert].
  destruct (snoc_cases l') as [->|(l2 & t & ->)]; [done|]. rewrite last_snoc_default in Ht. rewrite Ht. apply Hd. set_solver.
Qed.

(** ** Running the code *)

Lemma get_mbuf_run s m b : s.(mbufs) !! m = Some b → get_mbuf m s = Done b s.
Proof. intros H. unfold get_mbuf. by rewrite H. Qed.

Lemma set_nextpkt_run s m b v : s.(mbufs) !! m = Some b → set_nextpkt m v s = Done () (put_mbufs (<[m := relink v b]> s.(mbufs)) s).
Proof. intros H. unfold set_nextpkt. by rewrite (bind_done _ _ _ _ _ (get_mbuf_run s m b H)). Qed.

Lemma incr_run s n : n < INT_MAX → incr n s = Done (n + 1) s.
Proof. intros H. unfold incr. by rewrite (proj2 (Z.ltb_lt _ _) H). Qed.

Lemma decr_run s n : 0 < n → decr n s = Done (n - 1) s.
Proof. intros H. unfold decr. rewrite (proj2 (Z.ltb_lt _ _)); [done|]. unfold INT_MAX. lia. Qed.

(** The fields of one queue apart from the rest. *)
Class Queue (L : lens) : Prop := {
  get_put s v : L.(get) (L.(put) v s) = v;
  put_put s v w : L.(put) v (L.(put) w s) = L.(put) v s;
  get_mbufs s M : L.(get) (put_mbufs M s) = L.(get) s;
  mbufs_put s v : (L.(put) v s).(mbufs) = s.(mbufs);
  put_mbufs_put s v M : put_mbufs M (L.(put) v s) = L.(put) v (put_mbufs M s) }.

#[export] Instance main_queue : Queue main.
Proof. by split. Qed.
#[export] Instance driver_queue : Queue driver.
Proof. by split. Qed.

Section Run.
Context `{HL : Queue L} (s : net).

Ltac lens_simpl := rewrite ?get_put, ?get_mbufs, ?mbufs_put, ?put_mbufs_put, ?put_put; cbn [q_head q_tail q_len].

Lemma put_head_run t v : put_head L v t = Done () (L.(put) (Pktq v (q_tail (L.(get) t)) (q_len (L.(get) t))) t).
Proof. done. Qed.
Lemma put_tail_run t v : put_tail L v t = Done () (L.(put) (Pktq (q_head (L.(get) t)) v (q_len (L.(get) t))) t).
Proof. done. Qed.
Lemma put_len_run t v : put_len L v t = Done () (L.(put) (Pktq (q_head (L.(get) t)) (q_tail (L.(get) t)) v) t).
Proof. done. Qed.
Lemma gets_run {A} (f : net → A) t : gets f t = Done (f t) t.
Proof. done. Qed.

Lemma append_run m bm :
  s.(mbufs) !! m = Some bm → q_len (L.(get) s) < INT_MAX →
  (q_tail (L.(get) s) = 0 ∨ ∃ b, s.(mbufs) !! q_tail (L.(get) s) = Some b) →
  append L m s = Done () (L.(put) (appended_q (L.(get) s) m) (put_mbufs (appended s.(mbufs) (L.(get) s) m bm) s)).
Proof.
  intros Hm Hlen Ht. unfold append, appended, appended_q. rewrite (bind_done _ _ _ _ _ (set_nextpkt_run s m bm 0 Hm)).
  rewrite (bind_done _ _ _ _ _ (gets_run _ _)). lens_simpl. destruct (Z.eqb_spec (q_tail (get L s)) 0) as [Hz|Hz].
  - rewrite (bind_done _ _ _ _ _ (put_head_run _ _)). lens_simpl. rewrite (bind_done _ _ _ _ _ (put_tail_run _ _)). lens_simpl.
    rewrite (bind_done _ _ _ _ _ (gets_run _ _)). lens_simpl. rewrite (bind_done _ _ _ _ _ (incr_run _ _ Hlen)), put_len_run. by lens_simpl.
  - destruct Ht as [|[b Hb]]; [done|].
    assert (∃ c, <[m := relink 0 bm]> (mbufs s) !! q_tail (get L s) = Some c) as [c Hc].
    { destruct (decide (q_tail (get L s) = m)) as [->|]; [rewrite lookup_insert_eq; by eexists|].
      rewrite lookup_insert_ne by done. by exists b. }
    rewrite Hc.
    rewrite (bind_done _ _ _ _ _ (set_nextpkt_run (put_mbufs (<[m := relink 0 bm]> (mbufs s)) s) _ c m Hc)).
    rewrite (bind_done _ _ _ _ _ (put_tail_run _ _)). lens_simpl. rewrite (bind_done _ _ _ _ _ (gets_run _ _)). lens_simpl.
    rewrite (bind_done _ _ _ _ _ (incr_run _ _ Hlen)), put_len_run. by lens_simpl.
Qed.

Lemma prepend_run m bm :
  s.(mbufs) !! m = Some bm → q_len (L.(get) s) < INT_MAX →
  prepend L m s = Done () (L.(put) (Pktq m (if q_tail (L.(get) s) =? 0 then m else q_tail (L.(get) s)) (q_len (L.(get) s) + 1))
    (put_mbufs (<[m := relink (q_head (L.(get) s)) bm]> s.(mbufs)) s)).
Proof.
  intros Hm Hlen. unfold prepend. rewrite (bind_done _ _ _ _ _ (gets_run _ _)).
  rewrite (bind_done _ _ _ _ _ (set_nextpkt_run s m bm _ Hm)). rewrite (bind_done _ _ _ _ _ (gets_run _ _)). lens_simpl.
  destruct (q_tail (get L s) =? 0).
  - rewrite (bind_done _ _ _ _ _ (put_tail_run _ _)). lens_simpl. rewrite (bind_done _ _ _ _ _ (put_head_run _ _)). lens_simpl.
    rewrite (bind_done _ _ _ _ _ (gets_run _ _)). lens_simpl. rewrite (bind_done _ _ _ _ _ (incr_run _ _ Hlen)), put_len_run. by lens_simpl.
  - rewrite bind_ret, (bind_done _ _ _ _ _ (put_head_run _ _)). lens_simpl.
    rewrite (bind_done _ _ _ _ _ (gets_run _ _)). lens_simpl. rewrite (bind_done _ _ _ _ _ (incr_run _ _ Hlen)), put_len_run. by lens_simpl.
Qed.

Lemma unlink_run m b :
  s.(mbufs) !! m = Some b → 0 < q_len (L.(get) s) →
  unlink L m s = Done () (L.(put) (Pktq b.(m_nextpkt) (if b.(m_nextpkt) =? 0 then 0 else q_tail (L.(get) s)) (q_len (L.(get) s) - 1))
    (put_mbufs (<[m := relink 0 b]> s.(mbufs)) s)).
Proof.
  intros Hm Hlen. unfold unlink. rewrite (bind_done _ _ _ _ _ (get_mbuf_run s m b Hm)).
  rewrite (bind_done _ _ _ _ _ (put_head_run _ _)). destruct (m_nextpkt b =? 0).
  - rewrite (bind_done _ _ _ _ _ (put_tail_run _ _)). lens_simpl.
    erewrite bind_done; [|eapply set_nextpkt_run; lens_simpl; exact Hm]. lens_simpl.
    rewrite (bind_done _ _ _ _ _ (gets_run _ _)). lens_simpl. rewrite (bind_done _ _ _ _ _ (decr_run _ _ Hlen)), put_len_run. by lens_simpl.
  - rewrite bind_ret. erewrite bind_done; [|eapply set_nextpkt_run; lens_simpl; exact Hm]. lens_simpl.
    rewrite (bind_done _ _ _ _ _ (gets_run _ _)). lens_simpl. rewrite (bind_done _ _ _ _ _ (decr_run _ _ Hlen)), put_len_run. by lens_simpl.
Qed.
End Run.

(** ** Both queues *)

Class Apart (L L' : lens) : Prop := {
  apart_l :: Queue L;
  apart_r :: Queue L';
  get_other s v : L'.(get) (L.(put) v s) = L'.(get) s;
  rest_put s v M : L.(put) v (put_mbufs M s) =
    put_drv (ifq_drv (L.(put) v (put_mbufs M s))) (put_ifq (ifq (L.(put) v (put_mbufs M s))) (put_mbufs M s)) }.

#[export] Instance main_driver : Apart main driver.
Proof. split; (apply _ || by intros [] [] || by intros [] ? ?). Qed.
#[export] Instance driver_main : Apart driver main.
Proof. split; (apply _ || by intros [] [] || by intros [] ? ?). Qed.

(** The queues [L] and [L'] hold [l] and [l'], and share no packet. *)
Record both_hold (L L' : lens) (s : net) (l l' : list Z) : Prop := {
  h_l : queued s.(mbufs) (L.(get) s) l;
  h_r : queued s.(mbufs) (L'.(get) s) l';
  h_nodup : NoDup (l ++ l') }.

Lemma holds_swap L L' s l l' : both_hold L L' s l l' → both_hold L' L s l' l.
Proof. intros [H1 H2 H3]. split; [done|done|]. by rewrite Permutation_app_comm. Qed.

(** The size and the flags of a packet. *)
Definition strip (b : mbuf) : Z * Z := (b.(m_pkthdr_len), b.(m_flags)).

(** Nothing but the queues changes, and of the packets only their links; the
    packets [X] are freed. *)
Record effect (s s' : net) (X : list Z) : Prop := {
  ef_rest : s' = put_drv (ifq_drv s') (put_ifq (ifq s') (put_mbufs (mbufs s') s));
  ef_packets : ∀ p, strip <$> s'.(mbufs) !! p = if bool_decide (p ∈ X) then None else strip <$> s.(mbufs) !! p }.

Lemma effect_refl s : effect s s [].
Proof. split; [by destruct s|done]. Qed.

Lemma effect_trans s s' s'' X Y : effect s s' X → effect s' s'' Y → effect s s'' (X ++ Y).
Proof.
  intros [R1 P1] [R2 P2]. split.
  - rewrite R2 at 1. rewrite R1 at 1. done.
  - intros p. rewrite P2, P1. repeat case_bool_decide; set_solver.
Qed.

(** Both with their conditions, for the lemmas below. *)
Definition goes (L L' : lens) (s s' : net) (l l' X : list Z) : Prop := both_hold L L' s' l l' ∧ effect s s' X.

Lemma strip_insert (M : gmap Z mbuf) m b v p : M !! m = Some b → strip <$> <[m := relink v b]> M !! p = strip <$> M !! p.
Proof.
  intros Hm. destruct (decide (p = m)) as [->|]; [rewrite lookup_insert_eq, Hm; done|by rewrite lookup_insert_ne].
Qed.

Lemma strip_appended M Q m bm p : M !! m = Some bm → strip <$> appended M Q m bm !! p = strip <$> M !! p.
Proof.
  intros Hm. unfold appended. case_match; [by apply strip_insert|]. case_match eqn:E; [|by apply strip_insert].
  rewrite strip_insert by done. by apply strip_insert.
Qed.

Lemma effect_put L L' `{Apart L L'} s Q M :
  (∀ p, strip <$> M !! p = strip <$> s.(mbufs) !! p) → effect s (L.(put) Q (put_mbufs M s)) [].
Proof.
  intros Hp. split.
  - rewrite rest_put at 1. do 2 f_equal. by rewrite mbufs_put.
  - intros p. by rewrite mbufs_put, bool_decide_eq_false_2 by apply not_elem_of_nil.
Qed.

Section Moves.
Context `{HA : Apart L L'} (s : net) (l l' : list Z).
Hypothesis HS : both_hold L L' s l l'.
Hypothesis Hlen : Z.of_nat (length (l ++ l')) < INT_MAX.

Lemma len_bound : q_len (L.(get) s) < INT_MAX.
Proof. rewrite (qd_len _ _ _ (h_l _ _ _ _ _ HS)). rewrite length_app in Hlen. lia. Qed.

Lemma tail_live : q_tail (L.(get) s) = 0 ∨ ∃ b, s.(mbufs) !! q_tail (L.(get) s) = Some b.
Proof.
  destruct (h_l _ _ _ _ _ HS) as [Hc Ht _]. rewrite Ht. destruct (snoc_cases l) as [->|(k & t & ->)]; [by left|].
  right. rewrite last_snoc_default. apply (chain_live _ _ _ t) in Hc as [_ ?]; [done|set_solver].
Qed.

Lemma append_ok m bm : s.(mbufs) !! m = Some bm → m ≠ 0 → m ∉ l ++ l' →
  ∃ s', append L m s = Done () s' ∧ goes L L' s s' (l ++ [m]) l' [].
Proof.
  intros Hm Hm0 Hnew. pose proof HS as [Hl Hr Hnd]. apply not_elem_of_app in Hnew as [N1 N2].
  pose proof Hnd as (Nd1 & Nx & Nd2)%NoDup_app.
  eexists. split; [apply (append_run s m bm Hm len_bound tail_live)|]. split.
  - split.
    + rewrite mbufs_put, get_put. by apply queued_append.
    + rewrite mbufs_put, get_other, get_mbufs. by apply (queued_appended _ _ _ _ l).
    + rewrite <- app_assoc. apply NoDup_app. split; [done|]. split; [|apply NoDup_cons; done].
      intros x Hx [->|Hx']%elem_of_cons; [done|]. by apply (Nx x).
  - apply (effect_put L L'). intros p. by apply strip_appended.
Qed.

Lemma prepend_ok m bm : s.(mbufs) !! m = Some bm → m ≠ 0 → m ∉ l ++ l' →
  ∃ s', prepend L m s = Done () s' ∧ goes L L' s s' (m :: l) l' [].
Proof.
  intros Hm Hm0 Hnew. pose proof HS as [Hl Hr Hnd]. pose proof Hnew as [N1 N2]%not_elem_of_app.
  eexists. split; [apply (prepend_run s m bm Hm len_bound)|]. split.
  - split.
    + rewrite mbufs_put, get_put. by apply queued_prepend.
    + rewrite mbufs_put, get_other, get_mbufs. by apply queued_insert.
    + simpl. by apply NoDup_cons.
  - apply (effect_put L L'). intros p. by apply strip_insert.
Qed.
End Moves.

Lemma if_unlink_ok `{HA : Apart L L'} s m l l' : both_hold L L' s (m :: l) l' →
  q_head (L.(get) s) = m ∧ m ≠ 0 ∧ (∃ b, s.(mbufs) !! m = Some b) ∧
  ∃ s', unlink L m s = Done () s' ∧ goes L L' s s' l l' [].
Proof.
  intros [Hl Hr Hnd]. simpl in Hnd. apply NoDup_cons in Hnd as [Hm Hnd]. apply not_elem_of_app in Hm as [N1 N2].
  destruct (chain_live _ _ _ m (qd_chain _ _ _ Hl) ltac:(by left)) as (_ & b & Hb).
  destruct (queued_pop _ _ m l b Hl N1 Hb) as (Hh & Hm0 & Hq). split; [done|]. split; [done|]. split; [by exists b|].
  assert (0 < q_len (L.(get) s)) by (rewrite (qd_len _ _ _ Hl); simpl; lia).
  eexists. split; [by apply (unlink_run s m b)|]. split.
  - split; [by rewrite mbufs_put, get_put| |done]. rewrite mbufs_put, get_other, get_mbufs. by apply queued_insert.
  - apply (effect_put L L'). intros p. by apply strip_insert.
Qed.

Lemma head_empty `{HA : Apart L L'} s l' : both_hold L L' s [] l' → q_head (L.(get) s) = 0.
Proof. intros [[Hc _ _] _ _]. exact Hc. Qed.

(** ** The output queue *)

Abbreviation rep := (both_hold main driver).
Abbreviation becomes := (goes main driver).

(** No discipline and no token bucket are in use. *)
Definition plain (s : net) : Prop := Z.land s.(altq_flags) ALTQF_ENABLED = 0 ∧ s.(altq_tbr) = 0.

(** A packet outside the queues. *)
Definition loose (s : net) (q d : list Z) (m : Z) : Prop := m ≠ 0 ∧ m ∉ q ++ d ∧ ∃ b, s.(mbufs) !! m = Some b.

Lemma goes_refl s q d : rep s q d → becomes s s q d [].
Proof. intros H. split; [done|apply effect_refl]. Qed.

Lemma goes_trans s s' s'' q q' d d' X Y : becomes s s' q d X → becomes s' s'' q' d' Y → becomes s s'' q' d' (X ++ Y).
Proof. intros [_ E] [R E']. split; [done|by eapply effect_trans]. Qed.

Lemma effect_plain s s' X : effect s s' X → plain s → plain s'.
Proof. intros [R _]. rewrite R. by destruct s. Qed.

Lemma effect_mtx s s' X : effect s s' X → s'.(ifq_mtx) = s.(ifq_mtx).
Proof. intros [R _]. rewrite R. by destruct s. Qed.

Lemma rep_mtx s q d b : rep s q d → rep (put_mtx b s) q d.
Proof. intros [H1 H2 H3]. by split. Qed.

Lemma rep_drops s q d n : rep s q d → rep (put_drops n s) q d.
Proof. intros [H1 H2 H3]. by split. Qed.

(** A critical section. *)
Lemma locked s s2 q d X : s.(ifq_mtx) = false → becomes (put_mtx true s) s2 q d X →
  IF_LOCK s = Done () (put_mtx true s) ∧ IF_UNLOCK s2 = Done () (put_mtx false s2) ∧ becomes s (put_mtx false s2) q d X.
Proof.
  intros Hs [R E]. split; [|split].
  - unfold IF_LOCK. rewrite (bind_done _ _ _ _ _ (gets_run _ _)), Hs. done.
  - unfold IF_UNLOCK. rewrite (bind_done _ _ _ _ _ (gets_run _ _)), (effect_mtx _ _ _ E). done.
  - split; [by apply rep_mtx|]. destruct E as [E1 E2]. split; [|exact E2].
    rewrite E1 at 1. destruct s. simpl in *. by rewrite Hs.
Qed.

Lemma if_dequeue_ok s q d : rep s q d → ∃ s', _IF_DEQUEUE s = Done (hd 0 q) s' ∧ becomes s s' (tail q) d [].
Proof.
  intros R. unfold _IF_DEQUEUE. rewrite (bind_done _ _ _ _ _ (gets_run _ _)). destruct q as [|m q].
  - change (ifq s) with (get main s). rewrite (head_empty s d R). exists s. split; [done|by apply goes_refl].
  - destruct (if_unlink_ok s m q d R) as (Hh & Hm0 & _ & s' & E & G). change (ifq s) with (get main s).
    rewrite Hh, (proj2 (Z.eqb_neq m 0) Hm0), (bind_done _ _ _ _ _ E). by exists s'.
Qed.

Lemma deq_loose s s' m q d : rep s (m :: q) d → becomes s s' q d [] → loose s' q d m.
Proof.
  intros [Hl _ Hnd] [_ E]. destruct (chain_live _ _ _ m (qd_chain _ _ _ Hl) ltac:(by left)) as (Hm0 & b & Hb).
  simpl in Hnd. apply NoDup_cons in Hnd as [Hm _]. split; [done|]. split; [done|].
  pose proof (ef_packets _ _ _ E m) as P. rewrite Hb, bool_decide_eq_false_2 in P by apply not_elem_of_nil.
  destruct (mbufs s' !! m) as [b'|]; [by exists b'|done].
Qed.

Section Spec.
Context `{Network}.

Lemma altq_off s : plain s → ALTQ_IS_ENABLED s = Done false s.
Proof. intros [Hp _]. unfold ALTQ_IS_ENABLED. rewrite (bind_done _ _ _ _ _ (gets_run _ _)), Hp. done. Qed.

Lemma tbr_off s : plain s → TBR_IS_ENABLED s = Done false s.
Proof. intros [_ Hp]. unfold TBR_IS_ENABLED. rewrite (bind_done _ _ _ _ _ (gets_run _ _)), Hp. done. Qed.

Lemma dequeue_nolock s : plain s → IFQ_DEQUEUE_NOLOCK s = _IF_DEQUEUE s.
Proof. intros P. unfold IFQ_DEQUEUE_NOLOCK. by rewrite (bind_done _ _ _ _ _ (tbr_off s P)), (bind_done _ _ _ _ _ (altq_off s P)). Qed.

Lemma poll_nolock s : plain s → IFQ_POLL_NOLOCK s = _IF_POLL s.
Proof. intros P. unfold IFQ_POLL_NOLOCK. by rewrite (bind_done _ _ _ _ _ (tbr_off s P)), (bind_done _ _ _ _ _ (altq_off s P)). Qed.

Lemma IFQ_DEQUEUE_ok s q d : rep s q d → plain s → s.(ifq_mtx) = false →
  ∃ s', IFQ_DEQUEUE s = Done (hd 0 q) s' ∧ becomes s s' (tail q) d [].
Proof.
  intros R P Hu. destruct (if_dequeue_ok (put_mtx true s) q d (rep_mtx s q d true R)) as (s2 & E & G).
  destruct (locked s s2 _ _ _ Hu G) as (El & Eu & G'). eexists. split; [|exact G'].
  unfold IFQ_DEQUEUE. rewrite (bind_done _ _ _ _ _ El). erewrite bind_done; [|rewrite dequeue_nolock by exact P; exact E].
  by rewrite (bind_done _ _ _ _ _ Eu).
Qed.

Lemma IFQ_POLL_ok s q d : rep s q d → plain s → s.(ifq_mtx) = false → IFQ_POLL s = Done (hd 0 q) s.
Proof.
  intros R P Hu. destruct (locked s (put_mtx true s) q d [] Hu (goes_refl _ _ _ (rep_mtx s q d true R))) as (El & Eu & _).
  unfold IFQ_POLL. rewrite (bind_done _ _ _ _ _ El).
  erewrite bind_done; [|rewrite poll_nolock by exact P; exact (eq_refl : _IF_POLL (put_mtx true s) = Done (q_head (ifq s)) _)].
  rewrite (bind_done _ _ _ _ _ Eu). replace (put_mtx false (put_mtx true s)) with s by (destruct s; simpl in *; by rewrite Hu).
  destruct R as [[Hc _ _] _ _]. destruct q; simpl in *; [by rewrite Hc|]. by destruct Hc as [-> _].
Qed.

(** Refilling the queue of the driver moves packets and keeps their order. *)
Lemma refill_ok fuel s q d :
  rep s q d → plain s → (length q < fuel)%nat → Z.of_nat (length (q ++ d)) < INT_MAX →
  ∃ s' q' d', while fuel () (λ _,
      q ← gets ifq_drv;
      n ← gets ifq_drv_maxlen;
      if q.(q_len) <? n then
        m0 ← IFQ_DEQUEUE_NOLOCK;
        if m0 =? 0 then mret (inr ()) else append driver m0;; mret (inl ())
      else mret (inr ())) s = Done () s' ∧
    d' ++ q' = d ++ q ∧ becomes s s' q' d' [] ∧ (q' = [] ∨ s.(ifq_drv_maxlen) ≤ Z.of_nat (length d')).
Proof.
  revert s q d. induction fuel as [|fuel IH]; intros s q d R P Hf Hb; [lia|]. cbn [while].
  rewrite !bind_assoc, (bind_done _ _ _ _ _ (gets_run _ _)), !bind_assoc, (bind_done _ _ _ _ _ (gets_run _ _)).
  change (ifq_drv s) with (get driver s). rewrite (qd_len _ _ _ (h_r _ _ _ _ _ R)).
  destruct (Z.ltb_spec (Z.of_nat (length d)) (ifq_drv_maxlen s)) as [Hlt|Hge].
  2:{ exists s, q, d. split; [done|]. split; [done|]. split; [by apply goes_refl|by right]. }
  destruct (if_dequeue_ok s q d R) as (s1 & E & G). rewrite !bind_assoc. erewrite bind_done; [|rewrite dequeue_nolock by done; exact E].
  destruct q as [|m q]; simpl hd in *; simpl tail in *.
  { exists s1, [], d. split; [done|]. split; [done|]. split; [done|by left]. }
  destruct (deq_loose s s1 m q d R G) as (Hm0 & Hnew & b & Hmb). rewrite (proj2 (Z.eqb_neq m 0) Hm0).
  pose proof G as [R1 E1].
  destruct (append_ok s1 d q (holds_swap _ _ _ _ _ R1) ltac:(rewrite !length_app in *; simpl in *; lia) m b Hmb Hm0) as (s2 & E2 & G2).
  { intros Hin. apply Hnew. set_solver. }
  rewrite !bind_assoc, (bind_done _ _ _ _ _ E2), bind_ret.
  assert (G2' : becomes s1 s2 q (d ++ [m]) []) by (destruct G2; split; [by apply holds_swap|done]).
  destruct (IH s2 q (d ++ [m])) as (s3 & q' & d' & E3 & Ho & G3 & Hend).
  - by destruct G2'.
  - by eapply effect_plain, effect_plain; [apply G2'|apply G|].
  - simpl in Hf. lia.
  - rewrite !length_app in *. simpl in *. lia.
  - exists s3, q', d'. split; [done|]. split; [by rewrite Ho, <- app_assoc|]. split.
    + apply (goes_trans s s1 s3 q q' d d' [] []); [done|]. by apply (goes_trans s1 s2 s3 q q' (d ++ [m]) d' [] []).
    + destruct Hend as [|Hend]; [by left|right].
      destruct (effect_trans _ _ _ _ _ E1 (proj2 G2')) as [R' _]. rewrite R' in Hend. exact Hend.
Qed.

Lemma IFQ_DRV_DEQUEUE_ok fuel s q d :
  rep s q d → plain s → s.(ifq_mtx) = false → (length q < fuel)%nat → Z.of_nat (length (q ++ d)) < INT_MAX →
  ∃ s' q' d', IFQ_DRV_DEQUEUE fuel s = Done (hd 0 (d ++ q)) s' ∧ becomes s s' q' d' [] ∧ d' ++ q' = tail (d ++ q).
Proof.
  intros R P Hu Hf Hb. unfold IFQ_DRV_DEQUEUE. rewrite (bind_done _ _ _ _ _ (gets_run _ _)). change (ifq_drv s) with (get driver s).
  destruct d as [|m d].
  - rewrite (head_empty s q (holds_swap _ _ _ _ _ R)). cbn [negb Z.eqb].
    destruct (if_dequeue_ok (put_mtx true s) q [] (rep_mtx _ _ _ true R)) as (s1 & E1 & G1).
    assert (P1 : plain s1) by (by eapply effect_plain; [apply G1|]).
    destruct (refill_ok fuel s1 (tail q) [] (proj1 G1) P1) as (s2 & q' & d' & E2 & Ho & G2 & _).
    { destruct q; simpl in *; lia. }
    { rewrite length_app in *. destruct q; simpl in *; lia. }
    pose proof (goes_trans _ _ _ _ _ _ _ _ _ G1 G2) as G. destruct (locked s s2 _ _ _ Hu G) as (El & Eu & G').
    exists (put_mtx false s2), q', d'. split; [|by split].
    unfold IFQ_LOCK. rewrite (bind_done _ _ _ _ _ El). erewrite bind_done; [|rewrite dequeue_nolock by exact P; exact E1].
    rewrite (bind_done _ _ _ _ _ E2). unfold IFQ_UNLOCK. by rewrite (bind_done _ _ _ _ _ Eu).
  - destruct (if_unlink_ok s m d q (holds_swap _ _ _ _ _ R)) as (Hh & Hm0 & _ & s' & E & G).
    rewrite Hh, (proj2 (Z.eqb_neq m 0) Hm0). cbn [negb]. rewrite (bind_done _ _ _ _ _ E).
    exists s', q, d. split; [done|]. split; [|done]. destruct G. split; [by apply holds_swap|done].
Qed.

Lemma IFQ_DRV_PREPEND_ok s q d m :
  rep s q d → loose s q d m → Z.of_nat (length (q ++ d)) < INT_MAX →
  ∃ s', IFQ_DRV_PREPEND m s = Done () s' ∧ becomes s s' q (m :: d) [].
Proof.
  intros R (Hm0 & Hm & b & Hmb) Hb.
  destruct (prepend_ok s d q (holds_swap _ _ _ _ _ R) ltac:(rewrite !length_app in *; lia) m b Hmb Hm0) as (s' & E & [R' E']).
  { intros Hin. apply Hm. set_solver. }
  exists s'. split; [done|]. split; [by apply holds_swap|done].
Qed.

Lemma IFQ_DRV_IS_EMPTY_ok s q d : rep s q d → IFQ_DRV_IS_EMPTY s = Done (bool_decide (d ++ q = [])) s.
Proof.
  intros R. unfold IFQ_DRV_IS_EMPTY. rewrite !(bind_done _ _ _ _ _ (gets_run _ _)). unfold mret, C_ret. f_equal.
  pose proof (qd_len _ _ _ (h_l _ _ _ _ _ R)) as L1. pose proof (qd_len _ _ _ (h_r _ _ _ _ _ R)) as L2. simpl in L1, L2.
  rewrite L1, L2. by destruct d, q.
Qed.
End Spec.

(** ** Freeing packets *)

(** m_freem releases a packet and does nothing else that matters here. *)
Class Frees `{Network} : Prop :=
  m_freem_deletes s m b : s.(mbufs) !! m = Some b → m_freem m s = Done () (put_mbufs (delete m s.(mbufs)) s).

Section Freeing.
Context `{Frees}.

Lemma free_ok s q d m : rep s q d → loose s q d m → ∃ s', m_freem m s = Done () s' ∧ becomes s s' q d [m].
Proof.
  intros [Hl Hr Hnd] (Hm0 & Hm & b & Hb). eexists. split; [by apply (m_freem_deletes _ _ b)|].
  apply not_elem_of_app in Hm as [N1 N2]. split.
  - split; [by apply queued_delete|by apply queued_delete|done].
  - split; [by destruct s|]. intros p. simpl. destruct (decide (p = m)) as [->|].
    + rewrite lookup_delete_eq, bool_decide_eq_true_2 by (by left). done.
    + rewrite lookup_delete_ne by done. rewrite bool_decide_eq_false_2 by set_solver. done.
Qed.

Lemma if_drain_ok fuel s q d : rep s q d → (length q < fuel)%nat → ∃ s', _IF_DRAIN fuel s = Done () s' ∧ becomes s s' [] d q.
Proof.
  unfold _IF_DRAIN. revert s q. induction fuel as [|fuel IH]; intros s q R Hf; [lia|]. cbn [while].
  destruct (if_dequeue_ok s q d R) as (s1 & E & G). rewrite !bind_assoc, (bind_done _ _ _ _ _ E). destruct q as [|m q]; simpl hd in *; simpl tail in *.
  - exists s1. by split.
  - pose proof (deq_loose s s1 m q d R G) as Hm. rewrite (proj2 (Z.eqb_neq m 0) (proj1 Hm)).
    destruct (free_ok s1 q d m (proj1 G) Hm) as (s2 & E2 & G2). rewrite !bind_assoc, (bind_done _ _ _ _ _ E2), bind_ret.
    destruct (IH s2 q (proj1 G2) ltac:(simpl in Hf; lia)) as (s3 & E3 & G3). exists s3. split; [done|].
    exact (goes_trans _ _ _ _ _ _ _ _ _ G (goes_trans _ _ _ _ _ _ _ _ _ G2 G3)).
Qed.

Lemma IFQ_PURGE_ok fuel s q d : rep s q d → plain s → s.(ifq_mtx) = false → (length q < fuel)%nat →
  ∃ s', IFQ_PURGE fuel s = Done () s' ∧ becomes s s' [] d q.
Proof.
  intros R P Hu Hf. destruct (if_drain_ok fuel (put_mtx true s) q d (rep_mtx _ _ _ true R) Hf) as (s2 & E & G).
  destruct (locked s s2 _ _ _ Hu G) as (El & Eu & G'). eexists. split; [|exact G'].
  unfold IFQ_PURGE, IFQ_PURGE_NOLOCK. rewrite (bind_done _ _ _ _ _ El).
  rewrite bind_assoc, (bind_done _ _ _ _ _ (altq_off (put_mtx true s) P)), (bind_done _ _ _ _ _ E). done.
Qed.

(** IFQ_ENQUEUE: room is what the main queue has below its limit. *)
Lemma IFQ_ENQUEUE_ok s q d m :
  rep s q d → plain s → s.(ifq_mtx) = false → loose s q d m → Z.of_nat (length (q ++ d)) < INT_MAX → s.(ifq_drops) < INT_MAX →
  ∃ s', if bool_decide (s.(ifq_maxlen) ≤ Z.of_nat (length q))
    then IFQ_ENQUEUE m s = Done ENOBUFS s' ∧ becomes (put_drops (s.(ifq_drops) + 1) s) s' q d [m]
    else IFQ_ENQUEUE m s = Done 0 s' ∧ becomes s s' (q ++ [m]) d [].
Proof.
  intros R P Hu Hm Hb Hd. set (t := put_mtx true s). pose proof (rep_mtx s q d true R) as Rt. fold t in Rt.
  assert (El : IF_LOCK s = Done () t) by (unfold IF_LOCK; rewrite (bind_done _ _ _ _ _ (gets_run _ _)), Hu; done).
  assert (Ef : _IF_QFULL t = Done (ifq_maxlen s <=? Z.of_nat (length q)) t).
  { unfold _IF_QFULL. rewrite !(bind_done _ _ _ _ _ (gets_run _ _)). change (ifq t) with (get main t). by rewrite (qd_len _ _ _ (h_l _ _ _ _ _ Rt)). }
  case_bool_decide as Hfull.
  - destruct (free_ok t q d m Rt Hm) as (s2 & E2 & [R2 E2']).
    assert (Hd2 : ifq_drops s2 = ifq_drops s) by (by rewrite (ef_rest _ _ _ E2')).
    exists (put_mtx false (put_drops (ifq_drops s + 1) s2)). split.
    + unfold IFQ_ENQUEUE. rewrite (bind_done _ _ _ _ _ El), (bind_done _ _ _ _ _ (altq_off t P)).
      rewrite bind_assoc, (bind_done _ _ _ _ _ Ef), (proj2 (Z.leb_le _ _) Hfull), bind_assoc, (bind_done _ _ _ _ _ E2), bind_ret.
      change (c_true ENOBUFS) with true. cbn iota.
      rewrite bind_assoc, (bind_done _ _ _ _ _ (gets_run _ _)), bind_assoc, Hd2, (bind_done _ _ _ _ _ (incr_run _ _ Hd)).
      unfold IF_UNLOCK. rewrite (bind_done _ _ _ _ _ (eq_refl : modifyS _ _ = Done _ _)).
      rewrite bind_assoc, (bind_done _ _ _ _ _ (gets_run _ _)). simpl. rewrite (effect_mtx _ _ _ E2'). done.
    + split; [by apply rep_mtx, rep_drops|]. destruct E2' as [E1 E3]. split; [|exact E3].
      rewrite E1. subst t. destruct s. simpl in *. by rewrite Hu.
  - destruct Hm as (Hm0 & Hnew & b & Hmb). destruct (append_ok t q d Rt Hb m b Hmb Hm0 Hnew) as (s2 & E2 & G).
    destruct (locked s s2 _ _ _ Hu G) as (_ & Eu & G'). eexists. split; [|exact G'].
    unfold IFQ_ENQUEUE. rewrite (bind_done _ _ _ _ _ El), (bind_done _ _ _ _ _ (altq_off t P)).
    rewrite bind_assoc, (bind_done _ _ _ _ _ Ef). rewrite (proj2 (Z.leb_gt _ _)) by lia.
    unfold _IF_ENQUEUE. rewrite bind_assoc, (bind_done _ _ _ _ _ E2), bind_ret. change (c_true 0) with false. cbn iota.
    by rewrite bind_ret, (bind_done _ _ _ _ _ Eu).
Qed.

(** The walk over the chain of the driver, which is only reset afterwards. *)
Lemma walk_ok fuel s n l q :
  chain s.(mbufs) n l → NoDup l → queued s.(mbufs) s.(ifq) q → (∀ x, x ∈ l → x ∉ q) → (length l < fuel)%nat →
  ∃ M, while fuel n (λ n,
      if n =? 0 then mret (inr ()) else b ← get_mbuf n; m_freem n;; mret (inl b.(m_nextpkt))) s = Done () (put_mbufs M s) ∧
    queued M s.(ifq) q ∧ ∀ p, strip <$> M !! p = if bool_decide (p ∈ l) then None else strip <$> s.(mbufs) !! p.
Proof.
  revert s n l. induction fuel as [|fuel IH]; intros s n l Hc Hnd Hq Hx Hf; [lia|]. cbn [while]. destruct l as [|m l].
  - simpl in Hc. subst n. exists s.(mbufs). split; [by destruct s|]. split; [done|]. intros p.
    by rewrite bool_decide_eq_false_2 by apply not_elem_of_nil.
  - simpl in Hc. destruct Hc as (-> & Hm0 & b & Hb & Hc). rewrite (proj2 (Z.eqb_neq m 0) Hm0).
    apply NoDup_cons in Hnd as [Hm Hnd].
    rewrite bind_assoc, (bind_done _ _ _ _ _ (get_mbuf_run s m b Hb)), bind_assoc, (bind_done _ _ _ _ _ (m_freem_deletes s m b Hb)), bind_ret.
    destruct (IH (put_mbufs (delete m (mbufs s)) s) (m_nextpkt b) l) as (M & E & Hq' & Hp).
    + by apply chain_delete.
    + done.
    + apply queued_delete; [apply Hx; by left|done].
    + intros x Hin. apply Hx. by right.
    + simpl in Hf. lia.
    + exists M. split; [by destruct s|]. split; [done|]. intros p. rewrite Hp. simpl.
      destruct (decide (p = m)) as [->|].
      * rewrite lookup_delete_eq. by repeat case_bool_decide; set_solver.
      * rewrite lookup_delete_ne by done. repeat case_bool_decide; set_solver.
Qed.

Lemma IFQ_DRV_PURGE_ok fuel s q d : rep s q d → plain s → s.(ifq_mtx) = false → (length (q ++ d) < fuel)%nat →
  ∃ s', IFQ_DRV_PURGE fuel s = Done () s' ∧ becomes s s' [] [] (d ++ q).
Proof.
  intros R P Hu Hf. pose proof R as [Hl Hr Hnd]. apply NoDup_app in Hnd as (Nq & Nx & Nd). rewrite length_app in Hf.
  destruct (walk_ok fuel s (q_head (ifq_drv s)) d q (qd_chain _ _ _ Hr) Nd Hl) as (M & E & Hq & Hp); [intros x Hd Hin; by apply (Nx x)|lia|].
  set (t := put_drv (Pktq 0 0 0) (put_mbufs M s)).
  assert (Gt : becomes s t q [] d).
  { split; [split; [done|by split|by rewrite app_nil_r]|]. split; [by destruct s|done]. }
  destruct (IFQ_PURGE_ok fuel t q [] (proj1 Gt)) as (s' & E' & G'); [by eapply effect_plain; [apply Gt|]|done|lia|].
  exists s'. split; [|by eapply goes_trans]. unfold IFQ_DRV_PURGE. rewrite (bind_done _ _ _ _ _ (gets_run _ _)), (bind_done _ _ _ _ _ E).
  rewrite (bind_done _ _ _ _ _ (put_tail_run _ _)), (bind_done _ _ _ _ _ (put_head_run _ _)), (bind_done _ _ _ _ _ (put_len_run _ _)). exact E'.
Qed.
End Freeing.

(** ** A driver and its senders *)

Inductive if_op := Send (m : Z) | Take.
Inductive event := Sent (m err : Z) | Took (m : Z).

(** The senders enqueue packets and the driver takes them. *)
Fixpoint run_if `{Network} (fuel : nat) (ops : list if_op) : C net (list event) :=
  match ops with
  | [] => mret []
  | Send m :: ops => e ← IFQ_ENQUEUE m; es ← run_if fuel ops; mret (Sent m e :: es)
  | Take :: ops => m ← IFQ_DRV_DEQUEUE fuel; es ← run_if fuel ops; mret (Took m :: es)
  end.

Definition sent (ops : list if_op) : list Z := omap (λ op, match op with Send m => Some m | Take => None end) ops.

(** A first-in first-out queue [t]: what was accepted is delivered in order,
    and NULL only when there is nothing. *)
Fixpoint fifo (t : list Z) (es : list event) : option (list Z) :=
  match es with
  | [] => Some t
  | Sent m e :: es => fifo (if e =? 0 then t ++ [m] else t) es
  | Took m :: es =>
      match t with
      | [] => if m =? 0 then fifo [] es else None
      | x :: t => if m =? x then fifo t es else None
      end
  end.

Lemma becomes_loose s s' q d q' d' X m :
  loose s q d m → becomes s s' q' d' X → m ∉ X → (∀ x, x ∈ q' ++ d' → x ∈ q ++ d ∨ x ≠ m) → loose s' q' d' m.
Proof.
  intros (Hm0 & Hm & b & Hb) [_ E] HX Hsub. split; [done|]. split.
  - intros Hin. destruct (Hsub m Hin); [by apply Hm|done].
  - pose proof (ef_packets _ _ _ E m) as P. rewrite Hb, bool_decide_eq_false_2 in P by done.
    destruct (mbufs s' !! m) as [b'|]; [by exists b'|done].
Qed.

Section Sequence.
Context `{Frees}.

(** What every state of a run has. *)
Record good (s : net) (q d : list Z) (ops : list if_op) (fuel : nat) : Prop := {
  gd_rep : rep s q d;
  gd_plain : plain s;
  gd_unlocked : s.(ifq_mtx) = false;
  gd_new : NoDup (sent ops);
  gd_loose : ∀ m, m ∈ sent ops → loose s q d m;
  gd_len : Z.of_nat (length (q ++ d) + length ops) < INT_MAX;
  gd_drops : s.(ifq_drops) + Z.of_nat (length ops) < INT_MAX;
  gd_fuel : (length q + length d + length ops < fuel)%nat }.

(** A step that keeps what the rest of the run needs. *)
Lemma good_step s s' q d q' d' X op ops fuel n :
  good s q d (op :: ops) fuel → 0 ≤ n ≤ 1 → becomes (put_drops (s.(ifq_drops) + n) s) s' q' d' X →
  X ⊆ sent [op] → (∀ x, x ∈ q' ++ d' → x ∈ q ++ d ∨ x ∈ sent [op]) → (length (q' ++ d') ≤ S (length (q ++ d)))%nat →
  good s' q' d' ops fuel.
Proof.
  intros [G1 G2 G3 G4 G5 G6 G7 G8] Hn G HX Hin Hlen. pose proof G as [R [E _]].
  assert (Hs : sent (op :: ops) = sent [op] ++ sent ops) by (destruct op; done).
  rewrite Hs in G4, G5. apply NoDup_app in G4 as (Na & Nb & Nc). cbn [length] in *. rewrite !length_app in *.
  split; try done.
  - rewrite E. by destruct s.
  - rewrite E. by destruct s.
  - intros m Hm. eapply (becomes_loose (put_drops (ifq_drops s + n) s)); [apply G5; set_solver|exact G| |].
    + intros HmX. apply (Nb m); [by apply HX|done].
    + intros x Hx. destruct (Hin x Hx) as [|Hx']; [by left|right]. intros ->. by apply (Nb m).
  - rewrite !length_app. lia.
  - rewrite E. simpl. lia.
  - lia.
Qed.

Lemma put_drops_same s : put_drops (s.(ifq_drops) + 0) s = s.
Proof. destruct s. unfold put_drops. simpl. by rewrite Z.add_0_r. Qed.

Lemma run_if_ok fuel ops s q d :
  good s q d ops fuel →
  ∃ s' es q' d', run_if fuel ops s = Done es s' ∧ rep s' q' d' ∧ fifo (d ++ q) es = Some (d' ++ q').
Proof.
  revert s q d. induction ops as [|[m|] ops IH]; intros s q d G.
  - exists s, [], q, d. split; [done|]. split; [apply G|done].
  - destruct (IFQ_ENQUEUE_ok s q d m) as (s1 & E1); [apply G|apply G|apply G| | | |].
    { apply (gd_loose _ _ _ _ _ G). by left. }
    { pose proof (gd_len _ _ _ _ _ G). lia. }
    { pose proof (gd_drops _ _ _ _ _ G). simpl in *. lia. }
    cbn [run_if]. case_bool_decide as Hfull; destruct E1 as [E1 G1].
    + destruct (IH s1 q d) as (s2 & es & q' & d' & E2 & R2 & F).
      { eapply (good_step s s1 q d q d [m] (Send m)); [done| |exact G1|set_solver|by left|lia]. lia. }
      exists s2, (Sent m ENOBUFS :: es), q', d'. rewrite (bind_done _ _ _ _ _ E1), (bind_done _ _ _ _ _ E2). by split.
    + destruct (IH s1 (q ++ [m]) d) as (s2 & es & q' & d' & E2 & R2 & F).
      { eapply (good_step s s1 q d (q ++ [m]) d [] (Send m) ops fuel 0); [done|lia|by rewrite put_drops_same|set_solver| |rewrite !length_app; simpl; lia].
        intros x. rewrite !elem_of_app, list_elem_of_singleton. simpl. set_solver. }
      exists s2, (Sent m 0 :: es), q', d'. rewrite (bind_done _ _ _ _ _ E1), (bind_done _ _ _ _ _ E2). split; [done|].
      split; [done|]. simpl. by rewrite <- app_assoc.
  - destruct (IFQ_DRV_DEQUEUE_ok fuel s q d) as (s1 & q1 & d1 & E1 & G1 & Ho); [apply G|apply G|apply G| | |].
    { pose proof (gd_fuel _ _ _ _ _ G). lia. }
    { pose proof (gd_len _ _ _ _ _ G). lia. }
    assert (Hsub : ∀ x, x ∈ q1 ++ d1 → x ∈ q ++ d).
    { intros x Hx. assert (x ∈ tail (d ++ q)) as Hx' by (rewrite <- Ho; set_solver). destruct (d ++ q) as [|y t] eqn:Et; [by apply elem_of_nil in Hx'|].
      assert (x ∈ d ++ q) by (rewrite Et; by right). set_solver. }
    assert (Hl : (length (q1 ++ d1) ≤ length (q ++ d))%nat).
    { assert (length (d1 ++ q1) = length (tail (d ++ q))) as Hl by (by rewrite Ho). rewrite !length_app in *.
      destruct d, q; simpl in *; rewrite ?length_app in Hl; simpl in Hl; lia. }
    destruct (IH s1 q1 d1) as (s2 & es & q' & d' & E2 & R2 & F).
    { eapply (good_step s s1 q d q1 d1 [] Take ops fuel 0); [done|lia|by rewrite put_drops_same|set_solver| |lia]. intros x Hx. left. by apply Hsub. }
    exists s2, (Took (hd 0 (d ++ q)) :: es), q', d'. cbn [run_if]. rewrite (bind_done _ _ _ _ _ E1), (bind_done _ _ _ _ _ E2).
    split; [done|]. split; [done|]. cbn [fifo]. rewrite Ho in F. destruct (d ++ q) as [|y t]; simpl in *; [done|by rewrite Z.eqb_refl].
Qed.
End Sequence.

(** ** Theorems *)

(** The output queue of an interface and the queue its driver owns are one
    first-in first-out queue, with packets of the driver first: enqueueing
    appends, or frees the packet and counts a drop when the limit is reached;
    the driver takes the first packet, refilling its own queue in bulk without
    changing the order, and can put one back at the front; polling and taking
    from the main queue concern its first packet; purging frees every packet
    once.  The lock is free again after each of them. *)
Theorem ifq_refines_fifo `{Frees} fuel s q d m :
  rep s q d → plain s → s.(ifq_mtx) = false → loose s q d m →
  Z.of_nat (length (q ++ d)) < INT_MAX → s.(ifq_drops) < INT_MAX → (length (q ++ d) < fuel)%nat →
  (∃ s', if bool_decide (s.(ifq_maxlen) ≤ Z.of_nat (length q))
     then IFQ_ENQUEUE m s = Done ENOBUFS s' ∧ becomes (put_drops (s.(ifq_drops) + 1) s) s' q d [m]
     else IFQ_ENQUEUE m s = Done 0 s' ∧ becomes s s' (q ++ [m]) d []) ∧
  (∃ s' q' d', IFQ_DRV_DEQUEUE fuel s = Done (hd 0 (d ++ q)) s' ∧ becomes s s' q' d' [] ∧ d' ++ q' = tail (d ++ q)) ∧
  (∃ s', IFQ_DRV_PREPEND m s = Done () s' ∧ becomes s s' q (m :: d) []) ∧
  (∃ s', IFQ_DEQUEUE s = Done (hd 0 q) s' ∧ becomes s s' (tail q) d []) ∧
  IFQ_POLL s = Done (hd 0 q) s ∧
  IFQ_DRV_IS_EMPTY s = Done (bool_decide (d ++ q = [])) s ∧
  (∃ s', IFQ_DRV_PURGE fuel s = Done () s' ∧ becomes s s' [] [] (d ++ q)).
Proof.
  intros R P Hu Hm Hb Hd Hf. split; [by apply IFQ_ENQUEUE_ok|].
  split; [apply IFQ_DRV_DEQUEUE_ok; try done; rewrite length_app in Hf; lia|].
  split; [by apply IFQ_DRV_PREPEND_ok|]. split; [by apply IFQ_DEQUEUE_ok|]. split; [by eapply IFQ_POLL_ok|].
  split; [by apply IFQ_DRV_IS_EMPTY_ok|]. by apply IFQ_DRV_PURGE_ok.
Qed.

(** A kernel that frees packets by forgetting them, and does nothing else. *)
#[export] Instance sample_network : Network := {|
  m_freem m := modifyS (λ s, put_mbufs (delete m s.(mbufs)) s);
  if_start := mret (); buf_ring_free := mret ();
  altq_enqueue _ := mret 0; altq_dequeue _ := mret 0; altq_request_purge := mret ();
  tbr_dequeue_ptr _ := mret 0 |}.
#[export] Instance sample_frees : Frees.
Proof. by intros s m b _. Qed.

(** Three packets, none of them queued, and room for one. *)
Definition sample_net : net :=
  Net (<[1 := Mbuf 0 100 0]> (<[2 := Mbuf 0 200 M_MCAST]> (<[3 := Mbuf 0 300 0]> ∅)))
    (Pktq 0 0 0) 1 0 false (Pktq 0 0 0) 4 0 0 0 0 0 (BufRing 0 0 4 3 0 0 0 0 3 [0; 0; 0; 0]) 0.

Lemma sample_rep : rep sample_net [] [].
Proof. split; [by split|by split|by apply NoDup_nil]. Qed.

Lemma sample_plain : plain sample_net.
Proof. done. Qed.

Lemma sample_loose m : m ∈ [1; 2; 3] → loose sample_net [] [] m.
Proof.
  intros Hm. split; [by intros ->; set_solver|]. split; [apply not_elem_of_nil|].
  repeat (apply elem_of_cons in Hm as [->|Hm]; [by eexists|]). by apply elem_of_nil in Hm.
Qed.

Lemma ifq_refines_fifo_witness : ∃ s', IFQ_ENQUEUE 1 sample_net = Done 0 s' ∧ becomes sample_net s' [1] [] [].
Proof.
  destruct (ifq_refines_fifo 5 sample_net [] [] 1 sample_rep sample_plain eq_refl (sample_loose 1 ltac:(by left)))
    as (H & _); [by compute|by compute|simpl; lia|]. exact H.
Defined.

(** C10. Senders and a driver at work: whatever the order of their calls, the
    packets accepted are delivered to the driver once each and in the order
    they were accepted; what is left is still queued in that order; no lock is
    taken twice and no freed packet touched. *)
Theorem ifq_delivers_in_order `{Frees} fuel ops s q d :
  good s q d ops fuel →
  ∃ s' es q' d', run_if fuel ops s = Done es s' ∧ rep s' q' d' ∧ fifo (d ++ q) es = Some (d' ++ q').
Proof. apply run_if_ok. Qed.

Lemma ifq_delivers_in_order_witness :
  ∃ s' es q' d', run_if 20 [Send 1; Send 2; Take; Take; Send 3] sample_net = Done es s' ∧ rep s' q' d' ∧ fifo ([] ++ []) es = Some (d' ++ q').
Proof.
  apply ifq_delivers_in_order. split; [exact sample_rep|exact sample_plain|reflexivity| | |by compute|by compute|simpl; lia].
  - simpl. apply NoDup_cons. split; [set_solver|]. apply NoDup_cons. split; [set_solver|]. apply NoDup_cons. split; [set_solver|apply NoDup_nil_2].
  - intros m Hm. apply sample_loose. exact Hm.
Defined.

(** Handing a packet to an interface: a packet that is dropped is freed and
    counted as dropped, and nothing else; one that is accepted counts with its
    length and, if it is a multicast, as one, and output is started unless the
    driver is busy.  The packet is read before it is handed over. *)
Theorem ifq_handoff `{Frees} s q d m b adj :
  rep s q d → plain s → s.(ifq_mtx) = false → loose s q d m → s.(mbufs) !! m = Some b →
  Z.of_nat (length (q ++ d)) < INT_MAX → s.(ifq_drops) < INT_MAX → 0 ≤ b.(m_pkthdr_len) + adj ≤ INT_MAX →
  ∃ s', if bool_decide (s.(ifq_maxlen) ≤ Z.of_nat (length q))
    then IFQ_HANDOFF_ADJ m adj s = Done ENOBUFS s' ∧ becomes (put_drops (s.(ifq_drops) + 1) s) s' q d [m]
    else becomes s s' (q ++ [m]) d [] ∧
      IFQ_HANDOFF_ADJ m adj s =
        ((if Z.land s.(if_drv_flags) IFF_DRV_OACTIVE =? 0 then if_start else mret ());; mret 0)
          (put_stats (u64 (s.(if_obytes) + (b.(m_pkthdr_len) + adj)))
             (if c_true (Z.land (signed 16 b.(m_flags)) M_MCAST) then u64 (s.(if_omcasts) + 1) else s.(if_omcasts)) s').
Proof.
  intros R P Hu Hm Hmb Hb Hd Ha. destruct (IFQ_ENQUEUE_ok s q d m R P Hu Hm Hb Hd) as (s' & E). exists s'.
  unfold IFQ_HANDOFF_ADJ. rewrite (bind_done _ _ _ _ _ (get_mbuf_run s m b Hmb)). case_bool_decide; destruct E as [E G].
  - rewrite (bind_done _ _ _ _ _ E). by split.
  - split; [done|]. rewrite (bind_done _ _ _ _ _ E). change (0 =? 0) with true. cbn iota.
    assert (Ea : add_int (m_pkthdr_len b) adj s' = Done (m_pkthdr_len b + adj) s').
    { unfold add_int. rewrite (proj2 (Z.leb_le _ _)), (proj2 (Z.leb_le _ _)) by (unfold INT_MAX in *; lia). done. }
    rewrite bind_assoc, (bind_done _ _ _ _ _ Ea). destruct G as [_ [E1 _]].
    assert (F1 : if_obytes s' = if_obytes s ∧ if_omcasts s' = if_omcasts s ∧ if_drv_flags s' = if_drv_flags s)
      by (by rewrite E1).
    destruct F1 as (F1 & F2 & F3). rewrite bind_assoc, (bind_done _ _ _ _ _ (eq_refl : getS s' = Done s' s')), F1, F2.
    rewrite bind_assoc, (bind_done _ _ _ _ _ (eq_refl : modifyS _ s' = Done () _)).
    rewrite bind_assoc, (bind_done _ _ _ _ _ (gets_run _ _)). simpl. rewrite F3.
    by destruct (Z.land (if_drv_flags s) IFF_DRV_OACTIVE =? 0).
Qed.

Lemma ifq_handoff_witness :
  ∃ s', becomes sample_net s' [2] [] [] ∧ IFQ_HANDOFF_ADJ 2 5 sample_net = (if_start;; mret 0) (put_stats 205 1 s').
Proof.
  destruct (ifq_handoff sample_net [] [] 2 (Mbuf 0 200 M_MCAST) 5 sample_rep sample_plain eq_refl
    (sample_loose 2 ltac:(by right; left)) eq_refl) as (s' & H1 & H2); [by compute|by compute|split; by compute|].
  exists s'. split; [exact H1|exact H2].
Defined.

(** ** Rings of packets *)

(** The ring of the driver holds the packets [r]. *)
Record ring_rep (k : Z) (s : net) (r : list Z) : Prop := {
  rr_ring : ring_holds k s.(ring) r;
  rr_nodup : NoDup r;
  rr_live : ∀ m, m ∈ r → m ≠ 0 ∧ ∃ b, s.(mbufs) !! m = Some b }.

Lemma put_ring_same s : put_ring s.(ring) s.(br_drops) s = s.
Proof. by destruct s. Qed.

Section Rings.
Context `{Frees} (ALTQ : bool) (k : Z) (s : net) (r : list Z).
Hypothesis HR : ring_rep k s r.
Hypothesis HP : plain s.

Lemma altq_on_off t : plain t → altq_on ALTQ t = Done false t.
Proof. intros P. unfold altq_on. destruct ALTQ; [by apply altq_off|done]. Qed.

Lemma on_ring_run {A} (c : C buf_ring A) t a b : c t.(ring) = Done a b → on_ring c t = Done a (put_ring b t.(br_drops) t).
Proof. intros E. unfold on_ring. by rewrite E. Qed.

Lemma drbr_enqueue_ok fuel m b : (0 < fuel)%nat → m ≠ 0 → m ∉ r → s.(mbufs) !! m = Some b →
  if bool_decide (Z.of_nat (length r) = 2 ^ k - 1)
  then drbr_enqueue ALTQ fuel m s = Done ENOBUFS (put_mbufs (delete m s.(mbufs)) (put_ring s.(ring) (u64 (s.(br_drops) + 1)) s))
  else ∃ b', ring_holds k b' (r ++ [m]) ∧
    drbr_enqueue ALTQ fuel m s = Done 0 (put_stats (u64 (s.(if_obytes) + b.(m_pkthdr_len)))
      (if c_true (Z.land b.(m_flags) M_MCAST) then u64 (s.(if_omcasts) + 1) else s.(if_omcasts)) (put_ring b' s.(br_drops) s)).
Proof.
  intros Hf Hm0 Hm Hb. pose proof (rr_ring _ _ _ HR) as Rh. unfold drbr_enqueue.
  rewrite (bind_done _ _ _ _ _ (get_mbuf_run s m b Hb)), (bind_done _ _ _ _ _ (altq_on_off s HP)). case_bool_decide as Hfull.
  - rewrite (bind_done _ _ _ _ _ (on_ring_run _ s _ _ (enqueue_full k _ r Rh fuel m _ Hf Hfull))).
    change (ENOBUFS =? ENOBUFS) with true. cbn iota. rewrite bind_assoc, (bind_done _ _ _ _ _ (eq_refl : modifyS _ _ = Done () _)).
    by erewrite bind_done; [|apply (m_freem_deletes _ m b); exact Hb].
  - destruct (enqueue_ok k _ r Rh fuel m (m_pkthdr_len b) Hf) as (b' & E & Rh' & _); [pose proof (rh_len _ _ _ Rh); lia|].
    exists b'. split; [done|]. by rewrite (bind_done _ _ _ _ _ (on_ring_run _ s _ _ E)).
Qed.

Lemma sc_ok : ∃ b', buf_ring_dequeue_sc s.(ring) = Done (hd 0 r) b' ∧ buf_ring_peek s.(ring) = Done (hd 0 r) s.(ring) ∧ ring_holds k b' (tail r).
Proof.
  pose proof (rr_ring _ _ _ HR) as Rh. destruct r as [|m r'] eqn:Er.
  - destruct (dequeue_empty k _ [] Rh 1 ltac:(lia) eq_refl) as (_ & E & E'). by exists (ring s).
  - destruct (dequeue_ok k _ _ Rh 1 m r' ltac:(lia) eq_refl) as (b' & _ & E & E' & Rh'). by exists b'.
Qed.
End Rings.

(** Emptying the ring frees its packets one by one. *)
Lemma flush_loop_ok `{Frees} fuel k s r :
  ring_rep k s r → (length r < fuel)%nat →
  ∃ b, while fuel () (λ _,
      m ← on_ring buf_ring_dequeue_sc;
      if m =? 0 then mret (inr ()) else m_freem m;; mret (inl ())) s =
    Done () (put_ring b s.(br_drops) (put_mbufs (foldl (λ M m, delete m M) s.(mbufs) r) s)) ∧ ring_holds k b [].
Proof.
  revert s r. induction fuel as [|fuel IH]; intros s r R Hf; [lia|]. cbn [while].
  destruct (sc_ok k s r R) as (b1 & E & _ & Rh). rewrite bind_assoc, (bind_done _ _ _ _ _ (on_ring_run _ s _ _ E)).
  destruct r as [|m r]; simpl hd in *; simpl tail in *.
  - exists b1. split; [by destruct s|done].
  - destruct (rr_live _ _ _ R m ltac:(by left)) as (Hm0 & b & Hb). rewrite (proj2 (Z.eqb_neq m 0) Hm0).
    pose proof (rr_nodup _ _ _ R) as [Hm Hnd]%NoDup_cons.
    set (t := put_ring b1 (br_drops s) s). rewrite bind_assoc, (bind_done _ _ _ _ _ (m_freem_deletes t m b Hb)), bind_ret.
    destruct (IH (put_mbufs (delete m (mbufs t)) t) r) as (b2 & E2 & Rh2); [|simpl in Hf; lia|].
    + split; [done|done|]. intros x Hx. destruct (rr_live _ _ _ R x ltac:(by right)) as (Hx0 & c & Hc). split; [done|].
      exists c. simpl. rewrite lookup_delete_ne; [done|]. by intros ->.
    + exists b2. split; [rewrite E2; by destruct s|done].
Qed.

(** The ring interface of drivers, without ALTQ in use, is a queue of packets
    of 2^k - 1 places on top of buf_ring.h: enqueueing appends and counts the
    packet, or, when full, frees it, counts a drop and returns ENOBUFS; the
    driver takes the first packet, or takes it only if a test accepts it;
    flushing frees every packet once; empty, needs_enqueue and inuse tell what
    is there. *)
Theorem drbr_refines_queue `{Frees} ALTQ fuel k s r m b (func : Z → C net Z) v :
  ring_rep k s r → plain s → m ≠ 0 → m ∉ r → s.(mbufs) !! m = Some b → (length r < fuel)%nat → func (hd 0 r) s = Done v s →
  (if bool_decide (Z.of_nat (length r) = 2 ^ k - 1)
   then drbr_enqueue ALTQ fuel m s = Done ENOBUFS (put_mbufs (delete m s.(mbufs)) (put_ring s.(ring) (u64 (s.(br_drops) + 1)) s))
   else ∃ b', ring_holds k b' (r ++ [m]) ∧
     drbr_enqueue ALTQ fuel m s = Done 0 (put_stats (u64 (s.(if_obytes) + b.(m_pkthdr_len)))
       (if c_true (Z.land b.(m_flags) M_MCAST) then u64 (s.(if_omcasts) + 1) else s.(if_omcasts)) (put_ring b' s.(br_drops) s))) ∧
  (∃ b', ring_holds k b' (tail r) ∧ drbr_dequeue ALTQ s = Done (hd 0 r) (put_ring b' s.(br_drops) s) ∧
     drbr_dequeue_cond ALTQ func s =
       if bool_decide (r = []) || (v =? 0) then Done 0 s else Done (hd 0 r) (put_ring b' s.(br_drops) s)) ∧
  (∃ b', ring_holds k b' [] ∧
     drbr_flush ALTQ fuel true s = Done () (put_ring b' s.(br_drops) (put_mbufs (foldl (λ M m, delete m M) s.(mbufs) r) s))) ∧
  drbr_empty ALTQ s = Done (bool_decide (r = [])) s ∧
  drbr_needs_enqueue ALTQ s = Done (negb (bool_decide (r = []))) s ∧
  drbr_inuse ALTQ s = Done (Z.of_nat (length r)) s.
Proof.
  intros R P Hm0 Hm Hb Hf Hfun. pose proof (altq_on_off ALTQ s P) as Ea. pose proof (rr_ring _ _ _ R) as Rh.
  assert (Hemp : buf_ring_empty (ring s) = bool_decide (r = [])).
  { apply eq_true_iff_eq. rewrite bool_decide_eq_true. by apply (empty_iff k). }
  split; [apply drbr_enqueue_ok; try done; lia|].
  destruct (sc_ok k s r R) as (b1 & E1 & Ep & Rh1). pose proof (on_ring_run _ s _ _ E1) as E1'.
  pose proof (on_ring_run _ s _ _ Ep) as Ep'. rewrite put_ring_same in Ep'.
  split; [|split; [|split; [|split]]].
  - exists b1. split; [done|]. split; [unfold drbr_dequeue; by rewrite (bind_done _ _ _ _ _ Ea)|].
    unfold drbr_dequeue_cond. rewrite (bind_done _ _ _ _ _ Ea), (bind_done _ _ _ _ _ Ep').
    destruct r as [|x r']; [done|]. rewrite bool_decide_eq_false_2 by done. cbn [hd] in *.
    destruct (rr_live _ _ _ R x ltac:(by left)) as (Hx0 & _). rewrite (proj2 (Z.eqb_neq x 0) Hx0), (bind_done _ _ _ _ _ Hfun).
    simpl. by destruct (v =? 0).
  - destruct (flush_loop_ok fuel k s r R Hf) as (b2 & E2 & Rh2). exists b2. split; [done|].
    unfold drbr_flush. by rewrite (bind_done _ _ _ _ _ Ea), bind_ret.
  - unfold drbr_empty. rewrite (bind_done _ _ _ _ _ Ea), (bind_done _ _ _ _ _ (gets_run _ _)), Hemp. done.
  - unfold drbr_needs_enqueue. rewrite (bind_done _ _ _ _ _ Ea), (bind_done _ _ _ _ _ (gets_run _ _)), Hemp. done.
  - unfold drbr_inuse. rewrite (bind_done _ _ _ _ _ Ea), (bind_done _ _ _ _ _ (gets_run _ _)). by rewrite (count_is k _ r Rh).
Qed.

Lemma sample_ring_rep : ring_rep 2 sample_net [].
Proof.
  split; [|apply NoDup_nil_2|intros m Hm; by apply elem_of_nil in Hm].
  split; simpl; try lia; try done.
Qed.

Lemma drbr_refines_queue_witness :
  ∃ b', ring_holds 2 b' [2] ∧ drbr_enqueue true 1 2 sample_net = Done 0 (put_stats 200 1 (put_ring b' 0 sample_net)).
Proof.
  destruct (drbr_refines_queue true 1 2 sample_net [] 2 (Mbuf 0 200 M_MCAST) (λ _, mret 1) 1 sample_ring_rep sample_plain)
    as (H & _); [discriminate|apply not_elem_of_nil|reflexivity|simpl; lia|reflexivity|].
  exact H.
Defined.
