(* ===== verification/Mbuf.v ===== *)
(** * Mbufs

    include/sys/mbuf.h: the memory buffers of the network code, their
    allocation in terms of the zone allocator, the space before and after
    their data, and the numbers packed into their flags.  The zone allocator
    and the functions of kern_mbuf.c are parameters. *)

From S2P Require Import Prelude.

(** Sizes on amd64: struct m_hdr takes 40 bytes, struct pkthdr 48. *)
Definition MSIZE : Z := 256.
Definition MCLBYTES : Z := 2048.
Definition MJUMPAGESIZE : Z := 4096.
Definition MJUM9BYTES : Z := 9 * 1024.
Definition MJUM16BYTES : Z := 16 * 1024.
Definition sizeof_m_hdr : Z := 40.
Definition sizeof_pkthdr : Z := 48.
Definition MLEN : Z := MSIZE - sizeof_m_hdr.
Definition MHLEN : Z := MLEN - sizeof_pkthdr.

Definition M_EXT : Z := 1.
Definition M_PKTHDR : Z := 2.
Definition M_RDONLY : Z := 8.
Definition M_NOFREE : Z := 0x40000.
Definition M_HASHTYPEBITS : Z := 0x0F000000.
Definition M_HASHTYPE_SHIFT : Z := 24.
Definition M_FIB : Z := 0xF0000000.
Definition M_FIBSHIFT : Z := 28.
Definition M_FIBMASK : Z := 0x0F.
Definition M_NOWAIT : Z := 1.
Definition EXT_CLUSTER : Z := 1.
Definition EXT_JUMBOP : Z := 3.
Definition EXT_JUMBO9 : Z := 4.
Definition EXT_JUMBO16 : Z := 5.
Definition EXT_MBUF : Z := 7.
Definition MB_NOTAGS : Z := 1.

(** The flags are kept as their 32-bit pattern; of the packet header only the
    length is used here. *)
Record mbuf := Mbuf {
  m_next : Z; m_nextpkt : Z; m_data : Z; m_len : Z; m_flags : Z; m_type : Z;
  pkthdr_len : Z;
  ext_buf : Z; ext_free : Z; ext_arg1 : Z; ext_arg2 : Z; ext_size : Z; ref_cnt : Z; ext_type : Z }.

Inductive zone := zone_mbuf | zone_clust | zone_pack | zone_jumbop | zone_jumbo9 | zone_jumbo16.

(** The second argument of an allocation: struct mb_args, or the mbuf that the
    new cluster is attached to (0: none). *)
Inductive arg := Args (flags type : Z) | Attach (m : Z).

Record pool := Pool { mbufs : gmap Z mbuf; refcnts : gmap Z Z }.

Class Zones := {
  uma_zalloc_arg : zone → arg → Z → C pool Z;
  uma_zfree : zone → Z → C pool ();
  uma_zfree_arg : zone → Z → Z → C pool ();
  uma_find_refcnt : zone → Z → C pool Z;
  zone_drain : zone → C pool ();
  mb_free_ext : Z → C pool ();
  m_pkthdr_init : Z → Z → C pool Z;
  m_prepend : Z → Z → Z → C pool Z;
  bzero : Z → Z → C pool () }.

(** ** Accesses *)

Definition m_dat (m : Z) : Z := m + sizeof_m_hdr.
Definition m_pktdat (m : Z) : Z := m + sizeof_m_hdr + sizeof_pkthdr.

Definition getm (m : Z) : C pool mbuf := λ s, match s.(mbufs) !! m with Some b => Done b s | None => UB end.
Definition setm (m : Z) (f : mbuf → mbuf) : C pool () :=
  b ← getm m; modifyS (λ s, Pool (<[m := f b]> s.(mbufs)) s.(refcnts)).
Definition load_ref (p : Z) : C pool Z := λ s, match s.(refcnts) !! p with Some n => Done n s | None => UB end.

Definition with_data (d l : Z) (b : mbuf) : mbuf :=
  Mbuf b.(m_next) b.(m_nextpkt) d l b.(m_flags) b.(m_type) b.(pkthdr_len)
    b.(ext_buf) b.(ext_free) b.(ext_arg1) b.(ext_arg2) b.(ext_size) b.(ref_cnt) b.(ext_type).
Definition with_flags (f : Z) (b : mbuf) : mbuf :=
  Mbuf b.(m_next) b.(m_nextpkt) b.(m_data) b.(m_len) f b.(m_type) b.(pkthdr_len)
    b.(ext_buf) b.(ext_free) b.(ext_arg1) b.(ext_arg2) b.(ext_size) b.(ref_cnt) b.(ext_type).
Definition with_type (t : Z) (b : mbuf) : mbuf :=
  Mbuf b.(m_next) b.(m_nextpkt) b.(m_data) b.(m_len) b.(m_flags) t b.(pkthdr_len)
    b.(ext_buf) b.(ext_free) b.(ext_arg1) b.(ext_arg2) b.(ext_size) b.(ref_cnt) b.(ext_type).
Definition with_pktlen (n : Z) (b : mbuf) : mbuf :=
  Mbuf b.(m_next) b.(m_nextpkt) b.(m_data) b.(m_len) b.(m_flags) b.(m_type) n
    b.(ext_buf) b.(ext_free) b.(ext_arg1) b.(ext_arg2) b.(ext_size) b.(ref_cnt) b.(ext_type).
Definition with_extbuf (p : Z) (b : mbuf) : mbuf :=
  Mbuf b.(m_next) b.(m_nextpkt) b.(m_data) b.(m_len) b.(m_flags) b.(m_type) b.(pkthdr_len)
    p b.(ext_free) b.(ext_arg1) b.(ext_arg2) b.(ext_size) b.(ref_cnt) b.(ext_type).

(** ** Allocation *)

(** A panic ends the kernel: undefined. *)
Definition panic {A} : C pool A := ub.

Definition m_gettype (size : Z) : C pool Z :=
  if size =? MSIZE then mret EXT_MBUF
  else if size =? MCLBYTES then mret EXT_CLUSTER
  else if size =? MJUMPAGESIZE then mret EXT_JUMBOP
  else if size =? MJUM9BYTES then mret EXT_JUMBO9
  else if size =? MJUM16BYTES then mret EXT_JUMBO16
  else panic.

Definition m_getzone (size : Z) : C pool zone :=
  if size =? MSIZE then mret zone_mbuf
  else if size =? MCLBYTES then mret zone_clust
  else if size =? MJUMPAGESIZE then mret zone_jumbop
  else if size =? MJUM9BYTES then mret zone_jumbo9
  else if size =? MJUM16BYTES then mret zone_jumbo16
  else panic.

Section Mbufs.
Context `{Zones}.

Definition m_init (m : Z) (z : zone) (size how type flags : Z) : C pool Z :=
  setm m (λ b, Mbuf 0 0 (m_dat m) 0 flags type b.(pkthdr_len)
    b.(ext_buf) b.(ext_free) b.(ext_arg1) b.(ext_arg2) b.(ext_size) b.(ref_cnt) b.(ext_type));;
  if c_true (Z.land flags M_PKTHDR) then
    error ← m_pkthdr_init m how;
    if c_true error then mret error else mret 0
  else mret 0.

Definition m_get (how type : Z) : C pool Z := uma_zalloc_arg zone_mbuf (Args 0 type) how.

Definition m_getclr (how type : Z) : C pool Z :=
  m ← uma_zalloc_arg zone_mbuf (Args 0 type) how;
  (if m =? 0 then mret () else b ← getm m; bzero b.(m_data) MLEN);;
  mret m.

Definition m_gethdr (how type : Z) : C pool Z := uma_zalloc_arg zone_mbuf (Args M_PKTHDR type) how.

Definition m_getcl (how type flags : Z) : C pool Z := uma_zalloc_arg zone_pack (Args flags type) how.

Definition m_getjcl (how type flags size : Z) : C pool Z :=
  if size =? MCLBYTES then m_getcl how type flags else
  m ← uma_zalloc_arg zone_mbuf (Args flags type) how;
  if m =? 0 then mret 0 else
  z ← m_getzone size;
  n ← uma_zalloc_arg z (Attach m) how;
  if n =? 0 then uma_zfree zone_mbuf m;; mret 0 else mret m.

(** INVARIANTS is off. *)
Definition m_free_fast (m : Z) : C pool () := uma_zfree_arg zone_mbuf m MB_NOTAGS.

Definition m_free (m : Z) : C pool Z :=
  b ← getm m;
  (if c_true (Z.land b.(m_flags) M_EXT) then mb_free_ext m
   else if Z.land b.(m_flags) M_NOFREE =? 0 then uma_zfree zone_mbuf m else mret ());;
  mret b.(m_next).

(** The message for an mbuf that already has a cluster changes nothing. *)
Definition m_clget (m how : Z) : C pool () :=
  setm m (with_extbuf 0);;
  uma_zalloc_arg zone_clust (Attach m) how;;
  b ← getm m;
  if c_true (Z.land how M_NOWAIT) && (b.(ext_buf) =? 0) then
    zone_drain zone_pack;;
    uma_zalloc_arg zone_clust (Attach m) how;;
    mret ()
  else mret ().

Definition m_cljget (m how size : Z) : C pool Z :=
  (if m =? 0 then mret () else setm m (with_extbuf 0));;
  z ← m_getzone size;
  uma_zalloc_arg z (Attach m) how.

Definition m_cljset (m cl type : Z) : C pool () :=
  sz ← (if type =? EXT_CLUSTER then mret (MCLBYTES, zone_clust)
        else if type =? EXT_JUMBOP then mret (MJUMPAGESIZE, zone_jumbop)
        else if type =? EXT_JUMBO9 then mret (MJUM9BYTES, zone_jumbo9)
        else if type =? EXT_JUMBO16 then mret (MJUM16BYTES, zone_jumbo16)
        else panic);
  r ← uma_find_refcnt (snd sz) cl;
  setm m (λ b, Mbuf b.(m_next) b.(m_nextpkt) cl b.(m_len) (Z.lor b.(m_flags) M_EXT) b.(m_type) b.(pkthdr_len)
    cl 0 0 0 (fst sz) r type).

Definition m_chtype (m new_type : Z) : C pool () := setm m (with_type new_type).

Definition m_last (fuel : nat) (m : Z) : C pool Z :=
  while fuel m (λ m, b ← getm m; if b.(m_next) =? 0 then mret (inr m) else mret (inl b.(m_next))).

(** ** Space *)

Definition M_WRITABLE (m : Z) : C pool bool :=
  b ← getm m;
  if c_true (Z.land b.(m_flags) M_RDONLY) then mret false
  else if Z.land b.(m_flags) M_EXT =? 0 then mret true
  else n ← load_ref b.(ref_cnt); mret (n =? 1).

(** [len] is an int; the mask is taken on size_t. *)
Definition aligned_room (room len : Z) : Z := Z.land (u64 (room - len)) (u64 (- 8)).

(** The assertions of a debugging kernel are not part of the macros otherwise. *)
Definition M_ALIGN (m len : Z) : C pool () :=
  setm m (λ b, with_data (u64 (b.(m_data) + aligned_room MLEN len)) b.(m_len) b).
Definition MH_ALIGN (m len : Z) : C pool () :=
  setm m (λ b, with_data (u64 (b.(m_data) + aligned_room MHLEN len)) b.(m_len) b).

Definition M_LEADINGSPACE (m : Z) : C pool Z :=
  b ← getm m;
  if c_true (Z.land b.(m_flags) M_EXT) then
    w ← M_WRITABLE m; mret (if w : bool then b.(m_data) - b.(ext_buf) else 0)
  else if c_true (Z.land b.(m_flags) M_PKTHDR) then mret (b.(m_data) - m_pktdat m)
  else mret (b.(m_data) - m_dat m).

Definition M_TRAILINGSPACE (m : Z) : C pool Z :=
  b ← getm m;
  if c_true (Z.land b.(m_flags) M_EXT) then
    w ← M_WRITABLE m; mret (if w : bool then b.(ext_buf) + b.(ext_size) - (b.(m_data) + b.(m_len)) else 0)
  else mret (m_dat m + MLEN - (b.(m_data) + b.(m_len))).

(** An int that grows; overflow is undefined. *)
Definition plus_int (a b : Z) : C pool Z :=
  if (- INT_MAX - 1 <=? a + b) && (a + b <=? INT_MAX) then mret (a + b) else ub.

(** The new value of [m] is the result. *)
Definition M_PREPEND (m plen how : Z) : C pool Z :=
  l ← M_LEADINGSPACE m;
  mm ← (if plen <=? l then
          b ← getm m;
          n ← plus_int b.(m_len) plen;
          setm m (with_data (b.(m_data) - plen) n);;
          mret m
        else m_prepend m plen how);
  (if mm =? 0 then mret ()
   else b ← getm mm;
        if c_true (Z.land b.(m_flags) M_PKTHDR) then
          n ← plus_int b.(pkthdr_len) plen;
          setm mm (with_pktlen n)
        else mret ());;
  mret mm.

(** ** Numbers in the flags *)

Definition not32 (z : Z) : Z := 2 ^ 32 - 1 - z.

Definition M_HASHTYPE_CLEAR (m : Z) : C pool () :=
  setm m (λ b, with_flags (Z.land b.(m_flags) (not32 M_HASHTYPEBITS)) b).
Definition M_HASHTYPE_GET (m : Z) : C pool Z :=
  b ← getm m; mret (Z.shiftr (Z.land b.(m_flags) M_HASHTYPEBITS) M_HASHTYPE_SHIFT).
Definition M_HASHTYPE_SET (m v : Z) : C pool () :=
  setm m (λ b, with_flags (Z.land b.(m_flags) (not32 M_HASHTYPEBITS)) b);;
  setm m (λ b, with_flags (u32 (Z.lor b.(m_flags) (Z.shiftl v M_HASHTYPE_SHIFT))) b).
Definition M_HASHTYPE_TEST (m v : Z) : C pool bool := t ← M_HASHTYPE_GET m; mret (t =? v).

Definition M_GETFIB (m : Z) : C pool Z :=
  b ← getm m; mret (Z.land (Z.shiftr (Z.land b.(m_flags) M_FIB) M_FIBSHIFT) M_FIBMASK).
Definition M_SETFIB (m fib : Z) : C pool () :=
  setm m (λ b, with_flags (Z.land b.(m_flags) (not32 M_FIB)) b);;
  setm m (λ b, with_flags (u32 (Z.lor b.(m_flags) (Z.land (Z.shiftl fib M_FIBSHIFT) M_FIB))) b).

End Mbufs.

(** ** What they do *)

Lemma getm_run s m b : s.(mbufs) !! m = Some b → getm m s = Done b s.
Proof. intros H. unfold getm. by rewrite H. Qed.

Definition change (m : Z) (f : mbuf → mbuf) (s : pool) : pool := Pool (alter f m s.(mbufs)) s.(refcnts).

Lemma setm_run s m b f : s.(mbufs) !! m = Some b → setm m f s = Done () (change m f s).
Proof.
  intros H. unfold setm. rewrite (bind_done _ _ _ _ _ (getm_run s m b H)). unfold modifyS, change. do 2 f_equal.
  apply map_eq. intros i. destruct (decide (i = m)) as [->|].
  - by rewrite lookup_insert_eq, lookup_alter_eq, H.
  - by rewrite lookup_insert_ne, lookup_alter_ne by done.
Qed.

Lemma change_lookup s m b f : s.(mbufs) !! m = Some b → (change m f s).(mbufs) !! m = Some (f b).
Proof. intros H. simpl. by rewrite lookup_alter_eq, H. Qed.

Lemma change_change s m f g : change m f (change m g s) = change m (λ b, f (g b)) s.
Proof.
  unfold change. simpl. f_equal. apply map_eq. intros i. destruct (decide (i = m)) as [->|].
  - rewrite !lookup_alter_eq. by destruct (mbufs s !! m).
  - by rewrite !lookup_alter_ne by done.
Qed.

(** The memory that the data of an mbuf may take up. *)
Definition has_ext (b : mbuf) : bool := c_true (Z.land b.(m_flags) M_EXT).
Definition has_hdr (b : mbuf) : bool := c_true (Z.land b.(m_flags) M_PKTHDR).
Definition room_start (m : Z) (b : mbuf) : Z :=
  if has_ext b then b.(ext_buf) else if has_hdr b then m_pktdat m else m_dat m.
Definition room (b : mbuf) : Z := if has_ext b then b.(ext_size) else if has_hdr b then MHLEN else MLEN.

(** The data lie in it. *)
Definition in_room (m : Z) (b : mbuf) : Prop :=
  room_start m b ≤ b.(m_data) ∧ 0 ≤ b.(m_len) ∧ b.(m_data) + b.(m_len) ≤ room_start m b + room b.

Lemma space_ok s m b : s.(mbufs) !! m = Some b → M_WRITABLE m s = Done true s →
  M_LEADINGSPACE m s = Done (b.(m_data) - room_start m b) s ∧
  M_TRAILINGSPACE m s = Done (room_start m b + room b - (b.(m_data) + b.(m_len))) s.
Proof.
  intros Hm Hw. unfold M_LEADINGSPACE, M_TRAILINGSPACE. rewrite !(bind_done _ _ _ _ _ (getm_run s m b Hm)).
  unfold room_start, room. fold (has_ext b) (has_hdr b). destruct (has_ext b).
  - rewrite !(bind_done _ _ _ _ _ Hw). done.
  - split; [by destruct (has_hdr b)|]. unfold mret, C_ret. f_equal. unfold m_pktdat, m_dat, MHLEN. destruct (has_hdr b); lia.
Qed.

(** Shared or read-only external storage counts as full. *)
Lemma space_shared s m b : s.(mbufs) !! m = Some b → has_ext b = true → M_WRITABLE m s = Done false s →
  M_LEADINGSPACE m s = Done 0 s ∧ M_TRAILINGSPACE m s = Done 0 s.
Proof.
  intros Hm He Hw. unfold M_LEADINGSPACE, M_TRAILINGSPACE. rewrite !(bind_done _ _ _ _ _ (getm_run s m b Hm)).
  fold (has_ext b). by rewrite He, !(bind_done _ _ _ _ _ Hw).
Qed.

Lemma plus_int_run s a b : 0 ≤ a + b ≤ INT_MAX → plus_int a b s = Done (a + b) s.
Proof. intros H. unfold plus_int. rewrite (proj2 (Z.leb_le _ _)), (proj2 (Z.leb_le _ _)) by (unfold INT_MAX in *; lia). done. Qed.

(** What prepending [plen] bytes makes of an mbuf. *)
Definition prepended (plen : Z) (b : mbuf) : mbuf :=
  let b' := with_data (b.(m_data) - plen) (b.(m_len) + plen) b in
  if has_hdr b then with_pktlen (b.(pkthdr_len) + plen) b' else b'.

Lemma prepend_in_place `{Zones} s m b plen how :
  s.(mbufs) !! m = Some b → m ≠ 0 → M_WRITABLE m s = Done true s → in_room m b →
  0 ≤ plen ≤ b.(m_data) - room_start m b → b.(m_len) + plen ≤ INT_MAX → 0 ≤ b.(pkthdr_len) + plen ≤ INT_MAX →
  M_PREPEND m plen how s = Done m (change m (prepended plen) s).
Proof.
  intros Hm Hm0 Hw (R1 & R2 & R3) Hp Hl Hk. destruct (space_ok s m b Hm Hw) as [El _].
  unfold M_PREPEND. rewrite (bind_done _ _ _ _ _ El), (proj2 (Z.leb_le _ _)) by lia.
  rewrite bind_assoc, (bind_done _ _ _ _ _ (getm_run s m b Hm)), bind_assoc, (bind_done _ _ _ _ _ (plus_int_run s (m_len b) plen ltac:(lia))).
  rewrite bind_assoc, (bind_done _ _ _ _ _ (setm_run s m b _ Hm)), bind_ret, (proj2 (Z.eqb_neq m 0) Hm0).
  pose proof (change_lookup s m b (with_data (m_data b - plen) (m_len b + plen)) Hm) as Hm'.
  rewrite bind_assoc, (bind_done _ _ _ _ _ (getm_run _ m _ Hm')). cbn [m_flags with_data pkthdr_len]. fold (has_hdr b).
  assert (Hch : ∀ f g, f b = g b → change m f s = change m g s).
  { intros f g E. unfold change. f_equal. apply map_eq. intros i. destruct (decide (i = m)) as [->|].
    - rewrite !lookup_alter_eq, Hm. simpl. by rewrite E.
    - by rewrite !lookup_alter_ne by done. }
  destruct (has_hdr b) eqn:Hh.
  - rewrite bind_assoc, (bind_done _ _ _ _ _ (plus_int_run _ _ _ Hk)), (bind_done _ _ _ _ _ (setm_run _ m _ _ Hm')), change_change.
    unfold mret, C_ret. f_equal. apply Hch. unfold prepended. by rewrite Hh.
  - rewrite bind_ret. unfold mret, C_ret. f_equal. apply Hch. unfold prepended. by rewrite Hh.
Qed.

(** C39. Space in mbufs.  When an mbuf may be written, the space before its data,
    the data and the space after them are exactly its buffer, whatever kind of
    buffer it has; shared storage reports no space.  M_PREPEND takes room
    that is there from the space before the data: the data stay in the buffer,
    grow by that much, and so does the length of the packet; the space after
    them does not change.  Otherwise it leaves the work to m_prepend. *)
Theorem mbuf_space `{Zones} s m b plen how :
  s.(mbufs) !! m = Some b → m ≠ 0 → in_room m b → 0 ≤ plen → b.(m_len) + plen ≤ INT_MAX → 0 ≤ b.(pkthdr_len) + plen ≤ INT_MAX →
  (M_WRITABLE m s = Done true s →
    ∃ l t, M_LEADINGSPACE m s = Done l s ∧ M_TRAILINGSPACE m s = Done t s ∧ 0 ≤ l ∧ 0 ≤ t ∧ l + b.(m_len) + t = room b ∧
      (plen ≤ l → M_PREPEND m plen how s = Done m (change m (prepended plen) s) ∧ in_room m (prepended plen b) ∧
         (prepended plen b).(m_len) = b.(m_len) + plen ∧
         room_start m (prepended plen b) + room (prepended plen b) - ((prepended plen b).(m_data) + (prepended plen b).(m_len)) = t)) ∧
  (has_ext b = true → M_WRITABLE m s = Done false s →
    M_LEADINGSPACE m s = Done 0 s ∧ M_TRAILINGSPACE m s = Done 0 s ∧
    (0 < plen → m_prepend m plen how s = Done 0 s → M_PREPEND m plen how s = Done 0 s)).
Proof.
  intros Hm Hm0 Hr Hp Hl Hk. split.
  - intros Hw. destruct (space_ok s m b Hm Hw) as [E1 E2]. do 2 eexists. split; [exact E1|]. split; [exact E2|].
    pose proof Hr as (R1 & R2 & R3). split; [lia|]. split; [lia|]. split; [lia|]. intros Hle.
    split; [by apply (prepend_in_place s m b)|].
    assert (Hsame : room_start m (prepended plen b) = room_start m b ∧ room (prepended plen b) = room b ∧
      (prepended plen b).(m_data) = b.(m_data) - plen ∧ (prepended plen b).(m_len) = b.(m_len) + plen).
    { unfold prepended. destruct (has_hdr b); done. }
    destruct Hsame as (-> & -> & Ed & El). unfold in_room.
    replace (room_start m (prepended plen b)) with (room_start m b) by (unfold prepended; by destruct (has_hdr b)).
    replace (room (prepended plen b)) with (room b) by (unfold prepended; by destruct (has_hdr b)). rewrite Ed, El. lia.
  - intros He Hw. destruct (space_shared s m b Hm He Hw) as [E1 E2]. split; [done|]. split; [done|]. intros Hpos Ep.
    unfold M_PREPEND. rewrite (bind_done _ _ _ _ _ E1), (proj2 (Z.leb_gt _ _)) by lia. by rewrite (bind_done _ _ _ _ _ Ep).
Qed.

(** Zones without memory, for examples. *)
#[export] Instance no_zones : Zones := {|
  uma_zalloc_arg _ _ _ := mret 0; uma_zfree _ _ := mret (); uma_zfree_arg _ _ _ := mret ();
  uma_find_refcnt _ _ := mret 0; zone_drain _ := mret (); mb_free_ext _ := mret ();
  m_pkthdr_init _ _ := mret 0; m_prepend _ _ _ := mret 0; bzero _ _ := mret () |}.

(** A packet of 100 bytes with 40 bytes before it. *)
Definition sample_mbuf : mbuf := Mbuf 0 0 (m_pktdat 1024 + 40) 100 M_PKTHDR 1 100 0 0 0 0 0 0 0.
Definition sample_pool : pool := Pool (<[1024 := sample_mbuf]> ∅) ∅.

Lemma mbuf_space_witness :
  M_PREPEND 1024 14 0 sample_pool = Done 1024 (change 1024 (prepended 14) sample_pool) ∧ in_room 1024 (prepended 14 sample_mbuf).
Proof.
  destruct (mbuf_space sample_pool 1024 sample_mbuf 14 0) as (H & _);
    [reflexivity|lia|by compute|lia|by compute|by compute|].
  destruct (H eq_refl) as (l & t & E1 & _ & _ & _ & _ & H2).
  assert (l = 40) as -> by (vm_compute in E1; congruence). destruct (H2 ltac:(lia)) as (A & B & _). split; [exact A|exact B].
Defined.

(** ** Alignment *)

Lemma aligned_room_is r len : 0 ≤ len ≤ r → r < 2 ^ 32 → aligned_room r len = (r - len) - (r - len) mod 8.
Proof.
  intros Hl Hr. unfold aligned_room, u64. rewrite Z.mod_small by lia.
  assert (- 8 mod 2 ^ 64 = Z.ldiff (Z.ones 64) (Z.ones 3)) as -> by reflexivity.
  set (x := r - len). assert (Hx : 0 ≤ x < 2 ^ 64) by (subst x; lia).
  assert (E : Z.land x (Z.ldiff (Z.ones 64) (Z.ones 3)) = Z.ldiff x (Z.ones 3)).
  { apply Z.bits_inj'. intros i Hi. rewrite Z.land_spec, !Z.ldiff_spec. destruct (decide (i < 64)).
    - by rewrite Z.ones_spec_low by lia.
    - rewrite <- (Z.mod_small x (2 ^ 64)) by done. by rewrite Z.mod_pow2_bits_high by lia. }
  rewrite E, Z.ldiff_ones_r by lia. rewrite Z.shiftr_div_pow2, Z.shiftl_mul_pow2 by lia.
  change (2 ^ 3) with 8. pose proof (Z.div_mod x 8 ltac:(lia)). lia.
Qed.

(** M_ALIGN and MH_ALIGN put an object of [len] bytes at the end of a fresh
    mbuf: it starts on a multiple of 8, fits, and leaves less than 8 bytes. *)
Theorem mbuf_align s m b len :
  s.(mbufs) !! m = Some b → m mod 8 = 0 → 0 ≤ m < 2 ^ 48 → b.(m_len) = 0 →
  (0 ≤ len ≤ MLEN → b.(m_data) = m_dat m →
    ∃ d, M_ALIGN m len s = Done () (change m (with_data d 0) s) ∧ d mod 8 = 0 ∧
      m_dat m ≤ d ∧ 0 ≤ m_dat m + MLEN - (d + len) < 8) ∧
  (0 ≤ len ≤ MHLEN → b.(m_data) = m_pktdat m →
    ∃ d, MH_ALIGN m len s = Done () (change m (with_data d 0) s) ∧ d mod 8 = 0 ∧
      m_pktdat m ≤ d ∧ 0 ≤ m_dat m + MLEN - (d + len) < 8).
Proof.
  intros Hm Ha Hr Hz.
  assert (Hgen : ∀ start r, b.(m_data) = start → 0 ≤ start < 2 ^ 49 → start mod 8 = 0 → r mod 8 = 0 → 0 ≤ len ≤ r → r < 1000 →
    ∃ d, setm m (λ b, with_data (u64 (b.(m_data) + aligned_room r len)) b.(m_len) b) s = Done () (change m (with_data d 0) s) ∧
      d mod 8 = 0 ∧ start ≤ d ∧ 0 ≤ start + r - (d + len) < 8).
  { intros start r Hd Hs Hsa Hra Hl Hr1. exists (start + ((r - len) - (r - len) mod 8)).
    pose proof (Z.mod_pos_bound (r - len) 8 ltac:(lia)) as Hb. pose proof (Z.mod_le (r - len) 8 ltac:(lia) ltac:(lia)).
    split; [|split; [|lia]].
    - rewrite (setm_run s m b _ Hm). f_equal. unfold change. f_equal. apply map_eq. intros i. destruct (decide (i = m)) as [->|].
      + rewrite !lookup_alter_eq, Hm. simpl. rewrite Hz, Hd, aligned_room_is by lia. unfold u64. by rewrite Z.mod_small by lia.
      + by rewrite !lookup_alter_ne by done.
    - pose proof (Z.div_mod (r - len) 8 ltac:(lia)) as E. replace ((r - len) - (r - len) mod 8) with (((r - len) / 8) * 8) by lia.
      rewrite Z.mod_add by lia. done. }
  split; intros Hl Hd.
  - destruct (Hgen (m_dat m) MLEN Hd) as (d & E & A & B & D); [unfold m_dat, sizeof_m_hdr; lia| |done|done|done|].
    + unfold m_dat, sizeof_m_hdr. rewrite <- Zplus_mod_idemp_l, Ha. done.
    + exists d. done.
  - destruct (Hgen (m_pktdat m) MHLEN Hd) as (d & E & A & B & D);
      [unfold m_pktdat, sizeof_m_hdr, sizeof_pkthdr; lia| |done|done|done|].
    + unfold m_pktdat, sizeof_m_hdr, sizeof_pkthdr. rewrite <- Z.add_assoc, <- Zplus_mod_idemp_l, Ha. done.
    + exists d. split; [done|]. split; [done|]. split; [done|]. unfold m_dat, m_pktdat, MHLEN in *. lia.
Qed.

Lemma mbuf_align_witness :
  ∃ d, M_ALIGN 1024 100 (Pool (<[1024 := Mbuf 0 0 (m_dat 1024) 0 0 1 0 0 0 0 0 0 0 0]> ∅) ∅) =
      Done () (change 1024 (with_data d 0) (Pool (<[1024 := Mbuf 0 0 (m_dat 1024) 0 0 1 0 0 0 0 0 0 0 0]> ∅) ∅)) ∧
    d mod 8 = 0 ∧ m_dat 1024 ≤ d ∧ 0 ≤ m_dat 1024 + MLEN - (d + 100) < 8.
Proof.
  destruct (mbuf_align (Pool (<[1024 := Mbuf 0 0 (m_dat 1024) 0 0 1 0 0 0 0 0 0 0 0]> ∅) ∅) 1024
    (Mbuf 0 0 (m_dat 1024) 0 0 1 0 0 0 0 0 0 0 0) 100) as (H & _); [reflexivity|reflexivity|lia|reflexivity|].
  apply H; [by compute|reflexivity].
Defined.

(** ** Allocation of jumbo clusters *)

(** What the allocator promises: a failure has changed nothing, and freeing a
    fresh mbuf undoes its allocation. *)
Class ZonesLaws `{Zones} : Prop := {
  zalloc_mbuf_fails f t how s s' : uma_zalloc_arg zone_mbuf (Args f t) how s = Done 0 s' → s' = s;
  zalloc_pack_fails f t how s s' : uma_zalloc_arg zone_pack (Args f t) how s = Done 0 s' → s' = s;
  zalloc_cluster_fails z m how s s' : uma_zalloc_arg z (Attach m) how s = Done 0 s' → s' = s;
  zfree_undoes f t how s m s' : uma_zalloc_arg zone_mbuf (Args f t) how s = Done m s' → m ≠ 0 →
    uma_zfree zone_mbuf m s' = Done () s }.

(** The cluster sizes. *)
Definition cluster_size (size : Z) : Prop := size ∈ [MSIZE; MCLBYTES; MJUMPAGESIZE; MJUM9BYTES; MJUM16BYTES].

(** m_getjcl gives an mbuf with a cluster or nothing at all: if it returns
    NULL, for lack of an mbuf or of a cluster, no memory has been kept; a size
    that is not a cluster size is a panic once there is an mbuf. *)
Theorem m_getjcl_all_or_nothing `{ZonesLaws} how type flags size s s' :
  m_getjcl how type flags size s = Done 0 s' → s' = s.
Proof.
  unfold m_getjcl, m_getcl. destruct (size =? MCLBYTES); [apply zalloc_pack_fails|].
  intros (m & s1 & E1 & K1)%bind_inv. destruct (Z.eqb_spec m 0) as [->|Hm].
  - injection K1 as <-. by eapply zalloc_mbuf_fails.
  - apply bind_inv in K1 as (z & s2 & E2 & K2).
    assert (s2 = s1) as -> by (unfold m_getzone, panic, mret, C_ret, ub in E2; repeat case_match; congruence).
    apply bind_inv in K2 as (n & s3 & E3 & K3). destruct (Z.eqb_spec n 0) as [->|Hn].
    + apply zalloc_cluster_fails in E3 as ->. apply bind_inv in K3 as ([] & s4 & E4 & K4). injection K4 as <-.
      rewrite (zfree_undoes _ _ _ _ _ _ E1 Hm) in E4. congruence.
    + injection K3 as K3 _. done.
Qed.

#[export] Instance no_zones_laws : ZonesLaws.
Proof. split; intros *; simpl; unfold mret, C_ret; congruence. Qed.

Lemma m_getjcl_all_or_nothing_witness : sample_pool = sample_pool.
Proof. apply (m_getjcl_all_or_nothing 1 1 0 MJUM9BYTES sample_pool sample_pool). reflexivity. Defined.

(** The type of a size and the zone of a size agree with what m_cljset makes of
    the type: the cluster has that size and its counter comes from that zone. *)
Lemma cluster_types size s : cluster_size size → size ≠ MSIZE →
  ∃ t z, m_gettype size s = Done t s ∧ m_getzone size s = Done z s ∧
    ∀ `{Zones} m cl, m_cljset m cl t s =
      (r ← uma_find_refcnt z cl;
       setm m (λ b, Mbuf b.(m_next) b.(m_nextpkt) cl b.(m_len) (Z.lor b.(m_flags) M_EXT) b.(m_type) b.(pkthdr_len)
         cl 0 0 0 size r t)) s.
Proof.
  intros Hs Hne. unfold cluster_size in Hs. repeat (apply elem_of_cons in Hs as [->|Hs]; [first [done|by do 2 eexists]|]).
  by apply elem_of_nil in Hs.
Qed.

(** ** Numbers in the flags *)

(** A field of [w] bits at bit [k]. *)
Definition field_mask (k w : Z) : Z := Z.shiftl (Z.ones w) k.

Lemma field_mask_bit k w i : 0 ≤ k → 0 ≤ w → 0 ≤ i → Z.testbit (field_mask k w) i = (k <=? i) && (i <? k + w).
Proof.
  intros Hk Hw Hi. unfold field_mask. rewrite Z.shiftl_spec by lia. destruct (Z.leb_spec k i).
  - rewrite Z.testbit_ones by lia. destruct (Z.leb_spec 0 (i - k)), (Z.ltb_spec (i - k) w), (Z.ltb_spec i (k + w)); done || lia.
  - rewrite Z.testbit_neg_r by lia. done.
Qed.

Lemma not32_bit z i : 0 ≤ z < 2 ^ 32 → 0 ≤ i < 32 → Z.testbit (not32 z) i = negb (Z.testbit z i).
Proof.
  intros Hz Hi. unfold not32. replace (2 ^ 32 - 1 - z) with (Z.lnot z + 1 * 2 ^ 32) by (unfold Z.lnot; lia).
  rewrite <- (Z.mod_pow2_bits_low _ 32) by lia. rewrite Z.mod_add by lia. rewrite Z.mod_pow2_bits_low by lia.
  apply Z.lnot_spec. lia.
Qed.

Lemma bit_high f i : 0 ≤ f < 2 ^ 32 → 32 ≤ i → Z.testbit f i = false.
Proof. intros Hf Hi. rewrite <- (Z.mod_small f (2 ^ 32)) by done. apply Z.mod_pow2_bits_high. lia. Qed.

(** Replacing a field: the field has the new number, the other bits stay. *)
Definition field_get (k w f : Z) : Z := Z.shiftr (Z.land f (field_mask k w)) k.
Definition field_put (k w v f : Z) : Z := u32 (Z.lor (Z.land f (not32 (field_mask k w))) (Z.shiftl v k)).

Section Field.
Context (k w f v : Z).
Hypothesis Hk : 0 ≤ k.
Hypothesis Hw : 0 ≤ w.
Hypothesis Hkw : k + w ≤ 32.
Hypothesis Hf : 0 ≤ f < 2 ^ 32.
Hypothesis Hv : 0 ≤ v < 2 ^ w.

Lemma field_mask_range : 0 ≤ field_mask k w < 2 ^ 32.
Proof.
  unfold field_mask. rewrite Z.shiftl_mul_pow2, Z.ones_equiv by lia.
  assert (0 < 2 ^ w) by (apply Z.pow_pos_nonneg; lia). assert (0 < 2 ^ k) by (apply Z.pow_pos_nonneg; lia).
  assert (2 ^ w * 2 ^ k ≤ 2 ^ 32) by (rewrite <- Z.pow_add_r by lia; apply Z.pow_le_mono_r; lia). nia.
Qed.

Lemma v_bit i : w ≤ i → Z.testbit v i = false.
Proof. intros Hi. rewrite <- (Z.mod_small v (2 ^ w)) by done. apply Z.mod_pow2_bits_high. lia. Qed.

Lemma field_put_bit i : 0 ≤ i < 32 →
  Z.testbit (field_put k w v f) i = if (k <=? i) && (i <? k + w) then Z.testbit v (i - k) else Z.testbit f i.
Proof.
  intros Hi. unfold field_put, u32. rewrite Z.mod_pow2_bits_low, Z.lor_spec, Z.land_spec, Z.shiftl_spec by lia.
  rewrite not32_bit, field_mask_bit by (apply field_mask_range || lia).
  destruct (Z.leb_spec k i), (Z.ltb_spec i (k + w)); simpl; rewrite ?andb_false_r, ?andb_true_r, ?orb_false_r; try reflexivity.
  - by rewrite v_bit, orb_false_r by lia.
  - by rewrite (Z.testbit_neg_r v), orb_false_r by lia.
  - by rewrite (Z.testbit_neg_r v), orb_false_r by lia.
Qed.

Lemma field_get_put : field_get k w (field_put k w v f) = v.
Proof.
  apply Z.bits_inj'. intros i Hi. unfold field_get. rewrite Z.shiftr_spec, Z.land_spec, field_mask_bit by lia.
  destruct (Z.leb_spec k (i + k)), (Z.ltb_spec (i + k) (k + w)); simpl; try lia.
  - rewrite andb_true_r, field_put_bit by lia.
    rewrite (proj2 (Z.leb_le _ _)), (proj2 (Z.ltb_lt _ _)) by lia. simpl. f_equal. lia.
  - rewrite andb_false_r, v_bit by lia. done.
Qed.
End Field.

(** Two fields that do not share a bit. *)
Lemma field_get_other k w k' w' v f : 0 ≤ k → 0 ≤ w → k + w ≤ 32 → 0 ≤ f < 2 ^ 32 → 0 ≤ v < 2 ^ w →
  0 ≤ k' → 0 ≤ w' → k' + w' ≤ 32 → k + w ≤ k' ∨ k' + w' ≤ k → field_get k' w' (field_put k w v f) = field_get k' w' f.
Proof.
  intros. apply Z.bits_inj'. intros i Hi. unfold field_get. rewrite !Z.shiftr_spec, !Z.land_spec, !field_mask_bit by lia.
  destruct (Z.leb_spec k' (i + k')), (Z.ltb_spec (i + k') (k' + w')); simpl; rewrite ?andb_false_r; try done.
  rewrite field_put_bit by (done || lia). destruct (Z.leb_spec k (i + k')), (Z.ltb_spec (i + k') (k + w)); simpl; done || lia.
Qed.

(** The routing table number and the hash type of a packet share the flags
    with everything else: what is set is read back, and neither changes the
    other or any flag below bit 24. *)
Theorem mbuf_flag_fields s m b fib h :
  s.(mbufs) !! m = Some b → 0 ≤ b.(m_flags) < 2 ^ 32 → 0 ≤ fib < 16 → 0 ≤ h < 16 →
  ∃ s', (M_SETFIB m fib;; M_HASHTYPE_SET m h) s = Done () s' ∧
    M_GETFIB m s' = Done fib s' ∧ M_HASHTYPE_GET m s' = Done h s' ∧ M_HASHTYPE_TEST m h s' = Done true s' ∧
    ∃ b', s'.(mbufs) !! m = Some b' ∧ ∀ i, 0 ≤ i < 24 → Z.testbit b'.(m_flags) i = Z.testbit b.(m_flags) i.
Proof.
  intros Hm Hf Hfib Hh.
  assert (Hmask : Z.land (Z.shiftl fib M_FIBSHIFT) M_FIB = Z.shiftl fib 28).
  { apply Z.bits_inj'. intros i Hi. change M_FIB with (field_mask 28 4). rewrite Z.land_spec, field_mask_bit by lia. unfold M_FIBSHIFT.
    rewrite Z.shiftl_spec by lia. destruct (Z.leb_spec 28 i), (Z.ltb_spec i (28 + 4)); simpl; rewrite ?andb_true_r, ?andb_false_r; try done.
    - symmetry. apply (v_bit 4 fib); lia.
    - by rewrite Z.testbit_neg_r by lia.
    - by rewrite Z.testbit_neg_r by lia. }
  set (f1 := field_put 28 4 fib b.(m_flags)). set (f2 := field_put 24 4 h f1).
  assert (R1 : 0 ≤ f1 < 2 ^ 32) by (apply Z.mod_pos_bound; lia).
  assert (R2 : 0 ≤ f2 < 2 ^ 32) by (apply Z.mod_pos_bound; lia).
  exists (change m (with_flags f2) s).
  assert (Hm2 : (change m (with_flags f2) s).(mbufs) !! m = Some (with_flags f2 b)) by (by apply change_lookup).
  assert (Eh : M_HASHTYPE_GET m (change m (with_flags f2) s) = Done h (change m (with_flags f2) s)).
  { unfold M_HASHTYPE_GET. rewrite (bind_done _ _ _ _ _ (getm_run _ m _ Hm2)). unfold mret, C_ret. f_equal.
    apply (field_get_put 24 4 f1 h); lia. }
  split; [|split; [|split; [exact Eh|split]]].
  - unfold M_SETFIB, M_HASHTYPE_SET. rewrite bind_assoc, (bind_done _ _ _ _ _ (setm_run s m b _ Hm)).
    rewrite (bind_done _ _ _ _ _ (setm_run _ m _ _ (change_lookup s m b _ Hm))), change_change.
    rewrite (bind_done _ _ _ _ _ (setm_run _ m _ _ (change_lookup s m b _ Hm))), change_change.
    erewrite setm_run by (eapply change_lookup, Hm). rewrite change_change. f_equal. unfold change. f_equal.
    apply map_eq. intros i. destruct (decide (i = m)) as [->|]; [|by rewrite !lookup_alter_ne by done].
    rewrite !lookup_alter_eq, Hm. cbn [fmap option_fmap option_map with_flags m_flags]. rewrite Hmask. reflexivity.
  - unfold M_GETFIB. rewrite (bind_done _ _ _ _ _ (getm_run _ m _ Hm2)). unfold mret, C_ret. f_equal. cbn [m_flags with_flags].
    change (Z.shiftr (Z.land f2 M_FIB) M_FIBSHIFT) with (field_get 28 4 f2). unfold f2.
    rewrite (field_get_other 24 4 28 4) by lia. unfold f1. rewrite field_get_put by lia.
    change M_FIBMASK with (Z.ones 4). rewrite Z.land_ones by lia. by apply Z.mod_small.
  - unfold M_HASHTYPE_TEST. rewrite (bind_done _ _ _ _ _ Eh). by rewrite Z.eqb_refl.
  - exists (with_flags f2 b). split; [done|]. intros i Hi. cbn [m_flags with_flags]. unfold f2. rewrite field_put_bit by lia.
    rewrite (proj2 (Z.leb_gt _ _)) by lia. simpl. unfold f1. rewrite field_put_bit by lia. by rewrite (proj2 (Z.leb_gt _ _)) by lia.
Qed.

Lemma mbuf_flag_fields_witness :
  ∃ s', (M_SETFIB 1024 15;; M_HASHTYPE_SET 1024 6) sample_pool = Done () s' ∧ M_GETFIB 1024 s' = Done 15 s'.
Proof.
  destruct (mbuf_flag_fields sample_pool 1024 sample_mbuf 15 6) as (s' & A & B & _); [reflexivity|by compute|lia|lia|].
  exists s'. split; [exact A|exact B].
Defined.

(** ** Chains *)

Fixpoint mchain (s : pool) (m : Z) (l : list Z) : Prop :=
  match l with
  | [] => False
  | x :: l => m = x ∧ ∃ b, s.(mbufs) !! m = Some b ∧ match l with [] => b.(m_next) = 0 | _ => b.(m_next) ≠ 0 ∧ mchain s b.(m_next) l end
  end.

(** m_last ends at the last mbuf of a chain. *)
Lemma m_last_ok s l m fuel : mchain s m l → (length l ≤ fuel)%nat → m_last fuel m s = Done (default 0 (last l)) s.
Proof.
  revert m fuel. induction l as [|x l IH]; intros m fuel Hc Hf; [done|]. destruct fuel as [|fuel]; [simpl in Hf; lia|].
  simpl in Hc. destruct Hc as (-> & b & Hb & Hc). unfold m_last. cbn [while]. rewrite bind_assoc, (bind_done _ _ _ _ _ (getm_run s x b Hb)).
  destruct l as [|y l].
  - by rewrite Hc.
  - destruct Hc as [Hn Hc]. rewrite (proj2 (Z.eqb_neq _ _) Hn), bind_ret.
    change (last (x :: y :: l)) with (last (y :: l)). apply IH; [exact Hc|simpl in *; lia].
Qed.
