(* ===== verification/Libkern.v ===== *)
(** * Small kernel helpers

    include/sys/libkern.h (minimum, maximum, absolute value, CRC-32, memset),
    the counting and bit map macros of include/sys/param.h and the byte order
    macros of include/machine/endian.h. *)

From S2P Require Import Prelude.
From S2P Require Import BitSet.

(** ** Minimum, maximum, absolute value *)

Definition imax (a b : Z) : Z := if b <? a then a else b.
Definition imin (a b : Z) : Z := if a <? b then a else b.
Definition lmax (a b : Z) : Z := if b <? a then a else b.
Definition lmin (a b : Z) : Z := if a <? b then a else b.
Definition max (a b : Z) : Z := if b <? a then a else b.
Definition min (a b : Z) : Z := if a <? b then a else b.
Definition qmax (a b : Z) : Z := if b <? a then a else b.
Definition qmin (a b : Z) : Z := if a <? b then a else b.
Definition ulmax (a b : Z) : Z := if b <? a then a else b.
Definition ulmin (a b : Z) : Z := if a <? b then a else b.
Definition omax (a b : Z) : Z := if b <? a then a else b.
Definition omin (a b : Z) : Z := if a <? b then a else b.
Definition MIN (a b : Z) : Z := if a <? b then a else b.
Definition MAX (a b : Z) : Z := if b <? a then a else b.

(** The absolute value of the least number of a type overflows. *)
Definition abs_w (w a : Z) : option Z :=
  if a <? 0 then (if a =? - 2 ^ (w - 1) then None else Some (- a)) else Some a.
Definition abs (a : Z) : option Z := abs_w 32 a.
Definition labs (a : Z) : option Z := abs_w 64 a.
Definition qabs (a : Z) : option Z := abs_w 64 a.

(** ** Counting and rounding *)

(** On unsigned 64-bit operands; a division by 0 is undefined. *)
Definition rounddown (x y : Z) : option Z := if y =? 0 then None else Some (u64 (x / y * y)).
Definition roundup (x y : Z) : option Z := if y =? 0 then None else Some (u64 (u64 (x + u64 (y - 1)) / y * y)).
Definition roundup2 (x y : Z) : Z := Z.land (u64 (x + u64 (y - 1))) (flip 64 (u64 (y - 1))).
Definition powerof2 (x : Z) : bool := Z.land (u64 (x - 1)) x =? 0.

(** ** Bit maps in bytes *)

Definition NBBY : Z := 8.
Definition setbit (i : Z) : C words () :=
  w ← get_word (i / NBBY); set_word (i / NBBY) (u8 (Z.lor w (Z.shiftl 1 (i mod NBBY)))).
Definition clrbit (i : Z) : C words () :=
  w ← get_word (i / NBBY); set_word (i / NBBY) (u8 (Z.land w (Z.lnot (Z.shiftl 1 (i mod NBBY))))).
Definition isset (i : Z) : C words Z :=
  w ← get_word (i / NBBY); mret (Z.land w (Z.shiftl 1 (i mod NBBY))).
Definition isclr (i : Z) : C words bool :=
  w ← get_word (i / NBBY); mret (Z.land w (Z.shiftl 1 (i mod NBBY)) =? 0).

(** ** CRC-32 *)

(** The table is external; a byte that is read is below 256. *)
Section Crc.
Context (crc32_tab : Z → Z).

Fixpoint crc32_raw (buf : list Z) (crc : Z) : Z :=
  match buf with
  | [] => crc
  | p :: buf => crc32_raw buf (Z.lxor (crc32_tab (Z.land (Z.lxor crc p) 0xFF)) (Z.shiftr crc 8))
  end.

Definition crc32 (buf : list Z) : Z := Z.lxor (crc32_raw buf 0xFFFFFFFF) 0xFFFFFFFF.
End Crc.

(** ** memset *)

(** The buffer as its bytes; bzero, which the kernel has elsewhere, zeroes the
    first [len] of them. *)
Fixpoint fill_loop (len : nat) (bb : nat) (c : Z) (mem : list Z) : option (list Z) :=
  match len with
  | O => Some mem
  | S len => if bool_decide (bb < length mem)%nat then fill_loop len (S bb) c (<[bb := u8 c]> mem) else None
  end.
Definition memset (bzero : nat → list Z → option (list Z)) (b : list Z) (c : Z) (len : nat) : option (list Z) :=
  if c =? 0 then bzero len b else fill_loop len 0 c b.

(** ** Byte order *)

Definition bswap64_const (x : Z) : Z :=
  Z.lor (Z.shiftr x 56)
    (Z.lor (Z.land (Z.shiftr x 40) (Z.shiftl 0xff 8))
      (Z.lor (Z.land (Z.shiftr x 24) (Z.shiftl 0xff 16))
        (Z.lor (Z.land (Z.shiftr x 8) (Z.shiftl 0xff 24))
          (Z.lor (Z.land (u64 (Z.shiftl x 8)) (Z.shiftl 0xff 32))
            (Z.lor (Z.land (u64 (Z.shiftl x 24)) (Z.shiftl 0xff 40))
              (Z.lor (Z.land (u64 (Z.shiftl x 40)) (Z.shiftl 0xff 48))
                (u64 (Z.shiftl x 56)))))))).

Definition bswap32_const (x : Z) : Z :=
  Z.lor (Z.shiftr x 24)
    (Z.lor (Z.shiftr (Z.land x (Z.shiftl 0xff 16)) 8)
      (Z.lor (u32 (Z.shiftl (Z.land x (Z.shiftl 0xff 8)) 8))
        (u32 (Z.shiftl x 24)))).

(** The operands are promoted to int; the result is cut to 16 bits. *)
Definition bswap16_const (x : Z) : Z := u16 (Z.lor (Z.shiftl x 8) (Z.shiftr x 8)).

(** The bswap instruction reverses the bytes of its operand. *)
Definition bswap_bytes (n : nat) (x : Z) : Z := le_combine (rev (le_split n x)).
Definition bswap64_var (x : Z) : Z := bswap_bytes 8 x.
Definition bswap32_var (x : Z) : Z := bswap_bytes 4 x.
Definition bswap16_var (x : Z) : Z := bswap16_const x.

(** Which of the two is used depends on whether the compiler knows [x]. *)
Definition bswap64 (constant : bool) (x : Z) : Z := if constant then bswap64_const (u64 x) else bswap64_var (u64 x).
Definition bswap32 (constant : bool) (x : Z) : Z := if constant then bswap32_const (u32 x) else bswap32_var (u32 x).
Definition bswap16 (constant : bool) (x : Z) : Z := if constant then bswap16_const (u16 x) else bswap16_var (u16 x).
Definition htonl : bool → Z → Z := bswap32.
Definition htons : bool → Z → Z := bswap16.
Definition ntohl : bool → Z → Z := bswap32.
Definition ntohs : bool → Z → Z := bswap16.

(** ** CRC-32 is the bitwise CRC *)

Definition POLY : Z := 0xEDB88320.

(** One bit, and a byte, of the division by the polynomial, least bit first. *)
Definition crc_bit (c : Z) : Z := Z.lxor (Z.shiftr c 1) (if Z.odd c then POLY else 0).
Definition crc_bits (n : nat) (c : Z) : Z := Nat.iter n crc_bit c.
Definition crc_bitwise (buf : list Z) (crc : Z) : Z := foldl (λ c p, crc_bits 8 (Z.lxor c p)) crc buf.

Lemma crc_bit_lxor x y : crc_bit (Z.lxor x y) = Z.lxor (crc_bit x) (crc_bit y).
Proof.
  unfold crc_bit. rewrite Z.shiftr_lxor, <- !Z.bit0_odd, Z.lxor_spec.
  destruct (Z.testbit x 0), (Z.testbit y 0); simpl xorb; cbn iota;
    apply Z.bits_inj'; intros i Hi; rewrite !Z.lxor_spec, ?Z.bits_0;
    destruct (Z.testbit (Z.shiftr x 1) i), (Z.testbit (Z.shiftr y 1) i), (Z.testbit POLY i); done.
Qed.

Lemma crc_bits_lxor n x y : crc_bits n (Z.lxor x y) = Z.lxor (crc_bits n x) (crc_bits n y).
Proof. unfold crc_bits. induction n as [|n IH]; [done|]. simpl. by rewrite IH, crc_bit_lxor. Qed.

(** Zero bits are only shifted out. *)
Lemma crc_bits_shift n c : 0 ≤ c → crc_bits n (Z.shiftl c (Z.of_nat n)) = c.
Proof.
  intros Hc. revert c Hc. induction n as [|n IH]; intros c Hc; [by rewrite Z.shiftl_0_r|].
  unfold crc_bits. rewrite Nat.iter_succ_r.
  assert (crc_bit (Z.shiftl c (Z.of_nat (S n))) = Z.shiftl c (Z.of_nat n)) as ->; [|by apply IH].
  unfold crc_bit. rewrite <- Z.bit0_odd, Z.shiftl_spec_low by lia. rewrite Z.lxor_0_r, Z.shiftr_shiftl_l by lia. f_equal. lia.
Qed.

Lemma split_low c : 0 ≤ c → c = Z.lxor (Z.shiftl (Z.shiftr c 8) 8) (Z.land c 0xFF).
Proof.
  intros Hc. apply Z.bits_inj'. intros i Hi. change 0xFF with (Z.ones 8). rewrite Z.lxor_spec, Z.land_spec.
  destruct (decide (i < 8)).
  - rewrite Z.shiftl_spec_low, Z.ones_spec_low by lia. by rewrite andb_true_r.
  - rewrite Z.shiftl_spec_high, Z.shiftr_spec, Z.ones_spec_high by lia. rewrite andb_false_r, xorb_false_r. f_equal. lia.
Qed.

(** One byte through the table. *)
Lemma crc_byte c p : 0 ≤ c → 0 ≤ p < 256 →
  crc_bits 8 (Z.lxor c p) = Z.lxor (crc_bits 8 (Z.land (Z.lxor c p) 0xFF)) (Z.shiftr c 8).
Proof.
  intros Hc Hp. assert (H0 : 0 ≤ Z.lxor c p) by (apply Z.lxor_nonneg; lia). rewrite (split_low _ H0) at 1.
  rewrite crc_bits_lxor, Z.lxor_comm. f_equal.
  assert (E : Z.shiftr (Z.lxor c p) 8 = Z.shiftr c 8).
  { rewrite Z.shiftr_lxor, (Z.shiftr_div_pow2 p) by lia. rewrite (Z.div_small p) by lia. apply Z.lxor_0_r. }
  rewrite E. change 8 with (Z.of_nat 8). apply crc_bits_shift. by apply Z.shiftr_nonneg.
Qed.

Lemma lxor_range x y : 0 ≤ x → 0 ≤ y → 0 ≤ Z.lxor x y.
Proof. intros. apply Z.lxor_nonneg. lia. Qed.

(** C34. The table-driven CRC of libkern.h is the bit-by-bit division by the CRC-32
    polynomial, if the table has the remainders of the 256 bytes, and a buffer
    may be processed in pieces. *)
Theorem crc32_is_bitwise tab buf buf2 crc :
  (∀ i, 0 ≤ i < 256 → tab i = crc_bits 8 i) → Forall (λ p, 0 ≤ p < 256) buf → 0 ≤ crc →
  crc32_raw tab buf crc = crc_bitwise buf crc ∧
  crc32 tab buf = Z.lxor (crc_bitwise buf 0xFFFFFFFF) 0xFFFFFFFF ∧
  crc32_raw tab (buf ++ buf2) crc = crc32_raw tab buf2 (crc32_raw tab buf crc).
Proof.
  intros Ht Hb Hc.
  assert (Hraw : ∀ crc, 0 ≤ crc → crc32_raw tab buf crc = crc_bitwise buf crc).
  { clear crc Hc. induction Hb as [|p buf Hp _ IH]; intros crc Hc; [done|]. cbn [crc32_raw]. unfold crc_bitwise. cbn [foldl].
    fold (crc_bitwise buf). rewrite crc_byte by done.
    assert (0 ≤ Z.land (Z.lxor crc p) 255 < 256).
    { change 255 with (Z.ones 8). rewrite Z.land_ones by lia. by apply Z.mod_pos_bound. }
    rewrite Ht by done. rewrite IH; [done|]. apply lxor_range; [|by apply Z.shiftr_nonneg].
    unfold crc_bits. apply (Nat.iter_invariant 8 Z crc_bit (λ z, 0 ≤ z)); [|lia].
    intros z Hz. unfold crc_bit. apply lxor_range; [by apply Z.shiftr_nonneg|by destruct (Z.odd z)]. }
  split; [by apply Hraw|]. split; [unfold crc32; by rewrite Hraw|].
  clear Hraw Ht Hb Hc. revert crc. induction buf as [|p buf IH]; intros crc; [done|]. simpl. apply IH.
Qed.

(** The check value of CRC-32, over the digits 1 to 9. *)
Lemma crc32_is_bitwise_witness :
  crc32 (crc_bits 8) [49; 50; 51; 52; 53; 54; 55; 56; 57] = 0xCBF43926.
Proof.
  destruct (crc32_is_bitwise (crc_bits 8) [49; 50; 51; 52; 53; 54; 55; 56; 57] [] 0) as (_ & H & _); [done| |lia|].
  - repeat (apply Forall_cons_2; [lia|]). apply Forall_nil_2.
  - rewrite H. reflexivity.
Defined.

(** ** Byte order *)

Lemma mask_bit k i : 0 ≤ k → 0 ≤ i → Z.testbit (Z.shiftl 0xff k) i = (k <=? i) && (i <? k + 8).
Proof.
  intros Hk Hi. rewrite Z.shiftl_spec by lia. change 0xff with (Z.ones 8). destruct (Z.leb_spec k i).
  - rewrite Z.testbit_ones by lia. destruct (Z.leb_spec 0 (i - k)), (Z.ltb_spec (i - k) 8), (Z.ltb_spec i (k + 8)); done || lia.
  - by rewrite Z.testbit_neg_r by lia.
Qed.

Lemma testbit_le_combine (l : list Byte.byte) i : 0 ≤ i →
  Z.testbit (le_combine l) i =
    match l !! Z.to_nat (i / 8) with Some b => Z.testbit (byte.unsigned b) (i mod 8) | None => false end.
Proof.
  revert i. induction l as [|b l IH]; intros i Hi; [by rewrite Z.bits_0|].
  change (le_combine (b :: l)) with (Z.lor (byte.unsigned b) (Z.shiftl (le_combine l) 8)). rewrite Z.lor_spec.
  destruct (decide (i < 8)).
  - rewrite Z.shiftl_spec_low, orb_false_r by lia. by rewrite Z.div_small, Z.mod_small by lia.
  - rewrite Z.shiftl_spec_high, IH by lia.
    rewrite <- (Z.mod_small (byte.unsigned b) (2 ^ 8)) by apply byte.unsigned_range. rewrite Z.mod_pow2_bits_high by lia. simpl.
    assert (i / 8 = (i - 8) / 8 + 1) as -> by (rewrite <- Z.div_add by lia; f_equal; lia).
    assert (i mod 8 = (i - 8) mod 8) as -> by (rewrite <- (Z.mod_add (i - 8) 1) by lia; f_equal; lia).
    assert (0 ≤ (i - 8) / 8) by (apply Z.div_pos; lia). by replace (Z.to_nat ((i - 8) / 8 + 1)) with (S (Z.to_nat ((i - 8) / 8))) by lia.
Qed.

Lemma nth_lookup_error {A} (l : list A) i : l !! i = nth_error l i.
Proof. revert i. induction l as [|x l IH]; intros [|i]; simpl; [done|done|done|apply IH]. Qed.

(** Bit [r] of byte [q] comes from byte [n - 1 - q]. *)
Lemma bswap_bit n x q r : 0 ≤ q < Z.of_nat n → 0 ≤ r < 8 →
  Z.testbit (bswap_bytes n x) (8 * q + r) = Z.testbit x (8 * (Z.of_nat n - 1 - q) + r).
Proof.
  intros Hq Hr. unfold bswap_bytes. rewrite testbit_le_combine by lia.
  replace ((8 * q + r) / 8) with q by (apply Z.div_unique with r; lia).
  replace ((8 * q + r) mod 8) with r by (apply Z.mod_unique with q; lia).
  assert (E : rev (le_split n x) !! Z.to_nat q = Some (byte.of_Z (Z.shiftr x (8 * (Z.of_nat n - 1 - q))))).
  { rewrite rev_alt. change (rev_append (le_split n x) []) with (reverse (le_split n x)).
    rewrite reverse_lookup by (rewrite length_le_split; lia). rewrite length_le_split.
    rewrite nth_lookup_error, nth_error_le_split by lia. do 3 f_equal. lia. }
  rewrite E, byte.unsigned_of_Z. unfold byte.wrap. rewrite Z.mod_pow2_bits_low, Z.shiftr_spec by lia. f_equal. lia.
Qed.

Lemma testbit_small n x i : 0 ≤ x < 2 ^ n → 0 ≤ n ≤ i → Z.testbit x i = false.
Proof. intros Hx Hi. rewrite <- (Z.mod_small x (2 ^ n)) by done. apply Z.mod_pow2_bits_high. lia. Qed.

(** The terms of the constant versions: a byte moved right or left. *)
Lemma right_bit x s k i : 0 ≤ s → 0 ≤ k → 0 ≤ i →
  Z.testbit (Z.land (Z.shiftr x s) (Z.shiftl 0xff k)) i = (k <=? i) && (i <? k + 8) && Z.testbit x (i + s).
Proof. intros. rewrite Z.land_spec, mask_bit, Z.shiftr_spec by lia. apply andb_comm. Qed.

Lemma left_bit x s k i : 0 ≤ s → 0 ≤ k → 0 ≤ i < 64 →
  Z.testbit (Z.land (u64 (Z.shiftl x s)) (Z.shiftl 0xff k)) i = (k <=? i) && (i <? k + 8) && Z.testbit x (i - s).
Proof. intros. unfold u64. rewrite Z.land_spec, mask_bit, Z.mod_pow2_bits_low, Z.shiftl_spec by lia. apply andb_comm. Qed.

(** Decide which terms a bit belongs to. *)
Ltac pick_byte :=
  repeat match goal with
  | |- context [?a <=? ?b] => first [rewrite (proj2 (Z.leb_le a b)) by lia | rewrite (proj2 (Z.leb_gt a b)) by lia]
  | |- context [?a <? ?b] => first [rewrite (proj2 (Z.ltb_lt a b)) by lia | rewrite (proj2 (Z.ltb_ge a b)) by lia]
  end; cbn [andb orb]; rewrite ?orb_false_r.

Lemma bswap64_const_bit x q r : 0 ≤ x < 2 ^ 64 → 0 ≤ q < 8 → 0 ≤ r < 8 →
  Z.testbit (bswap64_const x) (8 * q + r) = Z.testbit x (8 * (8 - 1 - q) + r).
Proof.
  intros Hx Hq Hr. unfold bswap64_const. rewrite !Z.lor_spec, !right_bit, !left_bit, Z.shiftr_spec by lia.
  unfold u64. rewrite Z.mod_pow2_bits_low, Z.shiftl_spec by lia.
  assert (Hhi : ∀ i, 64 ≤ i → Z.testbit x i = false) by (intros; apply (testbit_small 64); [done|lia]).
  assert (Hlo : ∀ i, i < 0 → Z.testbit x i = false) by (intros; by apply Z.testbit_neg_r).
  assert (q = 0 ∨ q = 1 ∨ q = 2 ∨ q = 3 ∨ q = 4 ∨ q = 5 ∨ q = 6 ∨ q = 7) as Hc by lia.
  destruct_or! Hc; subst q; pick_byte; rewrite ?(Hlo (_ - 56)) by lia; rewrite ?(Hhi (_ + 56)) by lia; cbn [orb]; rewrite ?orb_false_r; f_equal; lia.
Qed.

Lemma bswap32_const_bit x q r : 0 ≤ x < 2 ^ 32 → 0 ≤ q < 4 → 0 ≤ r < 8 →
  Z.testbit (bswap32_const x) (8 * q + r) = Z.testbit x (8 * (4 - 1 - q) + r).
Proof.
  intros Hx Hq Hr. unfold bswap32_const, u32.
  rewrite !Z.lor_spec, !Z.mod_pow2_bits_low, !Z.shiftr_spec, !Z.shiftl_spec by lia.
  rewrite (Z.land_spec x (Z.shiftl 255 16)), mask_bit by lia.
  assert (Hhi : ∀ i, 32 ≤ i → Z.testbit x i = false) by (intros; apply (testbit_small 32); [done|lia]).
  assert (Hlo : ∀ z i, i < 0 → Z.testbit z i = false) by (intros; by apply Z.testbit_neg_r).
  assert (q = 0 ∨ q = 1 ∨ q = 2 ∨ q = 3) as Hc by lia.
  destruct_or! Hc; subst q.
  - rewrite (Hlo _ (8 * 0 + r - 8)), (Hlo _ (8 * 0 + r - 24)) by lia. pick_byte. rewrite ?andb_false_r. cbn [orb]. rewrite ?orb_false_r. f_equal. lia.
  - rewrite (Z.land_spec x (Z.shiftl 255 8)), mask_bit by lia. rewrite (Hlo x (8 * 1 + r - 24)) by lia. rewrite (Hhi (8 * 1 + r + 24)) by lia. pick_byte.
    rewrite ?andb_true_r, ?andb_false_r, ?orb_false_r. f_equal. lia.
  - rewrite (Z.land_spec x (Z.shiftl 255 8)), mask_bit by lia. rewrite (Hlo x (8 * 2 + r - 24)) by lia. rewrite (Hhi (8 * 2 + r + 24)) by lia. pick_byte.
    rewrite ?andb_true_r, ?andb_false_r, ?orb_false_r. cbn [orb]. f_equal. lia.
  - rewrite (Z.land_spec x (Z.shiftl 255 8)), mask_bit by lia. rewrite (Hhi (8 * 3 + r + 24)) by lia. pick_byte.
    rewrite ?andb_true_r, ?andb_false_r, ?orb_false_r. cbn [orb]. f_equal. lia.
Qed.

Lemma le_combine_small (l : list Byte.byte) : 0 ≤ le_combine l < 2 ^ (8 * Z.of_nat (length l)).
Proof. apply le_combine_bound. Qed.

Lemma bswap_range n x : 0 ≤ bswap_bytes n x < 2 ^ (8 * Z.of_nat n).
Proof. unfold bswap_bytes. pose proof (le_combine_small (rev (le_split n x))) as H. by rewrite length_rev, length_le_split in H. Qed.

(** Numbers of [n] bytes are equal if their bytes are. *)
Lemma bytes_eq n x y : 0 ≤ x < 2 ^ (8 * Z.of_nat n) → 0 ≤ y < 2 ^ (8 * Z.of_nat n) →
  (∀ q r, 0 ≤ q < Z.of_nat n → 0 ≤ r < 8 → Z.testbit x (8 * q + r) = Z.testbit y (8 * q + r)) → x = y.
Proof.
  intros Hx Hy H. apply Z.bits_inj'. intros i Hi. destruct (decide (i < 8 * Z.of_nat n)).
  - pose proof (Z.div_mod i 8 ltac:(lia)). pose proof (Z.mod_pos_bound i 8 ltac:(lia)).
    replace i with (8 * (i / 8) + i mod 8) by lia. apply H; [|lia]. split; [apply Z.div_pos; lia|apply Z.div_lt_upper_bound; lia].
  - by rewrite !(testbit_small (8 * Z.of_nat n)) by (done || lia).
Qed.

Lemma bswap_bswap n x : 0 ≤ x < 2 ^ (8 * Z.of_nat n) → bswap_bytes n (bswap_bytes n x) = x.
Proof.
  intros Hx. apply (bytes_eq n); [apply bswap_range|done|]. intros q r Hq Hr.
  rewrite bswap_bit, bswap_bit by lia. f_equal. lia.
Qed.

Lemma bswap64_const_range x : 0 ≤ x < 2 ^ 64 → 0 ≤ bswap64_const x < 2 ^ 64.
Proof.
  intros Hx. apply words_range; [lia| |].
  - intros i Hi. unfold bswap64_const. rewrite !Z.lor_spec, !right_bit, Z.shiftr_spec by lia.
    rewrite (testbit_small 64 x) by (done || lia). rewrite !Z.land_spec, !mask_bit by lia. pick_byte.
    rewrite !andb_false_r. unfold u64. by rewrite Z.mod_pow2_bits_high by lia.
  - unfold bswap64_const. repeat (apply Z.lor_nonneg; split); try (apply Z.land_nonneg; right; apply Z.shiftl_nonneg; lia).
    + apply Z.shiftr_nonneg. lia.
    + apply Z.mod_pos_bound. lia.
Qed.

Lemma bswap32_const_range x : 0 ≤ x < 2 ^ 32 → 0 ≤ bswap32_const x < 2 ^ 32.
Proof.
  intros Hx. apply words_range; [lia| |].
  - intros i Hi. unfold bswap32_const, u32. rewrite !Z.lor_spec, !Z.mod_pow2_bits_high, !Z.shiftr_spec, Z.land_spec by lia.
    by rewrite !(testbit_small 32 x) by (done || lia).
  - unfold bswap32_const. repeat (apply Z.lor_nonneg; split); try (apply Z.mod_pos_bound; lia); apply Z.shiftr_nonneg; [lia|].
    apply Z.land_nonneg. lia.
Qed.

Lemma bswap64_const_is x : 0 ≤ x < 2 ^ 64 → bswap64_const x = bswap_bytes 8 x.
Proof.
  intros Hx. apply (bytes_eq 8); [by apply bswap64_const_range|apply bswap_range|].
  intros q r Hq Hr. rewrite bswap64_const_bit, bswap_bit by lia. done.
Qed.

Lemma bswap32_const_is x : 0 ≤ x < 2 ^ 32 → bswap32_const x = bswap_bytes 4 x.
Proof.
  intros Hx. apply (bytes_eq 4); [by apply bswap32_const_range|apply bswap_range|].
  intros q r Hq Hr. rewrite bswap32_const_bit, bswap_bit by lia. done.
Qed.

Lemma bswap16_const_is x : 0 ≤ x < 2 ^ 16 → bswap16_const x = bswap_bytes 2 x.
Proof.
  intros Hx. apply (bytes_eq 2); [by apply Z.mod_pos_bound|apply bswap_range|].
  intros q r Hq Hr. rewrite bswap_bit by lia. unfold bswap16_const, u16.
  rewrite Z.mod_pow2_bits_low, Z.lor_spec, Z.shiftl_spec, Z.shiftr_spec by lia.
  assert (q = 0 ∨ q = 1) as [->| ->] by lia.
  - rewrite Z.testbit_neg_r by lia. simpl. f_equal. lia.
  - rewrite (testbit_small 16 x (8 * 1 + r + 8)) by (done || lia). rewrite orb_false_r. f_equal. lia.
Qed.

(** The byte order macros reverse the bytes, by shifts and masks for constants
    and by the instruction otherwise, with the same result, and are their own
    inverses: a number that goes to network order and back is unchanged,
    whichever version the compiler takes on either way. *)
Theorem byte_order_roundtrip c1 c2 x :
  bswap64 c1 x = bswap_bytes 8 (u64 x) ∧ bswap32 c1 x = bswap_bytes 4 (u32 x) ∧ bswap16 c1 x = bswap_bytes 2 (u16 x) ∧
  bswap64 c2 (bswap64 c1 x) = u64 x ∧ ntohl c2 (htonl c1 x) = u32 x ∧ ntohs c2 (htons c1 x) = u16 x.
Proof.
  assert (R64 : ∀ z, 0 ≤ u64 z < 2 ^ 64) by (intros; apply Z.mod_pos_bound; lia).
  assert (R32 : ∀ z, 0 ≤ u32 z < 2 ^ 32) by (intros; apply Z.mod_pos_bound; lia).
  assert (R16 : ∀ z, 0 ≤ u16 z < 2 ^ 16) by (intros; apply Z.mod_pos_bound; lia).
  assert (E64 : ∀ c z, bswap64 c z = bswap_bytes 8 (u64 z)) by (intros [] z; [by apply bswap64_const_is|done]).
  assert (E32 : ∀ c z, bswap32 c z = bswap_bytes 4 (u32 z)) by (intros [] z; [by apply bswap32_const_is|done]).
  assert (E16 : ∀ c z, bswap16 c z = bswap_bytes 2 (u16 z)) by (intros [] z; unfold bswap16, bswap16_var; by apply bswap16_const_is).
  unfold htonl, ntohl, htons, ntohs. rewrite !E64, !E32, !E16. split; [done|]. split; [done|]. split; [done|]. split; [|split].
  - replace (u64 (bswap_bytes 8 (u64 x))) with (bswap_bytes 8 (u64 x)) by (symmetry; apply Z.mod_small, (bswap_range 8)).
    apply bswap_bswap, R64.
  - replace (u32 (bswap_bytes 4 (u32 x))) with (bswap_bytes 4 (u32 x)) by (symmetry; apply Z.mod_small, (bswap_range 4)).
    apply bswap_bswap, R32.
  - replace (u16 (bswap_bytes 2 (u16 x))) with (bswap_bytes 2 (u16 x)) by (symmetry; apply Z.mod_small, (bswap_range 2)).
    apply bswap_bswap, R16.
Qed.

(** ** Rounding and bit maps *)

Lemma flip_land_pow x k : 0 ≤ k < 64 → 0 ≤ x < 2 ^ 64 → Z.land x (flip 64 (2 ^ k - 1)) = x / 2 ^ k * 2 ^ k.
Proof.
  intros Hk Hx. assert (Hp : 0 < 2 ^ k) by (apply Z.pow_pos_nonneg; lia).
  assert (2 ^ k < 2 ^ 64) by (apply Z.pow_lt_mono_r; lia). apply Z.bits_inj'. intros i Hi. rewrite Z.land_spec.
  destruct (decide (i < 64)).
  - rewrite flip_testbit by lia. replace (2 ^ k - 1) with (Z.ones k) by (rewrite Z.ones_equiv; lia). destruct (decide (i < k)).
    + rewrite Z.ones_spec_low, Z.mul_pow2_bits_low by lia. apply andb_false_r.
    + rewrite Z.ones_spec_high, Z.mul_pow2_bits by lia. rewrite Z.div_pow2_bits by lia. simpl. rewrite andb_true_r. f_equal. lia.
  - rewrite (testbit_small 64 x) by (done || lia). rewrite Z.mul_pow2_bits, Z.div_pow2_bits by lia.
    symmetry. apply (testbit_small 64); [done|lia].
Qed.

(** roundup and rounddown give the nearest multiple of [y] on their side;
    roundup2, which needs a power of two, then is roundup; and powerof2 accepts
    exactly 0 and the powers of two. *)
Theorem rounding x y k :
  0 ≤ x < 2 ^ 63 → 0 < y < 2 ^ 63 → 0 ≤ k < 63 →
  (∃ d u, rounddown x y = Some d ∧ roundup x y = Some u ∧ (y | d) ∧ (y | u) ∧ d ≤ x < d + y ∧ u - y < x ≤ u) ∧
  roundup x (2 ^ k) = Some (roundup2 x (2 ^ k)) ∧
  (powerof2 x = true ↔ x = 0 ∨ ∃ j, 0 ≤ j ∧ x = 2 ^ j).
Proof.
  intros Hx Hy Hk. assert (0 < 2 ^ k) by (apply Z.pow_pos_nonneg; lia). assert (2 ^ k < 2 ^ 63) by (apply Z.pow_lt_mono_r; lia).
  split; [|split].
  - pose proof (Z.div_mod x y ltac:(lia)). pose proof (Z.mod_pos_bound x y ltac:(lia)).
    pose proof (Z.div_mod (x + (y - 1)) y ltac:(lia)). pose proof (Z.mod_pos_bound (x + (y - 1)) y ltac:(lia)).
    exists (x / y * y), ((x + (y - 1)) / y * y). unfold rounddown, roundup, u64. rewrite (proj2 (Z.eqb_neq y 0)) by lia.
    rewrite (Z.mod_small (y - 1)), (Z.mod_small (x + (y - 1))) by lia.
    pose proof (Z.mod_le x y ltac:(lia) ltac:(lia)).
    assert (E1 : x / y * y = x - x mod y) by (rewrite Z.mul_comm; lia).
    assert (E2 : (x + (y - 1)) / y * y = x + (y - 1) - (x + (y - 1)) mod y) by (rewrite Z.mul_comm; lia).
    rewrite (Z.mod_small (x / y * y)), (Z.mod_small ((x + (y - 1)) / y * y)) by lia.
    split; [done|]. split; [done|]. split; [apply Z.divide_factor_r|]. split; [apply Z.divide_factor_r|]. lia.
  - unfold roundup, roundup2, u64. rewrite (proj2 (Z.eqb_neq (2 ^ k) 0)) by lia.
    rewrite (Z.mod_small (2 ^ k - 1)), (Z.mod_small (x + (2 ^ k - 1))) by lia. rewrite flip_land_pow by lia. f_equal. apply Z.mod_small.
    pose proof (Z.div_mod (x + (2 ^ k - 1)) (2 ^ k) ltac:(lia)). pose proof (Z.mod_pos_bound (x + (2 ^ k - 1)) (2 ^ k) ltac:(lia)).
    assert (0 ≤ (x + (2 ^ k - 1)) / 2 ^ k) by (apply Z.div_pos; lia). nia.
  - unfold powerof2. rewrite Z.eqb_eq. destruct (decide (x = 0)) as [->|Hx0]; [rewrite Z.land_0_r; tauto|].
    unfold u64. rewrite Z.mod_small by lia. split.
    + intros Hl. right. exists (Z.log2 x). split; [apply Z.log2_nonneg|].
      destruct (Z.log2_spec x ltac:(lia)) as [L1 L2]. destruct (Z.eq_dec x (2 ^ Z.log2 x)) as [|Hne]; [done|exfalso].
      assert (Hb : Z.testbit (Z.land (x - 1) x) (Z.log2 x) = true); [|by rewrite Hl, Z.bits_0 in Hb].
      rewrite Z.land_spec, (Z.bit_log2 x) by lia. rewrite andb_true_r.
      replace (Z.log2 x) with (Z.log2 (x - 1)) by (apply Z.log2_unique; [apply Z.log2_nonneg|rewrite Z.pow_succ_r in * by apply Z.log2_nonneg; lia]).
      apply Z.bit_log2. pose proof (Z.pow_pos_nonneg 2 (Z.log2 x) ltac:(lia) (Z.log2_nonneg x)). lia.
    + intros [|(j & Hj & ->)]; [done|]. replace (2 ^ j - 1) with (Z.ones j) by (rewrite Z.ones_equiv; lia).
      rewrite Z.land_comm, Z.land_ones by lia. by apply Z_mod_same_full.
Qed.

Lemma rounding_witness : roundup 4097 (2 ^ 12) = Some (roundup2 4097 (2 ^ 12)) ∧ roundup2 4097 (2 ^ 12) = 8192.
Proof.
  destruct (rounding 4097 3 12) as (_ & H & _); [lia|lia|lia|]. split; [exact H|reflexivity].
Defined.

(** The bytes of the bit map macros are the words of a set. *)
Lemma byte_mask i : Z.shiftl 1 (i mod 8) = 2 ^ (i mod 8).
Proof. apply Z.shiftl_1_l. Qed.

Lemma u8_lor w i : 0 ≤ w < 2 ^ 8 → u8 (Z.lor w (2 ^ (i mod 8))) = Z.lor w (2 ^ (i mod 8)).
Proof. intros Hw. apply Z.mod_small. apply (lor_range 8); [lia|done|apply (pow_range 8); lia]. Qed.

Lemma u8_clear w i : 0 ≤ w < 2 ^ 8 → u8 (Z.land w (Z.lnot (2 ^ (i mod 8)))) = Z.land w (flip 8 (2 ^ (i mod 8))).
Proof.
  intros Hw. pose proof (pow_range 8 ltac:(lia) i) as Hp. apply Z.bits_inj'. intros j Hj. unfold u8. destruct (decide (j < 8)).
  - rewrite Z.mod_pow2_bits_low, !Z.land_spec, Z.lnot_spec, flip_testbit by lia. done.
  - rewrite Z.mod_pow2_bits_high, Z.land_spec by lia. by rewrite (testbit_small 8 w) by (done || lia).
Qed.

(** setbit, clrbit, isset and isclr on a map of [nb] bytes add, remove and test
    the number [i], without touching another. *)
Theorem bitmap_refines_set nb l i :
  words_ok 8 nb l → 0 ≤ i < 8 * Z.of_nat nb →
  does 8 nb (setbit i) l ({[i]} ∪ members 8 nb l) ∧
  does 8 nb (clrbit i) l (members 8 nb l ∖ {[i]}) ∧
  (∃ v, isset i l = Done v l ∧ (v ≠ 0 ↔ i ∈ members 8 nb l)) ∧
  isclr i l = Done (bool_decide (i ∉ members 8 nb l)) l.
Proof.
  intros Hl Hi. destruct (word_at 8 nb ltac:(lia) l i Hl Hi) as (w & Hw & Hh). destruct (word_index 8 nb ltac:(lia) i Hi) as [_ Hi0].
  pose proof (wo_range _ _ _ Hl _ _ Hw) as Hwr. pose proof (get_word_ok _ _ _ Hi0 Hw) as Eg.
  assert (Hin : i ∈ members 8 nb l ↔ Z.testbit w (i mod 8) = true) by (rewrite elem_of_members, Hh; unfold size; tauto).
  pose proof (land_pow 8 ltac:(lia) w i) as Hlp.
  split; [|split; [|split]].
  - destruct (set_does 8 nb ltac:(lia) l i _ Hl Hi eq_refl) as (l' & E & R). exists l'. split; [|exact R]. rewrite <- E.
    unfold setbit, NBBY. rewrite (bind_done _ _ _ _ _ Eg), (bind_done _ _ _ _ _ Eg), byte_mask. by rewrite u8_lor.
  - destruct (clear_does 8 nb ltac:(lia) l i _ Hl Hi eq_refl) as (l' & E & R). exists l'. split; [|exact R]. rewrite <- E.
    unfold clrbit, NBBY. rewrite (bind_done _ _ _ _ _ Eg), (bind_done _ _ _ _ _ Eg), byte_mask. by rewrite u8_clear.
  - eexists. unfold isset, NBBY. rewrite (bind_done _ _ _ _ _ Eg), byte_mask. split; [done|].
    rewrite Hin, Hlp, not_false_iff_true. done.
  - unfold isclr, NBBY. rewrite (bind_done _ _ _ _ _ Eg), byte_mask. unfold mret, C_ret. f_equal.
    apply eq_true_iff_eq. rewrite Z.eqb_eq, bool_decide_eq_true, Hin, Hlp. by rewrite not_true_iff_false.
Qed.

Lemma bitmap_refines_set_witness : does 8 2 (setbit 9) [0; 0] ({[9]} ∪ members 8 2 [0; 0]).
Proof.
  apply bitmap_refines_set; [|lia]. split; [reflexivity|]. intros [|[|i]] w Hw; simpl in Hw; simplify_eq; lia.
Defined.

(** The loop of memset writes [len] bytes and stays inside the buffer. *)
Lemma fill_loop_ok len bb c mem : (bb + len ≤ length mem)%nat →
  fill_loop len bb c mem = Some (take bb mem ++ replicate len (u8 c) ++ drop (bb + len) mem).
Proof.
  revert bb mem. induction len as [|len IH]; intros bb mem Hl; simpl.
  - by rewrite Nat.add_0_r, take_drop.
  - rewrite bool_decide_eq_true_2 by lia. rewrite IH by (rewrite length_insert; lia). f_equal.
    rewrite (take_S_r _ _ (u8 c)) by (apply list_lookup_insert_eq; lia). rewrite take_insert_ge, drop_insert_lt by lia.
    rewrite <- app_assoc. simpl. by replace (bb + S len)%nat with (S (bb + len)) by lia.
Qed.

Lemma memset_ok bzero b c len : (∀ n l, (n ≤ length l)%nat → bzero n l = Some (replicate n 0 ++ drop n l)) →
  (len ≤ length b)%nat → memset bzero b c len = Some (replicate len (u8 c) ++ drop len b).
Proof.
  intros Hz Hl. unfold memset. destruct (Z.eqb_spec c 0) as [->|]; [by apply Hz|]. by rewrite fill_loop_ok.
Qed.

(** The selections are what they are called; the absolute value is defined for
    all but the least number. *)
Lemma selections a b : imax a b = Z.max a b ∧ imin a b = Z.min a b ∧ MAX a b = Z.max a b ∧ MIN a b = Z.min a b.
Proof. unfold imax, imin, MAX, MIN. destruct (Z.ltb_spec b a), (Z.ltb_spec a b); lia. Qed.

Lemma abs_ok w a : - 2 ^ (w - 1) < a → abs_w w a = Some (Z.abs a).
Proof. intros H. unfold abs_w. destruct (Z.ltb_spec a 0); [rewrite (proj2 (Z.eqb_neq _ _)) by lia|]; f_equal; lia. Qed.
