(* ===== verification/Atomic.v ===== *)
(** * Atomic operations

    include/machine/atomic.h for the processor's instructions: each operation
    is one locked instruction on one memory operand, here the state.  The
    kernel is an SMP kernel.  The variants with _acq_, _rel_ and _barr_ differ
    in what the compiler may reorder and execute the same instruction. *)

From S2P Require Import Prelude.
From Stdlib Require Import Permutation.

(** ** Operand types *)

Inductive optype := Char | Short | Int | Long.

Definition bits (t : optype) : Z := match t with Char => 8 | Short => 16 | Int => 32 | Long => 64 end.
Definition trunc (t : optype) (z : Z) : Z := z mod 2 ^ bits t.

(** ** Instructions *)

(** cmpxchg: the accumulator is compared with the operand; ZF and the
    accumulator afterwards. *)
Definition cmpxchg (acc src : Z) : C Z (bool * Z) :=
  m ← getS; if acc =? m then putS src;; mret (true, acc) else putS m;; mret (false, m).

(** xadd and xchg: what the register holds afterwards. *)
Definition xadd (t : optype) (r : Z) : C Z Z := m ← getS; putS (trunc t (m + r));; mret m.
Definition xchg (r : Z) : C Z Z := m ← getS; putS r;; mret m.

(** ** Operations *)

(** ATOMIC_ASM(NAME, TYPE, OP, CONS, V): the instruction OP with the value of
    the expression V. *)
Definition ATOMIC_ASM (t : optype) (OP : Z → Z → Z) (V : Z) : C Z () :=
  m ← getS; putS (trunc t (OP m (trunc t V))).

Definition atomic_set (t : optype) (v : Z) : C Z () := ATOMIC_ASM t Z.lor v.
Definition atomic_clear (t : optype) (v : Z) : C Z () := ATOMIC_ASM t Z.land (Z.lnot v).
Definition atomic_add (t : optype) (v : Z) : C Z () := ATOMIC_ASM t Z.add v.
Definition atomic_subtract (t : optype) (v : Z) : C Z () := ATOMIC_ASM t Z.sub v.

Definition atomic_cmpset_int (expect src : Z) : C Z Z :=
  '(zf, _) ← cmpxchg expect src; mret (if zf : bool then 1 else 0).
Definition atomic_cmpset_long (expect src : Z) : C Z Z :=
  '(zf, _) ← cmpxchg expect src; mret (if zf : bool then 1 else 0).

Definition atomic_fetchadd_int (v : Z) : C Z Z := xadd Int v.
Definition atomic_fetchadd_long (v : Z) : C Z Z := xadd Long v.

(** ATOMIC_STORE_LOAD: the load is a cmpxchg of the result register with
    itself; [res] is what the register happens to hold. *)
Definition atomic_load_acq (res : Z) : C Z Z := '(_, res) ← cmpxchg res res; mret res.
Definition atomic_store_rel (v : Z) : C Z () := _ ← xchg v; mret ().

Definition atomic_readandclear_int : C Z Z := xchg 0.
Definition atomic_readandclear_long : C Z Z := xchg 0.

(** ** Lemmas *)

Lemma bits_pos t : 0 < bits t.
Proof. by destruct t. Qed.

Lemma trunc_range t z : 0 ≤ trunc t z < 2 ^ bits t.
Proof. apply Z.mod_pos_bound, Z.pow_pos_nonneg; [lia|]. pose proof (bits_pos t). lia. Qed.

Lemma trunc_small t z : 0 ≤ z < 2 ^ bits t → trunc t z = z.
Proof. apply Z.mod_small. Qed.

Lemma trunc_testbit t z i : 0 ≤ i → Z.testbit (trunc t z) i = bool_decide (i < bits t) && Z.testbit z i.
Proof.
  intros Hi. unfold trunc. pose proof (bits_pos t). case_bool_decide.
  - by rewrite Z.mod_pow2_bits_low by lia.
  - by rewrite Z.mod_pow2_bits_high by lia.
Qed.

Lemma testbit_above t z i : 0 ≤ z < 2 ^ bits t → bits t ≤ i → Z.testbit z i = false.
Proof. intros Hz Hi. rewrite <- (trunc_small t z Hz). pose proof (bits_pos t). rewrite trunc_testbit by lia. by rewrite bool_decide_eq_false_2 by lia. Qed.

Lemma trunc_add_trunc t a b : trunc t (a + trunc t b) = trunc t (a + b).
Proof. unfold trunc. by rewrite Zplus_mod_idemp_r. Qed.
Lemma trunc_sub_trunc t a b : trunc t (a - trunc t b) = trunc t (a - b).
Proof. unfold trunc. by rewrite Zminus_mod_idemp_r. Qed.
Lemma trunc_trunc_add t a b : trunc t (trunc t a + b) = trunc t (a + b).
Proof. unfold trunc. by rewrite Zplus_mod_idemp_l. Qed.
Lemma trunc_trunc_sub t a b : trunc t (trunc t a - b) = trunc t (a - b).
Proof. unfold trunc. by rewrite Zminus_mod_idemp_l. Qed.

#[export] Hint Rewrite trunc_add_trunc trunc_sub_trunc trunc_trunc_add trunc_trunc_sub : trunc.

(** The operations do what the table at the top of the header says, at every
    width: set and clear are union and difference of bits, subtract undoes
    add, fetchadd and readandclear return the old value, cmpset stores exactly
    if the operand has the expected value; the load returns the operand
    and leaves it unchanged whatever its result register held before. *)
Theorem atomic_ops_exact t p v e s res :
  0 ≤ p < 2 ^ bits t → 0 ≤ v < 2 ^ bits t →
  (∃ q, atomic_set t v p = Done () q ∧ 0 ≤ q < 2 ^ bits t ∧ ∀ i, 0 ≤ i → Z.testbit q i = Z.testbit p i || Z.testbit v i) ∧
  (∃ q, atomic_clear t v p = Done () q ∧ 0 ≤ q < 2 ^ bits t ∧ ∀ i, 0 ≤ i → Z.testbit q i = Z.testbit p i && negb (Z.testbit v i)) ∧
  (atomic_add t v;; atomic_subtract t v) p = Done () p ∧
  (atomic_cmpset_int e s p = if p =? e then Done 1 s else Done 0 p) ∧
  (atomic_cmpset_long e s p = if p =? e then Done 1 s else Done 0 p) ∧
  (t = Int → (atomic_fetchadd_int v p = (atomic_add t v;; mret p) p) ∧ atomic_readandclear_int p = Done p 0) ∧
  (t = Long → (atomic_fetchadd_long v p = (atomic_add t v;; mret p) p) ∧ atomic_readandclear_long p = Done p 0) ∧
  atomic_load_acq res p = Done p p ∧ (atomic_store_rel v;; atomic_load_acq res) p = Done v v.
Proof.
  intros Hp Hv.
  assert (Hload : ∀ z, atomic_load_acq res z = Done z z).
  { intros z. unfold atomic_load_acq, cmpxchg. c_unfold. destruct (Z.eqb_spec res z) as [->|]; done. }
  assert (Hadd : ∀ z, trunc t (z + trunc t v) = trunc t (z + v)) by (intros; apply trunc_add_trunc).
  split; [|split; [|split; [|split; [|split; [|split; [|split; [|split]]]]]]].
  - eexists. split; [reflexivity|]. split; [apply trunc_range|]. intros i Hi.
    rewrite (trunc_small t v) by done. rewrite trunc_testbit, Z.lor_spec by done. case_bool_decide; [done|].
    rewrite (testbit_above t p), (testbit_above t v) by (done || lia). done.
  - eexists. split; [reflexivity|]. split; [apply trunc_range|]. intros i Hi.
    rewrite trunc_testbit, Z.land_spec, trunc_testbit, Z.lnot_spec by done. case_bool_decide; [done|].
    by rewrite (testbit_above t p) by (done || lia).
  - change ((atomic_add t v;; atomic_subtract t v) p) with
      (Done (S := Z) () (trunc t (trunc t (p + trunc t v) - trunc t v))). f_equal.
    rewrite trunc_add_trunc, trunc_sub_trunc, trunc_trunc_sub. replace (p + v - v) with p by lia. by apply trunc_small.
  - unfold atomic_cmpset_int, cmpxchg. c_unfold. rewrite Z.eqb_sym. by destruct (p =? e).
  - unfold atomic_cmpset_long, cmpxchg. c_unfold. rewrite Z.eqb_sym. by destruct (p =? e).
  - intros ->. split; [|done]. unfold atomic_fetchadd_int, xadd, atomic_add, ATOMIC_ASM. c_unfold. by rewrite Hadd.
  - intros ->. split; [|done]. unfold atomic_fetchadd_long, xadd, atomic_add, ATOMIC_ASM. c_unfold. by rewrite Hadd.
  - apply Hload.
  - change ((atomic_store_rel v;; atomic_load_acq res) p) with (atomic_load_acq res v). apply Hload.
Qed.

Lemma atomic_ops_exact_witness : (atomic_add Char 200;; atomic_subtract Char 200) 100 = Done () 100.
Proof. apply (atomic_ops_exact Char 100 200 0 0 0); simpl; lia. Defined.

(** ** Counters shared by threads *)

Inductive count_op := Add (v : Z) | Subtract (v : Z) | Fetchadd (v : Z).

Definition count_by (o : count_op) : Z := match o with Add v | Fetchadd v => v | Subtract v => - v end.

Fixpoint run_counts (ops : list count_op) : C Z () :=
  match ops with
  | [] => mret ()
  | Add v :: ops => atomic_add Int v;; run_counts ops
  | Subtract v :: ops => atomic_subtract Int v;; run_counts ops
  | Fetchadd v :: ops => _ ← atomic_fetchadd_int v; run_counts ops
  end.

Lemma run_counts_total ops p : 0 ≤ p < 2 ^ 32 →
  run_counts ops p = Done () (trunc Int (p + foldr Z.add 0 (count_by <$> ops))).
Proof.
  revert p. induction ops as [|o ops IH]; intros p Hp.
  - simpl. rewrite Z.add_0_r. by rewrite trunc_small.
  - assert (E : run_counts (o :: ops) p = run_counts ops (trunc Int (p + count_by o))).
    { destruct o; cbn [run_counts count_by]; unfold atomic_add, atomic_subtract, atomic_fetchadd_int, xadd, ATOMIC_ASM; c_unfold;
        autorewrite with trunc; f_equal; f_equal; lia. }
    rewrite E, IH by apply trunc_range. cbn [fmap list_fmap foldr]. rewrite trunc_trunc_add. do 2 f_equal. lia.
Qed.

Lemma sum_permutation (l1 l2 : list Z) : Permutation l1 l2 → foldr Z.add 0 l1 = foldr Z.add 0 l2.
Proof. induction 1; simpl; lia. Qed.

(** No update is lost: in whatever order the additions and subtractions of
    several threads reach a 32-bit counter, it ends as its first value plus
    their sum, modulo 2^32. *)
Theorem counter_order_irrelevant ops ops' p :
  0 ≤ p < 2 ^ 32 → Permutation ops ops' →
  run_counts ops p = Done () (trunc Int (p + foldr Z.add 0 (count_by <$> ops))) ∧ run_counts ops' p = run_counts ops p.
Proof.
  intros Hp Hperm. rewrite !run_counts_total by done. split; [done|]. do 3 f_equal.
  apply sum_permutation. by apply Permutation_map.
Qed.

Lemma counter_order_irrelevant_witness :
  run_counts [Subtract 1; Add 3; Fetchadd 2] 0 = run_counts [Add 3; Subtract 1; Fetchadd 2] 0.
Proof. apply counter_order_irrelevant; [lia|]. apply perm_swap. Defined.
