(* ===== verification/Smp.v ===== *)
(** * CPUs and reference counts

    The enumeration of the CPUs of include/sys/smp.h, on the sets of
    CpuSet.v, and the reference counts of include/sys/refcount.h. *)

From S2P Require Import Prelude.
From S2P Require Import BitSet.
From S2P Require Import Atomic.
From S2P Require Import CpuSet.

(** ** CPUs

    The state is [all_cpus]; [mp_maxid] is a bound for its elements. *)

Definition CPU_ABSENT (x_cpu : Z) : C words bool := b ← CPU_ISSET x_cpu; mret (negb b).

(** [for (i = 0;; i++)], with fuel. *)
Definition cpu_first (fuel : nat) : C words Z :=
  while fuel 0 (λ i, a ← CPU_ABSENT i; if a : bool then mret (inl (i + 1)) else mret (inr i)).

(** [i] is an int and [mp_maxid] unsigned: the comparison is unsigned. *)
Definition cpu_next (fuel : nat) (mp_maxid i : Z) : C words Z :=
  while fuel i (λ i,
    let i := i + 1 in
    let i := if mp_maxid <? u32 i then 0 else i in
    a ← CPU_ABSENT i;
    if a : bool then mret (inl i) else mret (inr i)).

Definition CPU_FIRST (fuel : nat) : C words Z := cpu_first fuel.
Definition CPU_NEXT (fuel : nat) (mp_maxid i : Z) : C words Z := cpu_next fuel mp_maxid i.

(** CPU_FOREACH with a body that does not change the set. *)
Definition CPU_FOREACH {A} (mp_maxid : Z) (acc : A) (body : A → Z → A) : C words A :=
  fold_range 0 (mp_maxid + 1) acc (λ i acc, a ← CPU_ABSENT i; if a : bool then mret acc else mret (body acc i)).

#[local] Opaque members.

Section Cpus.
Context (l : words) (mp_maxid : Z).
Hypothesis Hl : cpus_ok l.
Hypothesis Hmax : 0 ≤ mp_maxid < CPU_SETSIZE.
Hypothesis Hcpus : ∀ i, i ∈ cpus l → i ≤ mp_maxid.

Lemma absent_ok i : 0 ≤ i < CPU_SETSIZE → CPU_ABSENT i l = Done (negb (bool_decide (i ∈ cpus l))) l.
Proof.
  intros Hi. unfold CPU_ABSENT. by rewrite (bind_done _ _ _ _ _ (isset_does 64 2 ltac:(lia) l i _ Hl Hi (mask_is i))).
Qed.

Lemma cpu_range i : i ∈ cpus l → 0 ≤ i ≤ mp_maxid.
Proof. intros Hi. pose proof (Hcpus i Hi). apply elem_of_members in Hi as [? _]. lia. Qed.

(** The loop of cpu_first, from [i] on. *)
Lemma first_from fuel i c :
  0 ≤ i ≤ c → c ∈ cpus l → (∀ j, i ≤ j < c → j ∉ cpus l) → (Z.to_nat (c - i) < fuel)%nat →
  while fuel i (λ i, a ← CPU_ABSENT i; if a : bool then mret (inl (i + 1)) else mret (inr i)) l = Done c l.
Proof.
  intros Hi Hc Hno Hf. pose proof (cpu_range c Hc). unfold CPU_SETSIZE, CPU_MAXSIZE in Hmax. revert i Hi Hno Hf.
  induction fuel as [|fuel IH]; intros i Hi Hno Hf; [lia|]. cbn [while].
  rewrite bind_assoc, (bind_done _ _ _ _ _ (absent_ok i ltac:(unfold CPU_SETSIZE, CPU_MAXSIZE; lia))).
  destruct (decide (i = c)) as [->|Hne]; [by rewrite bool_decide_eq_true_2|].
  rewrite bool_decide_eq_false_2 by (apply Hno; lia). simpl. apply IH; [lia| |lia]. intros j Hj. apply Hno. lia.
Qed.

Lemma cpu_first_ok fuel c : c ∈ cpus l → (∀ j, j ∈ cpus l → c ≤ j) → (Z.to_nat c < fuel)%nat → cpu_first fuel l = Done c l.
Proof.
  intros Hc Hmin Hf. pose proof (cpu_range c Hc). apply first_from; [lia|done| |by rewrite Z.sub_0_r].
  intros j Hj Hin. pose proof (Hmin j Hin). lia.
Qed.

(** One round of cpu_next, before and at the wrap. *)
Lemma next_round i : -1 ≤ i ≤ mp_maxid →
  (if mp_maxid <? u32 (i + 1) then 0 else i + 1) = if i =? mp_maxid then 0 else i + 1.
Proof.
  intros Hi. unfold CPU_SETSIZE, CPU_MAXSIZE in Hmax. unfold u32. rewrite Z.mod_small by lia.
  destruct (Z.ltb_spec mp_maxid (i + 1)), (Z.eqb_spec i mp_maxid); lia.
Qed.

Lemma next_from fuel i c :
  -1 ≤ i < c → c ∈ cpus l → (∀ j, i < j < c → j ∉ cpus l) → (Z.to_nat (c - i) ≤ fuel)%nat → cpu_next fuel mp_maxid i l = Done c l.
Proof.
  intros Hi Hc Hno Hf. pose proof (cpu_range c Hc). unfold cpu_next. revert i Hi Hno Hf.
  induction fuel as [|fuel IH]; intros i Hi Hno Hf; [lia|]. cbn [while]. cbv zeta. rewrite next_round by lia.
  rewrite (proj2 (Z.eqb_neq i mp_maxid)) by lia.
  rewrite bind_assoc, (bind_done _ _ _ _ _ (absent_ok (i + 1) ltac:(lia))).
  destruct (decide (i + 1 = c)) as [->|Hne]; [by rewrite bool_decide_eq_true_2|].
  rewrite bool_decide_eq_false_2 by (apply Hno; lia). simpl. apply IH; [lia| |lia]. intros j Hj. apply Hno. lia.
Qed.

(** Past the last CPU, the search goes on at 0. *)
Lemma next_wrap fuel i c :
  0 ≤ i ≤ mp_maxid → (∀ j, j ∈ cpus l → j ≤ i) → c ∈ cpus l → (∀ j, j ∈ cpus l → c ≤ j) →
  (Z.to_nat (mp_maxid - i + c + 1) ≤ fuel)%nat → cpu_next fuel mp_maxid i l = Done c l.
Proof.
  intros Hi Hlast Hc Hmin Hf. pose proof (cpu_range c Hc) as Hcr. revert i Hi Hlast Hf.
  induction fuel as [|fuel IH]; intros i Hi Hlast Hf; [lia|].
  destruct (decide (i = mp_maxid)) as [->|Hne].
  - unfold cpu_next. cbn [while]. cbv zeta. rewrite next_round, Z.eqb_refl by lia.
    rewrite bind_assoc, (bind_done _ _ _ _ _ (absent_ok 0 ltac:(unfold CPU_SETSIZE, CPU_MAXSIZE; lia))).
    destruct (decide (0 = c)) as [<-|]; [by rewrite bool_decide_eq_true_2|].
    rewrite bool_decide_eq_false_2 by (intros Hin; pose proof (Hmin 0 Hin); lia). simpl. apply next_from; [lia|done| |lia].
    intros j Hj Hin. pose proof (Hmin j Hin). lia.
  - unfold cpu_next. cbn [while]. cbv zeta. rewrite next_round by lia. rewrite (proj2 (Z.eqb_neq i mp_maxid)) by done.
    rewrite bind_assoc, (bind_done _ _ _ _ _ (absent_ok (i + 1) ltac:(lia))).
    rewrite bool_decide_eq_false_2 by (intros Hin; pose proof (Hlast _ Hin); lia). simpl. apply IH; [lia| |lia].
    intros j Hj. pose proof (Hlast j Hj). lia.
Qed.

(** The CPUs in increasing order. *)
Definition cpu_list : list Z := filter (λ i, i ∈ cpus l) (seqZ 0 (mp_maxid + 1)).

Lemma foreach_from {A} (body : A → Z → A) n i acc : 0 ≤ i → Z.of_nat n + i ≤ CPU_SETSIZE →
  fold_up n i acc (λ i acc, a ← CPU_ABSENT i; if a : bool then mret acc else mret (body acc i)) l =
  Done (foldl body acc (filter (λ i, i ∈ cpus l) ((λ k, Z.of_nat k + i) <$> seq 0 n))) l.
Proof.
  revert i acc. induction n as [|n IH]; intros i acc Hi Hb; [done|]. cbn [fold_up].
  rewrite bind_assoc, (bind_done _ _ _ _ _ (absent_ok i ltac:(lia))).
  assert (E : (λ k, Z.of_nat k + i) <$> seq 0 (S n) = i :: ((λ k, Z.of_nat k + (i + 1)) <$> seq 0 n)).
  { simpl. f_equal. rewrite <- fmap_S_seq, <- list_fmap_compose. apply list_fmap_ext. intros k x _. simpl. lia. }
  rewrite E. case_bool_decide as Hin; cbn [negb].
  - rewrite bind_ret, filter_cons_True by done. apply IH; lia.
  - rewrite bind_ret, filter_cons_False by done. apply IH; lia.
Qed.

Lemma cpu_foreach_ok {A} (body : A → Z → A) acc : CPU_FOREACH mp_maxid acc body l = Done (foldl body acc cpu_list) l.
Proof.
  unfold CPU_FOREACH, fold_range, cpu_list, seqZ. rewrite Z.sub_0_r. apply foreach_from; lia.
Qed.
End Cpus.

(** The CPUs of the system are enumerated right, and the searches end: with at
    least one CPU, none above mp_maxid, cpu_first is the least, cpu_next the
    next larger one or, after the last, the least again, and CPU_FOREACH visits
    each CPU once in increasing order.  256 rounds are enough. *)
Theorem cpu_enumeration l mp_maxid i c n {A} (body : A → Z → A) acc :
  cpus_ok l → 0 ≤ mp_maxid < CPU_SETSIZE → (∀ j, j ∈ cpus l → j ≤ mp_maxid) →
  c ∈ cpus l → (∀ j, j ∈ cpus l → c ≤ j) → 0 ≤ i ≤ mp_maxid →
  cpu_first 256 l = Done c l ∧
  (n ∈ cpus l → i < n → (∀ j, j ∈ cpus l → i < j → n ≤ j) → cpu_next 256 mp_maxid i l = Done n l) ∧
  ((∀ j, j ∈ cpus l → j ≤ i) → cpu_next 256 mp_maxid i l = Done c l) ∧
  CPU_FOREACH mp_maxid acc body l = Done (foldl body acc (cpu_list l mp_maxid)) l.
Proof.
  intros Hl Hmax Hcpus Hc Hmin Hi. pose proof Hmax as Hm. unfold CPU_SETSIZE, CPU_MAXSIZE in Hm.
  pose proof (cpu_range l mp_maxid Hcpus c Hc). split; [|split; [|split]].
  - apply (cpu_first_ok l mp_maxid); try done. lia.
  - intros Hn Hin Hnext. pose proof (cpu_range l mp_maxid Hcpus n Hn). apply next_from; try done; [lia| |lia].
    intros j Hj Hjn. pose proof (Hnext j Hjn). lia.
  - intros Hlast. apply next_wrap; try done. lia.
  - by apply cpu_foreach_ok.
Qed.

(** CPUs 1 and 66 of a system of 128. *)
Lemma cpu_enumeration_witness : cpu_next 256 127 66 [2; 4] = Done 1 [2; 4].
Proof.
  assert (Hm : ∀ j, j ∈ cpus [2; 4] ↔ j = 1 ∨ j = 66).
  { intros j. rewrite elem_of_members. unfold size. split.
    - intros [Hj Hh]. unfold has in Hh. destruct (Z.to_nat (j / 64)) as [|[|k]] eqn:Ek; simpl in Hh; [| |done].
      + left. assert (j / 64 = 0) by (assert (0 ≤ j / 64) by (apply Z.div_pos; lia); lia). assert (j mod 64 = 1).
        { pose proof (Z.mod_pos_bound j 64 ltac:(lia)). change 2 with (2 ^ 1) in Hh. rewrite Z.pow2_bits_eqb in Hh by lia. zb. lia. }
        rewrite (Z.div_mod j 64) by lia. lia.
      + right. assert (j / 64 = 1) by lia. assert (j mod 64 = 2).
        { pose proof (Z.mod_pos_bound j 64 ltac:(lia)). change 4 with (2 ^ 2) in Hh. rewrite Z.pow2_bits_eqb in Hh by lia. zb. lia. }
        rewrite (Z.div_mod j 64) by lia. lia.
    - intros [-> | ->]; (split; [simpl; lia|reflexivity]). }
  destruct (cpu_enumeration [2; 4] 127 66 1 0 (λ a _, a) ()) as (_ & _ & H & _).
  - split; [reflexivity|]. intros [|[|k]] w Hw; simpl in Hw; simplify_eq; lia.
  - unfold CPU_SETSIZE, CPU_MAXSIZE. lia.
  - intros j [-> | ->]%Hm; lia.
  - apply Hm. by left.
  - intros j [-> | ->]%Hm; lia.
  - lia.
  - apply H. intros j [-> | ->]%Hm; lia.
Defined.

(** ** Reference counts *)

(** The counter is an unsigned int; each operation is one atomic access. *)
Definition refcount_init (value : Z) : C Z () := putS value.
Definition refcount_acquire : C Z () := atomic_add Int 1.
(** Without INVARIANTS the assertion does nothing. *)
Definition refcount_release : C Z bool := old ← atomic_fetchadd_int (u32 (-1)); mret (old =? 1).

(** Users take and drop references in some order; who sees [true] frees. *)
Inductive ref_op := Acquire | Release.
Fixpoint run_refs (ops : list ref_op) : C Z (list bool) :=
  match ops with
  | [] => mret []
  | Acquire :: ops => refcount_acquire;; run_refs ops
  | Release :: ops => b ← refcount_release; bs ← run_refs ops; mret (b :: bs)
  end.

(** How many references are left after [ops], if at every point there is one to
    drop, and none is taken from a count that has reached 0. *)
Fixpoint refs_left (n : Z) (ops : list ref_op) : option Z :=
  match ops with
  | [] => Some n
  | Acquire :: ops => if 0 <? n then refs_left (n + 1) ops else None
  | Release :: ops => if 0 <? n then refs_left (n - 1) ops else None
  end.

Lemma refs_done ops r : refs_left 0 ops = Some r → ops = [] ∧ r = 0.
Proof. destruct ops as [|[] ops]; simpl; [by intros [= <-]|done|done]. Qed.

Lemma acquire_ok n : 0 ≤ n < 2 ^ 32 - 1 → refcount_acquire n = Done () (n + 1).
Proof.
  intros Hn. change (Done (S := Z) () (trunc Int (n + trunc Int 1)) = Done () (n + 1)). f_equal.
  rewrite trunc_add_trunc. apply trunc_small. simpl. lia.
Qed.

Lemma release_ok n : 0 < n < 2 ^ 32 → refcount_release n = Done (n =? 1) (n - 1).
Proof.
  intros Hn. change (Done (S := Z) (n =? 1) (trunc Int (n + u32 (-1))) = Done (n =? 1) (n - 1)). f_equal.
  change (u32 (-1)) with (trunc Int (-1)). rewrite trunc_add_trunc. apply trunc_small. simpl. lia.
Qed.

(** Exactly the last reference frees: in every order of acquisitions and
    releases that respects the references held, the counter is the number of
    references, and a release reports true exactly if it was the last operation
    and dropped the last reference. *)
Theorem refcount_frees_once n ops r :
  0 < n → n + Z.of_nat (length ops) < 2 ^ 32 → refs_left n ops = Some r →
  ∃ bs, (refcount_init n;; run_refs ops) 0 = Done bs r ∧
    (r = 0 ↔ true ∈ bs) ∧ (∀ bs1 bs2, bs = bs1 ++ true :: bs2 → bs2 = []).
Proof.
  intros Hn Hlen Hr. change ((refcount_init n;; run_refs ops) 0) with (run_refs ops n).
  revert n r Hn Hlen Hr. induction ops as [|[] ops IH]; intros n r Hn Hlen Hr; cbn [length refs_left] in *.
  - injection Hr as <-. exists []. split; [done|]. split; [split; [lia|by intros ?%elem_of_nil]|]. by intros [] ?.
  - rewrite (proj2 (Z.ltb_lt 0 n)) in Hr by lia.
    destruct (IH (n + 1) r ltac:(lia) ltac:(lia) Hr) as (bs & E & H). exists bs. split; [|done].
    cbn [run_refs]. rewrite (bind_done _ _ _ _ _ (acquire_ok n ltac:(lia))). exact E.
  - rewrite (proj2 (Z.ltb_lt 0 n)) in Hr by lia.
    cbn [run_refs]. rewrite (bind_done _ _ _ _ _ (release_ok n ltac:(lia))). destruct (Z.eqb_spec n 1) as [->|Hne].
    + apply refs_done in Hr as [-> ->]. exists [true]. split; [done|]. split; [split; [by left|done]|].
      intros [|b bs1] bs2 E; [by injection E as <-|]. injection E as _ E. by destruct bs1.
    + destruct (IH (n - 1) r ltac:(lia) ltac:(lia) Hr) as (bs & E & Hiff & Hlast). exists (false :: bs).
      split; [by rewrite (bind_done _ _ _ _ _ E)|]. split.
      * rewrite Hiff, elem_of_cons. intuition discriminate.
      * intros [|b bs1] bs2 Eb; [discriminate|]. injection Eb as _ Eb. by eapply Hlast.
Qed.

Lemma refcount_frees_once_witness :
  ∃ bs, (refcount_init 1;; run_refs [Acquire; Release; Release]) 0 = Done bs 0 ∧ (0 = 0 ↔ true ∈ bs) ∧
    (∀ bs1 bs2, bs = bs1 ++ true :: bs2 → bs2 = []).
Proof. apply refcount_frees_once; [lia|simpl; lia|reflexivity]. Defined.
