(* ===== verification/Locks.v ===== *)
(** * Locks

    The inline parts of include/sys/mutex.h, include/sys/rwlock.h and
    include/sys/sx.h: what a thread does when a lock can be taken or released
    with one atomic operation, and when it calls the function of the kernel
    that blocks.  A function is a program of atomic actions on the lock, so
    that LockSteps.v can interleave threads between any two of them.  The
    kernel is an SMP kernel with LOCK_DEBUG 0; the profiling hooks
    (LOCKSTAT_...) do nothing to the lock. *)

From S2P Require Import Prelude.
From S2P Require Import Atomic.

(** ** Programs of atomic actions *)

(** A lock: the word with owner and flags, and lock_object.lo_data, which
    counts recursion. *)
Record lock := Lock { word : Z; recurse : Z }.

(** What is asked of a lock, exclusively (X) or shared (S), with the options
    passed on to the blocking function. *)
Inductive lock_op := XLock (opts : Z) | XUnlock | SLock (opts : Z) | SUnlock.

(** Functions of the kernel that are declared but not defined in the headers:
    the blocking function for an operation, and spinlock_enter and
    spinlock_exit. *)
Inductive kernel_fn := Hard (o : lock_op) | SpinEnter | SpinExit.

Inductive lock_var := Word | Recurse.

Inductive prog :=
| Ret (r : Z)
| Load (x : lock_var) (k : Z → prog)
| Store (x : lock_var) (v : Z) (k : prog)
| Cmpset (expect src : Z) (k : Z → prog)
| Call (f : kernel_fn) (k : Z → prog).

Fixpoint seqp (p : prog) (k : Z → prog) : prog :=
  match p with
  | Ret r => k r
  | Load x j => Load x (λ v, seqp (j v) k)
  | Store x v j => Store x v (seqp j k)
  | Cmpset e s j => Cmpset e s (λ v, seqp (j v) k)
  | Call f j => Call f (λ v, seqp (j v) k)
  end.

Declare Scope prog_scope.
Delimit Scope prog_scope with prog.
Notation "x <- p ;; q" := (seqp p (λ x, q)) (at level 100, p at next level, right associativity) : prog_scope.
Notation "p ;;; q" := (seqp p (λ _, q)) (at level 100, right associativity) : prog_scope.
#[local] Open Scope prog_scope.

Definition load (x : lock_var) : prog := Load x Ret.
Definition store (x : lock_var) (v : Z) : prog := Store x v (Ret 0).
Definition call (f : kernel_fn) : prog := Call f Ret.
Definition atomic_cmpset_ptr (expect src : Z) : prog := Cmpset expect src Ret.
(** [x++] and [x--] on the u_int lo_data. *)
Definition incr_recurse : prog := r <- load Recurse;; store Recurse (u32 (r + 1)).
Definition decr_recurse : prog := r <- load Recurse;; store Recurse (u32 (r - 1)).

(** ** sys/sx.h *)

Definition SX_LOCK_SHARED : Z := 0x01.
Definition SX_LOCK_SHARED_WAITERS : Z := 0x02.
Definition SX_LOCK_EXCLUSIVE_WAITERS : Z := 0x04.
Definition SX_LOCK_RECURSED : Z := 0x08.
Definition SX_LOCK_FLAGMASK : Z :=
  Z.lor (Z.lor (Z.lor SX_LOCK_SHARED SX_LOCK_SHARED_WAITERS) SX_LOCK_EXCLUSIVE_WAITERS) SX_LOCK_RECURSED.
(** [~] of an int, converted to uintptr_t. *)
Definition SX_OWNER (x : Z) : Z := Z.land x (u64 (Z.lnot SX_LOCK_FLAGMASK)).
Definition SX_SHARERS_SHIFT : Z := 4.
Definition SX_SHARERS (x : Z) : Z := Z.shiftr (SX_OWNER x) SX_SHARERS_SHIFT.
Definition SX_SHARERS_LOCK (x : Z) : Z := Z.lor (Z.shiftl x SX_SHARERS_SHIFT) SX_LOCK_SHARED.
Definition SX_ONE_SHARER : Z := Z.shiftl 1 SX_SHARERS_SHIFT.
Definition SX_LOCK_UNLOCKED : Z := SX_SHARERS_LOCK 0.
Definition SX_INTERRUPTIBLE : Z := 0x40.

Definition __sx_xlock (td opts : Z) : prog :=
  let tid := td in
  b <- atomic_cmpset_ptr SX_LOCK_UNLOCKED tid;;
  if b =? 0 then call (Hard (XLock opts)) else Ret 0.

Definition __sx_xunlock (td : Z) : prog :=
  let tid := td in
  b <- atomic_cmpset_ptr tid SX_LOCK_UNLOCKED;;
  if b =? 0 then call (Hard XUnlock);;; Ret 0 else Ret 0.

Definition __sx_slock (opts : Z) : prog :=
  x <- load Word;;
  if Z.land x SX_LOCK_SHARED =? 0 then call (Hard (SLock opts)) else
  b <- atomic_cmpset_ptr x (u64 (x + SX_ONE_SHARER));;
  if b =? 0 then call (Hard (SLock opts)) else Ret 0.

Definition __sx_sunlock : prog :=
  x <- load Word;;
  if x =? Z.lor (SX_SHARERS_LOCK 1) SX_LOCK_EXCLUSIVE_WAITERS then call (Hard SUnlock);;; Ret 0 else
  b <- atomic_cmpset_ptr x (u64 (x - SX_ONE_SHARER));;
  if b =? 0 then call (Hard SUnlock);;; Ret 0 else Ret 0.

(** The result is cast to void. *)
Definition sx_xlock (curthread : Z) : prog := __sx_xlock curthread 0;;; Ret 0.
Definition sx_xlock_sig (curthread : Z) : prog := __sx_xlock curthread SX_INTERRUPTIBLE.
Definition sx_xunlock (curthread : Z) : prog := __sx_xunlock curthread.
Definition sx_slock : prog := __sx_slock 0;;; Ret 0.
Definition sx_slock_sig : prog := __sx_slock SX_INTERRUPTIBLE.
Definition sx_sunlock : prog := __sx_sunlock.

Definition sx_xholder (w : Z) : Z := if c_true (Z.land w SX_LOCK_SHARED) then 0 else SX_OWNER w.
Definition sx_xlocked (curthread w : Z) : bool :=
  Z.land w (u64 (Z.lnot (Z.land SX_LOCK_FLAGMASK (Z.lnot SX_LOCK_SHARED)))) =? curthread.

Definition sx_unlock (curthread : Z) : prog :=
  w <- load Word;;
  if sx_xlocked curthread w then sx_xunlock curthread else sx_sunlock.

(** ** sys/rwlock.h *)

Definition RW_LOCK_READ : Z := 0x01.
Definition RW_LOCK_READ_WAITERS : Z := 0x02.
Definition RW_LOCK_WRITE_WAITERS : Z := 0x04.
Definition RW_LOCK_WRITE_SPINNER : Z := 0x08.
Definition RW_LOCK_FLAGMASK : Z :=
  Z.lor (Z.lor (Z.lor RW_LOCK_READ RW_LOCK_READ_WAITERS) RW_LOCK_WRITE_WAITERS) RW_LOCK_WRITE_SPINNER.
Definition RW_OWNER (x : Z) : Z := Z.land x (u64 (Z.lnot RW_LOCK_FLAGMASK)).
Definition RW_READERS_SHIFT : Z := 4.
Definition RW_READERS (x : Z) : Z := Z.shiftr (RW_OWNER x) RW_READERS_SHIFT.
Definition RW_READERS_LOCK (x : Z) : Z := Z.lor (Z.shiftl x RW_READERS_SHIFT) RW_LOCK_READ.
Definition RW_UNLOCKED : Z := RW_READERS_LOCK 0.

Definition _rw_write_lock (tid : Z) : prog := atomic_cmpset_ptr RW_UNLOCKED tid.
Definition _rw_write_unlock (tid : Z) : prog := atomic_cmpset_ptr tid RW_UNLOCKED.

Definition __rw_wlock (tid : Z) : prog :=
  let _tid := tid in
  b <- _rw_write_lock _tid;;
  if b =? 0 then call (Hard (XLock 0));;; Ret 0 else Ret 0.

Definition __rw_wunlock (tid : Z) : prog :=
  let _tid := tid in
  r <- load Recurse;;
  if c_true r then decr_recurse else
  b <- _rw_write_unlock _tid;;
  if b =? 0 then call (Hard XUnlock);;; Ret 0 else Ret 0.

Definition rw_wlock (curthread : Z) : prog := __rw_wlock curthread.
Definition rw_wunlock (curthread : Z) : prog := __rw_wunlock curthread.
(** These are calls of the kernel's functions. *)
Definition rw_rlock : prog := call (Hard (SLock 0));;; Ret 0.
Definition rw_runlock : prog := call (Hard SUnlock);;; Ret 0.

(** ** sys/mutex.h *)

Definition MTX_RECURSED : Z := 0x00000001.
Definition MTX_CONTESTED : Z := 0x00000002.
Definition MTX_UNOWNED : Z := 0x00000004.
Definition MTX_FLAGMASK : Z := Z.lor (Z.lor MTX_RECURSED MTX_CONTESTED) MTX_UNOWNED.

Definition _mtx_obtain_lock (tid : Z) : prog := atomic_cmpset_ptr MTX_UNOWNED tid.
Definition _mtx_release_lock (tid : Z) : prog := atomic_cmpset_ptr tid MTX_UNOWNED.
Definition _mtx_release_lock_quick : prog := store Word MTX_UNOWNED.

Definition __mtx_lock (tid opts : Z) : prog :=
  let _tid := tid in
  b <- _mtx_obtain_lock _tid;;
  if b =? 0 then call (Hard (XLock opts));;; Ret 0 else Ret 0.

Definition __mtx_unlock (tid : Z) : prog :=
  let _tid := tid in
  b <- _mtx_release_lock _tid;;
  if b =? 0 then call (Hard XUnlock);;; Ret 0 else Ret 0.

Definition __mtx_lock_spin (tid opts : Z) : prog :=
  let _tid := tid in
  call SpinEnter;;;
  b <- _mtx_obtain_lock _tid;;
  if b =? 0 then
    w <- load Word;;
    if w =? _tid then incr_recurse else call (Hard (XLock opts));;; Ret 0
  else Ret 0.

Definition mtx_recursed : prog := r <- load Recurse;; Ret (if c_true r then 1 else 0).

Definition __mtx_unlock_spin : prog :=
  b <- mtx_recursed;;
  (if c_true b then decr_recurse else _mtx_release_lock_quick);;;
  call SpinExit;;; Ret 0.

Definition mtx_lock_flags (curthread opts : Z) : prog := __mtx_lock curthread opts.
Definition mtx_unlock_flags (curthread opts : Z) : prog := __mtx_unlock curthread.
Definition mtx_lock_spin_flags (curthread opts : Z) : prog := __mtx_lock_spin curthread opts.
Definition mtx_unlock_spin_flags (curthread opts : Z) : prog := __mtx_unlock_spin.
Definition mtx_lock (curthread : Z) : prog := mtx_lock_flags curthread 0.
Definition mtx_unlock (curthread : Z) : prog := mtx_unlock_flags curthread 0.
Definition mtx_lock_spin (curthread : Z) : prog := mtx_lock_spin_flags curthread 0.
Definition mtx_unlock_spin (curthread : Z) : prog := mtx_unlock_spin_flags curthread 0.
Definition mtx_owned (curthread w : Z) : bool := Z.land w (u64 (Z.lnot MTX_FLAGMASK)) =? curthread.
