(* ===== verification/LockSteps.v ===== *)
(** * Threads that take and release a lock

    The programs of Locks.v run by any number of threads, interleaved at
    every atomic action (sequential consistency).  What a lock is to its
    users is the state [holders] and the relation [effect]; [LockImpl] is the
    interface between an implementation (its code, and how its word encodes
    the holders) and the theorems of its users. *)

From stdpp Require Import gmultiset.
From S2P Require Import Prelude.
From S2P Require Import Atomic.
From S2P Require Import Locks.
#[local] Open Scope Z_scope.

(** ** The lock its users see *)

(** Held by readers, each as often as it has taken the lock (by nobody if
    there are none), or by one writer, so many times over. *)
Inductive holders := Rd (R : gmultiset Z) | Wr (t : Z) (d : nat).

Inductive effect (tid : Z) : lock_op → holders → holders → Prop :=
| effect_xlock opts : effect tid (XLock opts) (Rd ∅) (Wr tid 1)
| effect_xlock_again opts d : effect tid (XLock opts) (Wr tid (S d)) (Wr tid (S (S d)))
| effect_xunlock : effect tid XUnlock (Wr tid 1) (Rd ∅)
| effect_xunlock_inner d : effect tid XUnlock (Wr tid (S (S d))) (Wr tid (S d))
| effect_slock opts R : effect tid (SLock opts) (Rd R) (Rd ({[+ tid +]} ⊎ R))
| effect_sunlock R : tid ∈ R → effect tid SUnlock (Rd R) (Rd (R ∖ {[+ tid +]})).

(** How often a thread holds the lock exclusively and shared. *)
Definition xheld (h : holders) (tid : Z) : nat :=
  match h with Rd _ => 0 | Wr t d => if decide (t = tid) then d else 0 end.
Definition sheld (h : holders) (tid : Z) : nat := match h with Rd R => multiplicity tid R | Wr _ _ => 0 end.

(** Threads release only what they hold. *)
Definition pre (o : lock_op) (tid : Z) (h : holders) : Prop :=
  match o with XUnlock => (0 < xheld h tid)%nat | SUnlock => (0 < sheld h tid)%nat | _ => True end.

(** A bound on the holds at one time: the counters are 32 bits wide. *)
Definition holds (h : holders) : nat := match h with Rd R => size R | Wr _ d => d end.
Definition room (h : holders) : Prop := Z.of_nat (holds h) + 1 < 2 ^ 32.

(** Other threads do not change what a thread holds itself. *)
Definition rely (tid : Z) (h h' : holders) : Prop := xheld h tid = xheld h' tid ∧ sheld h tid = sheld h' tid.

Lemma rely_refl tid h : rely tid h h.
Proof. done. Qed.
Lemma rely_trans tid h1 h2 h3 : rely tid h1 h2 → rely tid h2 h3 → rely tid h1 h3.
Proof. intros [??] [??]. split; congruence. Qed.

Lemma pre_rely o tid h h' : rely tid h h' → pre o tid h → pre o tid h'.
Proof. intros [Hx Hs]. destruct o; simpl; [done| |done|]; lia. Qed.

(** What an operation adds to the exclusive and to the shared holds. *)
Definition dx (o : lock_op) : Z := match o with XLock _ => 1 | XUnlock => -1 | _ => 0 end.
Definition ds (o : lock_op) : Z := match o with SLock _ => 1 | SUnlock => -1 | _ => 0 end.

Lemma effect_self tid o h h' : effect tid o h h' →
  Z.of_nat (xheld h' tid) = Z.of_nat (xheld h tid) + dx o ∧ Z.of_nat (sheld h' tid) = Z.of_nat (sheld h tid) + ds o.
Proof.
  destruct 1; cbn [xheld sheld dx ds]; rewrite ?decide_True by done; rewrite ?multiplicity_empty; split; try lia.
  - rewrite multiplicity_disj_union, multiplicity_singleton_eq. lia.
  - rewrite multiplicity_difference, multiplicity_singleton_eq. pose proof (proj1 (elem_of_multiplicity tid R) H). lia.
Qed.

Lemma effect_other tid o h h' t : effect tid o h h' → t ≠ tid → rely t h h'.
Proof.
  intros He Ht. destruct He; split; cbn [xheld sheld]; rewrite ?decide_False by done; rewrite ?multiplicity_empty; try done.
  - rewrite multiplicity_disj_union, multiplicity_singleton_ne by done. lia.
  - rewrite multiplicity_difference, multiplicity_singleton_ne by done. lia.
Qed.

(** ** Implementations *)

Definition get_var (x : lock_var) (s : lock) : Z := match x with Word => s.(word) | Recurse => s.(recurse) end.
Definition set_var (x : lock_var) (v : Z) (s : lock) : lock :=
  match x with Word => Lock v s.(recurse) | Recurse => Lock s.(word) v end.

(** [atomic_cmpset_long] on the word: its result and the lock afterwards. *)
Definition cmpset_word (e v : Z) (s : lock) : Z * lock :=
  match atomic_cmpset_long e v s.(word) with Done r w => (r, Lock w s.(recurse)) | _ => (0, s) end.

Lemma cmpset_word_eq e v s : cmpset_word e v s = if s.(word) =? e then (1, Lock v s.(recurse)) else (0, s).
Proof.
  unfold cmpset_word, atomic_cmpset_long, cmpxchg. c_unfold. rewrite Z.eqb_sym.
  destruct (word s =? e); [done|]. by destruct s.
Qed.

(** Thread structures are aligned, so that the flags are free. *)
Definition tid_ok (tid : Z) : Prop := 0 < tid < 2 ^ 64 - 16 ∧ tid mod 16 = 0.

Section Safe.
Context (encodes : holders → lock → Prop) (interruptible : lock_op → bool) (spins : bool).
Context (o : lock_op) (tid : Z).

(** [done]: has the operation taken effect?  Each action either leaves the
    holders as they are or is the one at which it takes effect. *)
Definition move (done : bool) (h : holders) (done' : bool) (h' : holders) : Prop :=
  (done' = done ∧ h' = h) ∨ (done = false ∧ done' = true ∧ effect tid o h h').

(** [safe p done n h]: from here on, whatever other threads do in between,
    the program takes effect exactly once if it returns 0 and not at all
    otherwise, and keeps the encoding; [n] is by how many it has entered more
    spin sections than it has left. *)
Fixpoint safe (p : prog) (done : bool) (n : Z) (h : holders) : Prop :=
  match p with
  | Ret r => done = (r =? 0) ∧ n = if spins && (r =? 0) then dx o else 0
  | Load x k => ∀ h' s, rely tid h h' → encodes h' s → safe (k (get_var x s)) done n h'
  | Store x v k => ∀ h' s, rely tid h h' → (done = false → room h') → encodes h' s →
      ∃ done' h'', move done h' done' h'' ∧ encodes h'' (set_var x v s) ∧ safe k done' n h''
  | Cmpset e v k => ∀ h' s, rely tid h h' → (done = false → room h') → encodes h' s →
      let '(r, s') := cmpset_word e v s in
      ∃ done' h'', move done h' done' h'' ∧ encodes h'' s' ∧ safe (k r) done' n h''
  | Call (Hard o') k => o' = o ∧ done = false ∧ pre o tid h ∧ ∀ h' r, rely tid h h' →
      (r = 0 → ∀ h'', effect tid o h' h'' → safe (k r) true n h'') ∧
      (r ≠ 0 → interruptible o = true → safe (k r) false n h')
  | Call SpinEnter k => safe (k 0) done (n + 1) h
  | Call SpinExit k => safe (k 0) done (n - 1) h
  end.

Lemma safe_rely p done n h h' : rely tid h h' → safe p done n h → safe p done n h'.
Proof.
  intros Hr. revert done n. induction p as [r|x k IH|x v k IH|e v k IH|[o'| |] k IH]; intros done n; cbn [safe].
  - done.
  - intros Hs h2 s Hr2. apply Hs. by eapply rely_trans.
  - intros Hs h2 s Hr2. apply Hs. by eapply rely_trans.
  - intros Hs h2 s Hr2. apply Hs. by eapply rely_trans.
  - intros (Ho & Hd & Hp & Hs). do 2 (split; [done|]). split; [by eapply pre_rely|]. intros h2 r Hr2. apply Hs. by eapply rely_trans.
  - apply IH.
  - apply IH.
Qed.
End Safe.

Class LockImpl := {
  li_code : lock_op → Z → prog;
  li_supports : lock_op → bool;
  li_interruptible : lock_op → bool;
  li_spins : bool;
  li_init : lock;
  li_encodes : holders → lock → Prop;
  li_init_ok : li_encodes (Rd ∅) li_init;
  li_code_safe o tid h : li_supports o = true → tid_ok tid → pre o tid h →
    safe li_encodes li_interruptible li_spins o tid (li_code o tid) false 0 h;
}.

(** ** Threads *)

(** A thread between operations ([t_run] is [None]) holds the lock [t_x]
    times exclusively and [t_s] times shared; [t_spin] is its nesting of
    spinlock_enter and spinlock_exit. *)
Record thread := Thread { t_tid : Z; t_x : nat; t_s : nat; t_spin : Z; t_run : option (lock_op * prog) }.
Record config := Config { c_lock : lock; c_threads : list thread }.

Section Threads.
Context `{L : LockImpl}.

(** The blocking functions: [hard tid o s s' res] is a change of the lock by
    the function for [o], which returns [r] if [res] is [Some r] and goes on
    waiting if it is [None]. *)
Context (hard : Z → lock_op → lock → lock → option Z → Prop).
(** No thread holds the lock more than [lim] times. *)
Context (lim : nat).

(** Their contract: waiting changes flags only, a return of 0 has taken
    effect, and an error, which only interruptible operations give, has not. *)
Definition hard_ok : Prop := ∀ tid o h s s' res,
  li_supports o = true → tid_ok tid → pre o tid h → room h → li_encodes h s → hard tid o s s' res →
  match res with
  | None => li_encodes h s'
  | Some r => (r = 0 ∧ ∃ h', effect tid o h h' ∧ li_encodes h' s') ∨ (r ≠ 0 ∧ li_interruptible o = true ∧ li_encodes h s')
  end.

(** One action: the program that is left, the change in nesting, the lock. *)
Definition action (tid : Z) (p : prog) (s : lock) (p' : prog) (n : Z) (s' : lock) : Prop :=
  match p with
  | Ret _ => False
  | Load x k => p' = k (get_var x s) ∧ n = 0 ∧ s' = s
  | Store x v k => p' = k ∧ n = 0 ∧ s' = set_var x v s
  | Cmpset e v k => p' = k (cmpset_word e v s).1 ∧ n = 0 ∧ s' = (cmpset_word e v s).2
  | Call (Hard o) k => n = 0 ∧ ((∃ r, hard tid o s s' (Some r) ∧ p' = k r) ∨ (hard tid o s s' None ∧ p' = p))
  | Call SpinEnter k => p' = k 0 ∧ n = 1 ∧ s' = s
  | Call SpinExit k => p' = k 0 ∧ n = -1 ∧ s' = s
  end.

Definition allowed (t : thread) (o : lock_op) : Prop :=
  li_supports o = true ∧
  match o with
  | XLock _ => (t.(t_x) < lim)%nat | SLock _ => (t.(t_s) < lim)%nat
  | XUnlock => (0 < t.(t_x))%nat | SUnlock => (0 < t.(t_s))%nat
  end.

Definition running (t : thread) (n : Z) (r : option (lock_op * prog)) : thread :=
  Thread t.(t_tid) t.(t_x) t.(t_s) (t.(t_spin) + n) r.
(** The operation has returned [r]. *)
Definition returned (t : thread) (o : lock_op) (r : Z) : thread :=
  if r =? 0 then Thread t.(t_tid) (Z.to_nat (Z.of_nat t.(t_x) + dx o)) (Z.to_nat (Z.of_nat t.(t_s) + ds o)) t.(t_spin) None
  else running t 0 None.

Inductive cstep : config → config → Prop :=
| step_call c i t o :
    c.(c_threads) !! i = Some t → t.(t_run) = None → allowed t o →
    cstep c (Config c.(c_lock) (<[i := running t 0 (Some (o, li_code o t.(t_tid)))]> c.(c_threads)))
| step_action c i t o p p' n s' :
    c.(c_threads) !! i = Some t → t.(t_run) = Some (o, p) → action t.(t_tid) p c.(c_lock) p' n s' →
    cstep c (Config s' (<[i := running t n (Some (o, p'))]> c.(c_threads)))
| step_return c i t o r :
    c.(c_threads) !! i = Some t → t.(t_run) = Some (o, Ret r) →
    cstep c (Config c.(c_lock) (<[i := returned t o r]> c.(c_threads))).

Definition idle (tid : Z) : thread := Thread tid 0 0 0 None.
Definition start (tids : list Z) : config := Config li_init (idle <$> tids).

(** ** The invariant *)

Definition nesting (t : thread) : Z := if li_spins then Z.of_nat t.(t_x) else 0.
Definition pending (done : bool) (t : thread) (f : lock_op → Z) : Z :=
  match t.(t_run) with Some (o, _) => if done then f o else 0 | None => 0 end.

Record tinv (h : holders) (done : bool) (t : thread) : Prop := {
  ti_x : Z.of_nat (xheld h t.(t_tid)) = Z.of_nat t.(t_x) + pending done t dx;
  ti_s : Z.of_nat (sheld h t.(t_tid)) = Z.of_nat t.(t_s) + pending done t ds;
  ti_lim : (t.(t_x) ≤ lim)%nat ∧ (t.(t_s) ≤ lim)%nat;
  ti_run : match t.(t_run) with
           | None => t.(t_spin) = nesting t
           | Some (o, p) => allowed t o ∧
               ∃ n, safe li_encodes li_interruptible li_spins o t.(t_tid) p done n h ∧ t.(t_spin) = nesting t + n
           end;
}.

Lemma tinv_rely h h' done t : rely t.(t_tid) h h' → tinv h done t → tinv h' done t.
Proof.
  intros Hr [Hx Hs Hl Ht]. split; [rewrite <- Hx; f_equal; symmetry; apply Hr|rewrite <- Hs; f_equal; symmetry; apply Hr|done|].
  destruct (t_run t) as [[o p]|]; [|done]. destruct Ht as (? & n & Hsafe & ?). split; [done|]. exists n. split; [|done].
  by eapply safe_rely.
Qed.

Definition tids (c : config) : list Z := t_tid <$> c.(c_threads).
Definition inside (h : holders) (l : list Z) : Prop := match h with Rd R => ∀ x, x ∈ R → x ∈ l | Wr t _ => t ∈ l end.

Lemma effect_inside tid o h h' l : effect tid o h h' → tid ∈ l → inside h l → inside h' l.
Proof.
  intros He Ht. destruct He; simpl; try done; intros Hin x Hx.
  - by rewrite gmultiset_elem_of_empty in Hx.
  - apply gmultiset_elem_of_disj_union in Hx as [->%gmultiset_elem_of_singleton|?]; auto.
  - apply Hin. rewrite elem_of_multiplicity, multiplicity_difference in Hx. rewrite elem_of_multiplicity. lia.
Qed.

Definition inv (c : config) : Prop := ∃ h D,
  li_encodes h c.(c_lock) ∧ (∀ i t, c.(c_threads) !! i = Some t → tinv h (D i) t) ∧ inside h (tids c).

(** What the invariant says about the holders' number. *)
Lemma sum_add (R : gmultiset Z) x l : NoDup l →
  sum_list_with (λ y, multiplicity y ({[+ x +]} ⊎ R)) l =
    ((if decide (x ∈ l) then 1 else 0) + sum_list_with (λ y, multiplicity y R) l)%nat.
Proof.
  induction 1 as [|y l Hy _ IH]; [done|]. simpl. rewrite IH, multiplicity_disj_union, multiplicity_singleton. clear IH.
  destruct (decide (y = x)) as [->|Hne].
  - rewrite (decide_True (P := x ∈ x :: l)) by (by left). rewrite decide_False by done. lia.
  - destruct (decide (x ∈ l)); [rewrite decide_True by (by right)|rewrite decide_False by (by intros [?|?]%elem_of_cons)]; lia.
Qed.

Lemma size_sum (R : gmultiset Z) l : NoDup l → (∀ x, x ∈ R → x ∈ l) → size R = sum_list_with (λ x, multiplicity x R) l.
Proof.
  intros Hnd. induction R as [|x R IH] using gmultiset_ind; intros Hin.
  - rewrite gmultiset_size_empty. clear. induction l as [|y l IHl]; [done|]. simpl. by rewrite multiplicity_empty.
  - rewrite gmultiset_size_disj_union, gmultiset_size_singleton, sum_add, <- IH by (done || intros y Hy; apply Hin; multiset_solver).
    by rewrite decide_True by (apply Hin; multiset_solver).
Qed.

Lemma sum_le (f : Z → nat) l n : (∀ x, x ∈ l → (f x ≤ n)%nat) → (sum_list_with f l ≤ length l * n)%nat.
Proof.
  induction l as [|x l IH]; intros Hf; simpl; [lia|]. pose proof (Hf x ltac:(by left)).
  pose proof (IH (λ y Hy, Hf y ltac:(by right))). lia.
Qed.

Context (ts : list Z).
Hypothesis Hts : NoDup ts.
Hypothesis Htids : Forall tid_ok ts.
Hypothesis Hlim : Z.of_nat (length ts * lim) + 1 < 2 ^ 32.
Hypothesis Hhard : hard_ok.

Lemma dx_ds_small o : dx o + ds o ≤ 1 ∧ dx o ≤ 1 ∧ ds o ≤ 1.
Proof. by destruct o. Qed.

Lemma tinv_held h done t : tinv h done t → (xheld h t.(t_tid) ≤ lim ∧ sheld h t.(t_tid) ≤ lim)%nat.
Proof.
  intros [Hx Hs [Hl1 Hl2] Ht]. unfold pending in *. destruct (t_run t) as [[o p]|]; [|lia].
  destruct Ht as [[_ Ha] _]. destruct done; [|lia]. destruct o; cbn [dx ds] in *; lia.
Qed.

Lemma tid_of c i t : tids c = ts → c.(c_threads) !! i = Some t → t.(t_tid) ∈ ts ∧ tid_ok t.(t_tid).
Proof.
  intros E Hi. assert (Hin : t.(t_tid) ∈ ts).
  { rewrite <- E. apply list_elem_of_fmap. exists t. split; [done|]. by eapply list_elem_of_lookup_2. }
  split; [done|]. by apply (proj1 (Forall_forall _ _) Htids).
Qed.

Lemma tid_inj c i j t u : tids c = ts → c.(c_threads) !! i = Some t → c.(c_threads) !! j = Some u → i ≠ j → t.(t_tid) ≠ u.(t_tid).
Proof.
  intros E Hi Hj Hne Heq. apply Hne. apply (proj1 (NoDup_alt ts) Hts i j t.(t_tid)); rewrite <- E; unfold tids; rewrite list_lookup_fmap.
  - by rewrite Hi.
  - by rewrite Hj, Heq.
Qed.

Lemma inv_room c h D : tids c = ts →
  (∀ i t, c.(c_threads) !! i = Some t → tinv h (D i) t) → inside h (tids c) → room h.
Proof.
  intros E Ht Hin. assert (Hall : ∀ x, x ∈ ts → (xheld h x ≤ lim ∧ sheld h x ≤ lim)%nat).
  { intros x Hx. rewrite <- E in Hx. apply list_elem_of_fmap in Hx as (t & -> & Hx). apply list_elem_of_lookup in Hx as [i Hi].
    by eapply tinv_held, Ht. }
  rewrite E in Hin. unfold room. enough (holds h ≤ length ts * lim)%nat by lia. destruct h as [R|t d]; simpl in *.
  - rewrite (size_sum R ts) by done. apply sum_le. intros x Hx. by apply Hall.
  - destruct (Hall t Hin) as [Hd _]. rewrite decide_True in Hd by done.
    destruct ts as [|y l]; [by apply not_elem_of_nil in Hin|]. simpl. lia.
Qed.

Lemma action_safe o tid p s p' n s' done m h :
  li_supports o = true → tid_ok tid → room h → li_encodes h s → action tid p s p' n s' →
  safe li_encodes li_interruptible li_spins o tid p done m h →
  ∃ done' h', move o tid done h done' h' ∧ li_encodes h' s' ∧ safe li_encodes li_interruptible li_spins o tid p' done' (m + n) h'.
Proof.
  intros Ho Ht Hroom He Ha Hs. destruct p as [r|x k|x v k|e v k|[o'| |] k]; cbn [action safe] in *; [done| | | | | |].
  - destruct Ha as (-> & -> & ->). exists done, h. rewrite Z.add_0_r. split; [by left|]. split; [done|]. by apply Hs.
  - destruct Ha as (-> & -> & ->). rewrite Z.add_0_r. by apply Hs.
  - destruct Ha as (-> & -> & ->). rewrite Z.add_0_r. specialize (Hs h s (rely_refl _ _) (λ _, Hroom) He).
    by destruct (cmpset_word e v s).
  - destruct Hs as (-> & -> & Hp & Hs), Ha as (-> & Ha). rewrite Z.add_0_r. destruct Ha as [(r & Ha & ->)|[Ha ->]].
    + destruct (Hs h r (rely_refl _ _)) as [H0 H1].
      destruct (Hhard _ _ _ _ _ _ Ho Ht Hp Hroom He Ha) as [(-> & h' & Hef & He')|(Hr & Hi & He')].
      * exists true, h'. split; [by right|]. split; [done|]. by apply H0.
      * exists false, h. split; [by left|]. split; [done|]. by apply H1.
    + exists false, h. split; [by left|]. split; [exact (Hhard _ _ _ _ _ _ Ho Ht Hp Hroom He Ha)|]. done.
  - destruct Ha as (-> & -> & ->). exists done, h. split; [by left|done].
  - destruct Ha as (-> & -> & ->). exists done, h. split; [by left|done].
Qed.

Lemma tids_insert c s i t u : c.(c_threads) !! i = Some t → t_tid u = t_tid t →
  tids (Config s (<[i := u]> c.(c_threads))) = tids c.
Proof. intros Hi E. unfold tids. simpl. rewrite list_fmap_insert, E. apply list_insert_id. by rewrite list_lookup_fmap, Hi. Qed.

Lemma inv_update c i t u h h' D done' s' :
  tids c = ts → c.(c_threads) !! i = Some t → t_tid u = t_tid t →
  (∀ j v, c.(c_threads) !! j = Some v → tinv h (D j) v) →
  (∀ x, x ≠ t_tid t → rely x h h') → li_encodes h' s' → tinv h' done' u → inside h' (tids c) →
  inv (Config s' (<[i := u]> c.(c_threads))).
Proof.
  intros E Hi Eu Hold Hrely He Hu Hin. exists h', (λ j, if decide (j = i) then done' else D j). split; [done|].
  split; [|by rewrite (tids_insert c _ i t)]. intros j v Hj. simpl in Hj. destruct (decide (j = i)) as [->|Hne].
  - rewrite list_lookup_insert_eq in Hj by (by eapply lookup_lt_Some). by injection Hj as <-.
  - rewrite list_lookup_insert_ne in Hj by done. apply (tinv_rely h); [|by apply Hold].
    apply Hrely. by apply (tid_inj c j i).
Qed.

Lemma inv_step c c' : tids c = ts → inv c → cstep c c' → inv c' ∧ tids c' = ts.
Proof.
  intros E (h & D & He & Ht & Hin) Hstep. destruct Hstep as [c i t o Hi Hr Ha|c i t o p p' n s' Hi Hr Hact|c i t o r Hi Hr];
    pose proof (Ht _ _ Hi) as [Hx Hs Hl Hrun]; destruct (tid_of _ _ _ E Hi) as [Hmem Hok];
    (split; [|rewrite (tids_insert c _ i t) by (done || unfold returned; by destruct (_ =? _)); done]).
  - unfold pending in Hx, Hs. rewrite Hr in Hx, Hs, Hrun.
    apply (inv_update c i t _ h h D false); try done. split; simpl; rewrite ?Z.add_0_r in *; try done. split; [done|].
    exists 0. split; [|by rewrite Z.add_0_r]. destruct Ha as [Hsup Ha]. apply li_code_safe; [done..|].
    destruct o; simpl; [done|lia|done|lia].
  - rewrite Hr in Hrun. destruct Hrun as (Ha & m & Hsafe & Hspin).
    pose proof (inv_room c h D E Ht Hin) as Hroom.
    destruct (action_safe o t.(t_tid) p _ p' n s' (D i) m h (proj1 Ha) Hok Hroom He Hact Hsafe) as (done' & h' & Hmove & He' & Hsafe').
    unfold pending in Hx, Hs. rewrite Hr in Hx, Hs.
    destruct Hmove as [[-> ->]|(Ed & -> & Hef)].
    + apply (inv_update c i t _ h h D (D i)); try done. split; simpl; try done. split; [done|].
      exists (m + n). split; [done|]. rewrite Hspin. unfold nesting. simpl. lia.
    + destruct (effect_self _ _ _ _ Hef) as [Ex Es]. rewrite Ed in Hx, Hs.
      apply (inv_update c i t _ h h' D true); try done.
      * intros x Hne. by eapply effect_other.
      * split; simpl; unfold pending; simpl; [lia|lia|done|]. split; [done|]. exists (m + n). split; [done|].
        rewrite Hspin. unfold nesting. simpl. lia.
      * eapply effect_inside; [done| |done]. by rewrite E.
  - unfold pending in Hx, Hs. rewrite Hr in Hx, Hs, Hrun. destruct Hrun as ([_ Ha] & n & [Hd Hn] & Hspin).
    apply (inv_update c i t _ h h D false); try done; [unfold returned; by destruct (r =? 0)|]. rewrite Hd in Hx, Hs.
    unfold returned. destruct (r =? 0).
    + split; simpl; unfold pending; simpl; [lia|lia|destruct o; cbn [dx ds] in *; lia|]. rewrite Hspin, Hn. unfold nesting. simpl.
      destruct li_spins; simpl; lia.
    + rewrite andb_false_r in Hn. split; simpl; unfold pending; simpl; [lia|lia|done|]. rewrite Hspin, Hn. unfold nesting. simpl. lia.
Qed.

Lemma inv_start : inv (start ts).
Proof.
  exists (Rd ∅), (λ _, false). split; [apply li_init_ok|]. split; [|intros x Hx; by apply gmultiset_elem_of_empty in Hx].
  intros i t Hi. simpl in Hi. rewrite list_lookup_fmap in Hi. apply fmap_Some in Hi as (x & _ & ->).
  split; simpl; unfold pending, nesting; simpl; [done|by rewrite multiplicity_empty|lia|by destruct li_spins].
Qed.

Lemma inv_reachable c : rtc cstep (start ts) c → inv c ∧ tids c = ts.
Proof.
  intros Hr. cut (∀ a b, rtc cstep a b → inv a → tids a = ts → inv b ∧ tids b = ts).
  { intros Hcut. apply (Hcut _ _ Hr); [apply inv_start|]. unfold tids, start. simpl. rewrite <- list_fmap_compose. apply list_fmap_id. }
  clear c Hr. induction 1 as [|a b d Hab _ IH]; intros Ha Ea; [done|]. destruct (inv_step a b Ea Ha Hab). by apply IH.
Qed.

(** Between operations: whoever holds the lock exclusively is alone. *)
Lemma exclusion c i j t u :
  rtc cstep (start ts) c → i ≠ j → c.(c_threads) !! i = Some t → c.(c_threads) !! j = Some u →
  t.(t_run) = None → u.(t_run) = None → (0 < t.(t_x))%nat → t.(t_s) = 0%nat ∧ u.(t_x) = 0%nat ∧ u.(t_s) = 0%nat.
Proof.
  intros Hr Hne Hi Hj Ht Hu Hx. destruct (inv_reachable c Hr) as [(h & D & He & Hall & _) E].
  pose proof (tid_inj c i j t u E Hi Hj Hne) as Hid.
  destruct (Hall _ _ Hi) as [X1 S1 _ _], (Hall _ _ Hj) as [X2 S2 _ _]. unfold pending in *. rewrite Ht in X1, S1. rewrite Hu in X2, S2.
  destruct h as [R|w d]; simpl in *; [lia|]. destruct (decide (w = t_tid t)) as [->|]; [|lia]. rewrite decide_False in X2 by done. lia.
Qed.

(** Between operations, the nesting of spin sections is that of the lock. *)
Lemma spin_nesting c i t :
  rtc cstep (start ts) c → c.(c_threads) !! i = Some t → t.(t_run) = None → t.(t_spin) = nesting t.
Proof.
  intros Hr Hi Ht. destruct (inv_reachable c Hr) as [(h & D & He & Hall & _) E]. destruct (Hall _ _ Hi) as [_ _ _ H]. by rewrite Ht in H.
Qed.

End Threads.
