(* ===== verification/LockKinds.v ===== *)
(** * The four kinds of locks

    Sleep mutexes, spin mutexes, reader/writer locks and shared/exclusive
    locks are instances of [LockImpl]: the inline code of Locks.v keeps the
    encoding of the lock word that the headers document. *)

From stdpp Require Import gmultiset.
From S2P Require Import Prelude.
From S2P Require Import Atomic.
From S2P Require Import Locks.
From S2P Require Import LockSteps.
#[local] Open Scope Z_scope.

(** ** Words of owner and flags *)

Lemma land_owner q f g : 0 ≤ q < 2 ^ 60 → 0 ≤ f < 16 → 0 ≤ g < 16 →
  Z.land (16 * q + f) (16 * (2 ^ 60 - 1) + g) = 16 * q + Z.land f g.
Proof.
  intros Hq Hf Hg. change 16 with (2 ^ 4) in *. rewrite land_split by lia. f_equal. f_equal. replace (2 ^ 60 - 1) with (Z.ones 60) by done.
  rewrite Z.land_ones by lia. by apply Z.mod_small.
Qed.

Lemma tid_quot tid : tid_ok tid → ∃ q, tid = 16 * q ∧ 0 < q < 2 ^ 60.
Proof. intros [Hr Hm]. exists (tid / 16). pose proof (Z.div_mod tid 16). lia. Qed.

(** What a thread knows from what it holds. *)
Lemma owner_inv h tid : (0 < xheld h tid)%nat → ∃ d, h = Wr tid (S d).
Proof. destruct h as [R|t [|d]]; simpl; [lia|destruct (decide _); lia|]. destruct (decide (t = tid)) as [->|]; [eauto|lia]. Qed.
Lemma reader_inv h tid : (0 < sheld h tid)%nat → ∃ R, h = Rd R ∧ tid ∈ R.
Proof. destruct h as [R|t d]; simpl; [|lia]. intros H. exists R. split; [done|]. by apply elem_of_multiplicity. Qed.

Ltac owner Hp Hr := destruct (owner_inv _ _ (eq_rect _ (λ n, (0 < n)%nat) Hp _ (proj1 Hr))) as [?d ->].
Ltac reader Hp Hr := let R := fresh "R" in let Hin := fresh "Hin" in
  destruct (reader_inv _ _ (eq_rect _ (λ n, (0 < n)%nat) Hp _ (proj2 Hr))) as (R & -> & Hin).

Lemma size_add (R : gmultiset Z) x : size ({[+ x +]} ⊎ R) = S (size R).
Proof. by rewrite gmultiset_size_disj_union, gmultiset_size_singleton. Qed.
Lemma size_remove (R : gmultiset Z) x : x ∈ R → size R = S (size (R ∖ {[+ x +]})).
Proof.
  intros Hx. rewrite gmultiset_size_difference, gmultiset_size_singleton by multiset_solver.
  assert (size R ≠ 0%nat) by (intros E%gmultiset_size_empty_inv; multiset_solver). lia.
Qed.

(** ** Shared/exclusive locks *)

Definition waiters (f : Z) : Prop := f = 0 ∨ f = 2 ∨ f = 4 ∨ f = 6.

(** Bits 1 and 2 tell of waiting threads, bit 3 of recursion; sx_recurse, which
    only the kernel's functions use, counts the owner's further holds. *)
Definition sx_encodes (h : holders) (s : lock) : Prop :=
  match h with
  | Rd R => ∃ f, waiters f ∧ s.(word) = 16 * Z.of_nat (size R) + 1 + f ∧ s.(recurse) = 0
  | Wr t d => ∃ f, waiters f ∧ s.(word) = t + f + (if (1 <? d)%nat then 8 else 0) ∧ (0 < d)%nat ∧ tid_ok t ∧ s.(recurse) = Z.of_nat d - 1
  end.

Definition sx_opts (opts : Z) : bool := (opts =? 0) || (opts =? SX_INTERRUPTIBLE).
Definition sx_supports (o : lock_op) : bool := match o with XLock opts | SLock opts => sx_opts opts | _ => true end.
Definition sx_interruptible (o : lock_op) : bool := match o with XLock opts | SLock opts => opts =? SX_INTERRUPTIBLE | _ => false end.

(** With [either], locks are released by sx_unlock. *)
Definition sx_code (either : bool) (o : lock_op) (tid : Z) : prog :=
  match o with
  | XLock opts => if opts =? SX_INTERRUPTIBLE then sx_xlock_sig tid else sx_xlock tid
  | SLock opts => if opts =? SX_INTERRUPTIBLE then sx_slock_sig else sx_slock
  | XUnlock => if either then sx_unlock tid else sx_xunlock tid
  | SUnlock => if either then sx_unlock tid else sx_sunlock
  end.

Notation sx_safe := (safe sx_encodes sx_interruptible false).

Lemma sx_word_free h s : sx_encodes h s → s.(word) = SX_LOCK_UNLOCKED → h = Rd ∅.
Proof.
  change SX_LOCK_UNLOCKED with 1. destruct h as [R|t d]; simpl.
  - intros (f & Hf & -> & _) E. f_equal. apply gmultiset_size_empty_inv. unfold waiters in Hf. lia.
  - intros (f & Hf & -> & _ & (q & -> & _)%tid_quot & _) E. exfalso. unfold waiters in Hf. destruct (1 <? d)%nat; lia.
Qed.

Lemma sx_word_owned d tid s : sx_encodes (Wr tid (S d)) s → s.(word) = tid → d = 0%nat.
Proof.
  simpl. intros (f & Hf & -> & _ & _) E. destruct (Nat.ltb_spec 1 (S d)); [|lia]. unfold waiters in Hf. lia.
Qed.

(** The low bit. *)
Lemma sx_word_shared h s : sx_encodes h s → Z.land s.(word) SX_LOCK_SHARED ≠ 0 → ∃ R, h = Rd R.
Proof.
  change SX_LOCK_SHARED with (Z.ones 1). rewrite Z.land_ones by lia. change (2 ^ 1) with 2. destruct h as [R|t d]; [eauto|].
  intros (f & Hf & -> & _ & (q & -> & _)%tid_quot & _) E. exfalso. apply E. unfold waiters in Hf.
  destruct Hf as [-> | [-> | [-> | ->]]], (1 <? d)%nat; Z.div_mod_to_equations; lia.
Qed.

(** The end of a fast path, and the call of a blocking function. *)
Lemma safe_ret0 enc int o tid h : safe enc int false o tid (Ret 0) true 0 h.
Proof. by split. Qed.

Lemma safe_hard enc int o tid h : pre o tid h → safe enc int false o tid (Call (Hard o) Ret) false 0 h.
Proof.
  intros Hp. cbn [safe]. split; [done|]. split; [done|]. split; [done|]. intros h' r Hr. split.
  - by intros -> h'' He.
  - intros Hne%Z.eqb_neq _. rewrite Hne. done.
Qed.

Lemma safe_hard_void enc int o tid h : int o = false → pre o tid h → safe enc int false o tid (Call (Hard o) (λ _, Ret 0)) false 0 h.
Proof.
  intros Hi Hp. cbn [safe]. split; [done|]. split; [done|]. split; [done|]. intros h' r Hr. split; [done|]. by rewrite Hi.
Qed.

Ltac code := cbn [seqp load store call atomic_cmpset_ptr safe get_var set_var].
(** A compare-and-set: it succeeds, or the code goes on elsewhere. *)
Ltac cas E := rewrite cmpset_word_eq;
  match goal with |- context [word ?s =? ?e] => destruct (Z.eqb_spec (word s) e) as [E|E] end; cbn iota zeta.
Ltac stutter h := exists false, h; split; [by left|split; [done|]].
Ltac takes_effect h := exists true, h; split; [right; split; [done|split; [done|]]|split; [|by split]].

Lemma sx_take tid s : tid_ok tid → sx_encodes (Rd ∅) s → sx_encodes (Wr tid 1) (Lock tid s.(recurse)).
Proof. intros Ht (_ & _ & _ & Er). exists 0. split; [by left|]. split; [simpl; lia|]. split; [lia|]. split; [done|]. cbn [recurse]. by rewrite Er. Qed.

Lemma sx_xlock_safe opts tid h : sx_opts opts = true → tid_ok tid →
  sx_safe (XLock opts) tid (sx_code false (XLock opts) tid) false 0 h.
Proof.
  intros Ho Ht. unfold sx_code, sx_xlock_sig, sx_xlock, __sx_xlock. apply orb_prop in Ho as [->%Z.eqb_eq| ->%Z.eqb_eq]; code;
    intros h' s Hr Hroom He; cas E; code.
  1, 3: pose proof (sx_word_free _ _ He E) as ->; takes_effect (Wr tid 1); [apply effect_xlock|by apply sx_take, He].
  - stutter h'. change (0 =? 0) with true. code. exact (safe_hard_void sx_encodes sx_interruptible (XLock 0) _ _ eq_refl I).
  - stutter h'. change (0 =? 0) with true. code. exact (safe_hard sx_encodes sx_interruptible (XLock SX_INTERRUPTIBLE) _ _ I).
Qed.

Lemma sx_xunlock_safe tid h : (0 < xheld h tid)%nat → sx_safe XUnlock tid (__sx_xunlock tid) false 0 h.
Proof.
  intros Hp. unfold __sx_xunlock. code. intros h' s Hr Hroom He. owner Hp Hr. cas E; code.
  - pose proof (sx_word_owned _ _ _ He E) as ->. takes_effect (Rd ∅); [constructor|].
    exists 0. split; [by left|]. split; [done|]. destruct He as (_ & _ & _ & _ & _ & Er). by rewrite Er.
  - stutter (Wr tid (S d)). change (0 =? 0) with true. code. refine (safe_hard_void sx_encodes sx_interruptible XUnlock _ _ eq_refl _). simpl. rewrite decide_True by done. lia.
Qed.

Lemma sx_add_sharer R tid s : room (Rd R) → sx_encodes (Rd R) s →
  sx_encodes (Rd ({[+ tid +]} ⊎ R)) (Lock (u64 (s.(word) + SX_ONE_SHARER)) s.(recurse)).
Proof.
  unfold room. intros Hroom (f & Hf & E & Er). exists f. split; [done|]. split; [|done]. simpl in *. rewrite size_add, E. change SX_ONE_SHARER with 16.
  rewrite u64_small; unfold waiters in Hf; lia.
Qed.

Lemma sx_drop_sharer R tid s : room (Rd R) → tid ∈ R → sx_encodes (Rd R) s →
  sx_encodes (Rd (R ∖ {[+ tid +]})) (Lock (u64 (s.(word) - SX_ONE_SHARER)) s.(recurse)).
Proof.
  unfold room. intros Hroom Hin (f & Hf & E & Er). exists f. split; [done|]. split; [|done]. simpl in *. rewrite (size_remove R tid) in * by done. rewrite E.
  change SX_ONE_SHARER with 16. rewrite u64_small; unfold waiters in Hf; lia.
Qed.

Lemma sx_slock_safe opts tid h : sx_opts opts = true →
  sx_safe (SLock opts) tid (sx_code false (SLock opts) tid) false 0 h.
Proof.
  intros Ho. unfold sx_code, sx_slock_sig, sx_slock, __sx_slock.
  apply orb_prop in Ho as [->%Z.eqb_eq| ->%Z.eqb_eq]; code; intros h0 s0 _ He0; code;
    destruct (Z.eqb_spec (Z.land (word s0) SX_LOCK_SHARED) 0) as [_|Hsh]; code.
  1: exact (safe_hard_void sx_encodes sx_interruptible (SLock 0) _ _ eq_refl I).
  2: exact (safe_hard sx_encodes sx_interruptible (SLock SX_INTERRUPTIBLE) _ _ I).
  all: intros h' s Hr Hroom He; cas E; code.
  1, 3: rewrite <- E in *; destruct (sx_word_shared _ _ He Hsh) as [R ->]; takes_effect (Rd ({[+ tid +]} ⊎ R));
    [constructor|by apply sx_add_sharer, He; apply Hroom].
  - stutter h'. change (0 =? 0) with true. code. exact (safe_hard_void sx_encodes sx_interruptible (SLock 0) _ _ eq_refl I).
  - stutter h'. change (0 =? 0) with true. code. exact (safe_hard sx_encodes sx_interruptible (SLock SX_INTERRUPTIBLE) _ _ I).
Qed.

Lemma sx_sunlock_safe tid h : (0 < sheld h tid)%nat → sx_safe SUnlock tid __sx_sunlock false 0 h.
Proof.
  intros Hp. unfold __sx_sunlock. code. intros h0 s0 Hr0 He0. code. destruct (word s0 =? _); code.
  - refine (safe_hard_void sx_encodes sx_interruptible SUnlock _ _ eq_refl _). simpl. by rewrite <- (proj2 Hr0).
  - intros h' s Hr Hroom He. pose proof (rely_trans _ _ _ _ Hr0 Hr) as Hr'. reader Hp Hr'. cas E; code.
    + rewrite <- E. takes_effect (Rd (R ∖ {[+ tid +]})); [by constructor|]. apply sx_drop_sharer; [by apply Hroom|done|done].
    + stutter (Rd R). change (0 =? 0) with true. code. refine (safe_hard_void sx_encodes sx_interruptible SUnlock _ _ eq_refl _). simpl. by apply elem_of_multiplicity.
Qed.

(** What the tests on the word say. *)
Lemma sx_word_split h s : sx_encodes h s → room h → ∃ q f, s.(word) = 16 * q + f ∧ 0 ≤ q < 2 ^ 60 ∧ 0 ≤ f < 16 ∧
  match h with
  | Rd R => q = Z.of_nat (size R) ∧ Z.odd f = true
  | Wr t d => t = 16 * q ∧ Z.odd f = false ∧ (0 < q)
  end.
Proof.
  unfold room. destruct h as [R|t d]; simpl; intros He Hroom.
  - destruct He as (f & Hf & -> & _). exists (Z.of_nat (size R)), (1 + f).
    destruct Hf as [-> | [-> | [-> | ->]]]; simpl; repeat split; lia || done.
  - destruct He as (f & Hf & -> & _ & (q & -> & Hq)%tid_quot & _). exists q, (f + if (1 <? d)%nat then 8 else 0).
    destruct Hf as [-> | [-> | [-> | ->]]], (1 <? d)%nat; simpl; repeat split; lia || done.
Qed.

Lemma sx_mask_owner : u64 (Z.lnot SX_LOCK_FLAGMASK) = 16 * (2 ^ 60 - 1) + 0.
Proof. done. Qed.
Lemma sx_mask_xlocked : u64 (Z.lnot (Z.land SX_LOCK_FLAGMASK (Z.lnot SX_LOCK_SHARED))) = 16 * (2 ^ 60 - 1) + 1.
Proof. done. Qed.

Lemma odd_land1 f : Z.land f 1 = if Z.odd f then 1 else 0.
Proof. change 1 with (Z.ones 1) at 1. rewrite Z.land_ones by lia. change (2 ^ 1) with 2. by rewrite Zmod_odd. Qed.

Lemma odd_split q f : Z.land (16 * q + f) 1 = if Z.odd f then 1 else 0.
Proof. rewrite odd_land1. replace (16 * q + f) with (f + 2 * (8 * q)) by lia. by rewrite Z.odd_add_mul_2. Qed.

Lemma sx_xlocked_ok h s tid : sx_encodes h s → room h → tid_ok tid →
  sx_xlocked tid s.(word) = bool_decide (0 < xheld h tid)%nat.
Proof.
  intros He Hroom Ht. destruct (sx_word_split h s He Hroom) as (q & f & -> & Hq & Hf & Hh). unfold sx_xlocked.
  rewrite sx_mask_xlocked, land_owner, odd_land1 by lia. destruct (tid_quot tid Ht) as (q' & -> & Hq').
  destruct h as [R|t d]; cbn [xheld].
  - destruct Hh as [_ ->]. rewrite bool_decide_eq_false_2 by lia. apply Z.eqb_neq. lia.
  - destruct Hh as (-> & -> & Hpos). destruct He as (_ & _ & _ & Hd & _). rewrite Z.add_0_r. destruct (decide (16 * q = 16 * q')) as [->|].
    + rewrite Z.eqb_refl. by rewrite bool_decide_eq_true_2 by lia.
    + rewrite bool_decide_eq_false_2 by lia. by apply Z.eqb_neq.
Qed.

(** sx_unlock takes the path its caller needs. *)
Lemma sx_unlock_xsafe tid h : tid_ok tid → (0 < xheld h tid)%nat → sx_safe XUnlock tid (sx_unlock tid) false 0 h.
Proof.
  intros Ht Hp. unfold sx_unlock. cbn [seqp load]. intros h' s Hr He. cbn [get_var].
  assert (Hx : (0 < xheld h' tid)%nat) by (by rewrite <- (proj1 Hr)). destruct (owner_inv _ _ Hx) as [d ->].
  replace (sx_xlocked tid (word s)) with true; [by apply sx_xunlock_safe|]. symmetry. unfold sx_xlocked.
  destruct He as (f & Hf & -> & _ & _). rewrite sx_mask_xlocked. destruct (tid_quot tid Ht) as (q & -> & Hq).
  apply Z.eqb_eq. rewrite <- Z.add_assoc. rewrite land_owner, odd_land1; [|lia| |lia].
  - destruct Hf as [-> | [-> | [-> | ->]]], (1 <? S d)%nat; simpl; lia.
  - unfold waiters in Hf. destruct (1 <? S d)%nat; lia.
Qed.

Lemma sx_unlock_ssafe tid h : tid_ok tid → (0 < sheld h tid)%nat → sx_safe SUnlock tid (sx_unlock tid) false 0 h.
Proof.
  intros Ht Hp. unfold sx_unlock. cbn [seqp load]. intros h' s Hr He. cbn [get_var].
  assert (Hx : (0 < sheld h' tid)%nat) by (by rewrite <- (proj2 Hr)). destruct (reader_inv _ _ Hx) as (R & -> & _).
  replace (sx_xlocked tid (word s)) with false; [by apply sx_sunlock_safe|]. symmetry. unfold sx_xlocked.
  destruct He as (f & Hf & -> & _). destruct (tid_quot tid Ht) as (q & -> & Hq). apply Z.eqb_neq. intros E.
  apply (f_equal Z.odd) in E. rewrite Z.odd_mul in E. simpl in E.
  assert (Hb : Z.testbit (Z.land (16 * Z.of_nat (size R) + 1 + f) (u64 (Z.lnot (Z.land SX_LOCK_FLAGMASK (Z.lnot SX_LOCK_SHARED))))) 0 = true).
  { rewrite Z.land_spec. rewrite sx_mask_xlocked, <- Z.add_assoc. change 16 with (2 ^ 4). rewrite split_testbit by (unfold waiters in Hf; lia). simpl.
    destruct Hf as [-> | [-> | [-> | ->]]]; done. }
  rewrite Z.bit0_odd in Hb. congruence.
Qed.

Lemma sx_code_safe either o tid h : sx_supports o = true → tid_ok tid → pre o tid h → sx_safe o tid (sx_code either o tid) false 0 h.
Proof.
  intros Ho Ht Hp. destruct o as [opts| |opts|]; simpl in Ho, Hp.
  - by apply sx_xlock_safe.
  - destruct either; [by apply sx_unlock_xsafe|by apply sx_xunlock_safe].
  - by apply sx_slock_safe.
  - destruct either; [by apply sx_unlock_ssafe|by apply sx_sunlock_safe].
Qed.

Definition sx_impl (either : bool) : LockImpl := {|
  li_code := sx_code either; li_supports := sx_supports; li_interruptible := sx_interruptible; li_spins := false;
  li_init := Lock SX_LOCK_UNLOCKED 0; li_encodes := sx_encodes;
  li_init_ok := ex_intro _ 0 (conj (or_introl eq_refl) (conj eq_refl eq_refl));
  li_code_safe := sx_code_safe either;
|}.

(** ** Reader/writer locks *)

(** Bits 1 to 3 are flags; rw_recurse counts the writer's further holds. *)
Definition rw_flags (f : Z) : Prop := 0 ≤ f < 16 ∧ Z.odd f = false.
Definition rw_encodes (h : holders) (s : lock) : Prop :=
  match h with
  | Rd R => s.(recurse) = 0 ∧ ∃ f, rw_flags f ∧ s.(word) = 16 * Z.of_nat (size R) + 1 + f
  | Wr t d => s.(recurse) = Z.of_nat d - 1 ∧ (0 < d)%nat ∧ tid_ok t ∧ ∃ f, rw_flags f ∧ s.(word) = t + f
  end.

Definition rw_supports (o : lock_op) : bool := match o with XLock opts | SLock opts => opts =? 0 | _ => true end.
Definition rw_code (o : lock_op) (tid : Z) : prog :=
  match o with XLock _ => rw_wlock tid | XUnlock => rw_wunlock tid | SLock _ => rw_rlock | SUnlock => rw_runlock end.
Definition never (o : lock_op) : bool := false.

Lemma safe_void enc int (o : lock_op) tid h : int o = false → pre o tid h →
  safe enc int false o tid (call (Hard o);;; Ret 0)%prog false 0 h.
Proof. apply safe_hard_void. Qed.

Lemma rw_word_free h s : rw_encodes h s → s.(word) = RW_UNLOCKED → h = Rd ∅ ∧ s.(recurse) = 0.
Proof.
  change RW_UNLOCKED with 1. destruct h as [R|t d]; simpl.
  - intros (Hr & f & [Hf _] & ->) E. split; [|done]. f_equal. apply gmultiset_size_empty_inv. lia.
  - intros (_ & _ & (q & -> & Hq)%tid_quot & f & [Hf Ho] & ->) E. exfalso. assert (f = 1 - 16 * q) as -> by lia.
    rewrite Z.odd_sub, Z.odd_mul in Ho. done.
Qed.

Lemma rw_code_safe o tid h : rw_supports o = true → tid_ok tid → pre o tid h → safe rw_encodes never false o tid (rw_code o tid) false 0 h.
Proof.
  intros Ho Ht Hp. destruct o as [opts| |opts|]; cbn [rw_code]; simpl in Ho.
  - apply Z.eqb_eq in Ho as ->. unfold rw_wlock, __rw_wlock, _rw_write_lock. code. intros h' s Hr Hroom He. cas E; code.
    + destruct (rw_word_free _ _ He E) as [-> Er]. takes_effect (Wr tid 1); [apply effect_xlock|]. simpl. rewrite Er.
      split; [done|]. split; [lia|]. split; [done|]. exists 0. split; [done|lia].
    + stutter h'. exact (safe_void rw_encodes never (XLock 0) tid h' eq_refl I).
  - unfold rw_wunlock, __rw_wunlock, _rw_write_unlock, decr_recurse. cbn [seqp load]. intros h1 s1 Hr1 He1. cbn [get_var].
    simpl in Hp. owner Hp Hr1. destruct He1 as (Er1 & _ & _ & _). unfold c_true. rewrite Er1.
    destruct (Z.eqb_spec (Z.of_nat (S d) - 1) 0) as [Hd|Hd]; cbn [negb].
    + assert (d = 0%nat) as -> by lia. code. intros h' s Hr Hroom He.
      assert (Hx : (0 < xheld (Wr tid 1) tid)%nat) by (simpl; rewrite decide_True by done; lia). owner Hx Hr.
      destruct Hr as [Hr _]. simpl in Hr. rewrite !decide_True in Hr by done. simplify_eq. cas E; code.
      * takes_effect (Rd ∅); [apply effect_xunlock|]. destruct He as (Er & _). simpl. split; [lia|]. exists 0. done.
      * stutter (Wr tid 1). refine (safe_void rw_encodes never XUnlock tid _ eq_refl _). done.
    + destruct d as [|d]; [lia|]. code. intros h2 s2 Hr2 He2. intros h' s Hr Hroom He.
      pose proof (rely_trans _ _ _ _ Hr2 Hr) as Hr'.
      assert (Hx : (0 < xheld (Wr tid (S (S d))) tid)%nat) by (simpl; rewrite decide_True by done; lia).
      owner Hx Hr'. assert (d0 = S d) as -> by (destruct Hr' as [Hr' _]; simpl in Hr'; rewrite !decide_True in Hr' by done; lia).
      owner Hx Hr2. assert (d0 = S d) as -> by (destruct Hr2 as [Hr2 _]; simpl in Hr2; rewrite !decide_True in Hr2 by done; lia).
      destruct He2 as (Er2 & _). destruct He as (_ & _ & _ & He). specialize (Hroom eq_refl). unfold room in Hroom. simpl in Hroom.
      takes_effect (Wr tid (S d)); [apply effect_xunlock_inner|]. simpl. rewrite Er2, u32_small by lia.
      split; [lia|]. split; [lia|]. by split.
  - apply Z.eqb_eq in Ho as ->. exact (safe_void rw_encodes never (SLock 0) tid h eq_refl I).
  - exact (safe_void rw_encodes never SUnlock tid h eq_refl Hp).
Qed.

Lemma rw_init_ok : rw_encodes (Rd ∅) (Lock RW_UNLOCKED 0).
Proof. split; [done|]. exists 0. split; [done|]. by rewrite gmultiset_size_empty. Qed.

Definition rw_impl : LockImpl := {|
  li_code := rw_code; li_supports := rw_supports; li_interruptible := never; li_spins := false;
  li_init := Lock RW_UNLOCKED 0; li_encodes := rw_encodes;
  li_init_ok := rw_init_ok;
  li_code_safe := rw_code_safe;
|}.

(** ** Sleep mutexes *)

(** Bit 0 tells of recursion, bit 1 of waiting threads; mtx_recurse, which only
    the kernel's functions use, counts the owner's further holds. *)
Definition mtx_encodes (h : holders) (s : lock) : Prop :=
  match h with
  | Rd R => R = ∅ ∧ s.(word) = MTX_UNOWNED ∧ s.(recurse) = 0
  | Wr t d => (0 < d)%nat ∧ tid_ok t ∧ s.(recurse) = Z.of_nat d - 1 ∧
      ∃ f, (f = 0 ∨ f = MTX_CONTESTED) ∧ s.(word) = t + f + if (1 <? d)%nat then MTX_RECURSED else 0
  end.

Definition mtx_supports (o : lock_op) : bool := match o with XLock _ | XUnlock => true | _ => false end.
Definition mtx_code (o : lock_op) (tid : Z) : prog :=
  match o with XLock opts => mtx_lock_flags tid opts | _ => mtx_unlock tid end.

Lemma mtx_word_free h s : mtx_encodes h s → s.(word) = MTX_UNOWNED → h = Rd ∅.
Proof.
  unfold MTX_UNOWNED. destruct h as [R|t d]; simpl; [by intros [-> _]|].
  unfold MTX_CONTESTED, MTX_RECURSED. intros (_ & (q & -> & Hq)%tid_quot & _ & f & Hf & ->) E. exfalso. destruct (1 <? d)%nat; lia.
Qed.

Lemma mtx_code_safe o tid h : mtx_supports o = true → tid_ok tid → pre o tid h → safe mtx_encodes never false o tid (mtx_code o tid) false 0 h.
Proof.
  intros Ho Ht Hp. destruct o as [opts| |opts|]; cbn [mtx_code]; [| |done|done].
  - unfold mtx_lock_flags, __mtx_lock, _mtx_obtain_lock. code. intros h' s Hr Hroom He. cas E; code.
    + rewrite (mtx_word_free _ _ He E). takes_effect (Wr tid 1); [apply effect_xlock|]. simpl. split; [lia|]. split; [done|].
      rewrite (mtx_word_free _ _ He E) in He. destruct He as (_ & _ & Er). split; [by rewrite Er|]. exists 0. split; [by left|lia].
    + stutter h'. exact (safe_void mtx_encodes never (XLock opts) tid h' eq_refl I).
  - unfold mtx_unlock, mtx_unlock_flags, __mtx_unlock, _mtx_release_lock. code. intros h' s Hr Hroom He. simpl in Hp. owner Hp Hr. cas E; code.
    + destruct He as (_ & _ & Er & f & Hf & He). rewrite E in He. unfold MTX_CONTESTED, MTX_RECURSED in *.
      assert (d = 0%nat) as -> by (destruct (Nat.ltb_spec 1 (S d)); lia). takes_effect (Rd ∅); [apply effect_xunlock|]. split; [done|]. split; [done|]. by rewrite Er.
    + stutter (Wr tid (S d)). refine (safe_void mtx_encodes never XUnlock tid _ eq_refl _). simpl. rewrite decide_True by done. lia.
Qed.

Definition mtx_impl : LockImpl := {|
  li_code := mtx_code; li_supports := mtx_supports; li_interruptible := never; li_spins := false;
  li_init := Lock MTX_UNOWNED 0; li_encodes := mtx_encodes; li_init_ok := conj eq_refl (conj eq_refl eq_refl); li_code_safe := mtx_code_safe;
|}.

(** ** Spin mutexes *)

(** No flags; the inline code counts the recursion itself. *)
Definition spin_encodes (h : holders) (s : lock) : Prop :=
  match h with
  | Rd R => R = ∅ ∧ s.(word) = MTX_UNOWNED ∧ s.(recurse) = 0
  | Wr t d => (0 < d)%nat ∧ tid_ok t ∧ s.(word) = t ∧ s.(recurse) = Z.of_nat d - 1
  end.

Definition spin_code (o : lock_op) (tid : Z) : prog :=
  match o with XLock opts => mtx_lock_spin_flags tid opts | _ => mtx_unlock_spin tid end.

(** What the owner reads from its own lock. *)
Lemma spin_owner d tid h' s : rely tid (Wr tid (S d)) h' → spin_encodes h' s → h' = Wr tid (S d) ∧ s.(word) = tid ∧ s.(recurse) = Z.of_nat d.
Proof.
  intros Hr He. assert (Hx : (0 < xheld (Wr tid (S d)) tid)%nat) by (simpl; rewrite decide_True by done; lia).
  owner Hx Hr. destruct Hr as [Hr _]. simpl in Hr. rewrite !decide_True in Hr by done. simplify_eq. destruct He as (_ & _ & ? & ?).
  split; [done|]. split; [done|]. lia.
Qed.

Lemma spin_lock_safe opts tid h : tid_ok tid →
  safe spin_encodes never true (XLock opts) tid (mtx_lock_spin_flags tid opts) false 0 h.
Proof.
  intros Ht. unfold mtx_lock_spin_flags, __mtx_lock_spin, _mtx_obtain_lock, incr_recurse. code. intros h' s Hr Hroom He. cas E; code.
  - destruct h' as [R|t d].
    + destruct He as (-> & _ & Er). takes_effect (Wr tid 1); [apply effect_xlock|]. simpl. split; [lia|]. split; [done|]. split; [done|]. lia.
    + exfalso. destruct He as (_ & (q & -> & _)%tid_quot & Ew & _). rewrite E in Ew. unfold MTX_UNOWNED in Ew. lia.
  - stutter h'. change (0 =? 0) with true. cbn iota. code. intros h1 s1 Hr1 He1.
    destruct (Z.eqb_spec (word s1) tid) as [Ew|_].
    + assert (∃ d, h1 = Wr tid (S d)) as [d ->].
      { destruct h1 as [R|t d]; [exfalso; destruct He1 as (_ & E1 & _), (tid_quot tid Ht) as (q & -> & Hq); rewrite E1 in Ew; unfold MTX_UNOWNED in Ew; lia|].
        destruct He1 as (Hd & _ & <- & _). rewrite Ew. destruct d; [lia|eauto]. }
      code. intros h2 s2 Hr2 He2. destruct (spin_owner _ _ _ _ Hr2 He2) as (-> & _ & Er2).
      intros h3 s3 Hr3 Hroom3 He3. destruct (spin_owner _ _ _ _ Hr3 He3) as (-> & Ew3 & Er3).
      takes_effect (Wr tid (S (S d))); [apply effect_xlock_again|]. simpl. specialize (Hroom3 eq_refl). unfold room in Hroom3. simpl in Hroom3.
      rewrite Er2, u32_small by lia. split; [lia|]. split; [done|]. split; [done|]. lia.
    + split; [done|]. split; [done|]. split; [done|]. intros h2 r Hr2. by split.
Qed.

Lemma spin_unlock_safe tid h : (0 < xheld h tid)%nat → safe spin_encodes never true XUnlock tid (mtx_unlock_spin tid) false 0 h.
Proof.
  intros Hp. destruct (owner_inv _ _ Hp) as [d ->].
  unfold mtx_unlock_spin, mtx_unlock_spin_flags, __mtx_unlock_spin, mtx_recursed, decr_recurse, _mtx_release_lock_quick. cbn [seqp load].
  intros h1 s1 Hr1 He1. cbn [get_var]. destruct (spin_owner _ _ _ _ Hr1 He1) as (-> & _ & ->). destruct d as [|d].
  - code. intros h' s Hr Hroom He. destruct (spin_owner _ _ _ _ Hr He) as (-> & _ & Er).
    takes_effect (Rd ∅); [apply effect_xunlock|]. done.
  - unfold c_true at 2. destruct (Z.eqb_spec (Z.of_nat (S d)) 0); [lia|]. cbn [negb]. change (c_true 1) with true. cbn iota. code.
    intros h2 s2 Hr2 He2. destruct (spin_owner _ _ _ _ Hr2 He2) as (-> & _ & ->).
    intros h' s Hr Hroom He. destruct (spin_owner _ _ _ _ Hr He) as (-> & Ew & Er).
    takes_effect (Wr tid (S d)); [apply effect_xunlock_inner|]. simpl. specialize (Hroom eq_refl). unfold room in Hroom. simpl in Hroom.
    destruct He as (_ & Ht & _). rewrite u32_small by lia. split; [lia|]. split; [done|]. split; [done|]. lia.
Qed.

Lemma spin_code_safe o tid h : mtx_supports o = true → tid_ok tid → pre o tid h → safe spin_encodes never true o tid (spin_code o tid) false 0 h.
Proof. intros Ho Ht Hp. destruct o; [by apply spin_lock_safe|by apply spin_unlock_safe|done|done]. Qed.

Definition spin_impl : LockImpl := {|
  li_code := spin_code; li_supports := mtx_supports; li_interruptible := never; li_spins := true;
  li_init := Lock MTX_UNOWNED 0; li_encodes := spin_encodes; li_init_ok := conj eq_refl (conj eq_refl eq_refl);
  li_code_safe := spin_code_safe;
|}.

(** ** All kinds *)

Inductive lock_kind := Sx (either : bool) | Rw | Mtx | Spin.
Definition impl (k : lock_kind) : LockImpl :=
  match k with Sx either => sx_impl either | Rw => rw_impl | Mtx => mtx_impl | Spin => spin_impl end.

(** C5. The locks exclude: for every kind of lock, any number of threads that
    call the inline functions in any interleaving, and any blocking functions
    that keep their contract, a thread that holds the lock exclusively is the
    only one that holds it; and a thread has entered exactly as many spin
    sections as it holds the spin mutex times over. *)
Theorem locks_exclude k hard lim ts c i j t u :
  NoDup ts → Forall tid_ok ts → Z.of_nat (length ts * lim) + 1 < 2 ^ 32 → hard_ok (L := impl k) hard →
  rtc (cstep (L := impl k) hard lim) (start (L := impl k) ts) c → i ≠ j →
  c.(c_threads) !! i = Some t → c.(c_threads) !! j = Some u → t.(t_run) = None → u.(t_run) = None →
  ((0 < t.(t_x))%nat → t.(t_s) = 0%nat ∧ u.(t_x) = 0%nat ∧ u.(t_s) = 0%nat) ∧
  t.(t_spin) = match k with Spin => Z.of_nat t.(t_x) | _ => 0 end.
Proof.
  intros Hnd Hok Hlim Hh Hr Hne Hi Hj Ht Hu. split.
  - intros Hx. by eapply (exclusion (L := impl k) hard lim ts Hnd Hok Hlim Hh c i j t u).
  - rewrite (spin_nesting (L := impl k) hard lim ts Hnd Hok Hlim Hh c i t) by done. by destruct k.
Qed.

(** _mtx_lock_spin: waits for the mutex to be free and takes it. *)
Definition spin_wait (tid : Z) (o : lock_op) (s s' : lock) (res : option Z) : Prop :=
  match o with
  | XLock _ => (res = None ∧ s' = s) ∨ (res = Some 0 ∧ s.(word) = MTX_UNOWNED ∧ s' = Lock tid s.(recurse))
  | _ => False
  end.

Lemma spin_wait_ok : hard_ok (L := impl Spin) spin_wait.
Proof.
  intros tid o h s s' res Ho Ht Hp Hroom He Hw. destruct o; try done. destruct Hw as [[-> ->]|(-> & Ew & ->)]; [done|].
  left. split; [done|]. simpl in *. destruct h as [R|t d].
  - destruct He as (-> & _ & Er). exists (Wr tid 1). split; [apply effect_xlock|]. simpl. split; [lia|]. split; [done|]. split; [done|]. lia.
  - exfalso. destruct He as (_ & (q & -> & _)%tid_quot & E & _). rewrite E in Ew. unfold MTX_UNOWNED in Ew. lia.
Qed.

(** A thread takes a spin mutex twice. *)
Definition spun (x : nat) (n : Z) (r : option (lock_op * prog)) : thread := Thread 16 x 0 n r.
Definition twice : config := Config (Lock 16 1) [spun 2 2 None; idle 32].

Ltac acts := eapply rtc_l; [eapply (step_action (L := impl Spin) _ _ _ 0); [reflexivity|reflexivity|repeat split]|cbn].
Ltac calls := eapply rtc_l; [eapply (step_call (L := impl Spin) _ _ _ 0 _ (XLock 0)); [reflexivity|reflexivity|split; [done|simpl; lia]]|cbn].
Ltac returns := eapply rtc_l; [eapply (step_return (L := impl Spin) _ _ _ 0); [reflexivity|reflexivity]|cbn].

Lemma twice_reachable : rtc (cstep (L := impl Spin) spin_wait 2) (start (L := impl Spin) [16; 32]) twice.
Proof.
  calls. acts. acts. returns. calls. acts. acts. acts. acts. acts. returns. apply rtc_refl.
Qed.

Lemma locks_exclude_witness : 0%nat = 0%nat ∧ (t_x (idle 32) = 0%nat ∧ t_s (idle 32) = 0%nat).
Proof.
  apply (locks_exclude Spin spin_wait 2 [16; 32] twice 0 1 (spun 2 2 None) (idle 32)).
  - apply (bool_decide_unpack _). vm_compute. exact I.
  - repeat constructor; simpl; lia.
  - simpl. lia.
  - exact spin_wait_ok.
  - exact twice_reachable.
  - discriminate.
  - reflexivity.
  - reflexivity.
  - reflexivity.
  - reflexivity.
  - simpl. lia.
Defined.

(** ** Tests on the lock word *)

Lemma sx_holder_ok h s : sx_encodes h s → room h →
  sx_xholder s.(word) = (match h with Wr t _ => t | Rd _ => 0 end) ∧
  (∀ R, h = Rd R → SX_SHARERS s.(word) = Z.of_nat (size R)).
Proof.
  intros He Hroom. destruct (sx_word_split h s He Hroom) as (q & f & -> & Hq & Hf & Hh).
  assert (Eo : SX_OWNER (16 * q + f) = 16 * q) by (unfold SX_OWNER; rewrite sx_mask_owner, land_owner, Z.land_0_r by lia; lia).
  split.
  - unfold sx_xholder, c_true. change SX_LOCK_SHARED with 1. rewrite odd_split, Eo. destruct h as [R|t d]; [by destruct Hh as [_ ->]|].
    destruct Hh as (-> & -> & _). done.
  - intros R ->. unfold SX_SHARERS. rewrite Eo, Z.shiftr_div_pow2 by done. destruct Hh as [<- _].
    change (2 ^ SX_SHARERS_SHIFT) with 16. rewrite Z.mul_comm. by apply Z.div_mul.
Qed.

Lemma rw_owner_ok h s : rw_encodes h s → room h →
  match h with Wr t _ => RW_OWNER s.(word) = t | Rd R => RW_READERS s.(word) = Z.of_nat (size R) end.
Proof.
  unfold room, RW_READERS, RW_OWNER. change (u64 (Z.lnot RW_LOCK_FLAGMASK)) with (16 * (2 ^ 60 - 1) + 0).
  destruct h as [R|t d]; simpl; intros He Hroom.
  - destruct He as (_ & f & [Hf Ho] & ->). assert (f ≠ 15) by (intros ->; done). rewrite <- Z.add_assoc, land_owner, Z.land_0_r, Z.add_0_r by lia.
    rewrite Z.shiftr_div_pow2 by done. change (2 ^ RW_READERS_SHIFT) with 16. rewrite Z.mul_comm. by apply Z.div_mul.
  - destruct He as (_ & _ & (q & -> & Hq)%tid_quot & f & [Hf _] & ->). rewrite land_owner, Z.land_0_r by lia. lia.
Qed.

Lemma mtx_owned_ok h s tid : mtx_encodes h s → tid_ok tid → mtx_owned tid s.(word) = bool_decide (0 < xheld h tid)%nat.
Proof.
  unfold mtx_owned. change (u64 (Z.lnot MTX_FLAGMASK)) with (16 * (2 ^ 60 - 1) + 8). intros He (q' & -> & Hq')%tid_quot.
  destruct h as [R|t d]; cbn [xheld mtx_encodes] in *.
  - destruct He as (-> & -> & _). rewrite bool_decide_eq_false_2 by lia. apply Z.eqb_neq. change (Z.land MTX_UNOWNED (16 * (2 ^ 60 - 1) + 8)) with 0. lia.
  - destruct He as (Hd & (q & -> & Hq)%tid_quot & _ & f & Hf & ->).
    assert (Hg : 0 ≤ f + (if (1 <? d)%nat then MTX_RECURSED else 0) < 16 ∧ Z.land (f + (if (1 <? d)%nat then MTX_RECURSED else 0)) 8 = 0).
    { unfold MTX_CONTESTED, MTX_RECURSED in *. destruct Hf as [-> | ->], (1 <? d)%nat; done. }
    destruct Hg as [Hg Hg0]. rewrite <- Z.add_assoc, land_owner, Hg0, Z.add_0_r by lia.
    destruct (decide (16 * q = 16 * q')) as [->|].
    + rewrite Z.eqb_refl. by rewrite bool_decide_eq_true_2 by lia.
    + rewrite bool_decide_eq_false_2 by lia. by apply Z.eqb_neq.
Qed.

(** At rest the tests on the lock word tell the truth: when no thread is
    inside an operation, sx_xlocked and mtx_owned answer whether the thread
    holds the lock, mtx_recurse counts its further holds, and a mutex that
    nobody holds is MTX_UNOWNED again. *)
Theorem lock_tests_at_rest k hard lim ts c i t :
  NoDup ts → Forall tid_ok ts → Z.of_nat (length ts * lim) + 1 < 2 ^ 32 → hard_ok (L := impl k) hard →
  rtc (cstep (L := impl k) hard lim) (start (L := impl k) ts) c →
  (∀ i t, c.(c_threads) !! i = Some t → t.(t_run) = None) →
  c.(c_threads) !! i = Some t →
  match k with
  | Sx _ => sx_xlocked t.(t_tid) c.(c_lock).(word) = bool_decide (0 < t.(t_x))%nat ∧
      ((0 < t.(t_x))%nat → sx_xholder c.(c_lock).(word) = t.(t_tid)) ∧
      ((0 < t.(t_s))%nat → sx_xholder c.(c_lock).(word) = 0 ∧ 0 < SX_SHARERS c.(c_lock).(word))
  | Rw => ((0 < t.(t_x))%nat → RW_OWNER c.(c_lock).(word) = t.(t_tid)) ∧ ((0 < t.(t_s))%nat → 0 < RW_READERS c.(c_lock).(word))
  | Mtx => mtx_owned t.(t_tid) c.(c_lock).(word) = bool_decide (0 < t.(t_x))%nat ∧
      ((0 < t.(t_x))%nat → c.(c_lock).(recurse) = Z.of_nat t.(t_x) - 1) ∧
      ((∀ j u, c.(c_threads) !! j = Some u → t_x u = 0%nat) → c.(c_lock) = Lock MTX_UNOWNED 0)
  | Spin => ((0 < t.(t_x))%nat → c.(c_lock) = Lock t.(t_tid) (Z.of_nat t.(t_x) - 1)) ∧
      ((∀ j u, c.(c_threads) !! j = Some u → t_x u = 0%nat) → c.(c_lock) = Lock MTX_UNOWNED 0)
  end.
Proof.
  intros Hnd Hok Hlim Hh Hr Hrest Hi.
  destruct (inv_reachable (L := impl k) hard lim ts Hnd Hok Hlim Hh c Hr) as [(h & D & He & Hall & Hin) Ets].
  pose proof (inv_room (L := impl k) hard lim ts Hnd Hok Hlim c h D Ets Hall Hin) as Hroom.
  destruct (tid_of ts Hok c i t Ets Hi) as [_ Ht].
  assert (Hx : ∀ j u, c_threads c !! j = Some u → xheld h (t_tid u) = t_x u ∧ sheld h (t_tid u) = t_s u).
  { intros j u Hj. destruct (Hall _ _ Hj) as [X S _ _]. pose proof (Hrest _ _ Hj) as Hn. unfold pending in X, S. rewrite Hn in X, S. lia. }
  destruct (Hx i t Hi) as [Ex Es].
  assert (Hfree : (∀ j u, c_threads c !! j = Some u → t_x u = 0%nat) → ∀ w d, h = Wr w d → d = 0%nat).
  { intros H0 w d ->. unfold inside, tids in Hin. apply list_elem_of_fmap in Hin as (u & -> & Hu). apply list_elem_of_lookup in Hu as [j Hj].
    destruct (Hx _ _ Hj) as [Ew _]. rewrite (H0 _ _ Hj) in Ew. simpl in Ew. by rewrite decide_True in Ew. }
  destruct k; cbn [impl li_encodes sx_impl rw_impl mtx_impl spin_impl] in He.
  - rewrite <- Ex, <- Es. split; [by apply sx_xlocked_ok|]. destruct (sx_holder_ok h _ He Hroom) as [E1 E2]. rewrite E1. split.
    + intros Hp. by destruct (owner_inv _ _ Hp) as [d ->].
    + intros Hp. destruct (reader_inv _ _ Hp) as (R & -> & HR). split; [done|]. rewrite (E2 R eq_refl). rewrite (size_remove R _ HR). lia.
  - rewrite <- Ex, <- Es. pose proof (rw_owner_ok h _ He Hroom) as E. split.
    + intros Hp. by destruct (owner_inv _ _ Hp) as [d ->].
    + intros Hp. destruct (reader_inv _ _ Hp) as (R & -> & HR). rewrite E, (size_remove R _ HR). lia.
  - rewrite <- Ex. split; [by apply mtx_owned_ok|]. split.
    + intros Hp. destruct (owner_inv _ _ Hp) as [d ->]. destruct He as (_ & _ & -> & _). cbn [xheld]. by rewrite decide_True by done.
    + intros H0. destruct h as [R|w d]; [destruct He as (_ & Ew & Er), (c_lock c); simpl in *; by rewrite Ew, Er|].
      rewrite (Hfree H0 w d eq_refl) in He. destruct He. lia.
  - split.
    + intros Hp. rewrite <- Ex in Hp. destruct (owner_inv _ _ Hp) as [d ->]. destruct He as (_ & _ & Ew & Er). rewrite <- Ex. simpl.
      rewrite decide_True by done. destruct (c_lock c); simpl in *. by rewrite Ew, Er.
    + intros H0. destruct h as [R|w d]; [destruct He as (_ & Ew & Er), (c_lock c); simpl in *; by rewrite Ew, Er|].
      rewrite (Hfree H0 w d eq_refl) in He. destruct He. lia.
Qed.

Lemma lock_tests_at_rest_witness : c_lock twice = Lock 16 (Z.of_nat 2 - 1).
Proof.
  destruct (lock_tests_at_rest Spin spin_wait 2 [16; 32] twice 0 (spun 2 2 None)) as [H _].
  - apply (bool_decide_unpack _). vm_compute. exact I.
  - repeat constructor; simpl; lia.
  - simpl. lia.
  - exact spin_wait_ok.
  - exact twice_reachable.
  - intros [|[|i]] t Ht; simpl in Ht; by simplify_eq.
  - reflexivity.
  - apply H. simpl. lia.
Defined.
