(* ===== verification/Socket.v ===== *)
(** * Control messages

    include/sys/socket.h, with include/x86/_align.h: the macros that walk and
    build the control part of a message, a buffer of messages each headed by a
    struct cmsghdr and padded to the alignment. *)

From S2P Require Import Prelude.
From S2P Require Import Memory.
From Stdlib Require Import Sorted.

(** ** The macros *)

Definition sizeof_register_t : Z := 8.
Definition _ALIGNBYTES : Z := sizeof_register_t - 1.
Definition _ALIGN (p : Z) : Z := Z.land (u64 (p + _ALIGNBYTES)) (u64 (Z.lnot _ALIGNBYTES)).

(** struct cmsghdr: a socklen_t and two ints. *)
Definition sizeof_cmsghdr : Z := 12.
Definition cmsg_len (cmsg : Z) : C mem Z := field 4 cmsg 0.

(** struct msghdr *)
Definition msg_control (mhdr : Z) : C mem Z := field 8 mhdr 32.
Definition msg_controllen (mhdr : Z) : C mem Z := field 4 mhdr 40.

Definition CMSG_DATA (cmsg : Z) : Z := ptr_add cmsg (_ALIGN sizeof_cmsghdr).

Definition CMSG_FIRSTHDR (mhdr : Z) : C mem Z :=
  n ← msg_controllen mhdr;
  if sizeof_cmsghdr <=? n then msg_control mhdr else mret 0.

Definition CMSG_NXTHDR (mhdr cmsg : Z) : C mem Z :=
  if cmsg =? 0 then CMSG_FIRSTHDR mhdr else
  l ← cmsg_len cmsg;
  c ← msg_control mhdr;
  n ← msg_controllen mhdr;
  if ptr_add c n <? ptr_add (ptr_add cmsg (_ALIGN l)) (_ALIGN sizeof_cmsghdr) then mret 0
  else l ← cmsg_len cmsg; mret (ptr_add cmsg (_ALIGN l)).

Definition CMSG_SPACE (l : Z) : Z := u64 (_ALIGN sizeof_cmsghdr + _ALIGN l).
Definition CMSG_LEN (l : Z) : Z := u64 (_ALIGN sizeof_cmsghdr + l).

(** The loop of a receiver: [for (c = CMSG_FIRSTHDR(m); c != NULL; c =
    CMSG_NXTHDR(m, c))]; the headers it visits. *)
Definition cmsg_walk (fuel : nat) (mhdr : Z) : C mem (list Z) :=
  c ← CMSG_FIRSTHDR mhdr;
  while fuel (c, []) (λ '(c, acc),
    if c =? 0 then mret (inr acc) else n ← CMSG_NXTHDR mhdr c; mret (inl (n, acc ++ [c]))).

(** ** Alignment *)

Lemma align_eq p : 0 ≤ p < 2 ^ 64 - 8 → _ALIGN p = 8 * ((p + 7) / 8).
Proof.
  intros Hp. unfold _ALIGN, _ALIGNBYTES, sizeof_register_t. change (8 - 1) with 7. rewrite u64_small by lia.
  change (u64 (Z.lnot 7)) with (Z.ldiff (Z.ones 64) (Z.ones 3)).
  assert (E : Z.land (p + 7) (Z.ldiff (Z.ones 64) (Z.ones 3)) = Z.ldiff (p + 7) (Z.ones 3)).
  { apply Z.bits_inj'. intros i Hi. rewrite Z.land_spec, !Z.ldiff_spec. destruct (decide (i < 64)).
    - rewrite Z.ones_spec_low by lia. done.
    - replace (Z.testbit (p + 7) i) with false; [done|]. symmetry. rewrite <- (Z.mod_small (p + 7) (2 ^ 64)) by lia.
      apply Z.mod_pow2_bits_high. lia. }
  rewrite E, Z.ldiff_ones_r by lia. rewrite Z.shiftl_mul_pow2, Z.shiftr_div_pow2 by lia. change (2 ^ 3) with 8. lia.
Qed.

Lemma align_bounds p : 0 ≤ p < 2 ^ 64 - 8 → p ≤ _ALIGN p < p + 8 ∧ _ALIGN p mod 8 = 0.
Proof.
  intros Hp. rewrite align_eq by done. pose proof (Z.div_mod (p + 7) 8 ltac:(lia)). pose proof (Z.mod_pos_bound (p + 7) 8 ltac:(lia)).
  split; [lia|]. rewrite Z.mul_comm. by apply Z.mod_mul.
Qed.

Lemma align_hdr : _ALIGN sizeof_cmsghdr = 16.
Proof. done. Qed.

Lemma align_len l : 0 ≤ l < 2 ^ 32 → _ALIGN (16 + l) = 16 + _ALIGN l.
Proof.
  intros Hl. rewrite !align_eq by lia. replace (16 + l + 7) with (2 * 8 + (l + 7)) by lia. rewrite Z.div_add_l by lia. lia.
Qed.

(** ** Walking a buffer *)

Lemma field_at m k p off v : 0 < p → 0 ≤ off → p + off < 2 ^ 64 → peek m k (p + off) = Some v → field k p off m = Done v m.
Proof. intros Hp Ho Hr Hv. apply field_peek; [lia|]. unfold ptr_add. by rewrite u64_small by lia. Qed.

Section Walk.
Context (m : mem) (mhdr c n : Z).
Hypothesis Hc : peek m 8 (mhdr + 32) = Some c.
Hypothesis Hn : peek m 4 (mhdr + 40) = Some n.
Hypothesis Hm : 0 < mhdr < 2 ^ 64 - 48.
(** The buffer is not at the very end of the address space. *)
Hypothesis Hb : 0 < c ∧ c + n < 2 ^ 64 - 2 ^ 33.

Lemma n_range : 0 ≤ n < 2 ^ 32.
Proof. pose proof (peek_range m 4 (mhdr + 40) n Hn) as H. change (8 * Z.of_nat 4) with 32 in H. done. Qed.

Lemma control_ok : msg_control mhdr m = Done c m.
Proof. apply field_at; [lia|lia|lia|done]. Qed.
Lemma controllen_ok : msg_controllen mhdr m = Done n m.
Proof. apply field_at; [lia|lia|lia|done]. Qed.

Lemma first_ok : CMSG_FIRSTHDR mhdr m = Done (if 12 <=? n then c else 0) m.
Proof. unfold CMSG_FIRSTHDR. rewrite (bind_done _ _ _ _ _ controllen_ok). change sizeof_cmsghdr with 12. destruct (12 <=? n); [apply control_ok|done]. Qed.

Lemma next_ok a l : c ≤ a ≤ c + n → peek m 4 a = Some l →
  CMSG_NXTHDR mhdr a m = Done (if c + n <? a + _ALIGN l + 16 then 0 else a + _ALIGN l) m.
Proof.
  intros Ha Hl. pose proof n_range as Hnr. pose proof (peek_range m 4 a l Hl) as Hlr. change (8 * Z.of_nat 4) with 32 in Hlr.
  pose proof (align_bounds l ltac:(lia)) as [Hal _].
  assert (El : cmsg_len a m = Done l m) by (apply field_at; [lia|lia|lia|by rewrite Z.add_0_r]).
  unfold CMSG_NXTHDR. rewrite (proj2 (Z.eqb_neq a 0)) by lia.
  rewrite (bind_done _ _ _ _ _ El), (bind_done _ _ _ _ _ control_ok), (bind_done _ _ _ _ _ controllen_ok), align_hdr.
  unfold ptr_add. rewrite !(u64_small (c + n)), (u64_small (a + _ALIGN l)), (u64_small (a + _ALIGN l + 16)) by lia.
  destruct (c + n <? a + _ALIGN l + 16); [done|]. rewrite (bind_done _ _ _ _ _ El), u64_small by lia. done.
Qed.

(** The messages of lengths [ls] from [a] on: each header has the length
    CMSG_LEN gives it, its data is inside the buffer, and the next one follows
    after CMSG_SPACE; the last may lack its padding. *)
Fixpoint cmsgs_at (a : Z) (ls : list Z) : Prop :=
  match ls with
  | [] => c + n < a + 16
  | l :: ls => 0 ≤ l < 2 ^ 32 - 16 ∧ a + CMSG_LEN l ≤ c + n ∧ peek m 4 a = Some (CMSG_LEN l) ∧ cmsgs_at (a + CMSG_SPACE l) ls
  end.
Fixpoint starts (a : Z) (ls : list Z) : list Z :=
  match ls with [] => [] | l :: ls => a :: starts (a + CMSG_SPACE l) ls end.

Lemma len_eq l : 0 ≤ l < 2 ^ 32 → CMSG_LEN l = 16 + l.
Proof. intros Hl. unfold CMSG_LEN. rewrite align_hdr. apply u64_small. lia. Qed.
Lemma space_eq l : 0 ≤ l < 2 ^ 32 → CMSG_SPACE l = 16 + _ALIGN l.
Proof. intros Hl. unfold CMSG_SPACE. rewrite align_hdr. pose proof (align_bounds l ltac:(lia)). apply u64_small. lia. Qed.

Lemma walk_messages ls : ∀ fuel a acc, c ≤ a → cmsgs_at a ls → (length ls < fuel)%nat →
  while fuel ((match ls with [] => 0 | _ => a end), acc) (λ '(c, acc),
    if c =? 0 then mret (inr acc) else n ← CMSG_NXTHDR mhdr c; mret (inl (n, acc ++ [c]))) m = Done (acc ++ starts a ls) m.
Proof.
  induction ls as [|l ls IH]; intros [|fuel] a acc Ha Hls Hf; [simpl in Hf; lia..| |simpl in Hf; lia|].
  - cbn [while]. rewrite app_nil_r. done.
  - destruct Hls as (Hl & Hend & Hp & Hls). rewrite len_eq in * by lia. pose proof (align_bounds l ltac:(lia)) as [Hal _].
    cbn [while]. rewrite (proj2 (Z.eqb_neq a 0)) by lia. rewrite !bind_assoc, (bind_done _ _ _ _ _ (next_ok a _ ltac:(lia) Hp)).
    rewrite bind_ret, align_len by lia. cbn [starts]. rewrite space_eq in * by lia.
    replace (if c + n <? a + (16 + _ALIGN l) + 16 then 0 else a + (16 + _ALIGN l))
      with (match ls with [] => 0 | _ => a + (16 + _ALIGN l) end).
    + rewrite IH; [by rewrite <- app_assoc|lia|done|simpl in Hf; lia].
    + destruct ls as [|l' ls]; simpl in Hls.
      * by rewrite (proj2 (Z.ltb_lt _ _)) by lia.
      * destruct Hls as (Hl' & Hend' & _). rewrite len_eq in Hend' by lia. by rewrite (proj2 (Z.ltb_ge _ _)) by lia.
Qed.

(** A header of a buffer with any contents. *)
Definition within (a : Z) : Prop := c ≤ a ∧ a + sizeof_cmsghdr ≤ c + n ∧ (a - c) mod 8 = 0.

Lemma walk_any : (∀ a, c ≤ a → a + 12 ≤ c + n → ∃ v, peek m 4 a = Some v ∧ 0 < v) →
  ∀ fuel a acc, a = 0 ∨ within a → (a ≠ 0 → c + n - a < 8 * Z.of_nat fuel) → (0 < fuel)%nat →
  ∃ l, while fuel (a, acc) (λ '(c, acc),
      if c =? 0 then mret (inr acc) else n ← CMSG_NXTHDR mhdr c; mret (inl (n, acc ++ [c]))) m = Done (acc ++ l) m ∧
    Forall (λ x, within x ∧ a ≤ x) l ∧ StronglySorted Z.lt l.
Proof.
  intros Hpos. induction fuel as [|fuel IH]; intros a acc Ha Hf Hpf; [lia|]. destruct Ha as [->|Ha].
  - exists []. rewrite app_nil_r. split; [done|]. split; constructor.
  - pose proof Ha as (Ha1 & Ha2 & Ha3). change sizeof_cmsghdr with 12 in Ha2.
    destruct (Hpos a Ha1 Ha2) as (v & Hv & Hv0). pose proof (peek_range m 4 a v Hv) as Hvr. change (8 * Z.of_nat 4) with 32 in Hvr.
    pose proof (align_bounds v ltac:(lia)) as [Hal Hal8]. pose proof (Z.div_mod (_ALIGN v) 8 ltac:(lia)) as Hq.
    assert (Hprog : 8 ≤ _ALIGN v) by lia.
    cbn [while]. rewrite (proj2 (Z.eqb_neq a 0)) by lia. rewrite !bind_assoc, (bind_done _ _ _ _ _ (next_ok a v ltac:(lia) Hv)), bind_ret.
    destruct (IH (if c + n <? a + _ALIGN v + 16 then 0 else a + _ALIGN v) (acc ++ [a])) as (l & E & Hl & Hs).
    + destruct (Z.ltb_spec (c + n) (a + _ALIGN v + 16)); [by left|right]. unfold within. change sizeof_cmsghdr with 12.
      split; [lia|]. split; [lia|]. replace (a + _ALIGN v - c) with ((a - c) + _ALIGN v / 8 * 8) by lia. by rewrite Z.mod_add by lia.
    + destruct (Z.ltb_spec (c + n) (a + _ALIGN v + 16)); [done|]. lia.
    + destruct fuel; lia.
    + exists (a :: l). rewrite E, <- app_assoc. split; [done|].
      assert (Hgt : Forall (λ x, within x ∧ a < x) l).
      { destruct (Z.ltb_spec (c + n) (a + _ALIGN v + 16)).
        - destruct fuel as [|fuel]; [lia|]. cbn in E. injection E as E.
          rewrite <- (app_nil_r (acc ++ [a])) in E at 1. apply app_inv_head in E as <-. constructor.
        - eapply Forall_impl; [exact Hl|]. intros x [? ?]. split; [done|lia]. }
      split; [constructor; [by split|]; eapply Forall_impl; [exact Hgt|]; intros x [? ?]; split; [done|lia]|].
      constructor; [done|]. eapply Forall_impl; [exact Hgt|]. by intros x [_ ?].
Qed.
End Walk.

(** C30. A receiver finds exactly the messages that were put into the buffer: each
    header once and in order, with its data inside the buffer. *)
Theorem cmsg_walk_messages m mhdr c n ls :
  peek m 8 (mhdr + 32) = Some c → peek m 4 (mhdr + 40) = Some n → 0 < mhdr < 2 ^ 64 - 48 → 0 < c ∧ c + n < 2 ^ 64 - 2 ^ 33 →
  cmsgs_at m c n c ls → (ls = [] → n < 12) →
  cmsg_walk (S (length ls)) mhdr m = Done (starts c ls) m ∧
  ∀ i l a, ls !! i = Some l → starts c ls !! i = Some a → CMSG_DATA a = a + 16 ∧ CMSG_DATA a + l ≤ c + n.
Proof.
  intros Hc Hn Hm Hb Hls Hnil. pose proof (n_range m mhdr n Hn) as Hnr. split.
  - unfold cmsg_walk. rewrite (bind_done _ _ _ _ _ (first_ok m mhdr c n Hc Hn Hm)).
    replace (if 12 <=? n then c else 0) with (match ls with [] => 0 | _ => c end).
    + apply (walk_messages m mhdr c n Hc Hn Hm Hb ls); [lia|done|lia].
    + destruct ls as [|l ls]; [by rewrite (proj2 (Z.leb_gt _ _)) by (by apply Hnil)|].
      destruct Hls as (Hl & Hend & _). rewrite len_eq in Hend by lia. by rewrite (proj2 (Z.leb_le _ _)) by lia.
  - assert (G : ∀ a0 i l a, c ≤ a0 → cmsgs_at m c n a0 ls → ls !! i = Some l → starts a0 ls !! i = Some a →
        CMSG_DATA a = a + 16 ∧ CMSG_DATA a + l ≤ c + n); [|intros; by eapply (G c); [lia|..]].
    clear Hls Hnil. induction ls as [|k ls IH]; intros a0 i l a Ha0 Hls Hl Ha; [done|].
    destruct Hls as (Hk & Hend & Hp & Hls). rewrite len_eq in Hend by lia. rewrite space_eq in Hls by lia.
    pose proof (align_bounds k ltac:(lia)) as [Hal _]. destruct i as [|i]; simpl in Hl, Ha.
    + simplify_eq. unfold CMSG_DATA, ptr_add. rewrite align_hdr, u64_small by lia. lia.
    + rewrite space_eq in Ha by lia. by eapply (IH (a0 + (16 + _ALIGN k)) i); [lia|..].
Qed.

(** Two messages of 4 and 9 bytes. *)
Definition sample_msg : mem :=
  list_to_map (zip (seqZ 0x1000 80)
    (le_split 4 0 ++ replicate 28 Byte.x00 ++ le_split 8 0x1030 ++ le_split 8 49 ++
     le_split 4 20 ++ replicate 20 Byte.x00 ++ le_split 8 25)).

Lemma cmsg_walk_messages_witness : cmsg_walk 3 0x1000 sample_msg = Done [0x1030; 0x1048] sample_msg.
Proof.
  apply (cmsg_walk_messages sample_msg 0x1000 0x1030 49 [4; 9]).
  - reflexivity.
  - reflexivity.
  - lia.
  - lia.
  - simpl. repeat split; reflexivity || discriminate.
  - discriminate.
Defined.

(** On any buffer whose headers have a length the walk ends, and stays inside:
    it visits headers in increasing order, all within the buffer. *)
Theorem cmsg_walk_safe m mhdr c n :
  peek m 8 (mhdr + 32) = Some c → peek m 4 (mhdr + 40) = Some n → 0 < mhdr < 2 ^ 64 - 48 → 0 < c ∧ c + n < 2 ^ 64 - 2 ^ 33 →
  (∀ a, c ≤ a → a + 12 ≤ c + n → ∃ v, peek m 4 a = Some v ∧ 0 < v) →
  ∃ l, cmsg_walk (Z.to_nat (n / 8 + 2)) mhdr m = Done l m ∧ Forall (within c n) l ∧ StronglySorted Z.lt l.
Proof.
  intros Hc Hn Hm Hb Hpos. pose proof (n_range m mhdr n Hn) as Hnr. pose proof (Z.div_mod n 8 ltac:(lia)).
  pose proof (Z.mod_pos_bound n 8 ltac:(lia)). assert (0 ≤ n / 8) by (apply Z.div_pos; lia).
  unfold cmsg_walk. rewrite (bind_done _ _ _ _ _ (first_ok m mhdr c n Hc Hn Hm)).
  destruct (walk_any m mhdr c n Hc Hn Hm Hb Hpos (Z.to_nat (n / 8 + 2)) (if 12 <=? n then c else 0) []) as (l & E & Hl & Hs).
  - destruct (Z.leb_spec 12 n); [right|by left]. unfold within. change sizeof_cmsghdr with 12. rewrite Z.sub_diag. split; [lia|]. split; [lia|done].
  - destruct (Z.leb_spec 12 n); [|done]. lia.
  - lia.
  - exists l. split; [exact E|]. split; [|done]. eapply Forall_impl; [exact Hl|]. by intros x [? _].
Qed.

(** A header of length 0 is its own successor: a receiver that trusts the
    macros never gets past it. *)
Theorem cmsg_zero_length_stays m mhdr c n a :
  peek m 8 (mhdr + 32) = Some c → peek m 4 (mhdr + 40) = Some n → 0 < mhdr < 2 ^ 64 - 48 → 0 < c ∧ c + n < 2 ^ 64 - 2 ^ 33 →
  c ≤ a → a + 16 ≤ c + n → peek m 4 a = Some 0 → CMSG_NXTHDR mhdr a m = Done a m.
Proof.
  intros Hc Hn Hm Hb Ha He Hl. rewrite (next_ok m mhdr c n Hc Hn Hm Hb a 0 ltac:(lia) Hl). change (_ALIGN 0) with 0.
  rewrite (proj2 (Z.ltb_ge _ _)) by lia. by rewrite Z.add_0_r.
Qed.

(** A buffer with room for one header only. *)
Lemma cmsg_walk_safe_witness :
  let m := (list_to_map (zip (seqZ 0x1000 60) (le_split 4 0 ++ replicate 28 Byte.x00 ++ le_split 8 0x1030 ++ le_split 8 12 ++
     le_split 4 12 ++ replicate 8 Byte.x00)) : mem) in
  ∃ l, cmsg_walk 3 0x1000 m = Done l m ∧ Forall (within 0x1030 12) l ∧ StronglySorted Z.lt l.
Proof.
  apply (cmsg_walk_safe _ 0x1000 0x1030 12).
  - reflexivity.
  - reflexivity.
  - lia.
  - lia.
  - intros a H1 H2. assert (a = 0x1030) as -> by lia. exists 12. split; [reflexivity|lia].
Defined.

Lemma cmsg_zero_length_stays_witness :
  let m := (list_to_map (zip (seqZ 0x1000 64) (le_split 4 0 ++ replicate 28 Byte.x00 ++ le_split 8 0x1030 ++ le_split 8 16 ++
     replicate 16 Byte.x00)) : mem) in
  CMSG_NXTHDR 0x1000 0x1030 m = Done 0x1030 m.
Proof. apply (cmsg_zero_length_stays _ 0x1000 0x1030 16); reflexivity || lia. Defined.
