(* ===== verification/Inet.v ===== *)
(** * Internet addresses

    The tests on addresses of include/netinet/in.h and
    include/netinet6/in6.h.  An IPv4 address is a number in host byte order,
    as the macros take it; an IPv6 address is its sixteen bytes, of which the
    macros also load 32-bit words in the order of the machine. *)

From S2P Require Import Prelude.
From S2P Require Import Libkern.

(** ** IPv4 *)

Definition IN_CLASSA (i : Z) : bool := Z.land (u32 i) 0x80000000 =? 0.
Definition IN_CLASSB (i : Z) : bool := Z.land (u32 i) 0xc0000000 =? 0x80000000.
Definition IN_CLASSC (i : Z) : bool := Z.land (u32 i) 0xe0000000 =? 0xc0000000.
Definition IN_CLASSD (i : Z) : bool := Z.land (u32 i) 0xf0000000 =? 0xe0000000.
Definition IN_MULTICAST (i : Z) : bool := IN_CLASSD i.
Definition IN_EXPERIMENTAL (i : Z) : bool := Z.land (u32 i) 0xf0000000 =? 0xf0000000.
Definition IN_BADCLASS (i : Z) : bool := Z.land (u32 i) 0xf0000000 =? 0xf0000000.
Definition IN_LINKLOCAL (i : Z) : bool := Z.land (u32 i) 0xffff0000 =? 0xa9fe0000.
Definition IN_LOOPBACK (i : Z) : bool := Z.land (u32 i) 0xff000000 =? 0x7f000000.
Definition IN_ZERONET (i : Z) : bool := Z.land (u32 i) 0xff000000 =? 0.
Definition IN_PRIVATE (i : Z) : bool :=
  (Z.land (u32 i) 0xff000000 =? 0x0a000000) ||
  (Z.land (u32 i) 0xfff00000 =? 0xac100000) ||
  (Z.land (u32 i) 0xffff0000 =? 0xc0a80000).
Definition IN_LOCAL_GROUP (i : Z) : bool := Z.land (u32 i) 0xffffff00 =? 0xe0000000.
Definition IN_ANY_LOCAL (i : Z) : bool := IN_LINKLOCAL i || IN_LOCAL_GROUP i.

Definition IN_CLASSA_NET : Z := 0xff000000.
Definition IN_CLASSA_NSHIFT : Z := 24.
Definition IN_CLASSA_HOST : Z := 0x00ffffff.
Definition IN_CLASSB_NET : Z := 0xffff0000.
Definition IN_CLASSB_NSHIFT : Z := 16.
Definition IN_CLASSB_HOST : Z := 0x0000ffff.
Definition IN_CLASSC_NET : Z := 0xffffff00.
Definition IN_CLASSC_NSHIFT : Z := 8.
Definition IN_CLASSC_HOST : Z := 0x000000ff.

(** A network as a prefix: the addresses whose bits from [k] up are [p]. *)
Definition network (k p i : Z) : Prop := p * 2 ^ k ≤ i < (p + 1) * 2 ^ k.

Lemma mask_prefix k i : 0 ≤ k ≤ 32 → 0 ≤ i < 2 ^ 32 → Z.land i (Z.ldiff (Z.ones 32) (Z.ones k)) = i / 2 ^ k * 2 ^ k.
Proof.
  intros Hk Hi. transitivity (Z.ldiff i (Z.ones k)).
  - apply Z.bits_inj'. intros j Hj. rewrite Z.land_spec, !Z.ldiff_spec. destruct (decide (j < 32)).
    + by rewrite Z.ones_spec_low by lia.
    + replace (Z.testbit i j) with false; [done|]. symmetry. rewrite <- (Z.mod_small i (2 ^ 32)) by lia.
      apply Z.mod_pow2_bits_high. lia.
  - rewrite Z.ldiff_ones_r by lia. by rewrite Z.shiftl_mul_pow2, Z.shiftr_div_pow2 by lia.
Qed.

Lemma prefix_test k mask p i : 0 ≤ k ≤ 32 → mask = Z.ldiff (Z.ones 32) (Z.ones k) → 0 ≤ i < 2 ^ 32 →
  Z.land (u32 i) mask =? p * 2 ^ k = true ↔ network k p i.
Proof.
  intros Hk -> Hi. rewrite u32_small, mask_prefix, Z.eqb_eq by done. unfold network.
  assert (0 < 2 ^ k) by (apply Z.pow_pos_nonneg; lia).
  pose proof (Z.div_mod i (2 ^ k) ltac:(lia)) as Ed. pose proof (Z.mod_pos_bound i (2 ^ k) ltac:(lia)) as Em. split.
  - intros E%Z.mul_reg_r; [|lia]. rewrite E in Ed. lia.
  - intros Hn. f_equal. symmetry. apply (Z.div_unique i (2 ^ k) p (i - 2 ^ k * p)); lia.
Qed.

(** The five classes as networks. *)
Lemma class_tests i : 0 ≤ i < 2 ^ 32 →
  (IN_CLASSA i = true ↔ network 31 0 i) ∧ (IN_CLASSB i = true ↔ network 30 2 i) ∧ (IN_CLASSC i = true ↔ network 29 6 i) ∧
  (IN_CLASSD i = true ↔ network 28 14 i) ∧ (IN_EXPERIMENTAL i = true ↔ network 28 15 i).
Proof.
  intros Hi. split; [|split; [|split; [|split]]].
  - exact (prefix_test 31 0x80000000 0 i ltac:(lia) eq_refl Hi).
  - exact (prefix_test 30 0xc0000000 2 i ltac:(lia) eq_refl Hi).
  - exact (prefix_test 29 0xe0000000 6 i ltac:(lia) eq_refl Hi).
  - exact (prefix_test 28 0xf0000000 14 i ltac:(lia) eq_refl Hi).
  - exact (prefix_test 28 0xf0000000 15 i ltac:(lia) eq_refl Hi).
Qed.

Lemma special_tests i : 0 ≤ i < 2 ^ 32 →
  (IN_LINKLOCAL i = true ↔ network 16 0xa9fe i) ∧ (IN_LOOPBACK i = true ↔ network 24 127 i) ∧
  (IN_ZERONET i = true ↔ network 24 0 i) ∧ (IN_LOCAL_GROUP i = true ↔ network 8 0xe00000 i) ∧
  (IN_PRIVATE i = true ↔ network 24 10 i ∨ network 20 0xac1 i ∨ network 16 0xc0a8 i).
Proof.
  intros Hi. split; [|split; [|split; [|split]]].
  - exact (prefix_test 16 0xffff0000 0xa9fe i ltac:(lia) eq_refl Hi).
  - exact (prefix_test 24 0xff000000 127 i ltac:(lia) eq_refl Hi).
  - exact (prefix_test 24 0xff000000 0 i ltac:(lia) eq_refl Hi).
  - exact (prefix_test 8 0xffffff00 0xe00000 i ltac:(lia) eq_refl Hi).
  - unfold IN_PRIVATE. rewrite !orb_true_iff.
    rewrite <- (prefix_test 24 0xff000000 10 i ltac:(lia) eq_refl Hi), <- (prefix_test 20 0xfff00000 0xac1 i ltac:(lia) eq_refl Hi),
      <- (prefix_test 16 0xffff0000 0xc0a8 i ltac:(lia) eq_refl Hi).
    change (10 * 2 ^ 24) with 0x0a000000. change (0xac1 * 2 ^ 20) with 0xac100000. change (0xc0a8 * 2 ^ 16) with 0xc0a80000. tauto.
Qed.

(** Every IPv4 address is in exactly one of the classes A to E, as the
    intervals of the address space they stand for, and the special ranges
    are the networks of their definitions: loopback is in class A, private
    and link-local addresses are unicast, local groups are multicast. *)
Theorem in_classes i :
  0 ≤ i < 2 ^ 32 →
  length (filter (λ b : bool, b = true) [IN_CLASSA i; IN_CLASSB i; IN_CLASSC i; IN_CLASSD i; IN_EXPERIMENTAL i]) = 1%nat ∧
  (IN_CLASSA i = true ↔ 0 ≤ i < 0x80000000) ∧ (IN_MULTICAST i = true ↔ 0xe0000000 ≤ i < 0xf0000000) ∧
  (IN_BADCLASS i = true ↔ 0xf0000000 ≤ i) ∧
  (IN_LOOPBACK i = true ↔ network 24 127 i) ∧ (IN_LOOPBACK i = true → IN_CLASSA i = true) ∧
  (IN_PRIVATE i = true ↔ network 24 10 i ∨ network 20 0xac1 i ∨ network 16 0xc0a8 i) ∧
  (IN_PRIVATE i = true ∨ IN_LINKLOCAL i = true → IN_MULTICAST i = false ∧ IN_EXPERIMENTAL i = false ∧ IN_LOOPBACK i = false) ∧
  (IN_LOCAL_GROUP i = true → IN_MULTICAST i = true) ∧
  (IN_ANY_LOCAL i = true ↔ network 16 0xa9fe i ∨ network 8 0xe00000 i).
Proof.
  intros Hi. destruct (class_tests i Hi) as (A & B & C & D & E), (special_tests i Hi) as (LL & LB & ZN & LG & PR).
  unfold IN_MULTICAST, IN_ANY_LOCAL, network in *. change (IN_BADCLASS i) with (IN_EXPERIMENTAL i).
  assert (Hf : ∀ b, b = false ↔ ¬ b = true) by (intros []; split; congruence).
  split; [|rewrite ?orb_true_iff, ?Hf, ?A, ?B, ?C, ?D, ?E, ?LL, ?LB, ?LG, ?PR; lia].
  destruct (IN_CLASSA i), (IN_CLASSB i), (IN_CLASSC i), (IN_CLASSD i), (IN_EXPERIMENTAL i); simpl; try done; exfalso; lia.
Qed.

(** 192.168.0.1 *)
Lemma in_classes_witness : IN_PRIVATE 0xc0a80001 = true ↔ network 24 10 0xc0a80001 ∨ network 20 0xac1 0xc0a80001 ∨ network 16 0xc0a8 0xc0a80001.
Proof. apply (in_classes 0xc0a80001). lia. Defined.

(** ** IPv6 *)

(** [a->s6_addr[i]], and the 32-bit word that the macros load from
    [&a->s6_addr[i]], on a little-endian machine. *)
Definition in6_addr : Type := list Z.
Definition s6_addr (a : in6_addr) (i : nat) : Z := default 0 (a !! i).
Definition s6_word (a : in6_addr) (i : nat) : Z :=
  s6_addr a i + 2 ^ 8 * s6_addr a (i + 1) + 2 ^ 16 * s6_addr a (i + 2) + 2 ^ 24 * s6_addr a (i + 3).

Definition IN6_ARE_ADDR_EQUAL (a b : in6_addr) : bool := bool_decide (take 16 a = take 16 b).

Definition IN6_IS_ADDR_UNSPECIFIED (a : in6_addr) : bool :=
  (s6_word a 0 =? 0) && (s6_word a 4 =? 0) && (s6_word a 8 =? 0) && (s6_word a 12 =? 0).
Definition IN6_IS_ADDR_LOOPBACK (a : in6_addr) : bool :=
  (s6_word a 0 =? 0) && (s6_word a 4 =? 0) && (s6_word a 8 =? 0) && (s6_word a 12 =? ntohl true 1).
Definition IN6_IS_ADDR_V4COMPAT (a : in6_addr) : bool :=
  (s6_word a 0 =? 0) && (s6_word a 4 =? 0) && (s6_word a 8 =? 0) && negb (s6_word a 12 =? 0) && negb (s6_word a 12 =? ntohl true 1).
Definition IN6_IS_ADDR_V4MAPPED (a : in6_addr) : bool :=
  (s6_word a 0 =? 0) && (s6_word a 4 =? 0) && (s6_word a 8 =? ntohl true 0x0000ffff).

Definition IPV6_ADDR_SCOPE_NODELOCAL : Z := 0x01.
Definition IPV6_ADDR_SCOPE_INTFACELOCAL : Z := 0x01.
Definition IPV6_ADDR_SCOPE_LINKLOCAL : Z := 0x02.
Definition IPV6_ADDR_SCOPE_SITELOCAL : Z := 0x05.
Definition IPV6_ADDR_SCOPE_ORGLOCAL : Z := 0x08.
Definition IPV6_ADDR_SCOPE_GLOBAL : Z := 0x0e.

Definition IN6_IS_ADDR_LINKLOCAL (a : in6_addr) : bool := (s6_addr a 0 =? 0xfe) && (Z.land (s6_addr a 1) 0xc0 =? 0x80).
Definition IN6_IS_ADDR_SITELOCAL (a : in6_addr) : bool := (s6_addr a 0 =? 0xfe) && (Z.land (s6_addr a 1) 0xc0 =? 0xc0).
Definition IN6_IS_ADDR_MULTICAST (a : in6_addr) : bool := s6_addr a 0 =? 0xff.
Definition IPV6_ADDR_MC_SCOPE (a : in6_addr) : Z := Z.land (s6_addr a 1) 0x0f.

Definition IN6_IS_ADDR_MC_NODELOCAL (a : in6_addr) : bool :=
  IN6_IS_ADDR_MULTICAST a && (IPV6_ADDR_MC_SCOPE a =? IPV6_ADDR_SCOPE_NODELOCAL).
Definition IN6_IS_ADDR_MC_INTFACELOCAL (a : in6_addr) : bool :=
  IN6_IS_ADDR_MULTICAST a && (IPV6_ADDR_MC_SCOPE a =? IPV6_ADDR_SCOPE_INTFACELOCAL).
Definition IN6_IS_ADDR_MC_LINKLOCAL (a : in6_addr) : bool :=
  IN6_IS_ADDR_MULTICAST a && (IPV6_ADDR_MC_SCOPE a =? IPV6_ADDR_SCOPE_LINKLOCAL).
Definition IN6_IS_ADDR_MC_SITELOCAL (a : in6_addr) : bool :=
  IN6_IS_ADDR_MULTICAST a && (IPV6_ADDR_MC_SCOPE a =? IPV6_ADDR_SCOPE_SITELOCAL).
Definition IN6_IS_ADDR_MC_ORGLOCAL (a : in6_addr) : bool :=
  IN6_IS_ADDR_MULTICAST a && (IPV6_ADDR_MC_SCOPE a =? IPV6_ADDR_SCOPE_ORGLOCAL).
Definition IN6_IS_ADDR_MC_GLOBAL (a : in6_addr) : bool :=
  IN6_IS_ADDR_MULTICAST a && (IPV6_ADDR_MC_SCOPE a =? IPV6_ADDR_SCOPE_GLOBAL).
Definition IN6_IS_SCOPE_LINKLOCAL (a : in6_addr) : bool := IN6_IS_ADDR_LINKLOCAL a || IN6_IS_ADDR_MC_LINKLOCAL a.
Definition IN6_IS_SCOPE_EMBED (a : in6_addr) : bool :=
  IN6_IS_ADDR_LINKLOCAL a || IN6_IS_ADDR_MC_LINKLOCAL a || IN6_IS_ADDR_MC_INTFACELOCAL a.

(** ** Addresses as 128-bit numbers *)

Definition in6_ok (a : in6_addr) : Prop := length a = 16%nat ∧ Forall (λ b, 0 ≤ b < 256) a.

(** The number in network byte order. *)
Definition net_value (l : list Z) : Z := foldl (λ n b, n * 256 + b) 0 l.

(** An address is inside [prefix/len]. *)
Definition in_prefix (len p : Z) (a : in6_addr) : Prop := p * 2 ^ (128 - len) ≤ net_value a < (p + 1) * 2 ^ (128 - len).

Lemma in6_bytes a : in6_ok a → ∃ b0 b1 b2 b3 b4 b5 b6 b7 b8 b9 b10 b11 b12 b13 b14 b15,
  a = [b0; b1; b2; b3; b4; b5; b6; b7; b8; b9; b10; b11; b12; b13; b14; b15] ∧
  Forall (λ b, 0 ≤ b < 256) [b0; b1; b2; b3] ∧ Forall (λ b, 0 ≤ b < 256) [b4; b5; b6; b7] ∧
  Forall (λ b, 0 ≤ b < 256) [b8; b9; b10; b11] ∧ Forall (λ b, 0 ≤ b < 256) [b12; b13; b14; b15].
Proof.
  intros [Hl Hb]. do 16 (destruct a as [|? a]; [done|]). destruct a; [|done]. do 16 eexists. split; [reflexivity|].
  repeat match goal with H : Forall _ (_ :: _) |- _ => apply Forall_cons in H as [? H] end.
  repeat split; repeat constructor; assumption || lia.
Qed.

(** A 32-bit word, loaded, against its value in network order. *)
Definition be4 (b0 b1 b2 b3 : Z) : Z := 2 ^ 24 * b0 + 2 ^ 16 * b1 + 2 ^ 8 * b2 + b3.
Definition le4 (b0 b1 b2 b3 : Z) : Z := b0 + 2 ^ 8 * b1 + 2 ^ 16 * b2 + 2 ^ 24 * b3.

Lemma le4_be4 b0 b1 b2 b3 : Forall (λ b, 0 ≤ b < 256) [b0; b1; b2; b3] →
  0 ≤ be4 b0 b1 b2 b3 < 2 ^ 32 ∧ (le4 b0 b1 b2 b3 = 0 ↔ be4 b0 b1 b2 b3 = 0) ∧
  (le4 b0 b1 b2 b3 = ntohl true 1 ↔ be4 b0 b1 b2 b3 = 1) ∧ (le4 b0 b1 b2 b3 = ntohl true 0xffff ↔ be4 b0 b1 b2 b3 = 0xffff).
Proof.
  intros Hb. change (ntohl true 1) with 0x01000000. change (ntohl true 0xffff) with 0xffff0000. unfold be4, le4.
  repeat match goal with H : Forall _ (_ :: _) |- _ => apply Forall_cons in H as [? H] end. lia.
Qed.

Lemma net_words b0 b1 b2 b3 b4 b5 b6 b7 b8 b9 b10 b11 b12 b13 b14 b15 :
  net_value [b0; b1; b2; b3; b4; b5; b6; b7; b8; b9; b10; b11; b12; b13; b14; b15] =
    be4 b0 b1 b2 b3 * 2 ^ 96 + be4 b4 b5 b6 b7 * 2 ^ 64 + be4 b8 b9 b10 b11 * 2 ^ 32 + be4 b12 b13 b14 b15.
Proof. unfold net_value, be4. cbn [foldl]. lia. Qed.

(** The two high bits of the second byte. *)
Lemma high_bits b : 0 ≤ b < 256 → (Z.land b 0xc0 = 0x80 ↔ 0x80 ≤ b < 0xc0) ∧ (Z.land b 0xc0 = 0xc0 ↔ 0xc0 ≤ b).
Proof.
  intros Hb.
  assert (E : Z.land b 0xc0 = b / 64 * 64).
  { pose proof (mask_prefix 6 b ltac:(lia) ltac:(lia)) as M. change (2 ^ 6) with 64 in M. rewrite <- M.
    apply Z.bits_inj'. intros j Hj. rewrite !Z.land_spec. destruct (decide (j < 8)) as [Hj8|Hj8].
    - f_equal. assert (Hcase : j = 0 ∨ j = 1 ∨ j = 2 ∨ j = 3 ∨ j = 4 ∨ j = 5 ∨ j = 6 ∨ j = 7) by lia.
      by destruct Hcase as [-> | [-> | [-> | [-> | [-> | [-> | [-> | ->]]]]]]].
    - replace (Z.testbit b j) with false; [done|]. symmetry. rewrite <- (Z.mod_small b (2 ^ 8)) by lia. apply Z.mod_pow2_bits_high. lia. }
  rewrite E.
  pose proof (Z.div_mod b 64 ltac:(lia)). pose proof (Z.mod_pos_bound b 64 ltac:(lia)). lia.
Qed.

Lemma in6_word_tests a : in6_ok a →
  (IN6_IS_ADDR_UNSPECIFIED a = true ↔ net_value a = 0) ∧ (IN6_IS_ADDR_LOOPBACK a = true ↔ net_value a = 1) ∧
  (IN6_IS_ADDR_V4COMPAT a = true ↔ 2 ≤ net_value a < 2 ^ 32) ∧ (IN6_IS_ADDR_V4MAPPED a = true ↔ in_prefix 96 0xffff a).
Proof.
  intros Ha. destruct (in6_bytes a Ha) as (b0 & b1 & b2 & b3 & b4 & b5 & b6 & b7 & b8 & b9 & b10 & b11 & b12 & b13 & b14 & b15 & -> & H0 & H1 & H2 & H3).
  unfold IN6_IS_ADDR_UNSPECIFIED, IN6_IS_ADDR_LOOPBACK, IN6_IS_ADDR_V4COMPAT, IN6_IS_ADDR_V4MAPPED, in_prefix.
  rewrite net_words. unfold s6_word. cbn [s6_addr Nat.add lookup list_lookup default]. fold (le4 b0 b1 b2 b3) (le4 b4 b5 b6 b7) (le4 b8 b9 b10 b11) (le4 b12 b13 b14 b15).
  destruct (le4_be4 _ _ _ _ H0) as (R0 & Z0 & _), (le4_be4 _ _ _ _ H1) as (R1 & Z1 & _), (le4_be4 _ _ _ _ H2) as (R2 & Z2 & _ & F2),
    (le4_be4 _ _ _ _ H3) as (R3 & Z3 & O3 & _).
  rewrite !andb_true_iff, !negb_true_iff, !Z.eqb_neq, !Z.eqb_eq, Z0, Z1, Z2, Z3, O3, F2. change (2 ^ (128 - 96)) with (2 ^ 32).
  generalize dependent (be4 b0 b1 b2 b3). generalize dependent (be4 b4 b5 b6 b7). generalize dependent (be4 b8 b9 b10 b11).
  generalize dependent (be4 b12 b13 b14 b15). clear. intros w3 R3 _ _ w2 R2 _ _ w1 R1 _ w0 R0 _. lia.
Qed.

Lemma in6_byte_tests a : in6_ok a →
  (IN6_IS_ADDR_LINKLOCAL a = true ↔ in_prefix 10 0x3fa a) ∧ (IN6_IS_ADDR_SITELOCAL a = true ↔ in_prefix 10 0x3fb a) ∧
  (IN6_IS_ADDR_MULTICAST a = true ↔ in_prefix 8 0xff a).
Proof.
  intros Ha. destruct (in6_bytes a Ha) as (b0 & b1 & b2 & b3 & b4 & b5 & b6 & b7 & b8 & b9 & b10 & b11 & b12 & b13 & b14 & b15 & -> & H0 & H1 & H2 & H3).
  unfold IN6_IS_ADDR_LINKLOCAL, IN6_IS_ADDR_SITELOCAL, IN6_IS_ADDR_MULTICAST, in_prefix, s6_addr.
  rewrite net_words. cbn [lookup list_lookup default].
  destruct (le4_be4 _ _ _ _ H1) as (R1 & _), (le4_be4 _ _ _ _ H2) as (R2 & _), (le4_be4 _ _ _ _ H3) as (R3 & _).
  repeat match goal with H : Forall _ (_ :: _) |- _ => apply Forall_cons in H as [? H] end.
  destruct (high_bits b1) as [E1 E2]; [done|].
  rewrite !andb_true_iff, !Z.eqb_eq, E1, E2.
  assert (∃ r, be4 b0 b1 b2 b3 = 2 ^ 24 * b0 + 2 ^ 16 * b1 + r ∧ 0 ≤ r < 2 ^ 16) as (r & E0 & Hr)
    by (exists (2 ^ 8 * b2 + b3); unfold be4; lia).
  rewrite E0. generalize dependent (be4 b4 b5 b6 b7). generalize dependent (be4 b8 b9 b10 b11). generalize dependent (be4 b12 b13 b14 b15).
  intros w3 R3 w2 R2 w1 R1. clear E1 E2 E0 Ha. change (128 - 10) with 118. change (128 - 8) with 120.
  unfold id. split; [|split]; lia.
Qed.

(** The tests on IPv6 addresses, which look at single bytes and at words in
    machine order, are the prefixes of the addressing architecture in network
    order: the unspecified address is ::, loopback ::1, IPv4-compatible the
    rest of ::/96, mapped ::ffff:0:0/96, link-local fe80::/10, site-local
    fec0::/10 and multicast ff00::/8; no two of them hold for one address, and
    those with an embedded zone are the link-local ones, unicast or multicast,
    and the interface-local multicast ones. *)
Theorem in6_kinds a :
  in6_ok a →
  (IN6_IS_ADDR_UNSPECIFIED a = true ↔ net_value a = 0) ∧ (IN6_IS_ADDR_LOOPBACK a = true ↔ net_value a = 1) ∧
  (IN6_IS_ADDR_V4COMPAT a = true ↔ 2 ≤ net_value a < 2 ^ 32) ∧ (IN6_IS_ADDR_V4MAPPED a = true ↔ in_prefix 96 0xffff a) ∧
  (IN6_IS_ADDR_LINKLOCAL a = true ↔ in_prefix 10 0x3fa a) ∧ (IN6_IS_ADDR_SITELOCAL a = true ↔ in_prefix 10 0x3fb a) ∧
  (IN6_IS_ADDR_MULTICAST a = true ↔ in_prefix 8 0xff a) ∧
  (length (filter (λ b : bool, b = true) [IN6_IS_ADDR_UNSPECIFIED a; IN6_IS_ADDR_LOOPBACK a; IN6_IS_ADDR_V4COMPAT a;
     IN6_IS_ADDR_V4MAPPED a; IN6_IS_ADDR_LINKLOCAL a; IN6_IS_ADDR_SITELOCAL a; IN6_IS_ADDR_MULTICAST a]) ≤ 1)%nat ∧
  (IN6_IS_SCOPE_EMBED a = true ↔ in_prefix 10 0x3fa a ∨ (in_prefix 8 0xff a ∧ (IPV6_ADDR_MC_SCOPE a = 1 ∨ IPV6_ADDR_MC_SCOPE a = 2))).
Proof.
  intros Ha. destruct (in6_word_tests a Ha) as (U & L & C & M), (in6_byte_tests a Ha) as (LL & SL & MC).
  do 7 (split; [done|]). split.
  - unfold in_prefix in *. change (128 - 96) with 32 in *. change (128 - 10) with 118 in *. change (128 - 8) with 120 in *.
    destruct (IN6_IS_ADDR_UNSPECIFIED a), (IN6_IS_ADDR_LOOPBACK a), (IN6_IS_ADDR_V4COMPAT a), (IN6_IS_ADDR_V4MAPPED a),
      (IN6_IS_ADDR_LINKLOCAL a), (IN6_IS_ADDR_SITELOCAL a), (IN6_IS_ADDR_MULTICAST a); simpl; lia.
  - unfold IN6_IS_SCOPE_EMBED, IN6_IS_ADDR_MC_LINKLOCAL, IN6_IS_ADDR_MC_INTFACELOCAL.
    rewrite !orb_true_iff, !andb_true_iff, !Z.eqb_eq, LL, MC. unfold IPV6_ADDR_SCOPE_LINKLOCAL, IPV6_ADDR_SCOPE_INTFACELOCAL. tauto.
Qed.

(** fe80::1 *)
Definition sample_linklocal : in6_addr := [0xfe; 0x80; 0; 0; 0; 0; 0; 0; 0; 0; 0; 0; 0; 0; 0; 1].
Lemma in6_kinds_witness : IN6_IS_ADDR_LINKLOCAL sample_linklocal = true ↔ in_prefix 10 0x3fa sample_linklocal.
Proof. apply in6_kinds. split; [reflexivity|]. repeat constructor; lia. Defined.

(** Two addresses are equal for the macro exactly if their numbers are. *)
Lemma net_value_inj l1 l2 acc1 acc2 : length l1 = length l2 → Forall (λ b, 0 ≤ b < 256) l1 → Forall (λ b, 0 ≤ b < 256) l2 →
  foldl (λ n b, n * 256 + b) acc1 l1 = foldl (λ n b, n * 256 + b) acc2 l2 → acc1 = acc2 ∧ l1 = l2.
Proof.
  revert l2 acc1 acc2. induction l1 as [|x l1 IH]; intros [|y l2] acc1 acc2 Hl H1 H2 E; simpl in *; [done|done|done|].
  apply Forall_cons in H1 as [? H1], H2 as [? H2]. destruct (IH l2 _ _ ltac:(lia) H1 H2 E) as [E' ->].
  assert (acc1 = acc2 ∧ x = y) as [-> ->] by lia. done.
Qed.

Lemma in6_equal_ok a b : in6_ok a → in6_ok b → IN6_ARE_ADDR_EQUAL a b = bool_decide (net_value a = net_value b).
Proof.
  intros [La Ha] [Lb Hb]. unfold IN6_ARE_ADDR_EQUAL. rewrite !take_ge by lia. apply bool_decide_ext. split; [by intros ->|].
  intros E. by apply (net_value_inj a b 0 0) in E as [_ ->]; [|congruence|..].
Qed.
