(* ===== verification/Bits.v ===== *)
(** * Counting and finding bits

    bitcount32 and bitcount16 of include/sys/systm.h, which add up the bits of
    a word in parallel, and ffsl, fls and flsl of include/machine/cpufunc.h on
    top of the bit scan instructions. *)

From S2P Require Import Prelude.

(** ** The code *)

Definition bitcount32 (x : Z) : Z :=
  let x := u32 (Z.land x 0x55555555 + Z.shiftr (Z.land x 0xaaaaaaaa) 1) in
  let x := u32 (Z.land x 0x33333333 + Z.shiftr (Z.land x 0xcccccccc) 2) in
  let x := Z.land (u32 (x + Z.shiftr x 4)) 0x0f0f0f0f in
  let x := u32 (x + Z.shiftr x 8) in
  let x := Z.land (u32 (x + Z.shiftr x 16)) 0x000000ff in
  x.

(** The result is converted to uint16_t. *)
Definition bitcount16 (x : Z) : Z :=
  let x := u32 (Z.land x 0x5555 + Z.shiftr (Z.land x 0xaaaa) 1) in
  let x := u32 (Z.land x 0x3333 + Z.shiftr (Z.land x 0xcccc) 2) in
  let x := Z.land (u32 (x + Z.shiftr x 4)) 0x0f0f in
  let x := Z.land (u32 (x + Z.shiftr x 8)) 0x00ff in
  u16 x.

(** The scans for the lowest and the highest set bit; for 0 the result is
    undefined. *)
Definition bsfq (mask : Z) : option Z := first_in 0 64 (Z.testbit mask).
Definition bsrl (mask : Z) : option Z := (λ i, 31 - i) <$> first_in 0 32 (λ i, Z.testbit mask (31 - i)).
Definition bsrq (mask : Z) : option Z := (λ i, 63 - i) <$> first_in 0 64 (λ i, Z.testbit mask (63 - i)).

Definition ffsl (mask : Z) : option Z := if mask =? 0 then Some mask else r ← bsfq (u64 mask); Some (i32 r + 1).
Definition fls (mask : Z) : option Z := if mask =? 0 then Some mask else r ← bsrl (u32 mask); Some (i32 r + 1).
Definition flsl (mask : Z) : option Z := if mask =? 0 then Some mask else r ← bsrq (u64 mask); Some (i32 r + 1).

(** ** Numbers as lists of digits *)

(** Digits of [w] bits, lowest first. *)
Fixpoint digits (w : Z) (l : list Z) : Z := match l with [] => 0 | d :: l => 2 ^ w * digits w l + d end.

Definition small (w : Z) (d : Z) : Prop := 0 ≤ d < 2 ^ w.

Lemma digits_range w l : 0 ≤ w → Forall (small w) l → 0 ≤ digits w l < 2 ^ (w * Z.of_nat (length l)).
Proof.
  intros Hw. induction 1 as [|d l [Hd1 Hd2] _ IH]; cbn [digits length]; [by rewrite Z.mul_0_r|].
  assert (0 < 2 ^ w) by (apply Z.pow_pos_nonneg; lia).
  replace (w * Z.of_nat (S (length l))) with (w + w * Z.of_nat (length l)) by lia. rewrite Z.pow_add_r by lia. nia.
Qed.

Lemma digits_land w l m : 0 ≤ w → length l = length m → Forall (small w) l → Forall (small w) m →
  Z.land (digits w l) (digits w m) = digits w (zip_with Z.land l m).
Proof.
  intros Hw Hlen Hl. revert m Hlen. induction Hl as [|d l Hd Hl IH]; intros [|e m] Hlen Hm; try done.
  apply Forall_cons in Hm as [He Hm]. cbn [digits zip_with]. rewrite land_split by done. by rewrite IH by (done || simpl in Hlen; lia).
Qed.

Lemma digits_add w l m : length l = length m → digits w l + digits w m = digits w (zip_with Z.add l m).
Proof. revert m. induction l as [|d l IH]; intros [|e m] Hl; try done. cbn [digits zip_with]. rewrite <- IH by (simpl in Hl; lia). lia. Qed.

Lemma digits_scale w c l : digits w (Z.mul c <$> l) = c * digits w l.
Proof. induction l as [|d l IH]; cbn [digits fmap list_fmap]; [lia|]. rewrite IH. lia. Qed.

(** Two digits make one of twice the width. *)
Definition join (w : Z) (p : Z * Z) : Z := 2 ^ w * p.2 + p.1.
Fixpoint pair_up (l : list Z) : list (Z * Z) := match l with d :: e :: l => (d, e) :: pair_up l | _ => [] end.
Fixpoint flat (ps : list (Z * Z)) : list Z := match ps with [] => [] | p :: ps => p.1 :: p.2 :: flat ps end.

Lemma digits_join w ps : 0 ≤ w → digits w (flat ps) = digits (2 * w) (join w <$> ps).
Proof.
  intros Hw. induction ps as [|[d e] ps IH]; [done|]. cbn [flat digits fmap list_fmap join fst snd]. rewrite <- IH.
  replace (2 * w) with (w + w) by lia. rewrite Z.pow_add_r by lia. unfold join. simpl. lia.
Qed.

Lemma join_small w p : 0 ≤ w → small w p.1 → small w p.2 → small (2 * w) (join w p).
Proof.
  intros Hw [? ?] [? ?]. unfold small, join. replace (2 * w) with (w + w) by lia. rewrite Z.pow_add_r by lia. nia.
Qed.

Section Masks.
Context (w : Z) (ps : list (Z * Z)).
Hypothesis Hw : 0 < w.
Hypothesis Hps : Forall (λ p, small w p.1 ∧ small w p.2) ps.

Lemma masked v : small (2 * w) v →
  Z.land (digits w (flat ps)) (digits (2 * w) (replicate (length ps) v)) = digits (2 * w) ((λ p, Z.land (join w p) v) <$> ps).
Proof.
  intros Hv. rewrite digits_join, digits_land; [|lia|by rewrite length_fmap, length_replicate| |by apply Forall_replicate|lia].
  - f_equal. clear Hps. induction ps as [|p l IH]; [done|]. cbn. f_equal. exact IH.
  - apply Forall_fmap. eapply Forall_impl; [exact Hps|]. intros p [? ?]. apply join_small; [lia|done|done].
Qed.

Lemma pow_split : 1 < 2 ^ w ∧ 2 ^ (2 * w) = 2 ^ w * 2 ^ w.
Proof. split; [apply Z.pow_gt_1; lia|]. rewrite <- Z.pow_add_r by lia. f_equal. lia. Qed.

(** The mask for the even digits, and the one for the odd digits. *)
Lemma even_digits :
  Z.land (digits w (flat ps)) (digits (2 * w) (replicate (length ps) (2 ^ w - 1))) = digits (2 * w) (fst <$> ps).
Proof.
  destruct pow_split as [H1 H2]. rewrite masked by (unfold small; nia). f_equal. apply list_fmap_ext. intros i [d e] Hi.
  apply (Forall_lookup_1 _ _ _ _ Hps) in Hi as [Hd _]. unfold join. simpl in *.
  replace (2 ^ w - 1) with (Z.ones w) by (rewrite Z.ones_equiv; lia). rewrite Z.land_ones by lia.
  rewrite Z.add_comm, Z.mul_comm, Z.mod_add by lia. by apply Z.mod_small.
Qed.

Lemma odd_digits :
  Z.shiftr (Z.land (digits w (flat ps)) (digits (2 * w) (replicate (length ps) (2 ^ w * (2 ^ w - 1))))) w = digits (2 * w) (snd <$> ps).
Proof.
  destruct pow_split as [H1 H2]. rewrite masked by (unfold small; nia).
  replace ((λ p, Z.land (join w p) (2 ^ w * (2 ^ w - 1))) <$> ps) with (Z.mul (2 ^ w) <$> (snd <$> ps)).
  - rewrite digits_scale, Z.shiftr_div_pow2 by lia. rewrite Z.mul_comm. apply Z.div_mul. lia.
  - rewrite <- list_fmap_compose. apply list_fmap_ext. intros i [d e] Hi.
    apply (Forall_lookup_1 _ _ _ _ Hps) in Hi as [Hd He]. unfold join. simpl in *.
    rewrite <- (Z.add_0_r (2 ^ w * (2 ^ w - 1))). rewrite land_split by (done || lia). rewrite Z.land_0_r, Z.add_0_r. f_equal.
    replace (2 ^ w - 1) with (Z.ones w) by (rewrite Z.ones_equiv; lia). rewrite Z.land_ones by lia. symmetry. by apply Z.mod_small.
Qed.

(** One step of a parallel sum: the even digits plus the odd ones, moved down. *)
Lemma parallel_step :
  Z.land (digits w (flat ps)) (digits (2 * w) (replicate (length ps) (2 ^ w - 1))) +
  Z.shiftr (Z.land (digits w (flat ps)) (digits (2 * w) (replicate (length ps) (2 ^ w * (2 ^ w - 1))))) w =
  digits (2 * w) ((λ p, p.1 + p.2) <$> ps).
Proof.
  rewrite even_digits, odd_digits, digits_add by (by rewrite !length_fmap). f_equal. clear Hps.
  induction ps as [|p l IH]; [done|]. cbn. f_equal. exact IH.
Qed.
End Masks.

(** Pairs of digits, and their sums. *)
Definition pair_sums (l : list Z) : list Z := (λ p, p.1 + p.2) <$> pair_up l.

Lemma pair_up_step {P : list Z → Prop} : P [] → (∀ d e l, P l → P (d :: e :: l)) → ∀ n l, length l = (2 * n)%nat → P l.
Proof.
  intros H0 H2. induction n as [|n IH]; intros [|d [|e l]] Hl; simpl in Hl; try lia; [done|]. apply H2, IH. lia.
Qed.

Lemma flat_pair_up n l : length l = (2 * n)%nat → flat (pair_up l) = l ∧ length (pair_up l) = n.
Proof.
  intros Hl. split.
  - revert n l Hl. apply pair_up_step; [done|]. intros d e l IH. simpl. by rewrite IH.
  - revert l Hl. induction n as [|n IH]; intros [|d [|e l]] Hl; simpl in *; try lia. by rewrite IH by lia.
Qed.

Lemma sums_bound ps k : Forall (λ d, 0 ≤ d ≤ k) (flat ps) →
  Forall (λ d, 0 ≤ d ≤ 2 * k) ((λ p, p.1 + p.2) <$> ps) ∧ foldr Z.add 0 ((λ p, p.1 + p.2) <$> ps) = foldr Z.add 0 (flat ps).
Proof.
  induction ps as [|[d e] ps IH]; intros Hb; [split; [apply Forall_nil_2|done]|]. cbn [flat] in Hb.
  apply Forall_cons in Hb as [Hd [He Hb]%Forall_cons]. destruct (IH Hb) as (H1 & H2). split; [constructor; [cbn in *; lia|done]|].
  rewrite fmap_cons. cbn [foldr flat fst snd]. rewrite H2. lia.
Qed.

Lemma pair_sums_bound n l k : length l = (2 * n)%nat → Forall (λ d, 0 ≤ d ≤ k) l →
  Forall (λ d, 0 ≤ d ≤ 2 * k) (pair_sums l) ∧ length (pair_sums l) = n ∧ foldr Z.add 0 (pair_sums l) = foldr Z.add 0 l.
Proof.
  intros Hl Hb. destruct (flat_pair_up n l Hl) as [Ef En]. unfold pair_sums. rewrite length_fmap, En.
  destruct (sums_bound (pair_up l) k) as [H1 H2]; rewrite Ef in *; done.
Qed.

Lemma pairs_small w l : Forall (small w) (flat l) → Forall (λ p, small w p.1 ∧ small w p.2) l.
Proof.
  induction l as [|[d e] l IH]; intros H; [constructor|]. cbn [flat] in H. apply Forall_cons in H as [? [? ?]%Forall_cons].
  constructor; [done|auto].
Qed.

Lemma sum_step w n k l : 0 < w → length l = (2 * n)%nat → Forall (λ d, 0 ≤ d ≤ k) l → k < 2 ^ w →
  Z.land (digits w l) (digits (2 * w) (replicate n (2 ^ w - 1))) +
  Z.shiftr (Z.land (digits w l) (digits (2 * w) (replicate n (2 ^ w * (2 ^ w - 1))))) w = digits (2 * w) (pair_sums l).
Proof.
  intros Hw Hl Hb Hk. destruct (flat_pair_up n l Hl) as [Ef En].
  pose proof (parallel_step w (pair_up l) Hw) as P. rewrite Ef, En in P. apply P, pairs_small. rewrite Ef.
  eapply Forall_impl; [exact Hb|]. unfold small. lia.
Qed.

(** The bits of a number as its digits. *)
Fixpoint bits_of (n : nat) (x : Z) : list Z := match n with O => [] | S n => Z.b2z (Z.odd x) :: bits_of n (x / 2) end.

Lemma bits_of_digits n x : digits 1 (bits_of n x) = x mod 2 ^ Z.of_nat n.
Proof.
  revert x. induction n as [|n IH]; intros x; [by rewrite Z.mod_1_r|]. cbn [bits_of digits]. rewrite IH.
  replace (2 ^ Z.of_nat (S n)) with (2 * 2 ^ Z.of_nat n) by (rewrite Nat2Z.inj_succ, Z.pow_succ_r; lia).
  rewrite Z.rem_mul_r by (pose proof (Z.pow_pos_nonneg 2 (Z.of_nat n)); lia). rewrite Zmod_odd. change (2 ^ 1) with 2.
  destruct (Z.odd x); simpl; lia.
Qed.

Lemma bits_of_small n x : Forall (small 1) (bits_of n x).
Proof. revert x. induction n as [|n IH]; intros x; constructor; [|apply IH]. unfold small. destruct (Z.odd x); simpl; lia. Qed.

Lemma length_bits_of n x : length (bits_of n x) = n.
Proof. revert x. induction n as [|n IH]; intros x; [done|]. simpl. by rewrite IH. Qed.

(** The number of bits set among the lowest [n]. *)
Definition popcount (n : nat) (x : Z) : Z :=
  Z.of_nat (length (filter (λ i, Z.testbit x i = true) (seqZ 0 (Z.of_nat n)))).

Lemma popcount_bits n x : popcount n x = foldr Z.add 0 (bits_of n x).
Proof.
  unfold popcount, seqZ. rewrite Nat2Z.id. revert x. induction n as [|n IH]; intros x; [done|].
  cbn [bits_of foldr]. rewrite <- IH. cbn [seq fmap list_fmap]. rewrite <- fmap_S_seq, <- list_fmap_compose.
  assert (E : ∀ l : list nat, length (filter (λ i, Z.testbit x i = true) ((λ i, Z.of_nat i + 0) ∘ S <$> l)) =
    length (filter (λ i, Z.testbit (x / 2) i = true) ((λ i, Z.of_nat i + 0) <$> l))).
  { induction l as [|k l IHl]; [done|]. cbn [fmap list_fmap compose].
    assert (Hb : Z.testbit x (Z.of_nat (S k) + 0) = Z.testbit (x / 2) (Z.of_nat k + 0)).
    { rewrite Z.div2_bits by lia. f_equal. lia. }
    destruct (Z.testbit (x / 2) (Z.of_nat k + 0)) eqn:Et.
    - rewrite !filter_cons_True by done. simpl. by rewrite <- IHl.
    - rewrite !filter_cons_False by congruence. exact IHl. }
  destruct (Z.odd x) eqn:Eo.
  - rewrite filter_cons_True by (by rewrite Z.bit0_odd). cbn [length]. rewrite E. simpl. lia.
  - rewrite filter_cons_False by (rewrite Z.bit0_odd; congruence). rewrite E. simpl. lia.
Qed.

(** Eight and four digits, each counting at most 4 and 8. *)
Lemma digits8_fold d0 d1 d2 d3 : Forall (λ d, 0 ≤ d ≤ 8) [d0; d1; d2; d3] →
  let x := digits 8 [d0; d1; d2; d3] in
  let y := u32 (x + Z.shiftr x 8) in Z.land (u32 (y + Z.shiftr y 16)) 0xff = d0 + d1 + d2 + d3.
Proof.
  intros Hd x y. repeat match goal with H : Forall _ (_ :: _) |- _ => apply Forall_cons in H as [? H] end.
  assert (Ey : y = digits 8 [d0 + d1; d1 + d2; d2 + d3; d3]).
  { unfold y. rewrite Z.shiftr_div_pow2 by lia. replace (x / 2 ^ 8) with (digits 8 [d1; d2; d3]).
    - unfold x, digits. rewrite u32_small by lia. lia.
    - apply (Z.div_unique _ _ _ d0); unfold x, digits; lia. }
  rewrite Ey, Z.shiftr_div_pow2 by lia. replace (digits 8 [d0 + d1; d1 + d2; d2 + d3; d3] / 2 ^ 16) with (digits 8 [d2 + d3; d3]).
  - rewrite u32_small by (unfold digits; lia). change 0xff with (Z.ones 8). rewrite Z.land_ones by lia.
    symmetry. apply (Z.mod_unique _ _ (digits 8 [d1 + d2 + d3; d2 + d3; d3])); unfold digits; lia.
  - apply (Z.div_unique _ _ _ (digits 8 [d0 + d1; d1 + d2])); unfold digits; lia.
Qed.

(** The third step: neighbouring digits are added in place, and every other
    sum is kept. *)
Lemma nibble_step d0 d1 d2 d3 d4 d5 d6 d7 : Forall (λ d, 0 ≤ d ≤ 4) [d0; d1; d2; d3; d4; d5; d6; d7] →
  let x := digits 4 [d0; d1; d2; d3; d4; d5; d6; d7] in
  Z.land (u32 (x + Z.shiftr x 4)) 0x0f0f0f0f = digits 8 [d0 + d1; d2 + d3; d4 + d5; d6 + d7].
Proof.
  intros Hd x. repeat match goal with H : Forall _ (_ :: _) |- _ => apply Forall_cons in H as [? H] end.
  assert (E : u32 (x + Z.shiftr x 4) = digits 4 (flat [(d0 + d1, d1 + d2); (d2 + d3, d3 + d4); (d4 + d5, d5 + d6); (d6 + d7, d7)])).
  { rewrite Z.shiftr_div_pow2 by lia. replace (x / 2 ^ 4) with (digits 4 [d1; d2; d3; d4; d5; d6; d7]).
    - unfold x, flat, digits. cbn [fst snd]. rewrite u32_small by lia. lia.
    - apply (Z.div_unique _ _ _ d0); unfold x, digits; lia. }
  rewrite E. change 0x0f0f0f0f with (digits (2 * 4) (replicate 4 (2 ^ 4 - 1))).
  apply (even_digits 4 [(d0 + d1, d1 + d2); (d2 + d3, d3 + d4); (d4 + d5, d5 + d6); (d6 + d7, d7)]); [lia|].
  repeat constructor; unfold small; simpl; lia.
Qed.

Lemma u32_digits w l : 0 ≤ w → Forall (small w) l → w * Z.of_nat (length l) ≤ 32 → u32 (digits w l) = digits w l.
Proof.
  intros Hw Hl Hn. apply u32_small. pose proof (digits_range w l Hw Hl) as Hr.
  pose proof (Z.pow_le_mono_r 2 (w * Z.of_nat (length l)) 32). lia.
Qed.

Lemma bounded_small w k l : k < 2 ^ w → Forall (λ d, 0 ≤ d ≤ k) l → Forall (small w) l.
Proof. intros Hk Hl. eapply Forall_impl; [exact Hl|]. unfold small. lia. Qed.

Lemma bits_bounded n x : Forall (λ d, 0 ≤ d ≤ 1) (bits_of n x).
Proof. eapply Forall_impl; [apply bits_of_small|]. unfold small. lia. Qed.

(** bitcount32 counts the bits of a 32-bit word. *)
Lemma bitcount32_ok x : 0 ≤ x < 2 ^ 32 → bitcount32 x = popcount 32 x.
Proof.
  intros Hx. rewrite popcount_bits. assert (Ex : x = digits 1 (bits_of 32 x)) by (rewrite bits_of_digits; symmetry; by apply Z.mod_small).
  pose proof (length_bits_of 32 x) as Lb. pose proof (bits_bounded 32 x) as Bb. set (bs := bits_of 32 x) in *. clearbody bs.
  destruct (pair_sums_bound 16 bs 1 Lb Bb) as (B1 & L1 & S1). destruct (pair_sums_bound 8 (pair_sums bs) 2 L1 B1) as (B2 & L2 & S2).
  rewrite <- S1, <- S2. unfold bitcount32. rewrite Ex.
  pose proof (sum_step 1 16 1 bs ltac:(lia) Lb Bb ltac:(lia)) as E1.
  change (digits (2 * 1) (replicate 16 (2 ^ 1 - 1))) with 0x55555555 in E1.
  change (digits (2 * 1) (replicate 16 (2 ^ 1 * (2 ^ 1 - 1)))) with 0xaaaaaaaa in E1.
  rewrite E1. rewrite (u32_digits (2 * 1)); [|lia|apply (bounded_small _ 2); [lia|done]|rewrite L1; lia].
  pose proof (sum_step 2 8 2 (pair_sums bs) ltac:(lia) L1 B1 ltac:(lia)) as E2.
  change (digits (2 * 2) (replicate 8 (2 ^ 2 - 1))) with 0x33333333 in E2.
  change (digits (2 * 2) (replicate 8 (2 ^ 2 * (2 ^ 2 - 1)))) with 0xcccccccc in E2. change (2 * 1) with 2 in *.
  rewrite E2. rewrite (u32_digits (2 * 2)); [|lia|apply (bounded_small _ 4); [lia|done]|rewrite L2; lia]. change (2 * 2) with 4 in *.
  destruct (pair_sums (pair_sums bs)) as [|d0 [|d1 [|d2 [|d3 [|d4 [|d5 [|d6 [|d7 [|]]]]]]]]]; try done.
  rewrite nibble_step by done. repeat match goal with H : Forall _ (_ :: _) |- _ => apply Forall_cons in H as [? H] end.
  rewrite digits8_fold by (repeat constructor; lia). simpl. lia.
Qed.

(** A mask of 16 bits looks at the low half only. *)
Lemma land_u16 x k : 0 ≤ k < 2 ^ 16 → Z.land x k = Z.land (u16 x) k.
Proof.
  intros Hk. assert (Ek : k = Z.land (Z.ones 16) k) by (rewrite Z.land_comm, Z.land_ones by lia; symmetry; by apply Z.mod_small).
  rewrite Ek at 1. by rewrite Z.land_assoc, Z.land_ones by lia.
Qed.

(** The last two steps of the 16-bit count. *)
Lemma nibbles4_fold d0 d1 d2 d3 : Forall (λ d, 0 ≤ d ≤ 4) [d0; d1; d2; d3] →
  let x := digits 4 [d0; d1; d2; d3] in
  let y := Z.land (u32 (x + Z.shiftr x 4)) 0x0f0f in u16 (Z.land (u32 (y + Z.shiftr y 8)) 0x00ff) = d0 + d1 + d2 + d3.
Proof.
  intros Hd x y. repeat match goal with H : Forall _ (_ :: _) |- _ => apply Forall_cons in H as [? H] end.
  assert (Ey : y = digits 8 [d0 + d1; d2 + d3]).
  { assert (E : u32 (x + Z.shiftr x 4) = digits 4 (flat [(d0 + d1, d1 + d2); (d2 + d3, d3)])).
    { rewrite Z.shiftr_div_pow2 by lia. replace (x / 2 ^ 4) with (digits 4 [d1; d2; d3]).
      - unfold x, flat, digits. cbn [fst snd]. rewrite u32_small by lia. lia.
      - apply (Z.div_unique _ _ _ d0); unfold x, digits; lia. }
    unfold y. rewrite E. change 0x0f0f with (digits (2 * 4) (replicate 2 (2 ^ 4 - 1))).
    apply (even_digits 4 [(d0 + d1, d1 + d2); (d2 + d3, d3)]); [lia|]. repeat constructor; unfold small; simpl; lia. }
  rewrite Ey, Z.shiftr_div_pow2 by lia. replace (digits 8 [d0 + d1; d2 + d3] / 2 ^ 8) with (d2 + d3).
  - rewrite u32_small by (unfold digits; lia). change 0x00ff with (Z.ones 8). rewrite Z.land_ones by lia.
    replace ((digits 8 [d0 + d1; d2 + d3] + (d2 + d3)) mod 2 ^ 8) with (d0 + d1 + d2 + d3); [apply u16_small; lia|].
    apply (Z.mod_unique _ _ (d2 + d3)); unfold digits; lia.
  - apply (Z.div_unique _ _ _ (d0 + d1)); unfold digits; lia.
Qed.

(** bitcount16 counts the low 16 bits of its argument. *)
Lemma bitcount16_ok x : bitcount16 x = popcount 16 x.
Proof.
  rewrite popcount_bits. unfold bitcount16. rewrite (land_u16 x 0x5555), (land_u16 x 0xaaaa) by lia.
  assert (Ex : u16 x = digits 1 (bits_of 16 x)) by (by rewrite bits_of_digits). rewrite Ex.
  pose proof (length_bits_of 16 x) as Lb. pose proof (bits_bounded 16 x) as Bb. set (bs := bits_of 16 x) in *. clearbody bs. clear Ex.
  destruct (pair_sums_bound 8 bs 1 Lb Bb) as (B1 & L1 & S1). destruct (pair_sums_bound 4 (pair_sums bs) 2 L1 B1) as (B2 & L2 & S2).
  rewrite <- S1, <- S2.
  pose proof (sum_step 1 8 1 bs ltac:(lia) Lb Bb ltac:(lia)) as E1.
  change (digits (2 * 1) (replicate 8 (2 ^ 1 - 1))) with 0x5555 in E1.
  change (digits (2 * 1) (replicate 8 (2 ^ 1 * (2 ^ 1 - 1)))) with 0xaaaa in E1.
  rewrite E1. rewrite (u32_digits (2 * 1)); [|lia|apply (bounded_small _ 2); [lia|done]|rewrite L1; lia].
  pose proof (sum_step 2 4 2 (pair_sums bs) ltac:(lia) L1 B1 ltac:(lia)) as E2.
  change (digits (2 * 2) (replicate 4 (2 ^ 2 - 1))) with 0x3333 in E2.
  change (digits (2 * 2) (replicate 4 (2 ^ 2 * (2 ^ 2 - 1)))) with 0xcccc in E2. change (2 * 1) with 2 in *.
  rewrite E2. rewrite (u32_digits (2 * 2)); [|lia|apply (bounded_small _ 4); [lia|done]|rewrite L2; lia]. change (2 * 2) with 4 in *.
  destruct (pair_sums (pair_sums bs)) as [|d0 [|d1 [|d2 [|d3 [|]]]]]; try done. rewrite nibbles4_fold by done. simpl. lia.
Qed.

(** ** Finding bits *)

Section Scan.
Context (w : Z).
Hypothesis Hw : 0 < w.

(** A nonzero number of [w] bits has a bit set. *)
Lemma some_bit mask : - 2 ^ (w - 1) ≤ mask < 2 ^ (w - 1) → mask ≠ 0 → ¬ ∀ k, 0 ≤ k < w → Z.testbit mask k = false.
Proof.
  intros Hm Hn Hall. assert (E0 : mask mod 2 ^ w = 0).
  { apply Z.bits_inj'. intros k Hk. rewrite Z.bits_0. destruct (Z.lt_ge_cases k w).
    - rewrite Z.mod_pow2_bits_low by lia. by apply Hall.
    - apply Z.mod_pow2_bits_high. lia. }
  assert (Hp : 2 ^ w = 2 * 2 ^ (w - 1)) by (rewrite <- Z.pow_succ_r by lia; f_equal; lia).
  assert (0 < 2 ^ (w - 1)) by (apply Z.pow_pos_nonneg; lia).
  apply Z.mod_divide in E0 as [q Hq]; [|lia]. assert (q = 0) by nia. nia.
Qed.

Lemma kept_bits mask k : k < w → Z.testbit (mask mod 2 ^ w) k = Z.testbit mask k.
Proof. intros Hk. by apply Z.mod_pow2_bits_low. Qed.

Lemma scan_up mask : - 2 ^ (w - 1) ≤ mask < 2 ^ (w - 1) → mask ≠ 0 → ∃ i, first_in 0 w (Z.testbit (mask mod 2 ^ w)) = Some i ∧
  0 ≤ i < w ∧ Z.testbit mask i = true ∧ ∀ k, 0 ≤ k < i → Z.testbit mask k = false.
Proof.
  intros Hm Hn. pose proof (first_in_spec 0 w (Z.testbit (mask mod 2 ^ w))) as H. destruct (first_in _ _ _) as [i|].
  - destruct H as (Hi & Ht & Hb). exists i. rewrite kept_bits in Ht by lia. split_and!; [done|lia..|done|].
    intros k Hk. rewrite <- kept_bits by lia. by apply Hb.
  - destruct (some_bit mask Hm Hn). intros k Hk. rewrite <- kept_bits by lia. by apply H.
Qed.

Lemma scan_down mask : - 2 ^ (w - 1) ≤ mask < 2 ^ (w - 1) → mask ≠ 0 →
  ∃ i, first_in 0 w (λ i, Z.testbit (mask mod 2 ^ w) (w - 1 - i)) = Some (w - 1 - i) ∧
  0 ≤ i < w ∧ Z.testbit mask i = true ∧ ∀ k, i < k < w → Z.testbit mask k = false.
Proof.
  intros Hm Hn. pose proof (first_in_spec 0 w (λ i, Z.testbit (mask mod 2 ^ w) (w - 1 - i))) as H. destruct (first_in _ _ _) as [i|].
  - destruct H as (Hi & Ht & Hb). exists (w - 1 - i). rewrite kept_bits in Ht by lia. split_and!; [f_equal; lia|lia..|done|].
    intros k Hk. rewrite <- kept_bits by lia. rewrite <- (Hb (w - 1 - k)) by lia. f_equal. lia.
  - destruct (some_bit mask Hm Hn). intros k Hk. rewrite <- kept_bits by lia. rewrite <- (H (w - 1 - k)) by lia. f_equal. lia.
Qed.
End Scan.

Lemma i32_bit i : 0 ≤ i < 64 → i32 i = i.
Proof. intros Hi. apply i32_small. lia. Qed.

(** The position of a bit that is the lowest, or the highest, one set; 0 when there is none. *)
Definition lowest_bit (w mask r : Z) : Prop :=
  (r = 0 ∧ mask = 0) ∨ (0 < r ≤ w ∧ Z.testbit mask (r - 1) = true ∧ ∀ k, 0 ≤ k < r - 1 → Z.testbit mask k = false).
Definition highest_bit (w mask r : Z) : Prop :=
  (r = 0 ∧ mask = 0) ∨ (0 < r ≤ w ∧ Z.testbit mask (r - 1) = true ∧ ∀ k, r - 1 < k < w → Z.testbit mask k = false).

Lemma ffsl_ok mask : - 2 ^ 63 ≤ mask < 2 ^ 63 → ∃ r, ffsl mask = Some r ∧ lowest_bit 64 mask r.
Proof.
  intros Hm. unfold ffsl. destruct (Z.eqb_spec mask 0) as [->|Hn]; [exists 0; split; [done|by left]|].
  destruct (scan_up 64 ltac:(lia) mask Hm Hn) as (i & E & Hi & Hb). unfold bsfq, u64. rewrite E. cbn. rewrite i32_bit by done.
  exists (i + 1). split; [done|]. right. rewrite Z.add_simpl_r. split; [lia|done].
Qed.

Lemma fls_ok mask : - 2 ^ 31 ≤ mask < 2 ^ 31 → ∃ r, fls mask = Some r ∧ highest_bit 32 mask r.
Proof.
  intros Hm. unfold fls. destruct (Z.eqb_spec mask 0) as [->|Hn]; [exists 0; split; [done|by left]|].
  destruct (scan_down 32 ltac:(lia) mask Hm Hn) as (i & E & Hi & Hb). unfold bsrl, u32. change (32 - 1) with 31 in E. rewrite E.
  exists (i + 1). split; [|right; rewrite Z.add_simpl_r; split; [lia|done]].
  cbn. replace (31 - (31 - i)) with i by lia. by rewrite i32_bit by lia.
Qed.

Lemma flsl_ok mask : - 2 ^ 63 ≤ mask < 2 ^ 63 → ∃ r, flsl mask = Some r ∧ highest_bit 64 mask r.
Proof.
  intros Hm. unfold flsl. destruct (Z.eqb_spec mask 0) as [->|Hn]; [exists 0; split; [done|by left]|].
  destruct (scan_down 64 ltac:(lia) mask Hm Hn) as (i & E & Hi & Hb). unfold bsrq, u64. change (64 - 1) with 63 in E. rewrite E.
  exists (i + 1). split; [|right; rewrite Z.add_simpl_r; split; [lia|done]].
  cbn. replace (63 - (63 - i)) with i by lia. by rewrite i32_bit by lia.
Qed.

(** ** Properties *)

(** C32. The parallel sums of bitcount32 and bitcount16 give the number of bits
    set, for every word; bitcount16 ignores the upper half of its argument. *)
Theorem bitcount_is_popcount x : 0 ≤ x < 2 ^ 32 → bitcount32 x = popcount 32 x ∧ bitcount16 x = popcount 16 x.
Proof. intros Hx. split; [by apply bitcount32_ok|apply bitcount16_ok]. Qed.

Lemma bitcount_is_popcount_witness : bitcount32 0xf00000ff = 12 ∧ bitcount16 0xf00000ff = 8.
Proof. destruct (bitcount_is_popcount 0xf00000ff) as [E1 E2]; [lia|]. rewrite E1, E2. by split; vm_compute. Defined.

(** ffsl gives the position, counted from 1, of the lowest bit set and flsl of
    the highest; both give 0 for 0.  The undefined scan of 0 never happens,
    and negative numbers are scanned as their two's complement. *)
Theorem find_bits mask : - 2 ^ 63 ≤ mask < 2 ^ 63 →
  (∃ r, ffsl mask = Some r ∧ lowest_bit 64 mask r) ∧ (∃ r, flsl mask = Some r ∧ highest_bit 64 mask r) ∧
  (- 2 ^ 31 ≤ mask < 2 ^ 31 → ∃ r, fls mask = Some r ∧ highest_bit 32 mask r).
Proof. intros Hm. split_and!; [by apply ffsl_ok|by apply flsl_ok|apply fls_ok]. Qed.

Lemma find_bits_witness : ffsl (-48) = Some 5 ∧ ∃ r, fls (-48) = Some r ∧ highest_bit 32 (-48) r.
Proof. split; [by vm_compute|]. destruct (find_bits (-48)) as (_ & _ & H); [lia|]. apply H. lia. Defined.
