(* ===== verification/Stdio.v ===== *)
(** * Buffered streams

    The part of include/stdio.h that is code: __sgetc and __sputc, which take
    a character from the buffer of a stream or put one into it, and the tests
    of the stream's flags.  __srget and __swbuf, which refill and empty the
    buffer, are in the C library and are a parameter. *)

From S2P Require Import Prelude.

(** ** The code *)

Definition __SLBF : Z := 0x0001.
Definition __SNBF : Z := 0x0002.
Definition __SRD : Z := 0x0004.
Definition __SWR : Z := 0x0008.
Definition __SEOF : Z := 0x0020.
Definition __SERR : Z := 0x0040.
Definition EOF : Z := -1.

(** The members that the macros use; the flags are a short. *)
Record FILE := File { _p : Z; _r : Z; _w : Z; _flags : Z; _bf_base : Z; _bf_size : Z; _lbfsize : Z }.

(** A stream, the unsigned chars of memory, and the rest of the world. *)
Record io (W : Type) := Io { file : FILE; chars : gmap Z Z; world : W }.
Arguments Io {W} _ _ _.
Arguments file {W} _.
Arguments chars {W} _.
Arguments world {W} _.

Definition with_file {W} (f : FILE → FILE) (s : io W) : io W := Io (f s.(file)) s.(chars) s.(world).
Definition with_p (x : Z) (f : FILE) : FILE := File x f.(_r) f.(_w) f.(_flags) f.(_bf_base) f.(_bf_size) f.(_lbfsize).
Definition with_r (x : Z) (f : FILE) : FILE := File f.(_p) x f.(_w) f.(_flags) f.(_bf_base) f.(_bf_size) f.(_lbfsize).
Definition with_w (x : Z) (f : FILE) : FILE := File f.(_p) f.(_r) x f.(_flags) f.(_bf_base) f.(_bf_size) f.(_lbfsize).
Definition with_flags (x : Z) (f : FILE) : FILE := File f.(_p) f.(_r) f.(_w) x f.(_bf_base) f.(_bf_size) f.(_lbfsize).

Definition load {W} (a : Z) : C (io W) Z := λ s, match s.(chars) !! a with Some c => Done c s | None => UB end.
Definition store {W} (a c : Z) : C (io W) () := λ s,
  match s.(chars) !! a with Some _ => Done () (Io s.(file) (<[a := c]> s.(chars)) s.(world)) | None => UB end.

(** [--x] on an int. *)
Definition decr {W} (x : Z) : C (io W) Z := if x <=? - 2 ^ 31 then ub else mret (x - 1).

Section Code.
Context {W : Type} (__srget : C (io W) Z) (__swbuf : Z → C (io W) Z).

Definition __sgetc : C (io W) Z :=
  f ← gets file; r ← decr f.(_r); modifyS (with_file (with_r r));;
  if r <? 0 then __srget else
  c ← load f.(_p); modifyS (with_file (with_p (u64 (f.(_p) + 1))));; mret c.

(** [*_p->_p++ = _c], whose value is the unsigned char stored. *)
Definition put_next (c : Z) : C (io W) Z :=
  f ← gets file; store f.(_p) (u8 c);; modifyS (with_file (with_p (u64 (f.(_p) + 1))));; mret (u8 c).

Definition __sputc (c : Z) : C (io W) Z :=
  f ← gets file; w ← decr f.(_w); modifyS (with_file (with_w w));;
  if (0 <=? w) || ((f.(_lbfsize) <=? w) && negb (i8 c =? 10)) then put_next c else __swbuf c.

(** The macro for compilers without inline functions. *)
Definition __sputc_macro (c : Z) : C (io W) Z :=
  f ← gets file; w ← decr f.(_w); modifyS (with_file (with_w w));;
  if w <? 0 then
    if f.(_lbfsize) <=? w then
      store f.(_p) (u8 c);;
      x ← load f.(_p);
      if negb (x =? 10) then y ← load f.(_p); modifyS (with_file (with_p (u64 (f.(_p) + 1))));; mret y else __swbuf 10
    else __swbuf c
  else store f.(_p) (u8 c);; y ← load f.(_p); modifyS (with_file (with_p (u64 (f.(_p) + 1))));; mret y.
End Code.

Definition __sfeof (f : FILE) : bool := negb (Z.land f.(_flags) __SEOF =? 0).
Definition __sferror (f : FILE) : bool := negb (Z.land f.(_flags) __SERR =? 0).
Definition __sclearerr (f : FILE) : FILE := with_flags (Z.land f.(_flags) (Z.lnot (Z.lor __SERR __SEOF))) f.

(** Two clients: putc of one character after the other until one fails, with
    the number of characters it gets rid of, and getc until it gives EOF, with
    the characters read. *)
Fixpoint puts_loop {W} (__swbuf : Z → C (io W) Z) (cs : list Z) (k : Z) : C (io W) Z :=
  match cs with
  | [] => mret k
  | c :: cs => r ← __sputc __swbuf c; if r =? EOF then mret k else puts_loop __swbuf cs (k + 1)
  end.

Definition read_loop {W} (__srget : C (io W) Z) (fuel : nat) : C (io W) (list Z) :=
  while fuel [] (λ acc, c ← __sgetc __srget; if c =? EOF then mret (inr acc) else mret (inl (acc ++ [c]))).

(** ** Streams in write and in read mode *)

Inductive buffering := Line | Unbuffered | Full.

#[export] Instance buffering_eq_dec : EqDecision buffering.
Proof. solve_decision. Defined.

Definition mode_of (f : FILE) : buffering :=
  if negb (Z.land f.(_flags) __SLBF =? 0) then Line else if negb (Z.land f.(_flags) __SNBF =? 0) then Unbuffered else Full.

Definition holds (m : gmap Z Z) (a : Z) (l : list Z) : Prop := ∀ i x, l !! i = Some x → m !! (a + Z.of_nat i) = Some x.

(** The space left, as the comment on struct __sFILE has it: a line buffered
    stream counts from 0 down to -_bf._size. *)
Definition space (f : FILE) (l : list Z) : Prop :=
  let n := Z.of_nat (length l) in
  match mode_of f with
  | Line => f.(_lbfsize) = - f.(_bf_size) ∧ f.(_w) = - n
  | Unbuffered => f.(_lbfsize) = 0 ∧ f.(_w) = 0 ∧ n = 0
  | Full => f.(_lbfsize) = 0 ∧ f.(_w) = f.(_bf_size) - n
  end.

(** The stream is in write mode with [l] in its buffer. *)
Record writing {W} (s : io W) (l : list Z) : Prop := {
  w_wr : Z.land s.(file).(_flags) __SWR ≠ 0;
  w_r : s.(file).(_r) = 0;
  w_size : 0 < s.(file).(_bf_size) ≤ INT_MAX;
  w_base : 0 < s.(file).(_bf_base) ∧ s.(file).(_bf_base) + s.(file).(_bf_size) < 2 ^ 64;
  w_p : s.(file).(_p) = s.(file).(_bf_base) + Z.of_nat (length l);
  w_len : Z.of_nat (length l) ≤ s.(file).(_bf_size);
  w_space : space s.(file) l;
  w_mapped x : s.(file).(_bf_base) ≤ x < s.(file).(_bf_base) + s.(file).(_bf_size) → is_Some (s.(chars) !! x);
  w_holds : holds s.(chars) s.(file).(_bf_base) l }.

(** The stream is in read mode with [l] still to be read from its buffer. *)
Record reading {W} (s : io W) (l : list Z) : Prop := {
  r_rd : Z.land s.(file).(_flags) __SRD ≠ 0;
  r_w : s.(file).(_w) = 0 ∧ s.(file).(_lbfsize) = 0;
  r_len : s.(file).(_r) = Z.of_nat (length l) ∧ Z.of_nat (length l) ≤ INT_MAX;
  r_p : 0 < s.(file).(_p) ∧ s.(file).(_p) + Z.of_nat (length l) < 2 ^ 64;
  r_bytes : Forall (λ x, 0 ≤ x < 2 ^ 8) l;
  r_holds : holds s.(chars) s.(file).(_p) l }.

(** What one output of [c] comes to, [written] being what has left the
    stream: nothing is lost or reordered, a failure is reported, and a newline
    leaves no character in the buffer of a line buffered stream. *)
Definition accepts {W} (written : W → list Z) (c : Z) (s : io W) (l : list Z) (r : Z) (s' : io W) : Prop :=
  written s.(world) `prefix_of` written s'.(world) ∧
  written s'.(world) `prefix_of` written s.(world) ++ l ++ [u8 c] ∧
  (r = EOF ∨ r = u8 c ∧ ∃ l', writing s' l' ∧ mode_of s'.(file) = mode_of s.(file) ∧
    written s'.(world) ++ l' = written s.(world) ++ l ++ [u8 c] ∧ (mode_of s.(file) = Line → u8 c = 10 → l' = [])).

(** Whether __sputc leaves the character to __swbuf. *)
Definition needs_swbuf (c : Z) (f : FILE) : bool :=
  negb ((0 <=? f.(_w) - 1) || ((f.(_lbfsize) <=? f.(_w) - 1) && negb (i8 c =? 10))).

(** The contracts of the C library's functions: __swbuf puts a character out
    when the buffer is full or has to be emptied, __srget gives the next
    character and fills the buffer with some of the following ones. *)
Class Swbuf {W} (__swbuf : Z → C (io W) Z) (written : W → list Z) : Prop := {
  swbuf_ok c s l : writing s l → needs_swbuf c s.(file) = true →
    ∃ r s', __swbuf c (with_file (with_w (s.(file).(_w) - 1)) s) = Done r s' ∧ accepts written c s l r s' }.

Class Srget {W} (__srget : C (io W) Z) (unread : W → list Z) : Prop := {
  srget_ok s : reading s [] →
    ∃ c s', __srget (with_file (with_r (-1)) s) = Done c s' ∧
      (c = EOF ∧ (unread s.(world) = [] ∨ __sferror s'.(file) = true) ∨
       ∃ l', 0 ≤ c < 2 ^ 8 ∧ reading s' l' ∧ unread s.(world) = c :: l' ++ unread s'.(world)) }.

(** ** Output *)

Lemma i8_u8 c k : 0 ≤ k < 128 → (i8 c =? k) = (u8 c =? k).
Proof.
  intros Hk. unfold i8, u8, signed. cbv zeta. pose proof (Z.mod_pos_bound c (2 ^ 8) ltac:(lia)).
  destruct (c mod 2 ^ 8 <? 2 ^ (8 - 1)) eqn:E; [done|]. apply Z.ltb_ge in E.
  destruct (Z.eqb_spec (c mod 2 ^ 8 - 2 ^ 8) k), (Z.eqb_spec (c mod 2 ^ 8) k); lia.
Qed.

Lemma holds_app m a l x : holds m a l → holds (<[a + Z.of_nat (length l) := x]> m) a (l ++ [x]).
Proof.
  intros H i y Hy. apply lookup_app_Some in Hy as [Hy|[Hi Hy]].
  - rewrite lookup_insert_ne by (apply lookup_lt_Some in Hy; lia). by apply H.
  - apply list_lookup_singleton_Some in Hy as [Hy <-]. replace i with (length l) by lia. by rewrite lookup_insert_eq.
Qed.

Section Output.
Context {W : Type} (__swbuf : Z → C (io W) Z) (written : W → list Z).

Lemma decr_ok {W'} x (s : io W') : - 2 ^ 31 < x → decr x s = Done (x - 1) s.
Proof. intros Hx. unfold decr. by rewrite (proj2 (Z.leb_gt _ _)) by lia. Qed.

Lemma space_range f l : space f l → 0 < f.(_bf_size) ≤ INT_MAX → Z.of_nat (length l) ≤ f.(_bf_size) → - 2 ^ 31 < f.(_w).
Proof. unfold space, INT_MAX. intros Hs Hz Hl. destruct (mode_of f); lia. Qed.

(** A store that __sputc makes itself: inside the buffer, behind what it holds. *)
Lemma direct_ok c s l : writing s l → needs_swbuf c s.(file) = false →
  ∃ s', put_next c (with_file (with_w (s.(file).(_w) - 1)) s) = Done (u8 c) s' ∧ accepts written c s l (u8 c) s'.
Proof.
  intros [Hwr Hr Hz Hb Hp Hl Hs Hm Hh] Hn. destruct s as [[p r w fl b z lb] m wd]. simpl in *.
  assert (Hroom : Z.of_nat (length l) < z ∧ (mode_of (File p r w fl b z lb) = Line → u8 c ≠ 10)).
  { unfold needs_swbuf in Hn. simpl in Hn. apply negb_false_iff in Hn. rewrite i8_u8 in Hn by lia. unfold space in Hs.
    destruct (mode_of _); simpl in *; (split; [|intros ?; try done]);
      apply orb_prop in Hn as [Hn|Hn]; zb; try lia. }
  destruct Hroom as [Hroom Hnl]. destruct (Hm p ltac:(lia)) as [x0 Hx0]. eexists. split.
  - unfold put_next, store. c_unfold. simpl. rewrite Hx0. reflexivity.
  - assert (Ep : u64 (p + 1) = p + 1) by (apply u64_small; lia). unfold with_file, with_p, with_w. simpl. rewrite Ep.
    split_and!; simpl; [done|by apply prefix_app_r|]. right. split; [done|]. exists (l ++ [u8 c]). split_and!; [|done|done|by intros ? ?%Hnl].
    constructor; simpl; rewrite ?length_app; simpl; try done; try lia.
    + unfold space, mode_of in *. simpl in *. rewrite length_app. simpl. destruct (negb _); [lia|]. destruct (negb _); [|lia].
      unfold needs_swbuf in Hn. simpl in Hn. apply negb_false_iff, orb_prop in Hn as [Hn|Hn]; zb; lia.
    + intros x Hx. apply lookup_insert_is_Some'. right. by apply Hm.
    + rewrite Hp. by apply holds_app.
Qed.

Lemma sputc_unfold c s l : writing s l → __sputc __swbuf c s =
  if needs_swbuf c s.(file) then __swbuf c (with_file (with_w (s.(file).(_w) - 1)) s) else put_next c (with_file (with_w (s.(file).(_w) - 1)) s).
Proof.
  intros Hw. unfold __sputc, gets, modifyS. rewrite (bind_done _ _ _ s s.(file)) by done.
  rewrite (bind_done _ _ _ s (s.(file).(_w) - 1)) by (apply decr_ok, (space_range _ l); apply Hw).
  rewrite (bind_done _ _ _ (with_file (with_w (s.(file).(_w) - 1)) s) ()) by done. unfold needs_swbuf. by destruct (_ || _).
Qed.

Context `{!Swbuf __swbuf written}.

Lemma sputc_ok c s l : writing s l → ∃ r s', __sputc __swbuf c s = Done r s' ∧ accepts written c s l r s'.
Proof.
  intros Hw. rewrite (sputc_unfold c s l Hw). destruct (needs_swbuf c s.(file)) eqn:En; [by apply swbuf_ok|].
  destruct (direct_ok c s l Hw En) as (s' & E & H). by exists (u8 c), s'.
Qed.

(** What is left in a buffer is the end of what was put. *)
Lemma rest_suffix {A} (o o' l l' k : list A) : o `prefix_of` o' → o' ++ l' = o ++ l ++ k → l' `suffix_of` l ++ k.
Proof. intros [t ->] E. rewrite <- app_assoc in E. apply app_inv_head in E. exists t. by rewrite E. Qed.

Lemma accepts_no_newline c s l s' : accepts written c s l (u8 c) s' → ∃ l', writing s' l' ∧ mode_of s'.(file) = mode_of s.(file) ∧
  written s'.(world) ++ l' = written s.(world) ++ l ++ [u8 c] ∧ (mode_of s.(file) = Line → 10 ∉ l → 10 ∉ l').
Proof.
  intros (H1 & H2 & [Hr|(_ & l' & Hw & Hm & E & Hn)]).
  { pose proof (Z.mod_pos_bound c (2 ^ 8) ltac:(lia)). unfold u8, EOF in Hr. lia. }
  exists l'. split_and!; [done..|]. intros HL Hnl Hin. destruct (decide (u8 c = 10)) as [Ec|Ec].
  - rewrite (Hn HL Ec) in Hin. by apply elem_of_nil in Hin.
  - destruct (rest_suffix _ _ _ _ _ H1 E) as [t Ht].
    assert (Hin' : 10 ∈ l ++ [u8 c]) by (rewrite Ht; apply elem_of_app; by right).
    apply elem_of_app in Hin' as [?|?%list_elem_of_singleton]; [done|congruence].
Qed.

Lemma u8_not_eof c : u8 c ≠ EOF.
Proof. pose proof (Z.mod_pos_bound c (2 ^ 8) ltac:(lia)). unfold u8, EOF. lia. Qed.

Lemma puts_ok cs k s l : writing s l → ∃ k' s', puts_loop __swbuf cs k s = Done k' s' ∧ k ≤ k' ≤ k + Z.of_nat (length cs) ∧
  written s'.(world) `prefix_of` written s.(world) ++ l ++ (u8 <$> cs) ∧
  (k' = k + Z.of_nat (length cs) → ∃ l', writing s' l' ∧ mode_of s'.(file) = mode_of s.(file) ∧
    written s'.(world) ++ l' = written s.(world) ++ l ++ (u8 <$> cs) ∧ (mode_of s.(file) = Line → 10 ∉ l → 10 ∉ l')).
Proof.
  revert k s l. induction cs as [|c cs IH]; intros k s l Hw; cbn [puts_loop length fmap list_fmap].
  - exists k, s. split_and!; [done|lia|lia|by apply prefix_app_r|]. intros _. exists l. by rewrite app_nil_r.
  - destruct (sputc_ok c s l Hw) as (r & s1 & E1 & HA). rewrite (bind_done _ _ _ _ _ E1).
    destruct (Z.eqb_spec r EOF) as [Hr|Hr].
    + exists k, s1. split_and!; [done|lia|lia| |lia]. destruct HA as (_ & H2 & _). etrans; [exact H2|].
      do 2 apply prefix_app. exists (u8 <$> cs). done.
    + assert (Er : r = u8 c) by (destruct HA as (_ & _ & [?|[? _]]); done). subst r.
      destruct (accepts_no_newline c s l s1 HA) as (l1 & Hw1 & Hm1 & EE & Hn1).
      destruct (IH (k + 1) s1 l1 Hw1) as (k' & s' & E' & Hk & Hpre & Hfull). exists k', s'.
      rewrite app_assoc, EE, <- !app_assoc in Hpre. split_and!; [done|lia|lia|done|].
      intros Hk'. destruct Hfull as (l' & Hw' & Hm' & Eq & Hn'); [lia|]. exists l'. rewrite app_assoc, EE, <- !app_assoc in Eq.
      rewrite Hm1 in *. split_and!; [done..|auto].
Qed.
End Output.

(** ** Input *)

Section Input.
Context {W : Type} (__srget : C (io W) Z) (unread : W → list Z).

Lemma sgetc_unfold s : - 2 ^ 31 < s.(file).(_r) → __sgetc __srget s =
  let s1 := with_file (with_r (s.(file).(_r) - 1)) s in
  if s.(file).(_r) - 1 <? 0 then __srget s1 else
  (c ← load s.(file).(_p); modifyS (with_file (with_p (u64 (s.(file).(_p) + 1))));; mret c) s1.
Proof.
  intros Hr. unfold __sgetc, gets. rewrite (bind_done _ _ _ s s.(file)) by done. rewrite (bind_done _ _ _ _ _ (decr_ok _ s Hr)).
  unfold modifyS at 1. rewrite (bind_done _ _ _ (with_file (with_r (s.(file).(_r) - 1)) s) ()) by done. cbv zeta. by destruct (_ <? 0).
Qed.

Lemma sgetc_buffered s c l : reading s (c :: l) → ∃ s', __sgetc __srget s = Done c s' ∧ reading s' l ∧ s'.(world) = s.(world).
Proof.
  intros [Hrd [Hw Hlb] [Hr Hmax] Hp Hby Hh]. cbn [length] in *. rewrite sgetc_unfold by lia. cbv zeta.
  rewrite (proj2 (Z.ltb_ge _ _)) by lia. pose proof (Hh 0%nat c eq_refl) as Hc. rewrite Z.add_0_r in Hc.
  unfold load, modifyS, mbind, C_bind, mret, C_ret. destruct s as [[p r w fl b z lb] m wd]. simpl in *. rewrite Hc. eexists. split; [done|]. split; [|done].
  assert (Ep : u64 (p + 1) = p + 1) by (apply u64_small; lia). rewrite Ep. apply Forall_cons in Hby as [_ Hby]. constructor; simpl; try done; try lia.
  intros i x Hx. replace (p + 1 + Z.of_nat i) with (p + Z.of_nat (S i)) by lia. by apply Hh.
Qed.

Context `{!Srget __srget unread}.

Lemma sgetc_ok s l : reading s l → ∃ c s', __sgetc __srget s = Done c s' ∧
  (c = EOF ∧ (l ++ unread s.(world) = [] ∨ __sferror s'.(file) = true) ∨
   ∃ l', 0 ≤ c < 2 ^ 8 ∧ reading s' l' ∧ l ++ unread s.(world) = c :: l' ++ unread s'.(world)).
Proof.
  intros Hs. destruct l as [|c l].
  - pose proof (r_len _ _ Hs) as [Hr _]. simpl in Hr. rewrite sgetc_unfold by lia. rewrite Hr. cbv zeta. change (Z.of_nat 0 - 1) with (-1). change (-1 <? 0) with true. cbv iota.
    destruct (srget_ok s Hs) as (c & s' & E & H). exists c, s'. by rewrite E.
  - destruct (sgetc_buffered s c l Hs) as (s' & E & H & Hwd). exists c, s'. split; [done|]. right. exists l. rewrite Hwd. split_and!; try done.
    all: pose proof (r_bytes _ _ Hs) as Hb; apply Forall_cons in Hb as [Hb _]; lia.
Qed.

Lemma while_step {S A R} n (acc : A) (body : A → C S (A + R)) :
  while (Datatypes.S n) acc body = (x ← body acc; match x with inl acc => while n acc body | inr r => mret r end).
Proof. done. Qed.

Lemma read_loop_ok n s l acc : reading s l → n = length (l ++ unread s.(world)) → ∃ out s',
  while (S n) acc (λ acc, c ← __sgetc __srget; if c =? EOF then mret (inr acc) else mret (inl (acc ++ [c]))) s = Done (acc ++ out) s' ∧
  out `prefix_of` l ++ unread s.(world) ∧ (out = l ++ unread s.(world) ∨ __sferror s'.(file) = true).
Proof.
  revert s l acc. induction n as [|n IH]; intros s l acc Hs Hn; destruct (sgetc_ok s l Hs) as (c & s1 & E & H);
    rewrite while_step, bind_assoc, (bind_done _ _ _ _ _ E).
  - destruct H as [[-> _]|(l' & _ & _ & El)]; [|by rewrite El in Hn]. exists [], s1. rewrite app_nil_r. split_and!; [done|apply prefix_nil|].
    left. symmetry. by apply nil_length_inv.
  - destruct H as [[-> [H|H]]|(l' & Hc & Hs' & El)].
    + rewrite H in Hn. simpl in Hn. lia.
    + exists [], s1. rewrite app_nil_r. split_and!; [done|apply prefix_nil|by right].
    + rewrite (proj2 (Z.eqb_neq c EOF)) by (unfold EOF; lia). rewrite bind_ret.
      destruct (IH s1 l' (acc ++ [c]) Hs') as (out & s' & E' & Hpre & Hall); [rewrite El in Hn; simpl in Hn; lia|].
      exists (c :: out), s'. rewrite E', El, <- app_assoc. split_and!; [done|by apply prefix_cons|]. destruct Hall as [->|?]; auto.
Qed.
End Input.

(** ** The C library's part, in its simplest form: an output that is written
    at once, and an input that is read one character at a time *)

Definition contents (m : gmap Z Z) (a n : Z) : list Z := (λ i, default 0 (m !! (a + i))) <$> seqZ 0 n.

Lemma contents_holds m a l : holds m a l → contents m a (Z.of_nat (length l)) = l.
Proof.
  intros H. apply list_eq. intros i. unfold contents. rewrite list_lookup_fmap. destruct (l !! i) as [x|] eqn:E.
  - rewrite lookup_seqZ_lt by (apply lookup_lt_Some in E; lia). simpl. f_equal. rewrite Z.add_0_l, (H i x E). done.
  - rewrite lookup_seqZ_ge; [done|]. apply lookup_ge_None in E. lia.
Qed.

Definition flush (c : Z) : C (io (list Z)) Z := λ s,
  let f := s.(file) in
  let w := match mode_of f with Full => f.(_bf_size) | _ => 0 end in
  Done (u8 c) (Io (with_w w (with_p f.(_bf_base) f)) s.(chars) (s.(world) ++ contents s.(chars) f.(_bf_base) (f.(_p) - f.(_bf_base)) ++ [u8 c])).

#[export] Instance flush_swbuf : Swbuf flush id.
Proof.
  constructor. intros c s l [Hwr Hr Hz Hb Hp Hl Hs Hm Hh] _. destruct s as [[p r w fl b z lb] m wd]. simpl in *. eexists _, _. split; [done|].
  assert (E : contents m b (p - b) = l) by (subst p; rewrite Z.add_simpl_l; by apply contents_holds).
  unfold accepts. simpl. rewrite E. split_and!; [by apply prefix_app_r|done|]. right. split; [done|]. exists [].
  split_and!; [|done|by rewrite app_nil_r|done]. constructor; simpl; try done; try lia.
  unfold space, mode_of in *. simpl in *. destruct (negb _); simpl; [lia|]. destruct (negb _); simpl; lia.
Qed.

Definition read_one : C (io (list Z)) Z := λ s,
  match s.(world) with
  | [] => Done EOF (with_file (with_r 0) s)
  | c :: cs => Done (u8 c) (Io (with_r 0 s.(file)) s.(chars) cs)
  end.

#[export] Instance read_one_srget : Srget read_one (fmap u8).
Proof.
  constructor. intros s Hs. destruct s as [[p r w fl b z lb] m [|c cs]]; eexists _, _; (split; [done|]); [left; split; [done|by left]|].
  right. exists []. pose proof (Z.mod_pos_bound c (2 ^ 8) ltac:(lia)). split_and!; [unfold u8; lia..| |done].
  destruct Hs as [Hrd Hw Hr Hp Hby Hh]. simpl in *. constructor; simpl; done.
Qed.

(** ** Properties *)

(** C26. Output through __sputc, for any buffering and any __swbuf that keeps its
    contract: every call returns, what has been written is always a prefix of
    what was put, and when no call reports a failure, what has been written
    together with the buffer is all of it, in order; the buffer of a line
    buffered stream then holds no newline.  No store leaves the buffer: every
    access outside mapped memory is undefined, and the result is [Done]. *)
Theorem putc_in_order {W} (__swbuf : Z → C (io W) Z) (written : W → list Z) `{!Swbuf __swbuf written} cs s l : writing s l →
  ∃ k s', puts_loop __swbuf cs 0 s = Done k s' ∧ 0 ≤ k ≤ Z.of_nat (length cs) ∧
  written s'.(world) `prefix_of` written s.(world) ++ l ++ (u8 <$> cs) ∧
  (k = Z.of_nat (length cs) → ∃ l', writing s' l' ∧ mode_of s'.(file) = mode_of s.(file) ∧
    written s'.(world) ++ l' = written s.(world) ++ l ++ (u8 <$> cs) ∧ (mode_of s.(file) = Line → 10 ∉ l → 10 ∉ l')).
Proof. apply (puts_ok __swbuf written cs 0 s l). Qed.

(** A line buffered stream with a buffer of four characters. *)
Definition sample_out : io (list Z) :=
  Io (File 0x1000 0 0 (Z.lor __SLBF __SWR) 0x1000 4 (-4)) (list_to_map ((λ i, (0x1000 + i, 0)) <$> seqZ 0 4)) [].

Lemma mapped_seq b n (x : Z) : b ≤ x < b + n → is_Some ((list_to_map ((λ i, (b + i, 0)) <$> seqZ 0 n) : gmap Z Z) !! x).
Proof.
  intros Hx. destruct (list_to_map _ !! x) eqn:E; [done|]. apply not_elem_of_list_to_map in E. destruct E. rewrite <- list_fmap_compose.
  apply list_elem_of_fmap. exists (x - b). split; [simpl; lia|]. apply elem_of_seqZ. lia.
Qed.

Lemma sample_out_writing : writing sample_out [].
Proof. constructor; simpl; try done; try lia. intros x Hx. apply (mapped_seq 0x1000 4 x Hx). Qed.

Lemma putc_in_order_witness : ∃ s', puts_loop flush [104; 105; 10; 33] 0 sample_out = Done 4 s' ∧ s'.(world) = [104; 105; 10] ∧
  s'.(world) `prefix_of` [104; 105; 10; 33].
Proof.
  destruct (putc_in_order flush id [104; 105; 10; 33] sample_out [] sample_out_writing) as (k & s' & E & Hk & Hp & _).
  assert (Hk4 : k = 4) by (vm_compute in E; congruence). exists s'. subst k. split_and!; [done|vm_compute in E; by simplify_eq|exact Hp].
Defined.

(** Input through __sgetc: a loop that reads until EOF ends, and gives what is
    in the buffer and then what the C library's part still has, in order; less
    only if the stream has had an error. *)
Theorem getc_reads_all {W} (__srget : C (io W) Z) (unread : W → list Z) `{!Srget __srget unread} s l : reading s l →
  ∃ out s', read_loop __srget (S (length (l ++ unread s.(world)))) s = Done out s' ∧
  out `prefix_of` l ++ unread s.(world) ∧ (out = l ++ unread s.(world) ∨ __sferror s'.(file) = true).
Proof. intros Hs. apply (read_loop_ok __srget unread _ s l [] Hs eq_refl). Qed.

(** A stream with two characters in its buffer and one behind it. *)
Definition sample_in : io (list Z) := Io (File 0x1000 2 0 __SRD 0x1000 4 0) {[0x1000 := 104; 0x1001 := 105]} [33].

Lemma sample_in_reading : reading sample_in [104; 105].
Proof.
  constructor; simpl; try done; try lia; [repeat constructor; lia|]. intros [|[|i]] x Hx; simplify_eq/=; done.
Qed.

Lemma getc_reads_all_witness : ∃ s', read_loop read_one 4 sample_in = Done [104; 105; 33] s'.
Proof.
  destruct (getc_reads_all read_one (fmap u8) sample_in [104; 105] sample_in_reading) as (out & s' & E & _ & H).
  change (S (length ([104; 105] ++ (u8 <$> world sample_in)))) with 4%nat in E. exists s'. rewrite E. f_equal. vm_compute in E. by simplify_eq.
Defined.

(** The claim of the comment on struct __sFILE: getc never takes a character
    from a stream in write mode and putc never stores into one in read mode;
    both leave the call to the C library, which can then change the mode. *)
Theorem stream_modes_separate {W} (__srget : C (io W) Z) (__swbuf : Z → C (io W) Z) c s l :
  (writing s l → __sgetc __srget s = __srget (with_file (with_r (-1)) s)) ∧
  (reading s l → __sputc __swbuf c s = __swbuf c (with_file (with_w (-1)) s)).
Proof.
  split; intros H.
  - pose proof (w_r _ _ H) as Hr. rewrite sgetc_unfold by lia. by rewrite Hr.
  - destruct (r_w _ _ H) as [Hw Hl]. unfold __sputc, gets, modifyS. rewrite (bind_done _ _ _ s s.(file)) by done.
    rewrite (bind_done _ _ _ _ _ (decr_ok s.(file).(_w) s ltac:(lia))). rewrite Hw.
    rewrite (bind_done _ _ _ (with_file (with_w (-1)) s) ()) by done. by rewrite Hl.
Qed.

Definition stored {W} (a v : Z) (s : io W) : io W := Io s.(file) (<[a := v]> s.(chars)) s.(world).

Lemma store_done {W B} a v (k : () → C (io W) B) s : is_Some (s.(chars) !! a) → (x ← store a v; k x) s = k () (stored a v s).
Proof. intros [x E]. apply bind_done. unfold store. by rewrite E. Qed.

Lemma load_stored {W B} a v (k : Z → C (io W) B) s : (x ← load a; k x) (stored a v s) = k v (stored a v s).
Proof. apply bind_done. unfold load, stored. simpl. by rewrite lookup_insert_eq. Qed.

Lemma put_next_done {W} c (s : io W) : is_Some (s.(chars) !! s.(file).(_p)) →
  put_next c s = Done (u8 c) (with_file (with_p (u64 (s.(file).(_p) + 1))) (stored s.(file).(_p) (u8 c) s)).
Proof. intros H. unfold put_next, gets. rewrite (bind_done _ _ _ s s.(file)) by done. by rewrite store_done. Qed.

(** The macro for compilers without inline functions does what the inline
    function does, except for a newline on a line buffered stream with room:
    it stores the newline at the end of the buffer, too, before it passes it
    on, and passes the number 10 whatever the upper bits of the argument. *)
Theorem sputc_macro_agrees {W} (__swbuf : Z → C (io W) Z) c s l : writing s l →
  let s1 := with_file (with_w (s.(file).(_w) - 1)) s in
  if bool_decide (mode_of s.(file) = Line) && (Z.of_nat (length l) <? s.(file).(_bf_size)) && (u8 c =? 10)
  then __sputc __swbuf c s = __swbuf c s1 ∧ __sputc_macro __swbuf c s = __swbuf 10 (stored s.(file).(_p) 10 s1)
  else __sputc_macro __swbuf c s = __sputc __swbuf c s.
Proof.
  intros Hw s1. pose proof (space_range _ l (w_space _ _ Hw) (w_size _ _ Hw) (w_len _ _ Hw)) as Hr.
  assert (Hp : Z.of_nat (length l) < s.(file).(_bf_size) → is_Some (s.(chars) !! s.(file).(_p)))
    by (intros ?; apply (w_mapped _ _ Hw); rewrite (w_p _ _ Hw); lia).
  rewrite (sputc_unfold __swbuf c s l Hw). unfold __sputc_macro, gets, modifyS. rewrite (bind_done _ _ _ s s.(file)) by done.
  rewrite (bind_done _ _ _ _ _ (decr_ok _ s Hr)). rewrite (bind_done _ _ _ s1 ()) by done. unfold needs_swbuf. rewrite i8_u8 by lia.
  pose proof (w_space _ _ Hw) as Hs. pose proof (w_len _ _ Hw) as Hl. pose proof (w_size _ _ Hw) as Hz. unfold space in Hs. fold s1.
  destruct (mode_of s.(file)) eqn:Em; cbv zeta in Hs.
  - destruct Hs as [Hb Hv]. rewrite bool_decide_true, (proj2 (Z.leb_gt 0 _)), (proj2 (Z.ltb_lt (_ - 1) 0)) by (done || lia).
    rewrite orb_false_l, andb_true_l. destruct (Z.ltb_spec (Z.of_nat (length l)) s.(file).(_bf_size)) as [Hlt|Hge].
    + rewrite (proj2 (Z.leb_le _ _)), !andb_true_l by lia. rewrite (store_done _ _ _ s1) by (by apply Hp). rewrite load_stored.
      destruct (Z.eqb_spec (u8 c) 10) as [E|E]; cbv [negb]; cbv iota; [by rewrite E|].
      by rewrite load_stored, (put_next_done c s1) by (by apply Hp).
    + rewrite (proj2 (Z.leb_gt _ _)) by lia. done.
  - destruct Hs as (Hb & Hv & _). rewrite Hb, Hv. done.
  - destruct Hs as [Hb Hv]. rewrite Hb, bool_decide_false by done. rewrite !andb_false_l.
    destruct (Z.leb_spec 0 (s.(file).(_w) - 1)) as [Hle|Hgt].
    + rewrite (proj2 (Z.ltb_ge _ _)) by lia. rewrite orb_true_l. cbv [negb]; cbv iota.
      by rewrite (store_done _ _ _ s1), load_stored, (put_next_done c s1) by (apply Hp; lia).
    + rewrite (proj2 (Z.ltb_lt _ _)) by lia. done.
Qed.

Lemma sputc_macro_agrees_witness : __sputc_macro flush 104 sample_out = __sputc flush 104 sample_out.
Proof. apply (sputc_macro_agrees flush 104 sample_out [] sample_out_writing). Defined.

Lemma stream_modes_separate_witness : __sgetc read_one sample_out = Done EOF sample_out ∧ __sputc flush 33 sample_in = flush 33 (with_file (with_w (-1)) sample_in).
Proof.
  destruct (stream_modes_separate read_one flush 33 sample_out []) as [H1 _]. destruct (stream_modes_separate read_one flush 33 sample_in [104; 105]) as [_ H2].
  split; [by rewrite (H1 sample_out_writing)|exact (H2 sample_in_reading)].
Defined.

(** clearerr removes both marks and keeps every other flag. *)
Theorem clearerr_ok f : __sfeof (__sclearerr f) = false ∧ __sferror (__sclearerr f) = false ∧
  (∀ k, k ≠ 5 → k ≠ 6 → Z.testbit (_flags (__sclearerr f)) k = Z.testbit (_flags f) k).
Proof.
  unfold __sfeof, __sferror, __sclearerr, with_flags. cbn [_flags]. rewrite <- !Z.land_assoc.
  change (Z.land (Z.lnot (Z.lor __SERR __SEOF)) __SEOF) with 0. change (Z.land (Z.lnot (Z.lor __SERR __SEOF)) __SERR) with 0.
  rewrite !Z.land_0_r. change (Z.lor __SERR __SEOF) with 96. split_and!; [done..|].
  intros k H5 H6. destruct (Z.le_gt_cases 0 k); [|by rewrite !Z.testbit_neg_r by lia]. rewrite Z.land_spec.
  assert (E : Z.testbit (Z.lnot 96) k = true); [|by rewrite E, andb_true_r]. rewrite Z.lnot_spec by lia. apply negb_true_iff.
  change 96 with (Z.lor (2 ^ 5) (2 ^ 6)). rewrite Z.lor_spec, !Z.pow2_bits_false by lia. done.
Qed.
