(* ===== verification/ThreadState.v ===== *)
(** * Threads and processes

    include/sys/proc.h: the state of a thread and the reasons it cannot run,
    which the TD_ macros keep together, and the holds that keep a process in
    memory (PHOLD and PRELE). *)

From S2P Require Import Prelude.

(** ** The code: threads *)

Inductive tdstate := TDS_INACTIVE | TDS_INHIBITED | TDS_CAN_RUN | TDS_RUNQ | TDS_RUNNING.

#[export] Instance tdstate_eq_dec : EqDecision tdstate.
Proof. solve_decision. Defined.

Definition TDI_SUSPENDED : Z := 0x0001.
Definition TDI_SLEEPING : Z := 0x0002.
Definition TDI_SWAPPED : Z := 0x0004.
Definition TDI_LOCK : Z := 0x0008.
Definition TDI_IWAIT : Z := 0x0010.

(** td_inhibitors is an int, td_pflags too; they are kept as bit patterns. *)
Record thread := Thread { td_state : tdstate; td_inhibitors : Z; td_pflags : Z }.

Definition with_inhibitors (i : Z) (td : thread) : thread := Thread td.(td_state) i td.(td_pflags).
Definition with_state (s : tdstate) (td : thread) : thread := Thread s td.(td_inhibitors) td.(td_pflags).

Definition TD_IS_SLEEPING (td : thread) : Z := Z.land td.(td_inhibitors) TDI_SLEEPING.
Definition TD_IS_SUSPENDED (td : thread) : Z := Z.land td.(td_inhibitors) TDI_SUSPENDED.
Definition TD_IS_SWAPPED (td : thread) : Z := Z.land td.(td_inhibitors) TDI_SWAPPED.
Definition TD_ON_LOCK (td : thread) : Z := Z.land td.(td_inhibitors) TDI_LOCK.
Definition TD_AWAITING_INTR (td : thread) : Z := Z.land td.(td_inhibitors) TDI_IWAIT.
Definition TD_IS_RUNNING (td : thread) : bool := bool_decide (td.(td_state) = TDS_RUNNING).
Definition TD_ON_RUNQ (td : thread) : bool := bool_decide (td.(td_state) = TDS_RUNQ).
Definition TD_CAN_RUN (td : thread) : bool := bool_decide (td.(td_state) = TDS_CAN_RUN).
Definition TD_IS_INHIBITED (td : thread) : bool := bool_decide (td.(td_state) = TDS_INHIBITED).

Definition TD_SET_INHIB (inhib : Z) (td : thread) : thread :=
  let td := with_state TDS_INHIBITED td in with_inhibitors (Z.lor td.(td_inhibitors) inhib) td.

Definition TD_CLR_INHIB (inhib : Z) (td : thread) : thread :=
  if c_true (Z.land td.(td_inhibitors) inhib) then
    let td := with_inhibitors (Z.land td.(td_inhibitors) (Z.lnot inhib)) td in
    if td.(td_inhibitors) =? 0 then with_state TDS_CAN_RUN td else td
  else td.

Definition TD_SET_SLEEPING := TD_SET_INHIB TDI_SLEEPING.
Definition TD_SET_SWAPPED := TD_SET_INHIB TDI_SWAPPED.
Definition TD_SET_LOCK := TD_SET_INHIB TDI_LOCK.
Definition TD_SET_SUSPENDED := TD_SET_INHIB TDI_SUSPENDED.
Definition TD_SET_IWAIT := TD_SET_INHIB TDI_IWAIT.
Definition TD_CLR_SLEEPING := TD_CLR_INHIB TDI_SLEEPING.
Definition TD_CLR_SWAPPED := TD_CLR_INHIB TDI_SWAPPED.
Definition TD_CLR_LOCK := TD_CLR_INHIB TDI_LOCK.
Definition TD_CLR_SUSPENDED := TD_CLR_INHIB TDI_SUSPENDED.
Definition TD_CLR_IWAIT := TD_CLR_INHIB TDI_IWAIT.
Definition TD_SET_RUNNING := with_state TDS_RUNNING.
Definition TD_SET_RUNQ := with_state TDS_RUNQ.
Definition TD_SET_CAN_RUN := with_state TDS_CAN_RUN.

Definition TDP_NOSLEEPING : Z := 0x00000100.
Definition THREAD_NO_SLEEPING (td : thread) : thread := Thread td.(td_state) td.(td_inhibitors) (Z.lor td.(td_pflags) TDP_NOSLEEPING).
Definition THREAD_SLEEPING_OK (td : thread) : thread := Thread td.(td_state) td.(td_inhibitors) (Z.land td.(td_pflags) (Z.lnot TDP_NOSLEEPING)).

(** ** Reasons as a set *)

Inductive reason := Suspended | Sleeping | Swapped | OnLock | Iwait.

#[export] Instance reason_eq_dec : EqDecision reason.
Proof. solve_decision. Defined.

Definition bit_of (r : reason) : Z := match r with Suspended => 0 | Sleeping => 1 | Swapped => 2 | OnLock => 3 | Iwait => 4 end.

(** The macro of each reason: test, set and clear. *)
Definition test_of (r : reason) : thread → Z :=
  match r with Suspended => TD_IS_SUSPENDED | Sleeping => TD_IS_SLEEPING | Swapped => TD_IS_SWAPPED | OnLock => TD_ON_LOCK | Iwait => TD_AWAITING_INTR end.
Definition set_of (r : reason) : thread → thread :=
  match r with Suspended => TD_SET_SUSPENDED | Sleeping => TD_SET_SLEEPING | Swapped => TD_SET_SWAPPED | OnLock => TD_SET_LOCK | Iwait => TD_SET_IWAIT end.
Definition clr_of (r : reason) : thread → thread :=
  match r with Suspended => TD_CLR_SUSPENDED | Sleeping => TD_CLR_SLEEPING | Swapped => TD_CLR_SWAPPED | OnLock => TD_CLR_LOCK | Iwait => TD_CLR_IWAIT end.

(** What happens to a thread; the scheduler's three moves are made for
    threads that are not inhibited. *)
Inductive event := Inhibit (r : reason) | Release (r : reason) | Dispatch | Enqueue | Ready.

Definition apply_event (e : event) (td : thread) : thread :=
  match e with
  | Inhibit r => set_of r td
  | Release r => clr_of r td
  | Dispatch => TD_SET_RUNNING td
  | Enqueue => TD_SET_RUNQ td
  | Ready => TD_SET_CAN_RUN td
  end.

Definition allowed (e : event) (td : thread) : bool :=
  match e with Inhibit _ | Release _ => true | _ => negb (TD_IS_INHIBITED td) end.

(** The threads reached from a new one, with the events so far. *)
Inductive reaches : list event → thread → Prop :=
| reach_new pf : reaches [] (Thread TDS_INACTIVE 0 pf)
| reach_step es td e : reaches es td → allowed e td = true → reaches (es ++ [e]) (apply_event e td).

(** A reason stands after some events if the last event on it is its
    beginning. *)
Definition stands_step (r : reason) (b : bool) (e : event) : bool :=
  match e with Inhibit r' => if decide (r = r') then true else b | Release r' => if decide (r = r') then false else b | _ => b end.
Definition stands (r : reason) (es : list event) : bool := foldl (stands_step r) false es.

(** The state the last event leaves; releasing the last reason makes a thread
    able to run. *)
Definition anything (f : reason → bool) : bool := f Suspended || f Sleeping || f Swapped || f OnLock || f Iwait.

Lemma anything_spec f : anything f = true ↔ ∃ r, f r = true.
Proof.
  unfold anything. split.
  - rewrite !orb_true_iff. intros [[[[H|H]|H]|H]|H]; eauto.
  - intros [[] ->]; by rewrite ?orb_true_r.
Qed.

Definition after (s : tdstate) (es : list event) (e : event) : tdstate :=
  match e with
  | Inhibit _ => TDS_INHIBITED
  | Release r => if stands r es && negb (anything (λ r, stands r (es ++ [e]))) then TDS_CAN_RUN else s
  | Dispatch => TDS_RUNNING
  | Enqueue => TDS_RUNQ
  | Ready => TDS_CAN_RUN
  end.

(** ** The macros on sets of reasons *)

Definition mask (r : reason) : Z := 2 ^ bit_of r.

Lemma set_of_eq r td : set_of r td = TD_SET_INHIB (mask r) td.
Proof. by destruct r. Qed.
Lemma clr_of_eq r td : clr_of r td = TD_CLR_INHIB (mask r) td.
Proof. by destruct r. Qed.
Lemma test_of_eq r td : test_of r td = Z.land td.(td_inhibitors) (mask r).
Proof. by destruct r. Qed.

Lemma bit_of_inj r r' : bit_of r = bit_of r' → r = r'.
Proof. by destruct r, r'. Qed.
Lemma bit_of_range r : 0 ≤ bit_of r < 5.
Proof. destruct r; simpl; lia. Qed.

Definition has (td : thread) (r : reason) : bool := Z.testbit td.(td_inhibitors) (bit_of r).

(** The inhibitors are reasons and nothing else. *)
Definition only_reasons (td : thread) : Prop := 0 ≤ td.(td_inhibitors) < 2 ^ 5.

Lemma c_true_bit i k : 0 ≤ k → c_true (Z.land i (2 ^ k)) = Z.testbit i k.
Proof.
  intros Hk. unfold c_true. assert (E : Z.land i (2 ^ k) = if Z.testbit i k then 2 ^ k else 0).
  { apply Z.bits_inj'. intros j Hj. rewrite Z.land_spec. destruct (decide (j = k)) as [->|Hne].
    - rewrite Z.pow2_bits_true by done. destruct (Z.testbit i k); [by rewrite Z.pow2_bits_true|by rewrite Z.bits_0].
    - rewrite Z.pow2_bits_false by lia. rewrite andb_false_r. destruct (Z.testbit i k); [by rewrite Z.pow2_bits_false by lia|by rewrite Z.bits_0]. }
  rewrite E. pose proof (Z.pow_pos_nonneg 2 k). destruct (Z.testbit i k); [|done]. rewrite (proj2 (Z.eqb_neq _ _)) by lia. done.
Qed.

Lemma test_has r td : c_true (test_of r td) = has td r.
Proof. rewrite test_of_eq. apply c_true_bit. pose proof (bit_of_range r). lia. Qed.

Lemma has_lor i r r' pf s : has (Thread s (Z.lor i (mask r)) pf) r' = if decide (r' = r) then true else Z.testbit i (bit_of r').
Proof.
  pose proof (bit_of_range r). unfold has, mask. simpl. rewrite Z.lor_spec, Z.pow2_bits_eqb by lia. destruct (decide (r' = r)) as [->|Hne].
  - by rewrite Z.eqb_refl, orb_true_r.
  - rewrite (proj2 (Z.eqb_neq _ _)) by (intros E; apply Hne; symmetry; by apply bit_of_inj). by rewrite orb_false_r.
Qed.

Lemma has_clear i r r' pf s : has (Thread s (Z.land i (Z.lnot (mask r))) pf) r' = if decide (r' = r) then false else Z.testbit i (bit_of r').
Proof.
  pose proof (bit_of_range r). pose proof (bit_of_range r'). unfold has, mask. simpl. rewrite Z.land_spec, Z.lnot_spec, Z.pow2_bits_eqb by lia.
  destruct (decide (r' = r)) as [->|Hne].
  - by rewrite Z.eqb_refl, andb_false_r.
  - rewrite (proj2 (Z.eqb_neq _ _)) by (intros E; apply Hne; symmetry; by apply bit_of_inj). by rewrite andb_true_r.
Qed.

(** There are no reasons exactly if the inhibitors are 0. *)
Lemma no_reason td : only_reasons td → anything (has td) = negb (td.(td_inhibitors) =? 0).
Proof.
  destruct td as [s i pf]. unfold only_reasons. simpl. intros Hi. apply eq_true_iff_eq. rewrite anything_spec, negb_true_iff, Z.eqb_neq. split.
  - intros [r Hr] ->. unfold has in Hr. simpl in Hr. by rewrite Z.bits_0 in Hr.
  - intros Hn. pose proof (Z.log2_nonneg i). assert (Z.log2 i < 5) by (apply Z.log2_lt_pow2; lia).
    assert (Hb : Z.testbit i (Z.log2 i) = true) by (apply Z.bit_log2; lia).
    assert (Hc : ∃ r, bit_of r = Z.log2 i).
    { assert (C5 : Z.log2 i = 0 ∨ Z.log2 i = 1 ∨ Z.log2 i = 2 ∨ Z.log2 i = 3 ∨ Z.log2 i = 4) by lia.
      destruct C5 as [->|[->|[->|[->| ->]]]]; [by exists Suspended|by exists Sleeping|by exists Swapped|by exists OnLock|by exists Iwait]. }
    destruct Hc as [r Hr]. exists r. unfold has. simpl. by rewrite Hr.
Qed.

Lemma lor_reasons i r : 0 ≤ i < 2 ^ 5 → 0 ≤ Z.lor i (mask r) < 2 ^ 5.
Proof.
  intros Hi. pose proof (bit_of_range r). assert (0 ≤ mask r < 2 ^ 5) by (unfold mask; split; [lia|apply Z.pow_lt_mono_r; lia]).
  split; [apply Z.lor_nonneg; lia|]. assert (E : Z.lor i (mask r) = Z.lor i (mask r) mod 2 ^ 5); [|rewrite E; apply Z.mod_pos_bound; lia].
  rewrite <- Z.land_ones, Z.land_lor_distr_l, !Z.land_ones, !Z.mod_small by lia. done.
Qed.

Lemma land_reasons i k : 0 ≤ i < 2 ^ 5 → 0 ≤ Z.land i k < 2 ^ 5.
Proof.
  intros Hi. assert (E : Z.land i k = Z.land i k mod 2 ^ 5); [|rewrite E; apply Z.mod_pos_bound; lia].
  rewrite <- Z.land_ones, <- Z.land_assoc, (Z.land_comm k), Z.land_assoc, Z.land_ones, Z.mod_small by lia. done.
Qed.

(** What ties a thread to its history. *)
Record tied (es : list event) (td : thread) : Prop := {
  t_only : only_reasons td;
  t_has r : has td r = stands r es;
  t_inhibited : TD_IS_INHIBITED td = anything (λ r, stands r es) }.

Lemma stands_snoc r es e : stands r (es ++ [e]) = stands_step r (stands r es) e.
Proof. unfold stands. by rewrite foldl_app. Qed.

Lemma anything_ext f g : (∀ r, f r = g r) → anything f = anything g.
Proof. intros H. unfold anything. by rewrite !H. Qed.

Lemma inhibit_tied r es td : tied es td → tied (es ++ [Inhibit r]) (set_of r td).
Proof.
  intros [Ho Hh Hi]. rewrite set_of_eq. destruct td as [s i pf]. constructor.
  - by apply lor_reasons.
  - intros r'. unfold TD_SET_INHIB, with_state, with_inhibitors. cbn. rewrite has_lor, stands_snoc. cbn. rewrite <- Hh. done.
  - unfold TD_IS_INHIBITED. rewrite bool_decide_true by done. symmetry. apply anything_spec. exists r. rewrite stands_snoc. cbn. by rewrite decide_True.
Qed.

Lemma release_tied r es td : tied es td → tied (es ++ [Release r]) (clr_of r td) ∧
  td_state (clr_of r td) = after (td_state td) es (Release r).
Proof.
  intros [Ho Hh Hi]. rewrite clr_of_eq. destruct td as [s i pf]. unfold TD_CLR_INHIB. cbn [td_inhibitors td_state td_pflags with_inhibitors].
  rewrite (c_true_bit i (bit_of r) : _ → c_true (Z.land i (mask r)) = _) by (pose proof (bit_of_range r); lia).
  pose proof (Hh r) as Hr. unfold has in Hr. cbn in Hr. rewrite !Hr.
  set (td' := Thread s (Z.land i (Z.lnot (mask r))) pf).
  assert (Hh' : ∀ r', stands r' (es ++ [Release r]) = if stands r es then has td' r' else stands r' es).
  { intros r'. rewrite stands_snoc. cbn. destruct (stands r es) eqn:Er.
    - unfold td'. rewrite has_clear. by rewrite <- Hh.
    - destruct (decide (r' = r)) as [->|]; [done|done]. }
  unfold after. destruct (stands r es) eqn:Er.
  - assert (Ho' : only_reasons td') by (by apply land_reasons). rewrite (anything_ext _ (has td')) by exact Hh'. rewrite no_reason by done.
    change (td_inhibitors td') with (Z.land i (Z.lnot (mask r))). fold td'. destruct (Z.eqb_spec (Z.land i (Z.lnot (mask r))) 0) as [E0|E0]; (split; [|done]); constructor; try done.
    + rewrite (anything_ext _ (has td')) by exact Hh'. rewrite no_reason by done. change (td_inhibitors td') with (Z.land i (Z.lnot (mask r))). by rewrite E0.
    + rewrite (anything_ext _ (has td')) by exact Hh'. rewrite no_reason by done. change (td_inhibitors td') with (Z.land i (Z.lnot (mask r))). rewrite (proj2 (Z.eqb_neq _ _)) by done.
      transitivity (TD_IS_INHIBITED (Thread s i pf)); [done|]. rewrite Hi. apply anything_spec. by exists r.
  - split; [|done]. constructor; [done| |]; [intros r'; by rewrite Hh'|]. by rewrite (anything_ext _ (λ r', stands r' es)).
Qed.

Lemma move_tied e s es td : tied es td → TD_IS_INHIBITED td = false → s ≠ TDS_INHIBITED → (∀ r b, stands_step r b e = b) →
  tied (es ++ [e]) (with_state s td).
Proof.
  intros [Ho Hh Hi] Hn Hs He. destruct td as [s0 i pf]. constructor.
  - done.
  - intros r. rewrite stands_snoc, He. apply Hh.
  - rewrite (anything_ext _ (λ r, stands r es)) by (intros r; by rewrite stands_snoc). rewrite <- Hi, Hn. by apply bool_decide_false.
Qed.

Lemma event_tied e es td : tied es td → allowed e td = true → tied (es ++ [e]) (apply_event e td) ∧ td_state (apply_event e td) = after (td_state td) es e.
Proof.
  intros Ht Ha. destruct e as [r|r| | |]; cbn [apply_event].
  - split; [by apply inhibit_tied|by rewrite set_of_eq].
  - by apply release_tied.
  - split; [apply (move_tied Dispatch); try done; by apply negb_true_iff|done].
  - split; [apply (move_tied Enqueue); try done; by apply negb_true_iff|done].
  - split; [apply (move_tied Ready); try done; by apply negb_true_iff|done].
Qed.

Lemma reaches_tied es td : reaches es td → tied es td.
Proof.
  induction 1 as [pf|es td e _ IH Ha]; [|by apply event_tied]. constructor; [unfold only_reasons; simpl; lia|intros []; done|done].
Qed.

(** ** The code: holding a process *)

Definition P_WEXIT : Z := 0x02000.
Definition P_INMEM : Z := 0x10000000.

(** The flags, the count of holds (u_int), whether the caller owns p_mtx, and
    how often the sleepers on p_lock have been woken. *)
Record proc := Proc { p_flag : Z; p_lock : Z; p_mtx : bool; woken : nat }.

Definition with_lock (n : Z) (p : proc) : proc := Proc p.(p_flag) n p.(p_mtx) p.(woken).

(** A caller that already owns the mutex would wait for itself. *)
Definition PROC_LOCK : C proc () := λ p, if p.(p_mtx) then Timeout else Done () (Proc p.(p_flag) p.(p_lock) true p.(woken)).
Definition PROC_UNLOCK : C proc () := λ p, if p.(p_mtx) then Done () (Proc p.(p_flag) p.(p_lock) false p.(woken)) else UB.

Definition wakeup : C proc () := modifyS (λ p, Proc p.(p_flag) p.(p_lock) p.(p_mtx) (S p.(woken))).

Section Holds.
Context (faultin : C proc ()).

Definition _PHOLD : C proc () :=
  modifyS (λ p, with_lock (u32 (p.(p_lock) + 1)) p);;
  f ← gets p_flag; if Z.land f P_INMEM =? 0 then faultin else mret ().

Definition PHOLD : C proc () := PROC_LOCK;; _PHOLD;; PROC_UNLOCK.

Definition _PRELE : C proc () :=
  modifyS (λ p, with_lock (u32 (p.(p_lock) - 1)) p);;
  p ← getS; if c_true (Z.land p.(p_flag) P_WEXIT) && (p.(p_lock) =? 0) then wakeup else mret ().

Definition PRELE : C proc () := PROC_LOCK;; _PRELE;; PROC_UNLOCK.
End Holds.

(** faultin loads the process into memory. *)
Class Faultin (faultin : C proc ()) : Prop := {
  faultin_ok p : p.(p_mtx) = true → faultin p = Done () (Proc (Z.lor p.(p_flag) P_INMEM) p.(p_lock) true p.(woken)) }.

(** What is done with a process: holds and releases, the start of its exit,
    and the swapper, which takes a process that nobody holds out of memory. *)
Inductive deed := Hold | Drop | Exit | Swapout.

Definition deed_code (faultin : C proc ()) (d : deed) : C proc () :=
  match d with
  | Hold => PHOLD faultin
  | Drop => PRELE
  | Exit => modifyS (λ p, Proc (Z.lor p.(p_flag) P_WEXIT) p.(p_lock) p.(p_mtx) p.(woken))
  | Swapout => modifyS (λ p, if p.(p_lock) =? 0 then Proc (Z.ldiff p.(p_flag) P_INMEM) p.(p_lock) p.(p_mtx) p.(woken) else p)
  end.

Fixpoint deeds_code (faultin : C proc ()) (ds : list deed) : C proc () :=
  match ds with [] => mret () | d :: ds => deed_code faultin d;; deeds_code faultin ds end.

(** The same on three facts: the number of holds, whether the process is
    exiting, and the number of wakeups; releases need a hold. *)
Fixpoint holds_spec (n : Z) (exiting : bool) (wakes : nat) (ds : list deed) : option (Z * bool * nat) :=
  match ds with
  | [] => Some (n, exiting, wakes)
  | Hold :: ds => if n + 1 <? 2 ^ 32 then holds_spec (n + 1) exiting wakes ds else None
  | Drop :: ds => if 0 <? n then holds_spec (n - 1) exiting (if exiting && (n =? 1) then S wakes else wakes) ds else None
  | Exit :: ds => holds_spec n true wakes ds
  | Swapout :: ds => holds_spec n exiting wakes ds
  end.

Record held (p : proc) (n : Z) (exiting : bool) (wakes : nat) : Prop := {
  h_lock : p.(p_lock) = n ∧ 0 ≤ n < 2 ^ 32;
  h_exit : Z.testbit p.(p_flag) 13 = exiting;
  h_mtx : p.(p_mtx) = false;
  h_woken : p.(woken) = wakes;
  h_inmem : 0 < n → Z.testbit p.(p_flag) 28 = true }.

Section HoldsOk.
Context (faultin : C proc ()) `{!Faultin faultin}.

Lemma hold_ok p n x w : held p n x w → n + 1 < 2 ^ 32 → ∃ p', PHOLD faultin p = Done () p' ∧ held p' (n + 1) x w.
Proof.
  intros [[Hl Hn] Hx Hm Hw Hi] Hb. destruct p as [f l m k]. cbn [p_flag p_lock p_mtx woken] in *. subst l m k. unfold PHOLD, _PHOLD, PROC_LOCK, PROC_UNLOCK, modifyS, gets, with_lock, mbind, C_bind. simpl.
  pose proof (c_true_bit f 28 ltac:(lia)) as Hc. change (2 ^ 28) with P_INMEM in Hc. unfold c_true in Hc. rewrite u32_small by lia.
  destruct (Z.land f P_INMEM =? 0); simpl in Hc.
  - rewrite faultin_ok by done. simpl. eexists. split; [done|]. constructor; cbn [p_flag p_lock p_mtx woken]; try done; try lia.
    + rewrite Z.lor_spec, Hx. change (Z.testbit P_INMEM 13) with false. apply orb_false_r.
    + intros _. rewrite Z.lor_spec. change (Z.testbit P_INMEM 28) with true. apply orb_true_r.
  - eexists. split; [done|]. constructor; cbn [p_flag p_lock p_mtx woken]; try done; lia.
Qed.

Lemma drop_ok p n x w : held p n x w → 0 < n → ∃ p', PRELE p = Done () p' ∧ held p' (n - 1) x (if x && (n =? 1) then S w else w).
Proof.
  intros [[Hl Hn] Hx Hm Hw Hi] Hb. destruct p as [f l m k]. cbn [p_flag p_lock p_mtx woken] in *. subst l m k. unfold PRELE, _PRELE, PROC_LOCK, PROC_UNLOCK, modifyS, getS, wakeup, with_lock, mbind, C_bind. simpl.
  pose proof (c_true_bit f 13 ltac:(lia)) as Hc. change (2 ^ 13) with P_WEXIT in Hc. rewrite Hc, Hx, u32_small by lia.
  replace (n - 1 =? 0) with (n =? 1) by (destruct (Z.eqb_spec n 1), (Z.eqb_spec (n - 1) 0); lia).
  destruct (x && (n =? 1)); (eexists; split; [done|]; constructor; cbn [p_flag p_lock p_mtx woken]; try done; try lia; intros ?; apply Hi; lia).
Qed.

Lemma exit_ok p n x w : held p n x w → ∃ p', deed_code faultin Exit p = Done () p' ∧ held p' n true w.
Proof.
  intros [Hl Hx Hm Hw Hi]. eexists. split; [done|]. constructor; cbn [p_flag p_lock p_mtx woken]; try done.
  - rewrite Z.lor_spec. apply orb_true_r.
  - intros H. rewrite Z.lor_spec, Hi by done. done.
Qed.

Lemma swapout_ok p n x w : held p n x w → ∃ p', deed_code faultin Swapout p = Done () p' ∧ held p' n x w.
Proof.
  intros [[Hl Hn] Hx Hm Hw Hi]. eexists. split; [done|]. destruct (Z.eqb_spec (p_lock p) 0) as [E|E]; constructor; cbn [p_flag p_lock p_mtx woken]; try done; try lia.
  rewrite Z.ldiff_spec, Hx. apply andb_true_r.
Qed.

Lemma deeds_ok ds p n x w r : held p n x w → holds_spec n x w ds = Some r →
  ∃ p', deeds_code faultin ds p = Done () p' ∧ held p' r.1.1 r.1.2 r.2.
Proof.
  revert p n x w. induction ds as [|d ds IH]; intros p n x w Hh E; cbn [holds_spec deeds_code] in *.
  - injection E as <-. by exists p.
  - destruct d; cbn [deed_code].
    + destruct (Z.ltb_spec (n + 1) (2 ^ 32)) as [Hb|]; [|done]. destruct (hold_ok p n x w Hh Hb) as (p1 & E1 & H1). rewrite (bind_done _ _ _ _ _ E1). eauto.
    + destruct (Z.ltb_spec 0 n) as [Hb|]; [|done]. destruct (drop_ok p n x w Hh Hb) as (p1 & E1 & H1). rewrite (bind_done _ _ _ _ _ E1). eauto.
    + destruct (exit_ok p n x w Hh) as (p1 & E1 & H1). rewrite (bind_done _ _ _ _ _ E1). eauto.
    + destruct (swapout_ok p n x w Hh) as (p1 & E1 & H1). rewrite (bind_done _ _ _ _ _ E1). eauto.
Qed.
End HoldsOk.

(** ** Properties *)

(** C14. A thread that is only put on a CPU or a run queue while it is not
    inhibited: after any events, each test says whether its reason stands (the
    last event on the reason began it), the thread is inhibited exactly if
    some reason stands, so it never runs with one standing, and the next event
    leaves the state the history gives: only the release of the last standing
    reason makes it able to run. *)
Theorem thread_state_follows_reasons es td : reaches es td →
  (∀ r, c_true (test_of r td) = stands r es) ∧
  (TD_IS_INHIBITED td = true ↔ ∃ r, stands r es = true) ∧
  (TD_IS_RUNNING td = true → ∀ r, stands r es = false) ∧
  (∀ e, allowed e td = true → td_state (apply_event e td) = after (td_state td) es e).
Proof.
  intros [Ho Hh Hi]%reaches_tied. split_and!.
  - intros r. by rewrite test_has.
  - by rewrite Hi, anything_spec.
  - intros Hr r. destruct (stands r es) eqn:E; [|done]. apply bool_decide_eq_true in Hr.
    assert (Ht : TD_IS_INHIBITED td = true) by (rewrite Hi; apply anything_spec; eauto). apply bool_decide_eq_true in Ht. congruence.
  - intros e He. by apply (event_tied e es td).
Qed.

Definition sample_thread : thread := apply_event (Release Sleeping) (apply_event (Inhibit Swapped) (apply_event (Inhibit Sleeping) (apply_event Dispatch (Thread TDS_INACTIVE 0 0)))).

Lemma sample_reaches : reaches [Dispatch; Inhibit Sleeping; Inhibit Swapped; Release Sleeping] sample_thread.
Proof.
  change [Dispatch; Inhibit Sleeping; Inhibit Swapped; Release Sleeping]
    with (((([] ++ [Dispatch]) ++ [Inhibit Sleeping]) ++ [Inhibit Swapped]) ++ [Release Sleeping]).
  by repeat constructor.
Qed.

Lemma thread_state_follows_reasons_witness : c_true (TD_IS_SWAPPED sample_thread) = true ∧ TD_IS_INHIBITED sample_thread = true ∧
  td_state (TD_CLR_SWAPPED sample_thread) = TDS_CAN_RUN.
Proof.
  destruct (thread_state_follows_reasons _ _ sample_reaches) as (H1 & H2 & _ & H4). split_and!.
  - exact (H1 Swapped).
  - apply H2. by exists Swapped.
  - by apply (H4 (Release Swapped)).
Defined.

(** PHOLD and PRELE, with the swapper and the exit of the process in any
    order: as long as no release comes without its hold and there are fewer
    than 2^32 holds, p_lock counts the holds, a held process is in memory, the
    sleepers are woken exactly when an exiting process loses its last hold,
    and p_mtx is free after every call. *)
Theorem holds_keep_in_memory (faultin : C proc ()) `{!Faultin faultin} ds p n x w r : held p n x w → holds_spec n x w ds = Some r →
  ∃ p', deeds_code faultin ds p = Done () p' ∧ held p' r.1.1 r.1.2 r.2.
Proof. apply (deeds_ok faultin). Qed.

Definition load_proc : C proc () := modifyS (λ p, Proc (Z.lor p.(p_flag) P_INMEM) p.(p_lock) p.(p_mtx) p.(woken)).

#[export] Instance load_proc_faultin : Faultin load_proc.
Proof. constructor. intros [f l m k] H. simpl in H. by subst. Qed.

Lemma holds_keep_in_memory_witness : ∃ p', deeds_code load_proc [Hold; Swapout; Hold; Exit; Drop; Drop] (Proc 0 0 false 0) = Done () p' ∧ held p' 0 true 1.
Proof.
  destruct (holds_keep_in_memory load_proc [Hold; Swapout; Hold; Exit; Drop; Drop] (Proc 0 0 false 0) 0 false 0%nat (0, true, 1%nat)) as (p' & E & H);
    [by constructor|done|]. by exists p'.
Defined.

(** THREAD_NO_SLEEPING and THREAD_SLEEPING_OK set and clear one flag. *)
Theorem no_sleeping_flag td : Z.testbit td.(td_pflags) 8 = false →
  Z.testbit (td_pflags (THREAD_NO_SLEEPING td)) 8 = true ∧ THREAD_SLEEPING_OK (THREAD_NO_SLEEPING td) = td.
Proof.
  intros H. destruct td as [s i pf]. cbn [td_pflags] in H. split; [cbn [td_pflags THREAD_NO_SLEEPING]; rewrite Z.lor_spec; apply orb_true_r|]. unfold THREAD_SLEEPING_OK. f_equal. cbn [td_pflags THREAD_NO_SLEEPING].
  change TDP_NOSLEEPING with (2 ^ 8). apply Z.bits_inj'. intros k Hk. rewrite Z.land_spec, Z.lor_spec, Z.lnot_spec by done.
  destruct (decide (k = 8)) as [->|Hne]; [by rewrite H, Z.pow2_bits_true|]. rewrite Z.pow2_bits_false by lia. by rewrite orb_false_r, andb_true_r.
Qed.

Lemma no_sleeping_flag_witness : THREAD_SLEEPING_OK (THREAD_NO_SLEEPING sample_thread) = sample_thread.
Proof. by apply no_sleeping_flag. Defined.
