(* ===== verification/Codecs.v ===== *)
(** * Numbers packed into words

    The encodings of the system headers and their decoding: requests of ioctl
    (include/sys/ioccom.h), the status that wait gives (include/sys/wait.h),
    device numbers (include/sys/types.h), file types (include/sys/stat.h) and
    segment selectors (include/machine/segments.h). *)

From S2P Require Import Prelude.

(** ** The macros *)

Definition IOCPARM_SHIFT : Z := 13.
Definition IOCPARM_MASK : Z := Z.shiftl 1 IOCPARM_SHIFT - 1.
Definition IOCPARM_MAX : Z := Z.shiftl 1 IOCPARM_SHIFT.
(** The complement is an int, extended to the width of the request. *)
Definition IOCPARM_LEN (x : Z) : Z := Z.land (Z.shiftr x 16) IOCPARM_MASK.
Definition IOCBASECMD (x : Z) : Z := Z.land x (u64 (Z.lnot (Z.shiftl IOCPARM_MASK 16))).
Definition IOCGROUP (x : Z) : Z := Z.land (Z.shiftr x 8) 0xff.
Definition IOC_VOID : Z := 0x20000000.
Definition IOC_OUT : Z := 0x40000000.
Definition IOC_IN : Z := 0x80000000.
Definition IOC_INOUT : Z := Z.lor IOC_IN IOC_OUT.
Definition IOC_DIRMASK : Z := Z.lor (Z.lor IOC_VOID IOC_OUT) IOC_IN.
Definition _IOC (inout group num len : Z) : Z :=
  u64 (Z.lor (Z.lor (Z.lor inout (Z.shiftl (Z.land len IOCPARM_MASK) 16)) (Z.shiftl group 8)) num).
Definition _IO (g n : Z) : Z := _IOC IOC_VOID g n 0.
Definition _IOWINT (g n : Z) : Z := _IOC IOC_VOID g n 4.
Definition _IOR (g n t : Z) : Z := _IOC IOC_OUT g n t.
Definition _IOW (g n t : Z) : Z := _IOC IOC_IN g n t.
Definition _IOWR (g n t : Z) : Z := _IOC IOC_INOUT g n t.

Definition WCOREFLAG : Z := 128.
Definition _WSTATUS (x : Z) : Z := Z.land x 127.
Definition _WSTOPPED : Z := 127.
Definition WIFSTOPPED (x : Z) : bool := _WSTATUS x =? _WSTOPPED.
Definition WSTOPSIG (x : Z) : Z := Z.shiftr x 8.
Definition WIFSIGNALED (x : Z) : bool := negb (_WSTATUS x =? _WSTOPPED) && negb (_WSTATUS x =? 0).
Definition WTERMSIG (x : Z) : Z := _WSTATUS x.
Definition WIFEXITED (x : Z) : bool := _WSTATUS x =? 0.
Definition WEXITSTATUS (x : Z) : Z := Z.shiftr x 8.
Definition WIFCONTINUED (x : Z) : bool := x =? 0x13.
Definition WCOREDUMP (x : Z) : Z := Z.land x WCOREFLAG.
Definition W_EXITCODE (ret sig : Z) : Z := Z.lor (Z.shiftl ret 8) sig.
Definition W_STOPCODE (sig : Z) : Z := Z.lor (Z.shiftl sig 8) _WSTOPPED.

Definition major (x : Z) : Z := i32 (Z.land (Z.shiftr (u32 x) 8) 0xff).
Definition minor (x : Z) : Z := i32 (Z.land x 0xffff00ff).
Definition makedev (x y : Z) : Z := u32 (Z.lor (Z.shiftl x 8) y).

Definition S_IFMT : Z := 0xf000.
Definition S_ISDIR (m : Z) : bool := Z.land m S_IFMT =? 0x4000.
Definition S_ISCHR (m : Z) : bool := Z.land m S_IFMT =? 0x2000.
Definition S_ISBLK (m : Z) : bool := Z.land m S_IFMT =? 0x6000.
Definition S_ISREG (m : Z) : bool := Z.land m S_IFMT =? 0x8000.
Definition S_ISFIFO (m : Z) : bool := Z.land m S_IFMT =? 0x1000.
Definition S_ISLNK (m : Z) : bool := Z.land m S_IFMT =? 0xa000.
Definition S_ISSOCK (m : Z) : bool := Z.land m S_IFMT =? 0xc000.
Definition S_ISWHT (m : Z) : bool := Z.land m S_IFMT =? 0xe000.

Definition SEL_RPL_MASK : Z := 3.
Definition SEL_LDT : Z := 4.
Definition ISPL (s : Z) : Z := Z.land s 3.
Definition ISLDT (s : Z) : Z := Z.land s SEL_LDT.
Definition IDXSEL (s : Z) : Z := Z.land (Z.shiftr s 3) 0x1fff.
Definition LSEL (s r : Z) : Z := Z.lor (Z.lor (Z.shiftl s 3) SEL_LDT) r.
Definition GSEL (s r : Z) : Z := Z.lor (Z.shiftl s 3) r.

(** ** Fields *)

(** A field of a word: the [w] bits from bit [k] on. *)
Lemma field_div_mod x k w : 0 ≤ k → 0 ≤ w → Z.land (Z.shiftr x k) (Z.ones w) = x / 2 ^ k mod 2 ^ w.
Proof. intros. by rewrite Z.land_ones, Z.shiftr_div_pow2 by lia. Qed.

Lemma join_field q k f : 0 ≤ k → 0 ≤ f < 2 ^ k → Z.lor (Z.shiftl q k) f = q * 2 ^ k + f.
Proof. intros. rewrite Z.shiftl_mul_pow2 by lia. by apply lor_low. Qed.

Ltac div_mod := Z.div_mod_to_equations; lia.

(** ** Requests *)

Definition direction (d : Z) : Prop := d = IOC_VOID ∨ d = IOC_OUT ∨ d = IOC_IN ∨ d = IOC_INOUT.

Lemma direction_mul d : direction d → ∃ q, d = q * 2 ^ 29 ∧ 1 ≤ q < 8.
Proof. intros [->|[->|[->| ->]]]; [exists 1|exists 2|exists 4|exists 6]; done. Qed.

Lemma ioc_value d g n l : direction d → 0 ≤ g < 2 ^ 8 → 0 ≤ n < 2 ^ 8 → 0 ≤ l < 2 ^ 13 →
  _IOC d g n l = d + l * 2 ^ 16 + g * 2 ^ 8 + n.
Proof.
  intros (q & -> & Hq)%direction_mul Hg Hn Hl. unfold _IOC. change IOCPARM_MASK with (Z.ones 13). rewrite Z.land_ones, Z.mod_small by lia.
  rewrite !Z.shiftl_mul_pow2 by lia. rewrite (lor_low 29 q (l * 2 ^ 16)) by lia.
  replace (q * 2 ^ 29 + l * 2 ^ 16) with ((q * 2 ^ 13 + l) * 2 ^ 16) by lia. rewrite (lor_low 16 _ (g * 2 ^ 8)) by lia.
  replace ((q * 2 ^ 13 + l) * 2 ^ 16 + g * 2 ^ 8) with (((q * 2 ^ 13 + l) * 2 ^ 8 + g) * 2 ^ 8) by lia. rewrite (lor_low 8 _ n) by lia.
  rewrite u64_small; lia.
Qed.

Lemma ioc_decode d g n l : direction d → 0 ≤ g < 2 ^ 8 → 0 ≤ n < 2 ^ 8 → 0 ≤ l < 2 ^ 13 →
  let x := _IOC d g n l in
  IOCPARM_LEN x = l ∧ IOCGROUP x = g ∧ Z.land x 0xff = n ∧ Z.land x IOC_DIRMASK = d ∧ IOCBASECMD x = _IOC d g n 0.
Proof.
  intros Hd Hg Hn Hl x. pose proof (ioc_value d g n l Hd Hg Hn Hl) as Ex. rewrite (ioc_value d g n 0) by done || lia. unfold x. rewrite Ex.
  destruct (direction_mul d Hd) as (q & -> & Hq). split_and!.
  - unfold IOCPARM_LEN. change IOCPARM_MASK with (Z.ones 13). rewrite field_div_mod by lia. div_mod.
  - unfold IOCGROUP. change 0xff with (Z.ones 8). rewrite field_div_mod by lia. div_mod.
  - change 0xff with (Z.ones 8). rewrite Z.land_ones by lia. div_mod.
  - change IOC_DIRMASK with (2 ^ 29 * 7 + 0). replace (q * 2 ^ 29 + l * 2 ^ 16 + g * 2 ^ 8 + n) with (2 ^ 29 * q + (l * 2 ^ 16 + g * 2 ^ 8 + n)) by lia.
    rewrite land_split by lia. rewrite Z.land_0_r. change 7 with (Z.ones 3). rewrite Z.land_ones, Z.mod_small by lia. lia.
  - unfold IOCBASECMD. change (u64 (Z.lnot (Z.shiftl IOCPARM_MASK 16))) with (2 ^ 29 * Z.ones 35 + Z.ones 16).
    replace (q * 2 ^ 29 + l * 2 ^ 16 + g * 2 ^ 8 + n) with (2 ^ 29 * q + (2 ^ 16 * l + (g * 2 ^ 8 + n))) by lia.
    rewrite (land_split 29) by (change (Z.ones 16) with (2 ^ 16 - 1); lia). replace (Z.ones 16) with (2 ^ 16 * 0 + Z.ones 16) by done.
    rewrite (land_split 16) by (change (Z.ones 16) with (2 ^ 16 - 1); lia). rewrite Z.land_0_r, !Z.land_ones, !Z.mod_small by lia. lia.
Qed.

(** ** Status of a process *)

Lemma wstatus_mod x : _WSTATUS x = x mod 2 ^ 7.
Proof. unfold _WSTATUS. change 127 with (Z.ones 7). by rewrite Z.land_ones. Qed.

Lemma exit_value ret sig : 0 ≤ sig < 2 ^ 8 → W_EXITCODE ret sig = ret * 2 ^ 8 + sig.
Proof. apply join_field. lia. Qed.

(** How a process can end or stop: exit, a signal with or without a core
    dump, a stop. *)
Inductive ending := Exited (ret : Z) | Killed (sig : Z) (core : bool) | Stopped (sig : Z).

Definition encode (e : ending) : Z :=
  match e with
  | Exited ret => W_EXITCODE ret 0
  | Killed sig core => W_EXITCODE 0 (if core then Z.lor sig WCOREFLAG else sig)
  | Stopped sig => W_STOPCODE sig
  end.

Definition decode (x : Z) : option ending :=
  if WIFEXITED x then Some (Exited (WEXITSTATUS x))
  else if WIFSIGNALED x then Some (Killed (WTERMSIG x) (c_true (WCOREDUMP x)))
  else if WIFSTOPPED x then Some (Stopped (WSTOPSIG x)) else None.

Definition ending_ok (e : ending) : Prop :=
  match e with Exited ret => 0 ≤ ret < 2 ^ 8 | Killed sig _ => 0 < sig < 127 | Stopped sig => 0 < sig < 2 ^ 8 end.

Lemma core_bit x : c_true (WCOREDUMP x) = Z.testbit x 7.
Proof.
  unfold WCOREDUMP, c_true. destruct (Z.testbit x 7) eqn:E.
  - apply negb_true_iff, Z.eqb_neq. intros E0. assert (Hb : Z.testbit (Z.land x WCOREFLAG) 7 = true) by (by rewrite Z.land_spec, E).
    rewrite E0 in Hb. done.
  - apply negb_false_iff, Z.eqb_eq, Z.bits_inj'. intros i Hi. rewrite Z.land_spec, Z.bits_0. change WCOREFLAG with (2 ^ 7).
    rewrite Z.pow2_bits_eqb by lia. destruct (Z.eqb_spec 7 i) as [<-|]; [by rewrite E|apply andb_false_r].
Qed.

Lemma lor_core sig : 0 ≤ sig < 2 ^ 7 → Z.lor sig WCOREFLAG = 2 ^ 7 + sig.
Proof. intros Hs. rewrite Z.lor_comm. change WCOREFLAG with (1 * 2 ^ 7). by rewrite lor_low by lia. Qed.

Lemma decode_encode e : ending_ok e → decode (encode e) = Some e.
Proof.
  intros He. unfold decode, WIFEXITED, WIFSIGNALED, WIFSTOPPED, WEXITSTATUS, WTERMSIG, WSTOPSIG, _WSTOPPED. rewrite core_bit, !wstatus_mod.
  destruct e as [ret|sig core|sig]; cbn [encode ending_ok] in *.
  - rewrite exit_value by lia. replace ((ret * 2 ^ 8 + 0) mod 2 ^ 7) with 0 by div_mod. rewrite Z.shiftr_div_pow2 by lia. simpl. do 2 f_equal. div_mod.
  - assert (Ev : W_EXITCODE 0 (if core then Z.lor sig WCOREFLAG else sig) = 2 ^ 7 * Z.b2z core + sig).
    { rewrite exit_value by (destruct core; [rewrite lor_core by lia|]; lia). destruct core; [rewrite lor_core by lia|]; simpl Z.b2z; lia. }
    rewrite Ev. replace ((2 ^ 7 * Z.b2z core + sig) mod 2 ^ 7) with sig by (rewrite Z.add_comm, Z.mul_comm, Z.mod_add by lia; symmetry; apply Z.mod_small; lia).
    rewrite !(proj2 (Z.eqb_neq sig _)) by lia. cbn [negb andb]. rewrite split_testbit by lia. by destruct core.
  - unfold W_STOPCODE, _WSTOPPED. rewrite join_field by lia. replace ((sig * 2 ^ 8 + 127) mod 2 ^ 7) with 127 by div_mod.
    rewrite Z.shiftr_div_pow2 by lia. cbn [Z.eqb Pos.eqb negb andb]. do 2 f_equal. div_mod.
Qed.

(** ** Device numbers *)

Lemma u32_lor a b : u32 (Z.lor a b) = Z.lor (u32 a) (u32 b).
Proof. unfold u32. rewrite <- !Z.land_ones by lia. apply Z.land_lor_distr_l. Qed.

Lemma major_eq d : 0 ≤ d < 2 ^ 32 → major d = d / 2 ^ 8 mod 2 ^ 8.
Proof.
  intros Hd. unfold major. change 0xff with (Z.ones 8). rewrite field_div_mod, u32_small by lia. apply i32_small. div_mod.
Qed.

Lemma minor_mask h m l : 0 ≤ h < 2 ^ 16 → 0 ≤ m < 2 ^ 8 → 0 ≤ l < 2 ^ 8 →
  Z.land (h * 2 ^ 16 + m * 2 ^ 8 + l) 0xffff00ff = h * 2 ^ 16 + l.
Proof.
  intros Hh Hm Hl. change 0xffff00ff with (2 ^ 16 * Z.ones 16 + (2 ^ 8 * 0 + Z.ones 8)).
  replace (h * 2 ^ 16 + m * 2 ^ 8 + l) with (2 ^ 16 * h + (2 ^ 8 * m + l)) by lia.
  rewrite (land_split 16) by (change (Z.ones 8) with 255; lia). rewrite (land_split 8) by (change (Z.ones 8) with 255; lia).
  rewrite Z.land_0_r, !Z.land_ones, !Z.mod_small by lia. lia.
Qed.

Lemma makedev_value x h l : 0 ≤ x < 2 ^ 8 → 0 ≤ h < 2 ^ 16 → 0 ≤ l < 2 ^ 8 →
  makedev x (i32 (h * 2 ^ 16 + l)) = h * 2 ^ 16 + x * 2 ^ 8 + l.
Proof.
  intros Hx Hh Hl. unfold makedev. rewrite u32_lor, u32_i32, Z.shiftl_mul_pow2, !u32_small by lia.
  rewrite <- (lor_low 16 h l), Z.lor_assoc, (Z.lor_comm (x * 2 ^ 8)), (lor_low 16) by lia.
  replace (h * 2 ^ 16 + x * 2 ^ 8) with ((h * 2 ^ 8 + x) * 2 ^ 8) by lia. rewrite (lor_low 8) by lia. lia.
Qed.

Lemma three_parts d : 0 ≤ d < 2 ^ 32 → ∃ h m l, d = h * 2 ^ 16 + m * 2 ^ 8 + l ∧ 0 ≤ h < 2 ^ 16 ∧ 0 ≤ m < 2 ^ 8 ∧ 0 ≤ l < 2 ^ 8.
Proof. intros Hd. exists (d / 2 ^ 16), (d / 2 ^ 8 mod 2 ^ 8), (d mod 2 ^ 8). div_mod. Qed.

Lemma makedev_major_minor d : 0 ≤ d < 2 ^ 32 → makedev (major d) (minor d) = d.
Proof.
  intros Hd. destruct (three_parts d Hd) as (h & m & l & -> & Hh & Hm & Hl). rewrite major_eq by done.
  unfold minor. rewrite minor_mask by done. replace ((h * 2 ^ 16 + m * 2 ^ 8 + l) / 2 ^ 8 mod 2 ^ 8) with m by div_mod. by apply makedev_value.
Qed.

Lemma major_minor_makedev x y : 0 ≤ x < 2 ^ 8 → - 2 ^ 31 ≤ y < 2 ^ 31 → y / 2 ^ 8 mod 2 ^ 8 = 0 →
  major (makedev x y) = x ∧ minor (makedev x y) = y.
Proof.
  intros Hx Hy H0. assert (Ey : ∃ h l, i32 (h * 2 ^ 16 + l) = y ∧ 0 ≤ h < 2 ^ 16 ∧ 0 ≤ l < 2 ^ 8).
  { exists (u32 y / 2 ^ 16), (y mod 2 ^ 8). split; [|unfold u32; div_mod]. rewrite <- (i32_small y Hy) at 3. rewrite <- (i32_u32 y). f_equal. unfold u32. div_mod. }
  destruct Ey as (h & l & E & Hh & Hl). rewrite <- E at 1 2 3. rewrite makedev_value by done. split.
  - rewrite major_eq by lia. div_mod.
  - unfold minor. by rewrite minor_mask.
Qed.

(** ** File types and selectors *)

Definition file_types : list (Z * (Z → bool)) :=
  [(0x1000, S_ISFIFO); (0x2000, S_ISCHR); (0x4000, S_ISDIR); (0x6000, S_ISBLK); (0x8000, S_ISREG); (0xa000, S_ISLNK); (0xc000, S_ISSOCK); (0xe000, S_ISWHT)].

Lemma type_of_mode t p : 0 ≤ t < 2 ^ 4 → 0 ≤ p < 2 ^ 12 → Z.land (Z.lor (t * 2 ^ 12) p) S_IFMT = t * 2 ^ 12.
Proof.
  intros Ht Hp. rewrite lor_low by lia. change S_IFMT with (2 ^ 12 * Z.ones 4 + 0). replace (t * 2 ^ 12 + p) with (2 ^ 12 * t + p) by lia.
  rewrite land_split by lia. rewrite Z.land_0_r, Z.land_ones, Z.mod_small by lia. lia.
Qed.

Lemma file_type_tests t1 f1 t2 f2 p : (t1, f1) ∈ file_types → (t2, f2) ∈ file_types → 0 ≤ p < 2 ^ 12 → f2 (Z.lor t1 p) = (t1 =? t2).
Proof.
  intros H1 H2 Hp. assert (E1 : ∃ t, t1 = t * 2 ^ 12 ∧ 0 ≤ t < 2 ^ 4).
  { exists (t1 / 2 ^ 12). repeat (apply elem_of_cons in H1 as [[= -> ->]|H1]; [done|]). by apply elem_of_nil in H1. }
  destruct E1 as (t & -> & Ht).
  repeat (apply elem_of_cons in H2 as [[= -> ->]|H2];
    [unfold S_ISFIFO, S_ISCHR, S_ISDIR, S_ISBLK, S_ISREG, S_ISLNK, S_ISSOCK, S_ISWHT; by rewrite type_of_mode|]). by apply elem_of_nil in H2.
Qed.

Lemma selector_value s r : 0 ≤ r < 4 → GSEL s r = s * 8 + r ∧ LSEL s r = s * 8 + 4 + r.
Proof.
  intros Hr. unfold GSEL, LSEL, SEL_LDT. split; [by rewrite join_field by lia|]. rewrite join_field by lia.
  replace (s * 2 ^ 3 + 4) with ((s * 2 + 1) * 2 ^ 2) by lia. rewrite lor_low by lia. lia.
Qed.

Lemma ldt_bit q r : 0 ≤ r < 4 → ISLDT (4 * q + r) = if Z.odd q then 4 else 0.
Proof.
  intros Hr. unfold ISLDT, SEL_LDT. change (Z.land (4 * q + r) 4) with (Z.land (2 ^ 2 * q + r) (2 ^ 2 * 1 + 0)). rewrite (land_split 2 q r 1 0) by lia. rewrite Z.land_0_r.
  change (Z.land q 1) with (Z.land q (Z.ones 1)). rewrite Z.land_ones, Zmod_odd by lia. by destruct (Z.odd q).
Qed.

Lemma selector_fields s r : 0 ≤ s < 2 ^ 13 → 0 ≤ r < 4 → ∀ x, x = GSEL s r ∨ x = LSEL s r →
  IDXSEL x = s ∧ ISPL x = r ∧ ISLDT x = if x =? GSEL s r then 0 else 4.
Proof.
  intros Hs Hr x Hx. destruct (selector_value s r Hr) as [Eg El]. rewrite Eg, El in Hx. rewrite Eg. unfold IDXSEL, ISPL.
  change 0x1fff with (Z.ones 13). change 3 with (Z.ones 2) at 2. rewrite field_div_mod, Z.land_ones by lia.
  split_and!; [div_mod|div_mod|]. destruct Hx as [-> | ->].
  - rewrite Z.eqb_refl. replace (s * 8 + r) with (4 * (2 * s) + r) by lia. rewrite ldt_bit by done. by rewrite Z.odd_mul.
  - rewrite (proj2 (Z.eqb_neq _ _)) by lia. replace (s * 8 + 4 + r) with (4 * (2 * s + 1) + r) by lia. rewrite ldt_bit by done.
    by rewrite Z.odd_add, Z.odd_mul.
Qed.

(** ** Properties *)

(** A request made by _IOC is taken apart again: the size of the parameter,
    the group, the number and the direction come back, and IOCBASECMD is the
    request without its size.  Sizes take 13 bits. *)
Theorem ioctl_roundtrip d g n l : direction d → 0 ≤ g < 2 ^ 8 → 0 ≤ n < 2 ^ 8 → 0 ≤ l < IOCPARM_MAX →
  let x := _IOC d g n l in
  IOCPARM_LEN x = l ∧ IOCGROUP x = g ∧ Z.land x 0xff = n ∧ Z.land x IOC_DIRMASK = d ∧ IOCBASECMD x = _IOC d g n 0.
Proof. apply ioc_decode. Qed.

Lemma ioctl_roundtrip_witness : IOCPARM_LEN (_IOWR 0x66 127 16) = 16 ∧ IOCGROUP (_IOWR 0x66 127 16) = 0x66.
Proof.
  destruct (ioctl_roundtrip IOC_INOUT 0x66 127 16) as (H1 & H2 & _); [by right; right; right|lia|lia|by split|by split].
Defined.

(** The status words that W_EXITCODE and W_STOPCODE make are read back by the
    tests and accessors of wait.h: an exit with its code, a signal with its
    number and the core dump flag, a stop with its signal. *)
Theorem wait_status_roundtrip e : ending_ok e → decode (encode e) = Some e.
Proof. apply decode_encode. Qed.

Lemma wait_status_roundtrip_witness : decode 0x8b = Some (Killed 11 true) ∧ decode 0x137f = Some (Stopped 19).
Proof.
  split; [apply (wait_status_roundtrip (Killed 11 true)); simpl; lia|apply (wait_status_roundtrip (Stopped 19)); simpl; lia].
Defined.

(** The status of a process that was continued counts as one that ended by
    signal 19, too: WIFSIGNALED does not leave it out. *)
Theorem continued_is_signaled x : WIFCONTINUED x = true → WIFSIGNALED x = true ∧ WTERMSIG x = 19.
Proof. intros H. apply Z.eqb_eq in H. by subst x. Qed.

Lemma continued_is_signaled_witness : WIFSIGNALED 0x13 = true ∧ WTERMSIG 0x13 = 19.
Proof. by apply continued_is_signaled. Defined.

(** Device numbers: makedev is the inverse of major and minor, on every
    dev_t and on every pair of an 8-bit major and a minor that leaves bits 8
    to 15 free; minors with the top bit set are negative. *)
Theorem device_number_roundtrip d x y : 0 ≤ d < 2 ^ 32 → 0 ≤ x < 2 ^ 8 → - 2 ^ 31 ≤ y < 2 ^ 31 → y / 2 ^ 8 mod 2 ^ 8 = 0 →
  makedev (major d) (minor d) = d ∧ major (makedev x y) = x ∧ minor (makedev x y) = y.
Proof. intros Hd Hx Hy H0. split; [by apply makedev_major_minor|by apply major_minor_makedev]. Qed.

Lemma device_number_roundtrip_witness : makedev (major 0x12345678) (minor 0x12345678) = 0x12345678 ∧ minor (makedev 5 (-65536)) = -65536.
Proof. destruct (device_number_roundtrip 0x12345678 5 (-65536)) as (H1 & _ & H3); [lia|lia|lia|done|]. by split. Defined.

(** The tests of stat.h tell the eight file types apart, whatever the
    permission bits. *)
Theorem file_types_disjoint t1 f1 t2 f2 p : (t1, f1) ∈ file_types → (t2, f2) ∈ file_types → 0 ≤ p < 2 ^ 12 → f2 (Z.lor t1 p) = (t1 =? t2).
Proof. apply file_type_tests. Qed.

Lemma file_types_disjoint_witness : S_ISREG 0x81a4 = true ∧ S_ISDIR 0x81a4 = false.
Proof.
  split; [apply (file_types_disjoint 0x8000 S_ISREG 0x8000 S_ISREG 0x1a4)|apply (file_types_disjoint 0x8000 S_ISREG 0x4000 S_ISDIR 0x1a4)];
    try lia; unfold file_types; repeat ((by left) || right).
Defined.

(** Selectors: index, privilege level and table come back from GSEL and LSEL. *)
Theorem selector_roundtrip s r : 0 ≤ s < 2 ^ 13 → 0 ≤ r < 4 → ∀ x, x = GSEL s r ∨ x = LSEL s r →
  IDXSEL x = s ∧ ISPL x = r ∧ ISLDT x = if x =? GSEL s r then 0 else 4.
Proof. apply selector_fields. Qed.

Lemma selector_roundtrip_witness : IDXSEL (GSEL 4 3) = 4 ∧ ISPL (GSEL 4 3) = 3.
Proof. destruct (selector_roundtrip 4 3 ltac:(lia) ltac:(lia) (GSEL 4 3)) as (H1 & H2 & _); [by left|by split]. Defined.
