(* ===== verification/Vmparam.v ===== *)
(** * The layout of virtual memory

    include/machine/pmap.h, vmparam.h and param.h: addresses from the indices
    of the four levels of page tables, the regions of the address space, the
    direct map of physical memory, and rounding to pages. *)

From S2P Require Import Prelude.
From S2P Require Import BitSet.
From S2P Require Import Libkern.

(** ** The macros *)

Definition PAGE_SHIFT : Z := 12.
Definition PAGE_SIZE : Z := Z.shiftl 1 PAGE_SHIFT.
Definition PAGE_MASK : Z := PAGE_SIZE - 1.
Definition sizeof_entry : Z := 8.
Definition NPTEPG : Z := PAGE_SIZE / sizeof_entry.
Definition NPDEPG : Z := PAGE_SIZE / sizeof_entry.
Definition NPDPEPG : Z := PAGE_SIZE / sizeof_entry.
Definition NPML4EPG : Z := PAGE_SIZE / sizeof_entry.
Definition PDRSHIFT : Z := 21.
Definition NBPDR : Z := Z.shiftl 1 PDRSHIFT.
Definition PDRMASK : Z := NBPDR - 1.
Definition PDPSHIFT : Z := 30.
Definition NBPDP : Z := Z.shiftl 1 PDPSHIFT.
Definition PDPMASK : Z := NBPDP - 1.
Definition PML4SHIFT : Z := 39.

(** The masks are ints; their complement is extended to 64 bits. *)
Definition round_page (x : Z) : Z := Z.land (u64 (x + PAGE_MASK)) (u64 (Z.lnot PAGE_MASK)).
Definition trunc_page (x : Z) : Z := Z.land x (u64 (Z.lnot PAGE_MASK)).
Definition trunc_2mpage (x : Z) : Z := Z.land x (u64 (Z.lnot PDRMASK)).
Definition round_2mpage (x : Z) : Z := Z.land (u64 (x + PDRMASK)) (u64 (Z.lnot PDRMASK)).
Definition trunc_1gpage (x : Z) : Z := Z.land x (u64 (Z.lnot PDPMASK)).
Definition atop (x : Z) : Z := Z.shiftr x PAGE_SHIFT.
Definition ptoa (x : Z) : Z := u64 (Z.shiftl x PAGE_SHIFT).

Definition level (i sh : Z) : Z := u64 (Z.shiftl i sh).
Definition UVADDR (l4 l3 l2 l1 : Z) : Z :=
  Z.lor (Z.lor (Z.lor (level l4 PML4SHIFT) (level l3 PDPSHIFT)) (level l2 PDRSHIFT)) (level l1 PAGE_SHIFT).
Definition KVADDR (l4 l3 l2 l1 : Z) : Z :=
  Z.lor (Z.lor (Z.lor (Z.lor (level (u64 (-1)) 47) (level l4 PML4SHIFT)) (level l3 PDPSHIFT)) (level l2 PDRSHIFT)) (level l1 PAGE_SHIFT).

Definition NUPML4E : Z := NPML4EPG / 2.
Definition NDMPML4E : Z := 2.
Definition PML4PML4I : Z := NPML4EPG / 2.
Definition KPML4I : Z := NPML4EPG - 1.
(** The divisor is not 0. *)
Definition DMPML4I : Z := match rounddown (KPML4I - NDMPML4E) NDMPML4E with Some i => i | None => 0 end.
Definition KPDPI : Z := NPDPEPG - 2.

Definition addr_PTmap : Z := KVADDR PML4PML4I 0 0 0.
Definition addr_PDmap : Z := KVADDR PML4PML4I PML4PML4I 0 0.
Definition addr_PDPmap : Z := KVADDR PML4PML4I PML4PML4I PML4PML4I 0.
Definition addr_PML4map : Z := KVADDR PML4PML4I PML4PML4I PML4PML4I PML4PML4I.
Definition addr_PML4pml4e : Z := u64 (addr_PML4map + PML4PML4I * sizeof_entry).

Definition VM_MAX_KERNEL_ADDRESS : Z := KVADDR KPML4I (NPDPEPG - 1) (NPDEPG - 1) (NPTEPG - 1).
Definition VM_MIN_KERNEL_ADDRESS : Z := KVADDR KPML4I (NPDPEPG - 512) 0 0.
Definition DMAP_MIN_ADDRESS : Z := KVADDR DMPML4I 0 0 0.
Definition DMAP_MAX_ADDRESS : Z := KVADDR (DMPML4I + NDMPML4E) 0 0 0.
Definition KERNBASE : Z := KVADDR KPML4I KPDPI 0 0.
Definition UPT_MAX_ADDRESS : Z := KVADDR PML4PML4I PML4PML4I PML4PML4I PML4PML4I.
Definition UPT_MIN_ADDRESS : Z := KVADDR PML4PML4I 0 0 0.
Definition VM_MAXUSER_ADDRESS : Z := UVADDR NUPML4E 0 0 0.
Definition SHAREDPAGE : Z := u64 (VM_MAXUSER_ADDRESS - PAGE_SIZE).

Definition PHYS_TO_DMAP (x : Z) : Z := Z.lor x DMAP_MIN_ADDRESS.
Definition DMAP_TO_PHYS (x : Z) : Z := Z.land x (u64 (Z.lnot DMAP_MIN_ADDRESS)).

(** ** Addresses and indices *)

Definition index (i : Z) : Prop := 0 ≤ i < NPTEPG.

Lemma level_value i sh : 0 ≤ i < 2 ^ 9 → 0 ≤ sh ≤ 39 → level i sh = i * 2 ^ sh.
Proof.
  intros Hi Hs. unfold level. rewrite Z.shiftl_mul_pow2, u64_small; [done| |lia]. assert (0 < 2 ^ sh) by (apply Z.pow_pos_nonneg; lia).
  assert (2 ^ sh ≤ 2 ^ 39) by (apply Z.pow_le_mono_r; lia). nia.
Qed.

Lemma page_value l4 l3 l2 l1 : index l4 → index l3 → index l2 → index l1 →
  UVADDR l4 l3 l2 l1 = l4 * 2 ^ 39 + l3 * 2 ^ 30 + l2 * 2 ^ 21 + l1 * 2 ^ 12.
Proof.
  unfold index. change NPTEPG with (2 ^ 9). intros H4 H3 H2 H1. unfold UVADDR, PML4SHIFT, PDPSHIFT, PDRSHIFT, PAGE_SHIFT. rewrite !level_value by lia.
  rewrite (lor_low 39) by lia. replace (l4 * 2 ^ 39 + l3 * 2 ^ 30) with ((l4 * 2 ^ 9 + l3) * 2 ^ 30) by lia. rewrite (lor_low 30) by lia.
  replace ((l4 * 2 ^ 9 + l3) * 2 ^ 30 + l2 * 2 ^ 21) with (((l4 * 2 ^ 9 + l3) * 2 ^ 9 + l2) * 2 ^ 21) by lia. rewrite (lor_low 21) by lia. lia.
Qed.

(** In the upper half, bit 47 is already in the index of the fourth level. *)
Lemma kernel_value l4 l3 l2 l1 : index l4 → 2 ^ 8 ≤ l4 → index l3 → index l2 → index l1 →
  KVADDR l4 l3 l2 l1 = 2 ^ 64 - 2 ^ 48 + UVADDR l4 l3 l2 l1.
Proof.
  intros H4 H8 H3 H2 H1. rewrite page_value by done. unfold index in *. change NPTEPG with (2 ^ 9) in *.
  assert (E4 : Z.lor (level (u64 (-1)) 47) (level l4 PML4SHIFT) = 2 ^ 64 - 2 ^ 48 + l4 * 2 ^ 39).
  { unfold PML4SHIFT. rewrite (level_value l4) by lia.
    replace (l4 * 2 ^ 39) with (1 * 2 ^ 47 + (l4 - 2 ^ 8) * 2 ^ 39) by lia. rewrite <- (lor_low 47 1 ((l4 - 2 ^ 8) * 2 ^ 39)), Z.lor_assoc by lia.
    change (Z.lor (level (u64 (-1)) 47) (1 * 2 ^ 47)) with ((2 ^ 17 - 1) * 2 ^ 47). rewrite lor_low, (lor_low 47 1) by lia. lia. }
  unfold KVADDR, PDPSHIFT, PDRSHIFT, PAGE_SHIFT. rewrite E4, !level_value by lia.
  replace (2 ^ 64 - 2 ^ 48 + l4 * 2 ^ 39) with ((2 ^ 25 - 2 ^ 9 + l4) * 2 ^ 39) by lia. rewrite (lor_low 39) by lia.
  replace ((2 ^ 25 - 2 ^ 9 + l4) * 2 ^ 39 + l3 * 2 ^ 30) with (((2 ^ 25 - 2 ^ 9 + l4) * 2 ^ 9 + l3) * 2 ^ 30) by lia. rewrite (lor_low 30) by lia.
  replace (((2 ^ 25 - 2 ^ 9 + l4) * 2 ^ 9 + l3) * 2 ^ 30 + l2 * 2 ^ 21) with ((((2 ^ 25 - 2 ^ 9 + l4) * 2 ^ 9 + l3) * 2 ^ 9 + l2) * 2 ^ 21) by lia.
  rewrite (lor_low 21) by lia. lia.
Qed.

(** The index of level [sh] in an address, and whether the bits above bit 47
    repeat it, as the processor demands. *)
Definition index_at (va sh : Z) : Z := Z.land (Z.shiftr va sh) (NPTEPG - 1).
Definition canonical (va : Z) : Prop := 0 ≤ va < 2 ^ 47 ∨ 2 ^ 64 - 2 ^ 47 ≤ va < 2 ^ 64.

Lemma index_at_eq va sh : 0 ≤ sh → index_at va sh = va / 2 ^ sh mod 2 ^ 9.
Proof. intros Hs. unfold index_at. change (NPTEPG - 1) with (Z.ones 9). by rewrite Z.land_ones, Z.shiftr_div_pow2 by lia. Qed.

(** The address of a page from its indices, by the half it is in. *)
Definition VADDR (l4 l3 l2 l1 : Z) : Z := if l4 <? NUPML4E then UVADDR l4 l3 l2 l1 else KVADDR l4 l3 l2 l1.

Lemma vaddr_value l4 l3 l2 l1 : index l4 → index l3 → index l2 → index l1 →
  VADDR l4 l3 l2 l1 = (if l4 <? 2 ^ 8 then 0 else 2 ^ 64 - 2 ^ 48) + l4 * 2 ^ 39 + l3 * 2 ^ 30 + l2 * 2 ^ 21 + l1 * 2 ^ 12.
Proof.
  intros H4 H3 H2 H1. unfold VADDR. change NUPML4E with (2 ^ 8). destruct (Z.ltb_spec l4 (2 ^ 8)).
  - rewrite page_value by done. lia.
  - rewrite kernel_value, page_value by done. lia.
Qed.

Lemma vaddr_indices l4 l3 l2 l1 : index l4 → index l3 → index l2 → index l1 → let va := VADDR l4 l3 l2 l1 in
  canonical va ∧ index_at va PML4SHIFT = l4 ∧ index_at va PDPSHIFT = l3 ∧ index_at va PDRSHIFT = l2 ∧ index_at va PAGE_SHIFT = l1.
Proof.
  intros H4 H3 H2 H1 va. unfold va. rewrite vaddr_value by done. unfold PML4SHIFT, PDPSHIFT, PDRSHIFT, PAGE_SHIFT. rewrite !index_at_eq by lia.
  unfold index in *. change NPTEPG with (2 ^ 9) in *. unfold canonical.
  destruct (Z.ltb_spec l4 (2 ^ 8)); (split; [lia|]); split_and!; Z.div_mod_to_equations; lia.
Qed.

(** ** The direct map *)

Lemma phys_to_dmap x : 0 ≤ x < 2 ^ 40 → PHYS_TO_DMAP x = DMAP_MIN_ADDRESS + x.
Proof.
  intros Hx. unfold PHYS_TO_DMAP. rewrite Z.lor_comm. change DMAP_MIN_ADDRESS with ((2 ^ 24 - 2) * 2 ^ 40). by rewrite lor_low by lia.
Qed.

Lemma dmap_to_phys x : 0 ≤ x < 2 ^ 40 → DMAP_TO_PHYS (DMAP_MIN_ADDRESS + x) = x.
Proof.
  intros Hx. unfold DMAP_TO_PHYS. change (u64 (Z.lnot DMAP_MIN_ADDRESS)) with (2 ^ 40 * 1 + Z.ones 40).
  change DMAP_MIN_ADDRESS with (2 ^ 40 * (2 ^ 24 - 2)). rewrite (land_split 40) by (rewrite ?Z.ones_equiv; lia).
  change (Z.land (2 ^ 24 - 2) 1) with 0. rewrite Z.land_ones, Z.mod_small by lia. lia.
Qed.

(** ** Rounding *)

Lemma lnot_flip k : 0 ≤ k ≤ 63 → u64 (Z.lnot (2 ^ k - 1)) = flip 64 (2 ^ k - 1).
Proof.
  intros Hk. assert (0 < 2 ^ k) by (apply Z.pow_pos_nonneg; lia). assert (2 ^ k ≤ 2 ^ 63) by (apply Z.pow_le_mono_r; lia).
  unfold Z.lnot, flip, u64. symmetry. apply (Z.mod_unique _ _ (-1)); lia.
Qed.

Lemma trunc_pow x k : 0 ≤ k ≤ 63 → 0 ≤ x < 2 ^ 64 → Z.land x (u64 (Z.lnot (2 ^ k - 1))) = x / 2 ^ k * 2 ^ k.
Proof. intros Hk Hx. rewrite lnot_flip by done. apply flip_land_pow; lia. Qed.

Lemma round_bounds x m : 0 ≤ x → 0 < m → let y := (x + (m - 1)) / m * m in (m | y) ∧ x ≤ y < x + m.
Proof. intros Hx Hm y. split; [by eexists|]. unfold y. pose proof (Z.div_mod (x + (m - 1)) m ltac:(lia)). pose proof (Z.mod_pos_bound (x + (m - 1)) m Hm). lia. Qed.

Lemma trunc_bounds x m : 0 < m → let y := x / m * m in (m | y) ∧ y ≤ x < y + m.
Proof. intros Hm y. split; [by eexists|]. unfold y. pose proof (Z.div_mod x m ltac:(lia)). pose proof (Z.mod_pos_bound x m Hm). lia. Qed.

(** ** Properties *)

(** The address of a page in either half is canonical, and the page table
    indices it is made from come back from it. *)
Theorem address_indices_roundtrip l4 l3 l2 l1 : index l4 → index l3 → index l2 → index l1 → let va := VADDR l4 l3 l2 l1 in
  canonical va ∧ index_at va PML4SHIFT = l4 ∧ index_at va PDPSHIFT = l3 ∧ index_at va PDRSHIFT = l2 ∧ index_at va PAGE_SHIFT = l1.
Proof. apply vaddr_indices. Qed.

Lemma address_indices_roundtrip_witness : canonical KERNBASE ∧ index_at KERNBASE PDPSHIFT = KPDPI.
Proof.
  destruct (address_indices_roundtrip KPML4I KPDPI 0 0) as (H1 & _ & H3 & _); [by split..|]. split; [exact H1|exact H3].
Defined.

(** Physical memory and its direct map: the two conversions are inverse on
    the whole terabyte, and the map lies in its region.  The conversions only
    set and clear bits, which works because the region is aligned to its
    size. *)
Theorem direct_map_roundtrip x : 0 ≤ x < NDMPML4E * 2 ^ PML4SHIFT →
  DMAP_TO_PHYS (PHYS_TO_DMAP x) = x ∧ DMAP_MIN_ADDRESS ≤ PHYS_TO_DMAP x < DMAP_MAX_ADDRESS ∧
  DMAP_TO_PHYS (DMAP_MIN_ADDRESS + x) = x ∧ PHYS_TO_DMAP (DMAP_TO_PHYS (DMAP_MIN_ADDRESS + x)) = DMAP_MIN_ADDRESS + x.
Proof.
  change (NDMPML4E * 2 ^ PML4SHIFT) with (2 ^ 40). intros Hx. rewrite phys_to_dmap, dmap_to_phys, phys_to_dmap by done.
  change DMAP_MAX_ADDRESS with (DMAP_MIN_ADDRESS + 2 ^ 40). lia.
Qed.

Lemma direct_map_roundtrip_witness : DMAP_TO_PHYS (PHYS_TO_DMAP 0x12345000) = 0x12345000.
Proof. destruct (direct_map_roundtrip 0x12345000) as [H _]; [by split|exact H]. Defined.

(** Where the page table entry of an address is in the recursive map. *)
Definition entry_of (va : Z) : Z := u64 (addr_PTmap + sizeof_entry * (va / PAGE_SIZE mod 2 ^ 36)).

Lemma entry_value l4 l3 l2 l1 : index l4 → index l3 → index l2 → index l1 →
  entry_of (VADDR l4 l3 l2 l1) = KVADDR PML4PML4I l4 l3 l2 + sizeof_entry * l1.
Proof.
  intros H4 H3 H2 H1. rewrite kernel_value, page_value by (done || by split). rewrite vaddr_value by done. unfold entry_of.
  change addr_PTmap with (2 ^ 64 - 2 ^ 47). unfold index in *. change NPTEPG with (2 ^ 9) in *. change PML4PML4I with (2 ^ 8).
  change PAGE_SIZE with (2 ^ 12). change sizeof_entry with 8.
  assert (E : ((if l4 <? 2 ^ 8 then 0 else 2 ^ 64 - 2 ^ 48) + l4 * 2 ^ 39 + l3 * 2 ^ 30 + l2 * 2 ^ 21 + l1 * 2 ^ 12) / 2 ^ 12 mod 2 ^ 36 =
    l4 * 2 ^ 27 + l3 * 2 ^ 18 + l2 * 2 ^ 9 + l1) by (destruct (l4 <? 2 ^ 8); Z.div_mod_to_equations; lia).
  rewrite E, u64_small; lia.
Qed.

(** The recursive page table map: the entry that maps a page is found by
    going down one level with the index of the map first, and the entries of
    each map are the next one: those of the page tables are the directories,
    up to the top level's own entry. *)
Theorem recursive_map_levels l4 l3 l2 l1 : index l4 → index l3 → index l2 → index l1 →
  entry_of (VADDR l4 l3 l2 l1) = KVADDR PML4PML4I l4 l3 l2 + sizeof_entry * l1 ∧
  entry_of addr_PTmap = addr_PDmap ∧ entry_of addr_PDmap = addr_PDPmap ∧ entry_of addr_PDPmap = addr_PML4map ∧
  entry_of addr_PML4map = addr_PML4pml4e.
Proof. intros H4 H3 H2 H1. split; [by apply entry_value|done]. Qed.

Lemma recursive_map_levels_witness : entry_of KERNBASE = KVADDR PML4PML4I KPML4I KPDPI 0.
Proof. destruct (recursive_map_levels KPML4I KPDPI 0 0) as [H _]; [by split..|]. exact H. Defined.

(** The regions are those of the comment in vmparam.h, in its order: the user
    map, the recursive map, the direct map, the kernel map. *)
Theorem memory_layout :
  VM_MAXUSER_ADDRESS = 0x0000800000000000 ∧ SHAREDPAGE + PAGE_SIZE = VM_MAXUSER_ADDRESS ∧
  UPT_MIN_ADDRESS = 0xffff800000000000 ∧ UPT_MAX_ADDRESS + PAGE_SIZE = 0xffff804020101000 ∧
  DMAP_MIN_ADDRESS = 0xfffffe0000000000 ∧ DMAP_MAX_ADDRESS = 0xffffff0000000000 ∧
  VM_MIN_KERNEL_ADDRESS = 0xffffff8000000000 ∧ KERNBASE = 0xffffffff80000000 ∧ VM_MAX_KERNEL_ADDRESS + PAGE_SIZE = 2 ^ 64.
Proof. done. Qed.

(** Rounding to pages of 4K and 2M and cutting to those of 1G: multiples of
    the size next to the address; rounding up past the end of the address
    space gives 0.  atop and ptoa count the pages. *)
Theorem page_rounding x : 0 ≤ x < 2 ^ 64 →
  ((PAGE_SIZE | trunc_page x) ∧ trunc_page x ≤ x < trunc_page x + PAGE_SIZE) ∧
  ((NBPDR | trunc_2mpage x) ∧ trunc_2mpage x ≤ x < trunc_2mpage x + NBPDR) ∧
  ((NBPDP | trunc_1gpage x) ∧ trunc_1gpage x ≤ x < trunc_1gpage x + NBPDP) ∧
  (x ≤ 2 ^ 64 - PAGE_SIZE → (PAGE_SIZE | round_page x) ∧ x ≤ round_page x < x + PAGE_SIZE) ∧
  (x ≤ 2 ^ 64 - NBPDR → (NBPDR | round_2mpage x) ∧ x ≤ round_2mpage x < x + NBPDR) ∧
  (2 ^ 64 - PAGE_SIZE < x → round_page x = 0) ∧
  ptoa (atop x) = trunc_page x.
Proof.
  intros Hx. unfold trunc_page, trunc_2mpage, trunc_1gpage, round_page, round_2mpage, ptoa, atop, PAGE_SHIFT.
  change PAGE_MASK with (2 ^ 12 - 1). change PDRMASK with (2 ^ 21 - 1). change PDPMASK with (2 ^ 30 - 1).
  change PAGE_SIZE with (2 ^ 12). change NBPDR with (2 ^ 21). change NBPDP with (2 ^ 30). rewrite !trunc_pow by (lia || apply u64_range).
  split_and!; try (apply trunc_bounds; lia).
  - intros Hl. rewrite u64_small by lia. apply round_bounds; lia.
  - intros Hl. rewrite u64_small by lia. apply round_bounds; lia.
  - intros Hl. unfold u64. Z.div_mod_to_equations. lia.
  - rewrite Z.shiftr_div_pow2, Z.shiftl_mul_pow2 by lia. pose proof (trunc_bounds x (2 ^ 12) ltac:(lia)) as [_ Hb].
    apply u64_small. pose proof (Z.div_pos x (2 ^ 12)). lia.
Qed.

Lemma page_rounding_witness : round_page 0xfffffffffffff001 = 0 ∧ trunc_page 0x12345678 ≤ 0x12345678.
Proof.
  destruct (page_rounding 0xfffffffffffff001) as (_ & _ & _ & _ & _ & H6 & _); [by split|]. split; [by apply H6|]. destruct (page_rounding 0x12345678) as ((_ & H & _) & _); [lia|done].
Defined.
