(* ===== verification/Fenv.v ===== *)
(** * The floating-point environment

    include/fenv.h: exception flags and rounding direction, kept both by the
    x87 unit (control and status word) and by the SSE unit (mxcsr).  The
    instructions are modelled by what they do to these registers. *)

From S2P Require Import Prelude.

(** ** Registers and instructions *)

(** The rest of the x87 environment (tags, pointers) is carried along. *)
Record fpu := Fpu { x_control : Z; x_status : Z; x_rest : Z; mxcsr : Z }.

(** struct __x87 in memory: the words take the low halves of 32-bit fields,
    whose upper halves fnstenv fills with ones. *)
Record x87 := X87 { __control : Z; __status : Z; __rest : Z }.

Definition word_in (w : Z) : Z := 0xffff0000 + w.

Definition __fldcw (cw : Z) : C fpu () := modifyS (λ f, Fpu (u16 cw) f.(x_status) f.(x_rest) f.(mxcsr)).
Definition __fnstcw : C fpu Z := gets x_control.
Definition __fnstsw : C fpu Z := gets x_status.
Definition __fldenv (e : x87) : C fpu () := modifyS (λ f, Fpu (u16 e.(__control)) (u16 e.(__status)) e.(__rest) f.(mxcsr)).
(** fnstenv also masks all exceptions. *)
Definition __fnstenv : C fpu x87 := λ f,
  Done (X87 (word_in f.(x_control)) (word_in f.(x_status)) f.(x_rest)) (Fpu (Z.lor f.(x_control) 0x3f) f.(x_status) f.(x_rest) f.(mxcsr)).
(** fnclex clears the exception flags, the stack fault, the summary and the
    busy bit. *)
Definition __fnclex : C fpu () := modifyS (λ f, Fpu f.(x_control) (Z.land f.(x_status) 0x7f00) f.(x_rest) f.(mxcsr)).
(** A reserved bit in the new value is a fault. *)
Definition __ldmxcsr (v : Z) : C fpu () := λ f,
  if (0 <=? v) && (v <? 2 ^ 16) then Done () (Fpu f.(x_control) f.(x_status) f.(x_rest) v) else UB.
Definition __stmxcsr : C fpu Z := gets mxcsr.

(** ** The code *)

Definition FE_INVALID : Z := 0x01.
Definition FE_DENORMAL : Z := 0x02.
Definition FE_DIVBYZERO : Z := 0x04.
Definition FE_OVERFLOW : Z := 0x08.
Definition FE_UNDERFLOW : Z := 0x10.
Definition FE_INEXACT : Z := 0x20.
Definition FE_ALL_EXCEPT : Z :=
  Z.lor (Z.lor (Z.lor (Z.lor (Z.lor FE_DIVBYZERO FE_DENORMAL) FE_INEXACT) FE_INVALID) FE_OVERFLOW) FE_UNDERFLOW.
Definition FE_TONEAREST : Z := 0x0000.
Definition FE_DOWNWARD : Z := 0x0400.
Definition FE_UPWARD : Z := 0x0800.
Definition FE_TOWARDZERO : Z := 0x0c00.
Definition _ROUND_MASK : Z := Z.lor (Z.lor (Z.lor FE_TONEAREST FE_DOWNWARD) FE_UPWARD) FE_TOWARDZERO.
Definition _SSE_ROUND_SHIFT : Z := 3.
Definition _SSE_EMASK_SHIFT : Z := 7.

Definition feclearexcept (excepts : Z) : C fpu Z :=
  (if excepts =? FE_ALL_EXCEPT then __fnclex
   else e ← __fnstenv; __fldenv (X87 e.(__control) (Z.land e.(__status) (u32 (Z.lnot excepts))) e.(__rest)));;
  v ← __stmxcsr; __ldmxcsr (Z.land v (u32 (Z.lnot excepts)));; mret 0.

(** The flag is a fexcept_t, 16 bits. *)
Definition fegetexceptflag (excepts : Z) : C fpu (Z * Z) :=
  v ← __stmxcsr; w ← __fnstsw; mret (u16 (Z.land (Z.lor v w) (u32 excepts)), 0).

Definition fetestexcept (excepts : Z) : C fpu Z :=
  v ← __stmxcsr; w ← __fnstsw; mret (i32 (Z.land (Z.lor w v) (u32 excepts))).

Definition fegetround : C fpu Z := w ← __fnstcw; mret (Z.land w _ROUND_MASK).

Definition fesetround (round : Z) : C fpu Z :=
  if c_true (Z.land round (Z.lnot _ROUND_MASK)) then mret (-1) else
  w ← __fnstcw;
  __fldcw (u16 (Z.lor (u16 (Z.land w (Z.lnot _ROUND_MASK))) round));;
  v ← __stmxcsr;
  __ldmxcsr (u32 (Z.lor (Z.land v (u32 (Z.lnot (Z.shiftl _ROUND_MASK _SSE_ROUND_SHIFT)))) (Z.shiftl round _SSE_ROUND_SHIFT)));;
  mret 0.

Record fenv_t := Fenv { __x87 : x87; __mxcsr : Z }.

Definition fesetenv (e : fenv_t) : C fpu Z := __fldenv e.(__x87);; __ldmxcsr e.(__mxcsr);; mret 0.

Definition fegetexcept : C fpu Z := w ← __fnstcw; mret (Z.land (Z.lnot w) FE_ALL_EXCEPT).

(** ** Bits *)

Definition fpu_wf (f : fpu) : Prop := 0 ≤ f.(x_control) < 2 ^ 16 ∧ 0 ≤ f.(x_status) < 2 ^ 16 ∧ 0 ≤ f.(mxcsr) < 2 ^ 16.

Lemma high_bit w x k : 0 ≤ x < 2 ^ w → 0 ≤ w ≤ k → Z.testbit x k = false.
Proof. intros Hx Hk. rewrite <- (Z.mod_small x (2 ^ w)) by done. apply Z.mod_pow2_bits_high. lia. Qed.

(** A number without bits from [w] on. *)
Lemma below_pow w x : 0 ≤ w → 0 ≤ x → (∀ k, w ≤ k → Z.testbit x k = false) → 0 ≤ x < 2 ^ w.
Proof.
  intros Hw Hx Hb. assert (E : x = x mod 2 ^ w).
  { apply Z.bits_inj'. intros k Hk. destruct (decide (k < w)); [by rewrite Z.mod_pow2_bits_low by lia|].
    rewrite Z.mod_pow2_bits_high by lia. apply Hb. lia. }
  rewrite E. apply Z.mod_pos_bound, Z.pow_pos_nonneg; lia.
Qed.

Lemma wrap_bit w x k : 0 ≤ k < w → Z.testbit (x mod 2 ^ w) k = Z.testbit x k.
Proof. intros Hk. apply Z.mod_pow2_bits_low. lia. Qed.

Lemma round_mask_bit k : 0 ≤ k → Z.testbit _ROUND_MASK k = (k =? 10) || (k =? 11).
Proof.
  intros Hk. change _ROUND_MASK with (Z.lor (2 ^ 10) (2 ^ 11)). rewrite Z.lor_spec, !Z.pow2_bits_eqb by lia. by rewrite (Z.eqb_sym k 10), (Z.eqb_sym k 11).
Qed.

Lemma all_except_bit k : 0 ≤ k → Z.testbit FE_ALL_EXCEPT k = (k <? 6).
Proof.
  intros Hk. change FE_ALL_EXCEPT with (Z.ones 6). destruct (Z.ltb_spec k 6); [apply Z.ones_spec_low|apply Z.ones_spec_high]; lia.
Qed.

(** ** Rounding *)

Definition direction (r : Z) : Prop := r = FE_TONEAREST ∨ r = FE_DOWNWARD ∨ r = FE_UPWARD ∨ r = FE_TOWARDZERO.

Lemma direction_bits r k : direction r → 0 ≤ k → k ≠ 10 → k ≠ 11 → Z.testbit r k = false.
Proof.
  intros Hr Hk H10 H11. assert (Hm : Z.land r _ROUND_MASK = r) by (by destruct Hr as [->|[->|[->| ->]]]).
  rewrite <- Hm, Z.land_spec, round_mask_bit by done. rewrite (proj2 (Z.eqb_neq k 10)), (proj2 (Z.eqb_neq k 11)) by done. apply andb_false_r.
Qed.

Lemma direction_accepted r : c_true (Z.land r (Z.lnot _ROUND_MASK)) = false ↔ direction r.
Proof.
  split; [|by intros [->|[->|[->| ->]]]]. unfold c_true. intros H. apply negb_false_iff, Z.eqb_eq in H.
  assert (E : r = Z.land r _ROUND_MASK).
  { apply Z.bits_inj'. intros k Hk. rewrite Z.land_spec. destruct (Z.testbit _ROUND_MASK k) eqn:E; [by rewrite andb_true_r|].
    rewrite andb_false_r. assert (Hb : Z.testbit (Z.land r (Z.lnot _ROUND_MASK)) k = false) by (by rewrite H, Z.bits_0).
    rewrite Z.land_spec, Z.lnot_spec, E in Hb by done. by rewrite andb_true_r in Hb. }
  assert (E2 : r = (r / 2 ^ 10 mod 2 ^ 2) * 2 ^ 10).
  { rewrite E at 1. change _ROUND_MASK with (2 ^ 10 * Z.ones 2 + 0). rewrite (Z.div_mod r (2 ^ 10)) at 1 by lia.
    rewrite land_split by (try lia; apply Z.mod_pos_bound; lia). rewrite Z.land_0_r, Z.land_ones by lia. lia. }
  pose proof (Z.mod_pos_bound (r / 2 ^ 10) (2 ^ 2) ltac:(lia)). unfold direction, FE_TONEAREST, FE_DOWNWARD, FE_UPWARD, FE_TOWARDZERO. lia.
Qed.

Lemma sse_mask_bit k : 0 ≤ k < 32 → Z.testbit (u32 (Z.lnot (Z.shiftl _ROUND_MASK _SSE_ROUND_SHIFT))) k = negb ((k =? 13) || (k =? 14)).
Proof.
  intros Hk. unfold u32. rewrite wrap_bit, Z.lnot_spec by lia. f_equal. change (Z.shiftl _ROUND_MASK _SSE_ROUND_SHIFT) with (Z.lor (2 ^ 13) (2 ^ 14)).
  rewrite Z.lor_spec, !Z.pow2_bits_eqb by lia. by rewrite (Z.eqb_sym k 13), (Z.eqb_sym k 14).
Qed.

Section Round.
Context (f : fpu) (r : Z).
Hypothesis Hf : fpu_wf f.
Hypothesis Hr : direction r.

Definition new_control : Z := u16 (u16 (Z.lor (u16 (Z.land f.(x_control) (Z.lnot _ROUND_MASK))) r)).
Definition new_mxcsr : Z :=
  u32 (Z.lor (Z.land f.(mxcsr) (u32 (Z.lnot (Z.shiftl _ROUND_MASK _SSE_ROUND_SHIFT)))) (Z.shiftl r _SSE_ROUND_SHIFT)).

Lemma new_control_bit k : 0 ≤ k < 16 → Z.testbit new_control k = if (k =? 10) || (k =? 11) then Z.testbit r k else Z.testbit f.(x_control) k.
Proof.
  intros Hk. unfold new_control, u16. rewrite !wrap_bit, Z.lor_spec, wrap_bit, Z.land_spec, Z.lnot_spec, round_mask_bit by lia.
  destruct ((k =? 10) || (k =? 11)) eqn:E; [by rewrite andb_false_r|]. apply orb_false_iff in E as [E1 E2]. zb.
  rewrite (direction_bits r k) by (done || lia). by rewrite andb_true_r, orb_false_r.
Qed.

Lemma new_mxcsr_bit k : 0 ≤ k < 32 → Z.testbit new_mxcsr k = if (k =? 13) || (k =? 14) then Z.testbit r (k - 3) else Z.testbit f.(mxcsr) k.
Proof.
  intros Hk. unfold new_mxcsr, u32 at 1. rewrite wrap_bit, Z.lor_spec, Z.land_spec, sse_mask_bit, Z.shiftl_spec by lia.
  unfold _SSE_ROUND_SHIFT. destruct ((k =? 13) || (k =? 14)) eqn:E; cbn [negb]; [by rewrite andb_false_r|]. apply orb_false_iff in E as [E1 E2]. zb.
  rewrite andb_true_r. destruct (decide (k < 3)); [rewrite (Z.testbit_neg_r r (k - 3)) by lia|rewrite (direction_bits r (k - 3)) by (done || lia)]; apply orb_false_r.
Qed.

Lemma new_mxcsr_range : 0 ≤ new_mxcsr < 2 ^ 16.
Proof.
  pose proof (u32_range (Z.lor (Z.land f.(mxcsr) (u32 (Z.lnot (Z.shiftl _ROUND_MASK _SSE_ROUND_SHIFT)))) (Z.shiftl r _SSE_ROUND_SHIFT))) as Hu.
  fold new_mxcsr in Hu. apply below_pow; [lia|lia|]. intros k Hk. destruct (decide (k < 32)).
  - rewrite new_mxcsr_bit by lia. rewrite (proj2 (Z.eqb_neq k 13)), (proj2 (Z.eqb_neq k 14)) by lia. destruct Hf as (_ & _ & Hm). apply (high_bit 16); [done|lia].
  - apply (high_bit 32); [done|lia].
Qed.

Lemma fesetround_run : fesetround r f = Done 0 (Fpu new_control f.(x_status) f.(x_rest) new_mxcsr).
Proof.
  unfold fesetround. rewrite (proj2 (direction_accepted r) Hr). unfold __fnstcw, __fldcw, __stmxcsr, __ldmxcsr, gets, modifyS, mbind, C_bind, mret, C_ret.
  cbn [x_control x_status x_rest mxcsr]. fold new_mxcsr. pose proof new_mxcsr_range as Hn.
  rewrite (proj2 (Z.leb_le 0 _)), (proj2 (Z.ltb_lt _ (2 ^ 16))) by lia. done.
Qed.

Lemma get_new_round : Z.land new_control _ROUND_MASK = r.
Proof.
  apply Z.bits_inj'. intros k Hk. rewrite Z.land_spec, round_mask_bit by done. destruct ((k =? 10) || (k =? 11)) eqn:E.
  - rewrite new_control_bit, E, andb_true_r by (apply orb_prop in E as [E|E]; zb; lia). done.
  - rewrite andb_false_r. apply orb_false_iff in E as [E1 E2]. zb. symmetry. by apply direction_bits.
Qed.

Lemma sse_new_round : Z.land (Z.shiftr new_mxcsr _SSE_ROUND_SHIFT) _ROUND_MASK = r.
Proof.
  apply Z.bits_inj'. intros k Hk. rewrite Z.land_spec, round_mask_bit, Z.shiftr_spec by done. unfold _SSE_ROUND_SHIFT. destruct ((k =? 10) || (k =? 11)) eqn:E.
  - apply orb_prop in E as [E|E]; zb; subst k; rewrite new_mxcsr_bit by lia; apply andb_true_r.
  - rewrite andb_false_r. apply orb_false_iff in E as [E1 E2]. zb. symmetry. by apply direction_bits.
Qed.
End Round.

(** ** Exceptions *)

(** The flags raised in either unit. *)
Definition raised (f : fpu) : Z := Z.land (Z.lor f.(x_status) f.(mxcsr)) FE_ALL_EXCEPT.

Definition subset (e : Z) : Prop := 0 ≤ e < 2 ^ 6.

Lemma subset_bit e k : subset e → 6 ≤ k → Z.testbit e k = false.
Proof. intros He Hk. apply (high_bit 6); [done|lia]. Qed.

Lemma fetestexcept_run e f : fpu_wf f → subset e → fetestexcept e f = Done (Z.land (raised f) e) f.
Proof.
  intros Hf He. unfold fetestexcept, __stmxcsr, __fnstsw, gets, mbind, C_bind, mret, C_ret. f_equal. unfold subset in He. rewrite u32_small by lia.
  assert (E : Z.land (Z.lor f.(x_status) f.(mxcsr)) e = Z.land (raised f) e).
  { unfold raised. apply Z.bits_inj'. intros k Hk. rewrite !Z.land_spec, all_except_bit by done.
    destruct (Z.ltb_spec k 6); [by rewrite andb_true_r|]. by rewrite (subset_bit e k), !andb_false_r by done. }
  rewrite E. assert (Hs : 0 ≤ Z.land (raised f) e < 2 ^ 6).
  { rewrite Z.land_comm. apply land_low; [lia|done|]. unfold raised. destruct Hf as (_ & ? & ?).
    apply Z.land_nonneg. left. apply Z.lor_nonneg. lia. }
  apply i32_small. lia.
Qed.

(** The status word without some of the flags. *)
Lemma u16_word w e k : 0 ≤ w < 2 ^ 16 → subset e → 0 ≤ k < 16 →
  Z.testbit (u16 (Z.land (word_in w) (u32 (Z.lnot e)))) k = Z.testbit w k && negb (Z.testbit e k).
Proof.
  intros Hw He Hk. unfold u16, u32. rewrite wrap_bit, Z.land_spec, wrap_bit, Z.lnot_spec by lia. f_equal.
  unfold word_in. change 0xffff0000 with (2 ^ 16 * 0xffff). rewrite split_testbit by lia. by rewrite (proj2 (Z.ltb_lt k 16)) by lia.
Qed.

Lemma cleared_mxcsr v e : 0 ≤ v < 2 ^ 16 → subset e → Z.land v (u32 (Z.lnot e)) = Z.ldiff v e.
Proof.
  intros Hv He. apply Z.bits_inj'. intros k Hk. rewrite Z.land_spec, Z.ldiff_spec. destruct (decide (k < 32)).
  - unfold u32. by rewrite wrap_bit, Z.lnot_spec by lia.
  - rewrite (high_bit 16 v k) by (done || lia). done.
Qed.

Lemma ldiff_range v e w : 0 ≤ w → 0 ≤ v < 2 ^ w → 0 ≤ Z.ldiff v e < 2 ^ w.
Proof.
  intros Hw Hv. apply below_pow; [done|apply Z.ldiff_nonneg; lia|]. intros k Hk. by rewrite Z.ldiff_spec, (high_bit w v k) by (done || lia).
Qed.

Lemma summary_bit k : 0 ≤ k → Z.testbit 0x7f00 k = (8 <=? k) && (k <? 15).
Proof.
  intros Hk. change 0x7f00 with (Z.shiftl (Z.ones 7) 8). rewrite Z.shiftl_spec by done. destruct (Z.leb_spec 8 k).
  - destruct (Z.ltb_spec k 15); simpl; [apply Z.ones_spec_low|apply Z.ones_spec_high]; lia.
  - simpl. apply Z.testbit_neg_r. lia.
Qed.

Definition cleared_status (e w : Z) : Z := if e =? FE_ALL_EXCEPT then Z.land w 0x7f00 else u16 (Z.land (word_in w) (u32 (Z.lnot e))).

Lemma cleared_status_flag e w k : 0 ≤ w < 2 ^ 16 → subset e → 0 ≤ k < 6 → Z.testbit (cleared_status e w) k = Z.testbit w k && negb (Z.testbit e k).
Proof.
  intros Hw He Hk. unfold cleared_status. destruct (Z.eqb_spec e FE_ALL_EXCEPT) as [->|]; [|by apply u16_word; [..|lia]].
  rewrite Z.land_spec, summary_bit, all_except_bit by lia. rewrite (proj2 (Z.leb_gt 8 k)), (proj2 (Z.ltb_lt k 6)) by lia. done.
Qed.

(** Bits 8 to 14: condition codes and the top of the stack. *)
Lemma cleared_status_rest e w k : 0 ≤ w < 2 ^ 16 → subset e → 8 ≤ k < 15 → Z.testbit (cleared_status e w) k = Z.testbit w k.
Proof.
  intros Hw He Hk. unfold cleared_status. destruct (Z.eqb_spec e FE_ALL_EXCEPT) as [->|].
  - rewrite Z.land_spec, summary_bit by lia. rewrite (proj2 (Z.leb_le 8 k)), (proj2 (Z.ltb_lt k 15)) by lia. apply andb_true_r.
  - rewrite u16_word by (done || lia). rewrite (subset_bit e k) by (done || lia). apply andb_true_r.
Qed.

Lemma cleared_status_range e w : 0 ≤ w < 2 ^ 16 → 0 ≤ cleared_status e w < 2 ^ 16.
Proof. intros Hw. unfold cleared_status. destruct (_ =? _); [apply land_low; lia|apply u16_range]. Qed.

Lemma u16_word_in w : 0 ≤ w < 2 ^ 16 → u16 (word_in w) = w.
Proof. intros Hw. unfold u16, word_in. symmetry. apply (Z.mod_unique _ _ 0xffff); lia. Qed.

Lemma feclearexcept_run e f : fpu_wf f → subset e →
  feclearexcept e f = Done 0 (Fpu f.(x_control) (cleared_status e f.(x_status)) f.(x_rest) (Z.ldiff f.(mxcsr) e)).
Proof.
  intros (Hc & Hs & Hm) He. destruct f as [c s r v]. cbn [x_control x_status x_rest mxcsr] in *. unfold feclearexcept, cleared_status.
  pose proof (ldiff_range v e 16 ltac:(lia) Hm) as Hd.
  destruct (e =? FE_ALL_EXCEPT); unfold __fnclex, __fnstenv, __fldenv, __stmxcsr, __ldmxcsr, gets, modifyS, mbind, C_bind, mret, C_ret;
    cbn [x_control x_status x_rest mxcsr __control __status __rest]; rewrite cleared_mxcsr, ?u16_word_in by done;
    rewrite (proj2 (Z.leb_le 0 _)), (proj2 (Z.ltb_lt _ (2 ^ 16))) by lia; done.
Qed.

Lemma raised_cleared e f : fpu_wf f → subset e →
  raised (Fpu f.(x_control) (cleared_status e f.(x_status)) f.(x_rest) (Z.ldiff f.(mxcsr) e)) = Z.ldiff (raised f) e.
Proof.
  intros (Hc & Hs & Hm) He. unfold raised. cbn [x_status mxcsr]. apply Z.bits_inj'. intros k Hk.
  rewrite Z.ldiff_spec, !Z.land_spec, !Z.lor_spec, Z.ldiff_spec, all_except_bit by done. destruct (Z.ltb_spec k 6).
  - rewrite cleared_status_flag by (done || lia). rewrite !andb_true_r. by destruct (Z.testbit (x_status f) k), (Z.testbit (mxcsr f) k), (Z.testbit e k).
  - by rewrite !andb_false_r.
Qed.

(** The environment as fnstenv and stmxcsr store it. *)
Definition fenv_of (f : fpu) : fenv_t := Fenv (X87 (word_in f.(x_control)) (word_in f.(x_status)) f.(x_rest)) f.(mxcsr).

(** ** Properties *)

(** C22. fesetround sets the direction in both units, so that the assumption of
    fegetround, that they agree, holds after it; it changes no other bit; and
    it refuses everything that is not a direction, without an effect. *)
Theorem rounding_roundtrip f r : fpu_wf f →
  (direction r → ∃ f', fesetround r f = Done 0 f' ∧ fegetround f' = Done r f' ∧
    Z.land (Z.shiftr f'.(mxcsr) _SSE_ROUND_SHIFT) _ROUND_MASK = r ∧
    f'.(x_status) = f.(x_status) ∧ f'.(x_rest) = f.(x_rest) ∧ fpu_wf f' ∧
    (∀ k, 0 ≤ k < 16 → k ≠ 10 → k ≠ 11 → Z.testbit f'.(x_control) k = Z.testbit f.(x_control) k) ∧
    (∀ k, 0 ≤ k < 16 → k ≠ 13 → k ≠ 14 → Z.testbit f'.(mxcsr) k = Z.testbit f.(mxcsr) k)) ∧
  (¬ direction r → fesetround r f = Done (-1) f).
Proof.
  intros Hf. split.
  - intros Hr. eexists. split; [by apply fesetround_run|]. split_and!; cbn [x_control x_status x_rest mxcsr]; try done.
    + unfold fegetround, __fnstcw, gets, mbind, C_bind, mret, C_ret. cbn [x_control]. by rewrite get_new_round.
    + by apply sse_new_round.
    + destruct Hf as (Hc & Hs & Hm). split_and!; cbn [x_control x_status mxcsr]; try apply u16_range; try apply Hs.
      all: by apply (new_mxcsr_range f r).
    + intros k Hk H10 H11. rewrite new_control_bit by done. by rewrite (proj2 (Z.eqb_neq k 10)), (proj2 (Z.eqb_neq k 11)).
    + intros k Hk H13 H14. rewrite new_mxcsr_bit by (done || lia). by rewrite (proj2 (Z.eqb_neq k 13)), (proj2 (Z.eqb_neq k 14)).
  - intros Hn. unfold fesetround. destruct (c_true _) eqn:E; [done|]. by apply direction_accepted in E.
Qed.

Definition sample_fpu : fpu := Fpu 0x037f 0x3825 0 0x1fa1.

Lemma rounding_roundtrip_witness : ∃ f', fesetround FE_UPWARD sample_fpu = Done 0 f' ∧ fegetround f' = Done FE_UPWARD f'.
Proof.
  destruct (rounding_roundtrip sample_fpu FE_UPWARD) as [H _]; [by vm_compute|].
  destruct H as (f' & H1 & H2 & _); [by right; right; left|]. by exists f'.
Defined.

(** The exception flags are a set kept in two registers: feclearexcept takes
    the given flags out of it and returns 0, by either of its ways, and
    fetestexcept gives the intersection; control word, masks, directions and
    the condition codes stay as they are. *)
Theorem exceptions_refine_set f e x : fpu_wf f → subset e → subset x →
  fetestexcept x f = Done (Z.land (raised f) x) f ∧
  ∃ f', feclearexcept e f = Done 0 f' ∧ fpu_wf f' ∧ raised f' = Z.ldiff (raised f) e ∧
    fetestexcept x f' = Done (Z.land (Z.ldiff (raised f) e) x) f' ∧
    f'.(x_control) = f.(x_control) ∧ f'.(x_rest) = f.(x_rest) ∧
    (∀ k, 8 ≤ k < 15 → Z.testbit f'.(x_status) k = Z.testbit f.(x_status) k) ∧
    (∀ k, 6 ≤ k → Z.testbit f'.(mxcsr) k = Z.testbit f.(mxcsr) k).
Proof.
  intros Hf He Hx. split; [by apply fetestexcept_run|]. eexists. split; [by apply feclearexcept_run|].
  set (f' := Fpu _ _ _ _). pose proof (raised_cleared e f Hf He) as Er. fold f' in Er. pose proof Hf as (Hc & Hs & Hm).
  assert (Hf' : fpu_wf f') by exact (conj Hc (conj (cleared_status_range e _ Hs) (ldiff_range _ e 16 ltac:(lia) Hm))).
  split_and!; try done.
  - rewrite fetestexcept_run by done. by rewrite Er.
  - intros k Hk. by apply cleared_status_rest.
  - intros k Hk. unfold f'. cbn [mxcsr]. by rewrite Z.ldiff_spec, (subset_bit e k), andb_true_r by done.
Qed.

Lemma exceptions_refine_set_witness : fetestexcept FE_ALL_EXCEPT sample_fpu = Done 0x25 sample_fpu ∧
  ∃ f', feclearexcept FE_INEXACT sample_fpu = Done 0 f' ∧ raised f' = 0x05.
Proof.
  destruct (exceptions_refine_set sample_fpu FE_INEXACT FE_ALL_EXCEPT) as (H1 & f' & H2 & _ & H3 & _); [by vm_compute|by vm_compute|by vm_compute|].
  split; [exact H1|]. by exists f'.
Defined.

(** fesetenv of an environment stored before restores it. *)
Theorem fesetenv_restores f g : fpu_wf f → fesetenv (fenv_of f) g = Done 0 f.
Proof.
  intros (Hc & Hs & Hm). destruct f as [c s r v]. cbn [x_control x_status x_rest mxcsr] in *.
  unfold fesetenv, fenv_of, __fldenv, __ldmxcsr, modifyS, mbind, C_bind, mret, C_ret. cbn [__x87 __mxcsr __control __status __rest x_control x_status x_rest mxcsr].
  rewrite !u16_word_in by done. rewrite (proj2 (Z.leb_le 0 _)), (proj2 (Z.ltb_lt _ (2 ^ 16))) by lia. done.
Qed.

Lemma fesetenv_restores_witness : fesetenv (fenv_of sample_fpu) (Fpu 0 0 0 0) = Done 0 sample_fpu.
Proof. apply fesetenv_restores. by vm_compute. Defined.
