(* ===== verification/EventHandler.v ===== *)
(** * Event handlers

    include/sys/eventhandler.h: _EVENTHANDLER_INVOKE calls the handlers of a
    list, a tail queue of entries, without its lock, while other code and the
    handlers themselves may deregister entries: those are only marked dead as
    long as an invocation is under way.  Registration, deregistration and the
    removal of dead entries are in the kernel and are parameters. *)

From S2P Require Import Prelude.
From S2P Require Import Queue.
From S2P Require Import QueueSpec.
From S2P Require Import QueueFamily.

(** ** The code *)

Definition EHE_DEAD_PRIORITY : Z := -1.

(** struct eventhandler_list with its entries: the links, the priorities, the
    count of invocations (u_int) and whether the caller owns el_lock; [ran]
    notes the entries whose function was called. *)
Record eventhandler_list := EList {
  links : cells; ee_priority : gmap Z Z; el_runcount : Z; el_lock : bool; ran : list Z }.

Definition with_runcount (n : Z) (s : eventhandler_list) : eventhandler_list := EList s.(links) s.(ee_priority) n s.(el_lock) s.(ran).
Definition with_lock (b : bool) (s : eventhandler_list) : eventhandler_list := EList s.(links) s.(ee_priority) s.(el_runcount) b s.(ran).
Definition note (e : Z) (s : eventhandler_list) : eventhandler_list := EList s.(links) s.(ee_priority) s.(el_runcount) s.(el_lock) (s.(ran) ++ [e]).

(** A caller that owns the lock would wait for itself; releasing a lock one
    does not own is an error. *)
Definition EHL_LOCK : C eventhandler_list () := λ s, if s.(el_lock) then Timeout else Done () (with_lock true s).
Definition EHL_UNLOCK : C eventhandler_list () := λ s, if s.(el_lock) then Done () (with_lock false s) else UB.

Definition on_links {A} (c : C cells A) : C eventhandler_list A := λ s,
  match c s.(links) with
  | Done a m => Done a (EList m s.(ee_priority) s.(el_runcount) s.(el_lock) s.(ran))
  | UB => UB
  | Timeout => Timeout
  end.

Definition priority (e : Z) : C eventhandler_list Z := λ s, match s.(ee_priority) !! e with Some p => Done p s | None => UB end.

(** The address of el_entries in the list; ee_link is the first member of an
    entry. *)
Section Invoke.
Context (el_entries : Z) (eh_func : Z → C eventhandler_list ()) (eventhandler_prune_list : C eventhandler_list ()).

Definition invoke_entry (ep : Z) : C eventhandler_list () :=
  p ← priority ep;
  if negb (p =? EHE_DEAD_PRIORITY) then
    EHL_UNLOCK;;
    modifyS (note ep);; eh_func ep;;
    EHL_LOCK
  else mret ().

(** The traversal reads the next link after the handler has run; the fuel is
    that of the other traversals, one round for each variable. *)
Definition _EVENTHANDLER_INVOKE : C eventhandler_list () :=
  modifyS (λ s, with_runcount (u32 (s.(el_runcount) + 1)) s);;
  m ← gets links;
  ep ← on_links (TAILQ_FIRST el_entries);
  while (foreach_fuel m) ep (λ ep,
    if ep =? 0 then mret (inr ()) else
    invoke_entry ep;;
    ep ← on_links (TAILQ_NEXT 0 ep);
    mret (inl ep));;
  modifyS (λ s, with_runcount (u32 (s.(el_runcount) - 1)) s);;
  n ← gets el_runcount;
  (if n =? 0 then eventhandler_prune_list else mret ());;
  EHL_UNLOCK.

(** eventhandler_find_list gives a locked list or NULL. *)
Definition EVENTHANDLER_INVOKE (eventhandler_find_list : C eventhandler_list bool) : C eventhandler_list () :=
  found ← eventhandler_find_list; if found : bool then _EVENTHANDLER_INVOKE else mret ().
End Invoke.

(** ** What the kernel's functions do *)

Definition kill (ds : list Z) (pm : gmap Z Z) : gmap Z Z := foldr (λ d pm, <[d := EHE_DEAD_PRIORITY]> pm) pm ds.
Definition live (pm : gmap Z Z) (e : Z) : bool := negb (default EHE_DEAD_PRIORITY (pm !! e) =? EHE_DEAD_PRIORITY).

(** A handler runs without the lock, while the list is in use; it deregisters
    the entries [dies e], which marks them, and leaves list and count alone. *)
Class Handlers (eh_func : Z → C eventhandler_list ()) (dies : Z → list Z) : Prop := {
  handler_ok e s : s.(el_lock) = false → 0 < s.(el_runcount) →
    eh_func e s = Done () (EList s.(links) (kill (dies e) s.(ee_priority)) s.(el_runcount) false s.(ran)) }.

(** Pruning, with the lock held and nobody running, removes some of the dead
    entries. *)
Class Prunes (el_entries : Z) (elems : list Z) (prune : C eventhandler_list ()) : Prop := {
  prune_ok s l : s.(el_lock) = true → s.(el_runcount) = 0 → queue 0 true true elems s.(links) el_entries l →
    ∃ m' l', prune s = Done () (EList m' s.(ee_priority) 0 true s.(ran)) ∧ queue 0 true true elems m' el_entries l' ∧
      filter (λ e, live s.(ee_priority) e = true) l `sublist_of` l' ∧ l' `sublist_of` l }.

(** The entries an invocation calls, and the priorities it leaves. *)
Fixpoint calls (dies : Z → list Z) (pm : gmap Z Z) (l : list Z) : list Z * gmap Z Z :=
  match l with
  | [] => ([], pm)
  | e :: l => if live pm e then let '(c, pm') := calls dies (kill (dies e) pm) l in (e :: c, pm') else calls dies pm l
  end.

Lemma kill_dom ds pm e : is_Some (pm !! e) → is_Some (kill ds pm !! e).
Proof. intros H. induction ds as [|d ds IH]; [done|]. cbn. apply lookup_insert_is_Some'. by right. Qed.

(** ** An invocation *)

Section Ok.
Context (h : Z) (heads elems : list Z) (eh_func : Z → C eventhandler_list ()) (dies : Z → list Z) (prune : C eventhandler_list ()).
Context `{!Handlers eh_func dies} `{!Prunes h elems prune}.
Hypothesis W : world 0 true true heads elems.
Hypothesis Hh : h ∈ heads.

Lemma invoke_entry_ok e m pm n r p : pm !! e = Some p → 0 < n →
  invoke_entry eh_func e (EList m pm n true r) =
  Done () (if live pm e then EList m (kill (dies e) pm) n true (r ++ [e]) else EList m pm n true r).
Proof.
  intros Hp Hn. unfold invoke_entry, priority, live, mbind, C_bind. cbn. rewrite Hp. cbn. unfold id.
  destruct (p =? EHE_DEAD_PRIORITY); [done|]. cbn. rewrite handler_ok by done. done.
Qed.

Lemma loop_ok l m pm n r fuel v : follows (λ e, rd_at e 0) m v l → (∀ e, e ∈ l → is_Some (pm !! e)) → 0 < n → (length l < fuel)%nat →
  while fuel v (λ ep, if ep =? 0 then mret (inr ()) else invoke_entry eh_func ep;; ep ← on_links (TAILQ_NEXT 0 ep); mret (inl ep)) (EList m pm n true r) =
  Done () (EList m (calls dies pm l).2 n true (r ++ (calls dies pm l).1)).
Proof.
  revert pm r fuel v. induction l as [|e l IH]; intros pm r fuel v Hf Hpm Hn Hfuel; (destruct fuel as [|fuel]; [simpl in Hfuel; lia|]).
  - simpl in Hf. subst v. cbn. by rewrite app_nil_r.
  - destruct Hf as (-> & He & v' & Hv & Hf). destruct (Hpm e ltac:(set_solver)) as [p Hp].
    change (while (S fuel)) with (λ (acc : Z) (body : Z → C eventhandler_list (Z + ())), x ← body acc; match x with inl acc => while fuel acc body | inr r => mret r end).
    cbv beta. rewrite (proj2 (Z.eqb_neq e 0)) by done. rewrite bind_assoc, (bind_done _ _ _ _ _ (invoke_entry_ok e m pm n r p Hp Hn)), bind_assoc.
    assert (Hnx : ∀ pm r, on_links (TAILQ_NEXT 0 e) (EList m pm n true r) = Done v' (EList m pm n true r))
      by (intros; unfold on_links, TAILQ_NEXT; cbn; by rewrite Hv).
    cbn [calls]. destruct (live pm e).
    + rewrite (bind_done _ _ _ _ _ (Hnx _ _)), bind_ret. rewrite IH; [|done|intros x Hx; apply kill_dom, Hpm; set_solver|done|simpl in Hfuel; lia].
      destruct (calls dies (kill (dies e) pm) l) as [c pm']. cbn [fst snd]. by rewrite <- app_assoc.
    + rewrite (bind_done _ _ _ _ _ (Hnx _ _)), bind_ret. apply IH; [done|intros x Hx; apply Hpm; set_solver|done|simpl in Hfuel; lia].
Qed.

Lemma invoke_ok s l : queue 0 true true elems s.(links) h l → (∀ e, e ∈ l → is_Some (s.(ee_priority) !! e)) →
  s.(el_lock) = true → 0 ≤ s.(el_runcount) < 2 ^ 32 - 1 →
  let c := calls dies s.(ee_priority) l in
  ∃ m' l', _EVENTHANDLER_INVOKE h eh_func prune s = Done () (EList m' c.2 s.(el_runcount) false (s.(ran) ++ c.1)) ∧
    queue 0 true true elems m' h l' ∧ filter (λ e, live c.2 e = true) l `sublist_of` l' ∧ l' `sublist_of` l ∧
    (0 < s.(el_runcount) → m' = s.(links)).
Proof.
  intros Hq Hpm Hl Hn c. destruct s as [m pm n b r]. cbn [links ee_priority el_runcount el_lock ran] in *. subst b.
  destruct (queue_follows _ _ _ _ _ _ _ _ W Hh Hq) as (v & Hf & Hc). pose proof (queue_size _ _ _ _ _ _ _ Hq) as Hsz.
  unfold _EVENTHANDLER_INVOKE. rewrite (bind_done _ _ _ (EList m pm (n + 1) true r) ()) by (unfold modifyS, with_runcount; cbn [el_runcount links ee_priority el_lock ran]; by rewrite u32_small by lia).
  rewrite (bind_done _ _ _ (EList m pm (n + 1) true r) m) by done.
  rewrite (bind_done _ _ _ (EList m pm (n + 1) true r) v) by (unfold on_links, TAILQ_FIRST; cbn; by rewrite Hf).
  rewrite (bind_done _ _ _ _ _ (loop_ok l m pm (n + 1) r (foreach_fuel m) v Hc Hpm ltac:(lia) ltac:(unfold foreach_fuel; lia))).
  fold c. rewrite (bind_done _ _ _ (EList m c.2 n true (r ++ c.1)) ())
    by (unfold modifyS, with_runcount; cbn [el_runcount links ee_priority el_lock ran]; by rewrite Z.add_simpl_r, u32_small by lia).
  rewrite (bind_done _ _ _ (EList m c.2 n true (r ++ c.1)) n) by done. destruct (Z.eqb_spec n 0) as [->|Hne].
  - destruct (prune_ok (EList m c.2 0 true (r ++ c.1)) l eq_refl eq_refl Hq) as (m' & l' & E & Hq' & H1 & H2).
    rewrite (bind_done _ _ _ _ _ E). exists m', l'. split_and!; [done|done|done|done|lia].
  - rewrite bind_ret. exists m, l. split_and!; [done|done|apply sublist_filter|done|done].
Qed.
End Ok.

(** What a call list says: each entry at most once, in order, none that was
    dead before its turn, and every entry that stays alive. *)
Lemma calls_sublist dies pm l : (calls dies pm l).1 `sublist_of` l.
Proof.
  revert pm. induction l as [|e l IH]; intros pm; [done|]. cbn. destruct (live pm e); [|by apply sublist_cons, IH].
  specialize (IH (kill (dies e) pm)). destruct (calls dies (kill (dies e) pm) l). by apply sublist_skip.
Qed.

Lemma kill_live ds pm e : live (kill ds pm) e = true → live pm e = true.
Proof.
  induction ds as [|d ds IH]; [done|]. cbn. unfold live in *. destruct (decide (d = e)) as [->|Hne].
  - by rewrite lookup_insert_eq.
  - by rewrite lookup_insert_ne.
Qed.

Lemma calls_live dies pm l e : live (calls dies pm l).2 e = true → live pm e = true ∧ (e ∈ l → e ∈ (calls dies pm l).1).
Proof.
  revert pm. induction l as [|d l IH]; intros pm; cbn; [intros H; split; [done|set_solver]|]. destruct (live pm d) eqn:Ed.
  - specialize (IH (kill (dies d) pm)). destruct (calls dies (kill (dies d) pm) l) as [c pm']. cbn in *. intros H. apply IH in H as [H1 H2].
    split; [by eapply kill_live|set_solver].
  - intros H. apply IH in H as [H1 H2]. split; [done|]. intros [->|Hin]%elem_of_cons; [congruence|auto].
Qed.

(** ** Properties *)

(** C29. _EVENTHANDLER_INVOKE on a locked list, with handlers that may deregister
    any entries, themselves included, returns and has called the handlers in
    the order of the list, each at most once: every entry that is still alive
    at the end, and none that was dead when its turn came.  Handlers run
    without the lock.  The count of invocations is as before, the lock is
    free, and only dead entries have left the list, none as long as another
    invocation is under way. *)
Theorem invoke_calls_in_order h heads elems eh_func dies prune `{!Handlers eh_func dies} `{!Prunes h elems prune} s l :
  world 0 true true heads elems → h ∈ heads → queue 0 true true elems s.(links) h l →
  (∀ e, e ∈ l → is_Some (s.(ee_priority) !! e)) → s.(el_lock) = true → 0 ≤ s.(el_runcount) < 2 ^ 32 - 1 →
  let c := calls dies s.(ee_priority) l in
  (∃ m' l', _EVENTHANDLER_INVOKE h eh_func prune s = Done () (EList m' c.2 s.(el_runcount) false (s.(ran) ++ c.1)) ∧
    queue 0 true true elems m' h l' ∧ filter (λ e, live c.2 e = true) l `sublist_of` l' ∧ l' `sublist_of` l ∧
    (0 < s.(el_runcount) → m' = s.(links))) ∧
  c.1 `sublist_of` l ∧ (∀ e, e ∈ l → live c.2 e = true → e ∈ c.1).
Proof.
  intros W Hh Hq Hp Hl Hn c. split_and!.
  - by apply (invoke_ok h heads elems eh_func dies prune W Hh s l).
  - apply calls_sublist.
  - intros e He Hv. by apply (calls_live dies _ l e Hv).
Qed.

(** Three entries; the handler of the first deregisters the second. *)
Definition three_entries : cells :=
  {[ 0x100 := 0x1000; 0x108 := 0x1080; 0x1000 := 0x1040; 0x1008 := 0x100; 0x1040 := 0x1080; 0x1048 := 0x1000; 0x1080 := 0; 0x1088 := 0x1040 ]}.

Definition sample_dies (e : Z) : list Z := if e =? 0x1000 then [0x1040] else [].
Definition sample_func (e : Z) : C eventhandler_list () := modifyS (λ s, EList s.(links) (kill (sample_dies e) s.(ee_priority)) s.(el_runcount) s.(el_lock) s.(ran)).

#[export] Instance sample_handlers : Handlers sample_func sample_dies.
Proof. constructor. intros e [m pm n b r] Hb _. cbn in Hb. by subst b. Qed.

(** Pruning may do nothing. *)
#[export] Instance lazy_prunes h elems : Prunes h elems (mret ()).
Proof.
  constructor. intros [m pm n b r] l Hb Hn Hq. cbn in *. subst b n. exists m, l. split_and!; [done|done|apply sublist_filter|done].
Qed.

Definition sample_list : eventhandler_list := EList three_entries {[0x1000 := 0; 0x1040 := 10000; 0x1080 := 20000]} 0 true [].

Lemma entries_world : world 0 true true [0x100] [0x1000; 0x1040; 0x1080].
Proof. split; unfold esize, hsize; intros; repeat (match goal with H : _ ∈ _ |- _ => apply elem_of_cons in H as [->|H] || by apply elem_of_nil in H end); try lia; set_solver. Qed.

Lemma entries_queue : queue 0 true true [0x1000; 0x1040; 0x1080] three_entries 0x100 [0x1000; 0x1040; 0x1080].
Proof. split; [done|repeat (constructor; [set_solver|]); constructor|by vm_compute|by intros _; vm_compute]. Qed.

Lemma invoke_calls_in_order_witness : ∃ s', _EVENTHANDLER_INVOKE 0x100 sample_func (mret ()) sample_list = Done () s' ∧ s'.(ran) = [0x1000; 0x1080] ∧ s'.(el_lock) = false.
Proof.
  destruct (invoke_calls_in_order 0x100 [0x100] [0x1000; 0x1040; 0x1080] sample_func sample_dies (mret ()) sample_list [0x1000; 0x1040; 0x1080]
    entries_world) as ((m' & l' & E & _) & _); [set_solver|exact entries_queue| |done|done|].
  - intros e He. repeat (apply elem_of_cons in He as [->|He]; [by vm_compute; eexists|]). by apply elem_of_nil in He.
  - eexists. split; [exact E|]. by split.
Defined.
