(* ===== verification/Ctype.v ===== *)
(** * Character classes and page counters

    include/_ctype.h, with the tables of include/runetype.h: classification,
    case mapping and width of characters.  The functions for characters
    outside the tables are in the C library and are parameters.
    include/sys/vmmeter.h: the tests of the number of free pages. *)

From S2P Require Import Prelude.

(** ** The code: characters *)

Definition _CACHED_RUNES : Z := Z.shiftl 1 8.
Definition _CTYPE_R : Z := 0x00040000.
Definition _CTYPE_SW0 : Z := 0x20000000.
Definition _CTYPE_SW1 : Z := 0x40000000.
Definition _CTYPE_SW2 : Z := 0x80000000.
Definition _CTYPE_SW3 : Z := 0xc0000000.
Definition _CTYPE_SWM : Z := 0xe0000000.
Definition _CTYPE_SWS : Z := 30.

Record _RuneLocale := RuneLocale { __runetype : list Z; __maplower : list Z; __mapupper : list Z }.

(** An access outside a table is undefined. *)
Definition table_entry (t : list Z) (c : Z) : option Z := if c <? 0 then None else t !! Z.to_nat c.

Section Code.
Context (___runetype ___tolower ___toupper : Z → Z) (_CurrentRuneLocale _DefaultRuneLocale : _RuneLocale) (__mb_sb_limit : Z).

Definition __maskrune (c f : Z) : option Z :=
  t ← if (c <? 0) || (_CACHED_RUNES <=? c) then Some (___runetype c) else table_entry _CurrentRuneLocale.(__runetype) c;
  Some (i32 (Z.land t f)).
Definition __sbmaskrune (c f : Z) : option Z :=
  if (c <? 0) || (__mb_sb_limit <=? c) then Some 0 else t ← table_entry _CurrentRuneLocale.(__runetype) c; Some (i32 (Z.land t f)).
Definition __istype (c f : Z) : option bool := m ← __maskrune c f; Some (c_true m).
Definition __sbistype (c f : Z) : option bool := m ← __sbmaskrune c f; Some (c_true m).
Definition __isctype (c f : Z) : option bool :=
  if (c <? 0) || (128 <=? c) then Some false else t ← table_entry _DefaultRuneLocale.(__runetype) c; Some (c_true (Z.land t f)).
Definition __toupper (c : Z) : option Z :=
  if (c <? 0) || (_CACHED_RUNES <=? c) then Some (___toupper c) else table_entry _CurrentRuneLocale.(__mapupper) c.
Definition __sbtoupper (c : Z) : option Z :=
  if (c <? 0) || (__mb_sb_limit <=? c) then Some c else table_entry _CurrentRuneLocale.(__mapupper) c.
Definition __tolower (c : Z) : option Z :=
  if (c <? 0) || (_CACHED_RUNES <=? c) then Some (___tolower c) else table_entry _CurrentRuneLocale.(__maplower) c.
Definition __sbtolower (c : Z) : option Z :=
  if (c <? 0) || (__mb_sb_limit <=? c) then Some c else table_entry _CurrentRuneLocale.(__maplower) c.
Definition __wcwidth (c : Z) : option Z :=
  if c =? 0 then Some 0 else
  m ← __maskrune c (Z.lor _CTYPE_SWM _CTYPE_R);
  let x := u32 m in
  Some (if negb (Z.land x _CTYPE_SWM =? 0) then Z.shiftr (Z.land x _CTYPE_SWM) _CTYPE_SWS
        else if negb (Z.land x _CTYPE_R =? 0) then 1 else -1).
End Code.

(** ** The code: pages *)

(** The members of struct vmmeter the functions use, all u_int. *)
Record vmmeter := Vmmeter {
  v_free_severe : Z; v_free_reserved : Z; v_free_target : Z; v_free_min : Z; v_free_count : Z; v_cache_count : Z; v_cache_min : Z }.

Definition vm_page_count_severe (cnt : vmmeter) : bool := u32 (cnt.(v_free_count) + cnt.(v_cache_count)) <? cnt.(v_free_severe).
Definition vm_page_count_min (cnt : vmmeter) : bool := u32 (cnt.(v_free_count) + cnt.(v_cache_count)) <? cnt.(v_free_min).
Definition vm_page_count_target (cnt : vmmeter) : bool := u32 (cnt.(v_free_count) + cnt.(v_cache_count)) <? cnt.(v_free_target).
Definition vm_paging_target (cnt : vmmeter) : Z :=
  i32 (u32 (u32 (cnt.(v_free_target) + cnt.(v_cache_min)) - u32 (cnt.(v_free_count) + cnt.(v_cache_count)))).
Definition vm_paging_needed (cnt : vmmeter) : bool :=
  u32 (cnt.(v_free_count) + cnt.(v_cache_count)) <? u32 (cnt.(v_free_reserved) + cnt.(v_cache_min)).

(** ** Characters *)

(** Tables of 256 entries of 32 bits; the single-byte characters are among
    them. *)
Record locale_ok (L : _RuneLocale) (limit : Z) : Prop := {
  lo_type : length L.(__runetype) = 256%nat;
  lo_lower : length L.(__maplower) = 256%nat;
  lo_upper : length L.(__mapupper) = 256%nat;
  lo_words : Forall (λ t, 0 ≤ t < 2 ^ 32) L.(__runetype);
  lo_limit : limit ≤ _CACHED_RUNES }.

Lemma entry_total t c : length t = 256%nat → 0 ≤ c < 256 → ∃ x, table_entry t c = Some x.
Proof. intros Hl Hc. unfold table_entry. rewrite (proj2 (Z.ltb_ge c 0)) by lia. apply lookup_lt_is_Some. lia. Qed.

Section Chars.
Context (___runetype ___tolower ___toupper : Z → Z) (L : _RuneLocale) (limit : Z).
Hypothesis HL : locale_ok L limit.
Hypothesis Hext : ∀ c, 0 ≤ ___runetype c < 2 ^ 32.

(** The type word of a character. *)
Definition type_of (c : Z) : Z := if (c <? 0) || (_CACHED_RUNES <=? c) then ___runetype c else default 0 (table_entry L.(__runetype) c).

Lemma in_table c : (c <? 0) || (_CACHED_RUNES <=? c) = false → 0 ≤ c < 256.
Proof. change _CACHED_RUNES with 256. intros H. apply orb_false_iff in H as [H1 H2]. zb. lia. Qed.

Lemma type_range c : 0 ≤ type_of c < 2 ^ 32.
Proof.
  unfold type_of. destruct ((c <? 0) || (_CACHED_RUNES <=? c)) eqn:E; [apply Hext|]. apply in_table in E.
  destruct (entry_total _ c (lo_type _ _ HL) E) as [x Hx]. rewrite Hx. cbn. unfold table_entry in Hx. rewrite (proj2 (Z.ltb_ge c 0)) in Hx by lia.
  by apply (Forall_lookup_1 _ _ _ _ (lo_words _ _ HL)) in Hx.
Qed.

Lemma maskrune_eq c f : __maskrune ___runetype L c f = Some (i32 (Z.land (type_of c) f)).
Proof.
  unfold __maskrune, type_of. destruct ((c <? 0) || (_CACHED_RUNES <=? c)) eqn:E; [done|]. apply in_table in E.
  destruct (entry_total _ c (lo_type _ _ HL) E) as [x Hx]. by rewrite Hx.
Qed.

Lemma word_of_int x : 0 ≤ x < 2 ^ 32 → u32 (i32 x) = x.
Proof. rewrite u32_i32. apply u32_small. Qed.

Lemma mask_range c f : 0 ≤ f < 2 ^ 32 → 0 ≤ Z.land (type_of c) f < 2 ^ 32.
Proof. intros Hf. apply land_low; [lia|apply type_range|lia]. Qed.

Lemma int_nonzero x : 0 ≤ x < 2 ^ 32 → c_true (i32 x) = negb (x =? 0).
Proof.
  intros Hx. unfold c_true, i32, signed. cbv zeta. rewrite (Z.mod_small x) by done. destruct (Z.ltb_spec x (2 ^ (32 - 1))); [done|].
  f_equal. destruct (Z.eqb_spec (x - 2 ^ 32) 0), (Z.eqb_spec x 0); lia.
Qed.

Lemma istype_ok c f : 0 ≤ f < 2 ^ 32 → __istype ___runetype L c f = Some (negb (Z.land (type_of c) f =? 0)).
Proof. intros Hf. unfold __istype. rewrite maskrune_eq. cbn. f_equal. apply int_nonzero. by apply mask_range. Qed.

Lemma wcwidth_ok c : c ≠ 0 → __wcwidth ___runetype L c =
  Some (let t := type_of c in if Z.land t _CTYPE_SWM =? 0 then (if Z.land t _CTYPE_R =? 0 then -1 else 1) else t / 2 ^ 30).
Proof.
  intros Hc. unfold __wcwidth. rewrite (proj2 (Z.eqb_neq c 0)) by done. rewrite maskrune_eq. cbn [mbind option_bind]. f_equal. cbv zeta.
  rewrite word_of_int by (apply mask_range; by split). rewrite <- !Z.land_assoc.
  change (Z.land (Z.lor _CTYPE_SWM _CTYPE_R) _CTYPE_SWM) with _CTYPE_SWM. change (Z.land (Z.lor _CTYPE_SWM _CTYPE_R) _CTYPE_R) with _CTYPE_R.
  pose proof (type_range c) as Ht. destruct (Z.land (type_of c) _CTYPE_SWM =? 0); cbn [negb].
  - by destruct (Z.land (type_of c) _CTYPE_R =? 0).
  - rewrite Z.shiftr_land. change (Z.shiftr _CTYPE_SWM _CTYPE_SWS) with (Z.ones 2). rewrite Z.land_ones, Z.shiftr_div_pow2 by (unfold _CTYPE_SWS; lia).
    unfold _CTYPE_SWS. apply Z.mod_small. split; [apply Z.div_pos; lia|apply Z.div_lt_upper_bound; lia].
Qed.

Lemma single_byte c : 0 ≤ c < limit → (c <? 0) || (_CACHED_RUNES <=? c) = false ∧ (c <? 0) || (limit <=? c) = false.
Proof.
  intros Hc. pose proof (lo_limit _ _ HL). rewrite (proj2 (Z.ltb_ge c 0)), (proj2 (Z.leb_gt limit c)), (proj2 (Z.leb_gt _CACHED_RUNES c)) by lia. done.
Qed.
End Chars.

(** ** Properties *)

(** Classification reads the character's type word, from the table or from
    the C library, for every character: the mask survives the conversion to
    int. *)
Theorem ctype_classifies ___runetype L limit c f : locale_ok L limit → (∀ c, 0 ≤ ___runetype c < 2 ^ 32) → 0 ≤ f < 2 ^ 32 →
  __istype ___runetype L c f = Some (negb (Z.land (type_of ___runetype L c) f =? 0)).
Proof. intros HL Hx Hf. by apply (istype_ok ___runetype L limit). Qed.

(** The width of a character: 0 for the null character, the number in the
    width field (0 to 3) if it has one, otherwise 1 if it is printable and -1
    if not. *)
Theorem wcwidth_spec ___runetype L limit c : locale_ok L limit → (∀ c, 0 ≤ ___runetype c < 2 ^ 32) →
  __wcwidth ___runetype L c =
  Some (if c =? 0 then 0 else
        let t := type_of ___runetype L c in if Z.land t _CTYPE_SWM =? 0 then (if Z.land t _CTYPE_R =? 0 then -1 else 1) else t / 2 ^ 30).
Proof.
  intros HL Hx. destruct (Z.eqb_spec c 0) as [->|Hc]; [done|]. by apply (wcwidth_ok ___runetype L limit).
Qed.

(** On single-byte characters the functions with and without the limit are
    the same; beyond the limit the former map every character to itself and
    give it no type. *)
Theorem single_byte_agrees ___runetype ___tolower ___toupper L limit c f : locale_ok L limit →
  (0 ≤ c < limit → __sbmaskrune L limit c f = __maskrune ___runetype L c f ∧
    __sbtoupper L limit c = __toupper ___toupper L c ∧ __sbtolower L limit c = __tolower ___tolower L c) ∧
  (c < 0 ∨ limit ≤ c → __sbmaskrune L limit c f = Some 0 ∧ __sbtoupper L limit c = Some c ∧ __sbtolower L limit c = Some c).
Proof.
  intros HL. unfold __sbmaskrune, __maskrune, __sbtoupper, __toupper, __sbtolower, __tolower. split.
  - intros Hc. destruct (single_byte L limit HL c Hc) as [-> ->]. done.
  - intros Hc. assert (E : (c <? 0) || (limit <=? c) = true); [|by rewrite E].
    apply orb_true_iff. destruct Hc; [left; by apply Z.ltb_lt|right; by apply Z.leb_le].
Qed.

(** A locale in which every character below 256 is printable. *)
Definition plain_locale : _RuneLocale := RuneLocale (replicate 256 _CTYPE_R) (seqZ 0 256) (seqZ 0 256).

Lemma plain_ok : locale_ok plain_locale 128.
Proof. constructor; [done|done|done|by apply Forall_replicate|by vm_compute]. Qed.

Lemma ctype_classifies_witness : __istype (λ _, 0) plain_locale 65 _CTYPE_R = Some true.
Proof. rewrite (ctype_classifies (λ _, 0) plain_locale 128 65 _CTYPE_R plain_ok); [done|by split|by split]. Defined.

Lemma wcwidth_spec_witness : __wcwidth (λ _, _CTYPE_SW2) plain_locale 0x4e00 = Some 2.
Proof. rewrite (wcwidth_spec (λ _, _CTYPE_SW2) plain_locale 128 0x4e00 plain_ok); [done|by split]. Defined.

Lemma single_byte_agrees_witness : __sbtoupper plain_locale 128 200 = Some 200.
Proof. destruct (single_byte_agrees (λ _, 0) id id plain_locale 128 200 0 plain_ok) as [_ H]. destruct H as (_ & H & _); [by right|exact H]. Defined.

(** The page counters: as long as no sum leaves the 32 bits, the tests compare
    the pages free and cached with their thresholds, so each threshold passed
    implies the higher ones; and while the numbers are below 2^31 the target
    is the exact number of pages missing. *)
Theorem page_counts cnt :
  let n := cnt.(v_free_count) + cnt.(v_cache_count) in let t := cnt.(v_free_target) + cnt.(v_cache_min) in
  0 ≤ n < 2 ^ 32 → cnt.(v_free_severe) ≤ cnt.(v_free_min) ≤ cnt.(v_free_target) →
  (vm_page_count_severe cnt = true → vm_page_count_min cnt = true) ∧ (vm_page_count_min cnt = true → vm_page_count_target cnt = true) ∧
  (0 ≤ t < 2 ^ 31 → n < 2 ^ 31 → vm_paging_target cnt = t - n) ∧
  (0 ≤ cnt.(v_free_reserved) + cnt.(v_cache_min) < 2 ^ 32 → (vm_paging_needed cnt = true ↔ n < cnt.(v_free_reserved) + cnt.(v_cache_min))).
Proof.
  intros n t Hn Ho. unfold vm_page_count_severe, vm_page_count_min, vm_page_count_target, vm_paging_target, vm_paging_needed. fold n t.
  rewrite (u32_small n) by done. rewrite !Z.ltb_lt. split_and!; [lia|lia| |].
  - intros Ht Hn'. rewrite (u32_small t) by lia. unfold i32, signed, u32. cbv zeta. rewrite Z.mod_mod by lia. change (32 - 1) with 31.
    destruct (Z.ltb_spec ((t - n) mod 2 ^ 32) (2 ^ 31)); Z.div_mod_to_equations; lia.
  - intros Hr. by rewrite u32_small by done.
Qed.

Lemma page_counts_witness : vm_paging_target (Vmmeter 10 20 100 50 30 5 7) = 72.
Proof. destruct (page_counts (Vmmeter 10 20 100 50 30 5 7)) as (_ & _ & H & _); [by split|by split|]. by apply H. Defined.
