(* ===== verification/Kobj.v ===== *)
(** * Kernel objects

    include/sys/kobj.h: KOBJOPLOOKUP finds the function that implements an
    operation for the class of an object, in a cache of 256 entries that the
    operation's number indexes, and by the slow search kobj_lookup_method,
    which is in the kernel and is a parameter. *)

From S2P Require Import Prelude.

(** ** The code *)

Definition KOBJ_CACHE_SIZE : Z := 256.

(** struct kobj_method: the operation it implements (NULL in an entry of a
    fresh cache) and the function. *)
Record kobj_method := Method { desc : Z; func : Z }.

(** Memory: the methods and the operations' numbers, by address; the cache
    and the class of the ops table; the counters of KOBJ_STATS (u_int), and how
    often the slow search was called. *)
Record kobj_ops := Ops {
  methods : gmap Z kobj_method; ids : gmap Z Z; cache : list Z; cls : Z;
  kobj_lookup_hits : Z; slow_calls : nat }.

Definition with_cache (c : list Z) (s : kobj_ops) : kobj_ops := Ops s.(methods) s.(ids) c s.(cls) s.(kobj_lookup_hits) s.(slow_calls).

Definition method_at (p : Z) : C kobj_ops kobj_method := λ s, match s.(methods) !! p with Some m => Done m s | None => UB end.
Definition id_of (d : Z) : C kobj_ops Z := λ s, match s.(ids) !! d with Some i => Done i s | None => UB end.
Definition cache_at (i : Z) : C kobj_ops Z := λ s, match s.(cache) !! Z.to_nat i with Some p => Done p s | None => UB end.

Section Lookup.
(** kobj_lookup_method(cls, cep, desc), with the index of the cache entry. *)
Context (kobj_lookup_method : Z → Z → Z → C kobj_ops Z).

(** [stats]: the variant with KOBJ_STATS. *)
Definition KOBJOPLOOKUP (stats : bool) (_desc : Z) : C kobj_ops Z :=
  id ← id_of _desc;
  let _cep := Z.land id (KOBJ_CACHE_SIZE - 1) in
  _ce ← cache_at _cep;
  (if stats then modifyS (λ s, Ops s.(methods) s.(ids) s.(cache) s.(cls) (u32 (s.(kobj_lookup_hits) + 1)) s.(slow_calls)) else mret ());;
  m ← method_at _ce;
  _ce ← (if negb (m.(desc) =? _desc) then c ← gets cls; kobj_lookup_method c _cep _desc else mret _ce);
  m ← method_at _ce;
  mret m.(func).

(** A sequence of calls. *)
Fixpoint lookups (stats : bool) (ds : list Z) : C kobj_ops (list Z) :=
  match ds with
  | [] => mret []
  | d :: ds => f ← KOBJOPLOOKUP stats d; fs ← lookups stats ds; mret (f :: fs)
  end.
End Lookup.

(** ** The slow search and the cache *)

(** What the slow search does, with method tables that are complete ([ok]): it
    finds a method of the operation, with the function that [resolve] gives
    the class, puts its address into the cache entry, and changes nothing
    else. *)
Class SlowLookup (slow : Z → Z → Z → C kobj_ops Z) (resolve : Z → Z → Z) (ok : gmap Z kobj_method → gmap Z Z → Z → Prop) : Prop := {
  slow_ok s i d : ok s.(methods) s.(ids) s.(cls) → is_Some (s.(cache) !! Z.to_nat i) → is_Some (s.(ids) !! d) → d ≠ 0 →
    ∃ p, slow s.(cls) i d s = Done p (Ops s.(methods) s.(ids) (<[Z.to_nat i := p]> s.(cache)) s.(cls) s.(kobj_lookup_hits) (S s.(slow_calls))) ∧
      s.(methods) !! p = Some (Method d (resolve s.(cls) d)) }.

(** The tables are complete; every entry is a method of no operation, or of one whose function it has;
    it is at the place its operation's number gives. *)
Record coherent (resolve : Z → Z → Z) (ok : gmap Z kobj_method → gmap Z Z → Z → Prop) (s : kobj_ops) : Prop := {
  co_ok : ok s.(methods) s.(ids) s.(cls);
  co_size : Z.of_nat (length s.(cache)) = KOBJ_CACHE_SIZE;
  co_entry i p : s.(cache) !! i = Some p → ∃ m, s.(methods) !! p = Some m ∧ (m.(desc) = 0 ∨ m.(func) = resolve s.(cls) m.(desc)) }.

Definition slot (s : kobj_ops) (d : Z) : nat := Z.to_nat (Z.land (default 0 (s.(ids) !! d)) (KOBJ_CACHE_SIZE - 1)).

(** The entry for [d] holds a method of it. *)
Definition cached (s : kobj_ops) (d : Z) : Prop := ∃ p m, s.(cache) !! slot s d = Some p ∧ s.(methods) !! p = Some m ∧ m.(desc) = d.

Lemma slot_lt s d : (slot s d < 256)%nat.
Proof.
  unfold slot. change (KOBJ_CACHE_SIZE - 1) with (Z.ones 8). rewrite Z.land_ones by lia.
  pose proof (Z.mod_pos_bound (default 0 (s.(ids) !! d)) (2 ^ 8) ltac:(lia)). lia.
Qed.

Section Ok.
Context (slow : Z → Z → Z → C kobj_ops Z) (resolve : Z → Z → Z) (ok : gmap Z kobj_method → gmap Z Z → Z → Prop) `{!SlowLookup slow resolve ok}.

(** What stays the same, and what a lookup adds. *)
Definition same_tables (s s' : kobj_ops) : Prop := s'.(methods) = s.(methods) ∧ s'.(ids) = s.(ids) ∧ s'.(cls) = s.(cls).

Lemma lookup_ok stats d s : coherent resolve ok s → is_Some (s.(ids) !! d) → d ≠ 0 →
  ∃ s', KOBJOPLOOKUP slow stats d s = Done (resolve s.(cls) d) s' ∧ coherent resolve ok s' ∧ same_tables s s' ∧ cached s' d ∧
    (cached s d → s'.(cache) = s.(cache) ∧ s'.(slow_calls) = s.(slow_calls)) ∧
    (∀ i, i ≠ slot s d → s'.(cache) !! i = s.(cache) !! i).
Proof.
  intros [Hok Hsz Hen] [id Hid] Hd. change KOBJ_CACHE_SIZE with 256 in Hsz. pose proof (slot_lt s d) as Hs.
  destruct (lookup_lt_is_Some_2 s.(cache) (slot s d)) as [p Hp]; [lia|]. destruct (Hen _ _ Hp) as (m & Hm & Hc).
  set (s1 := if stats then Ops s.(methods) s.(ids) s.(cache) s.(cls) (u32 (s.(kobj_lookup_hits) + 1)) s.(slow_calls) else s).
  assert (F : s1.(methods) = s.(methods) ∧ s1.(ids) = s.(ids) ∧ s1.(cache) = s.(cache) ∧ s1.(cls) = s.(cls) ∧ s1.(slow_calls) = s.(slow_calls))
    by (unfold s1; by destruct stats). destruct F as (F1 & F2 & F3 & F4 & F5).
  assert (Esl : slot s d = Z.to_nat (Z.land id (KOBJ_CACHE_SIZE - 1))) by (unfold slot; by rewrite Hid).
  assert (E : KOBJOPLOOKUP slow stats d s =
    (_ce ← (if negb (m.(desc) =? d) then c ← gets cls; slow c (Z.land id (KOBJ_CACHE_SIZE - 1)) d else mret p); m ← method_at _ce; mret m.(func)) s1).
  { unfold KOBJOPLOOKUP. rewrite (bind_done _ _ s s id) by (unfold id_of; by rewrite Hid). cbv zeta.
    rewrite (bind_done _ _ s s p) by (unfold cache_at; rewrite <- Esl; by rewrite Hp).
    rewrite (bind_done _ _ s s1 ()) by (unfold s1; by destruct stats). rewrite (bind_done _ _ s1 s1 m) by (unfold method_at; by rewrite F1, Hm). done. }
  rewrite E. clearbody s1. clear E. destruct (Z.eqb_spec m.(desc) d) as [Ed|Ed]; cbn [negb].
  - rewrite bind_ret, (bind_done _ _ s1 s1 m) by (unfold method_at; by rewrite F1, Hm). exists s1.
    destruct Hc as [Hc|Hc]; [congruence|]. rewrite Ed in Hc. rewrite mret_done, Hc. split_and!; try done.
    + split; [by rewrite F1, F2, F4|by rewrite F3|]. intros i q. rewrite F1, F3, F4. apply Hen.
    + exists p, m. unfold slot in *. rewrite F1, F2, F3. by rewrite Hid in *.
    + intros i _. by rewrite F3.
  - destruct (slow_ok s1 (Z.land id (KOBJ_CACHE_SIZE - 1)) d) as (q & Eq & Hq); [by rewrite F1, F2, F4|rewrite F3, <- Esl; eauto|rewrite F2; eauto|done|].
    rewrite bind_assoc, (bind_done _ _ s1 s1 s1.(cls)) by done. rewrite (bind_done _ _ _ _ _ Eq). rewrite F1, F4 in Hq.
    set (s2 := Ops _ _ _ _ _ _). assert (Hq2 : s2.(methods) !! q = Some (Method d (resolve s.(cls) d))) by (rewrite <- F1 in Hq; exact Hq).
    rewrite (bind_done _ _ s2 s2 _) by (unfold method_at; by rewrite Hq2). exists s2.
    assert (C2 : s2.(cache) = <[slot s d := q]> s.(cache)) by (rewrite <- F3, Esl; done).
    assert (Hq3 : s2.(cache) !! slot s d = Some q) by (rewrite C2; apply list_lookup_insert_eq; lia).
    split_and!; try done.
    + split; [by rewrite <- F1, <- F2, <- F4 in Hok|rewrite C2, length_insert; done|]. intros i x Hx. rewrite C2 in Hx. change (methods s2) with (methods s1). change (cls s2) with (cls s1). rewrite F1, F4.
      apply list_lookup_insert_Some in Hx as [(_ & <- & _)|(_ & Hx)]; [eexists; split; [exact Hq|by right]|by eapply Hen].
    + exists q, (Method d (resolve s.(cls) d)). split_and!; [|done|done]. rewrite <- Hq3. f_equal. unfold slot. change (ids s2) with (ids s1). by rewrite F2.
    + intros (p' & m' & Hp' & Hm' & Hd'). congruence.
    + intros i Hi. rewrite C2. by apply list_lookup_insert_ne.
Qed.

Lemma lookups_ok stats ds s : coherent resolve ok s → Forall (λ d, is_Some (s.(ids) !! d) ∧ d ≠ 0) ds →
  ∃ s', lookups slow stats ds s = Done (resolve s.(cls) <$> ds) s' ∧ coherent resolve ok s' ∧ same_tables s s'.
Proof.
  intros Hs Hds. revert s Hs Hds. induction ds as [|d ds IH]; intros s Hs Hds; cbn [lookups]; [by exists s|].
  apply Forall_cons in Hds as [[Hd H0] Hds]. destruct (lookup_ok stats d s Hs Hd H0) as (s1 & E1 & Hs1 & (T1 & T2 & T3) & _).
  rewrite (bind_done _ _ _ _ _ E1). destruct (IH s1 Hs1) as (s2 & E2 & Hs2 & (U1 & U2 & U3)); [by rewrite T2|].
  rewrite (bind_done _ _ _ _ _ E2). exists s2. rewrite T3. split_and!; [done|done|]. split_and!; congruence.
Qed.
End Ok.

(** ** Properties *)

(** C27. The cache never shows: any sequence of lookups, with or without the
    statistics, gives the functions that the slow search alone would give, and
    keeps the cache coherent.  An operation that was just looked up is in the
    cache and is found there without a slow search; a lookup changes no other
    entry, so it stays until an operation with the same low eight bits of its
    number takes its place. *)
Theorem method_cache_transparent slow resolve ok `{!SlowLookup slow resolve ok} stats ds s : coherent resolve ok s →
  Forall (λ d, is_Some (s.(ids) !! d) ∧ d ≠ 0) ds →
  (∃ s', lookups slow stats ds s = Done (resolve s.(cls) <$> ds) s' ∧ coherent resolve ok s' ∧ same_tables s s') ∧
  (∀ d, d ∈ ds → ∃ s', KOBJOPLOOKUP slow stats d s = Done (resolve s.(cls) d) s' ∧ cached s' d ∧
    (cached s d → s'.(slow_calls) = s.(slow_calls)) ∧ ∀ i, i ≠ slot s d → s'.(cache) !! i = s.(cache) !! i).
Proof.
  intros Hs Hds. split; [by apply (lookups_ok slow resolve ok)|]. intros d Hd. apply (proj1 (Forall_forall _ _) Hds) in Hd as [H1 H2].
  destruct (lookup_ok slow resolve ok stats d s Hs H1 H2) as (s' & E & _ & _ & Hc & Hh & Hi). exists s'. split_and!; [done|done| |done].
  intros H. by apply Hh.
Qed.

(** Two operations with the same slot; methods at known addresses. *)
Definition sample_ok (ms : gmap Z kobj_method) (im : gmap Z Z) (c : Z) : Prop :=
  c = 5 ∧ ∀ d, is_Some (im !! d) → ms !! (0x1000 + d) = Some (Method d (5 + d)).

Definition sample_slow (c i d : Z) : C kobj_ops Z := λ s,
  Done (0x1000 + d) (Ops s.(methods) s.(ids) (<[Z.to_nat i := 0x1000 + d]> s.(cache)) s.(cls) s.(kobj_lookup_hits) (S s.(slow_calls))).

#[export] Instance sample_slow_ok : SlowLookup sample_slow Z.add sample_ok.
Proof. constructor. intros s i d [Hc Hm] _ Hd _. eexists. split; [done|]. rewrite Hc. by apply Hm. Qed.

Definition sample_kobj : kobj_ops :=
  Ops {[0 := Method 0 0; 0x1010 := Method 0x10 0x15; 0x1020 := Method 0x20 0x25]} {[0x10 := 3; 0x20 := 0x103]} (replicate 256 0) 5 0 0.

Lemma sample_coherent : coherent Z.add sample_ok sample_kobj.
Proof.
  constructor; [|done|].
  - split; [done|]. intros d [x Hx]. cbn in Hx. apply lookup_insert_Some in Hx as [[<- _]|[_ Hx]]; [done|].
    apply lookup_singleton_Some in Hx as [<- _]. done.
  - intros i p Hp. apply lookup_replicate in Hp as [-> _]. exists (Method 0 0). split; [done|by left].
Qed.

Lemma method_cache_transparent_witness : ∃ s', lookups sample_slow true [0x10; 0x20; 0x10; 0x10] sample_kobj = Done [0x15; 0x25; 0x15; 0x15] s'.
Proof.
  destruct (method_cache_transparent sample_slow Z.add sample_ok true [0x10; 0x20; 0x10; 0x10] sample_kobj sample_coherent) as ((s' & E & _) & _).
  - repeat (apply Forall_cons; split; [split; [by eexists|done]|]). apply Forall_nil_2.
  - by exists s'.
Defined.
