(* ===== verification/Giant.v ===== *)
(** * Dropping and picking up Giant

    The macros of include/sys/mutex.h that release the mutex Giant however
    often the thread holds it and take it as often again, on the programs of
    Locks.v.  Other threads act on the mutex between any two actions of the
    thread. *)

From stdpp Require Import gmultiset.
From S2P Require Import Prelude.
From S2P Require Import Locks.
From S2P Require Import LockSteps.
From S2P Require Import LockKinds.
#[local] Open Scope Z_scope.

(** ** The code *)

(** The mutex, and how many actions have been done. *)
Record gstate := G { giant : lock; clock : nat }.

Section Macros.
(** The thread; what the other threads make of the mutex before an action;
    what the blocking function for an operation makes of it when it returns;
    the kernel's _mtx_assert(&Giant, MA_NOTOWNED, ...). *)
Context (curthread : Z) (others : nat → lock → lock) (hard : nat → lock_op → lock → lock) (_mtx_assert : C gstate ()).

Definition tick : C gstate () := modifyS (λ g, G (others g.(clock) g.(giant)) (S g.(clock))).

Fixpoint exec (p : prog) : C gstate Z :=
  match p with
  | Ret r => mret r
  | Load x k => tick;; s ← gets giant; exec (k (get_var x s))
  | Store x v k => tick;; modifyS (λ g, G (set_var x v g.(giant)) g.(clock));; exec k
  | Cmpset e v k =>
      tick;; s ← gets giant;
      modifyS (λ g, G (cmpset_word e v s).2 g.(clock));; exec (k (cmpset_word e v s).1)
  | Call (Hard o) k => tick;; modifyS (λ g, G (hard g.(clock) o g.(giant)) g.(clock));; exec (k 0)
  | Call SpinEnter k => exec (k 0)
  | Call SpinExit k => exec (k 0)
  end.

(** mtx_owned(&Giant) *)
Definition giant_owned : C gstate bool := tick;; s ← gets giant; mret (mtx_owned curthread s.(word)).

(** mtx_assert(&Giant, MA_NOTOWNED), with INVARIANTS or without. *)
Definition assert_notowned (invariants : bool) : C gstate () :=
  if invariants then _mtx_assert else mret ().

(** [_giantcnt++] on an int. *)
Definition incr_int (n : Z) : C gstate Z := if n =? INT_MAX then ub else mret (n + 1).

(** The result is the count that the block keeps for PICKUP_GIANT. *)
Definition DROP_GIANT (fuel : nat) : C gstate Z :=
  b ← giant_owned;
  if b : bool then
    while fuel 0 (λ _giantcnt,
      b ← giant_owned;
      if b : bool then exec (mtx_unlock curthread);; n ← incr_int _giantcnt; mret (inl n)
      else mret (inr _giantcnt))
  else mret 0.

Definition PARTIAL_PICKUP_GIANT (invariants : bool) (fuel : nat) (_giantcnt : Z) : C gstate () :=
  assert_notowned invariants;;
  if 0 <? _giantcnt then
    while fuel _giantcnt (λ n,
      if c_true n then exec (mtx_lock curthread);; mret (inl (n - 1)) else mret (inr ()))
  else mret ().

Definition PICKUP_GIANT (invariants : bool) (fuel : nat) (_giantcnt : Z) : C gstate () :=
  PARTIAL_PICKUP_GIANT invariants fuel _giantcnt.

(** UGAR(rval): the value is computed before the unlock. *)
Definition UGAR (rval : C gstate Z) : C gstate Z :=
  _val ← rval; exec (mtx_unlock curthread);; mret _val.
End Macros.

(** ** The mutex with its other users *)

(** Other threads leave alone what the thread holds; the blocking functions
    return after other threads have done what they did, with the operation
    done; the assertion holds for a thread that does not own the mutex. *)
Class GiantUsers (curthread : Z) (others : nat → lock → lock) (hard : nat → lock_op → lock → lock) (_mtx_assert : C gstate ()) : Prop := {
  others_ok n h s : mtx_encodes h s → room h →
    ∃ h', rely curthread h h' ∧ mtx_encodes h' (others n s) ∧ room h';
  hard_done n o h s : mtx_supports o = true → pre o curthread h → mtx_encodes h s → room h →
    ∃ h1 h2, rely curthread h h1 ∧ room h1 ∧ effect curthread o h1 h2 ∧ mtx_encodes h2 (hard n o s);
  assert_passes g h : mtx_encodes h g.(giant) → room h → xheld h curthread = 0%nat →
    ∃ g' h', _mtx_assert g = Done () g' ∧ mtx_encodes h' g'.(giant) ∧ room h' ∧ xheld h' curthread = 0%nat }.

(** The thread holds Giant [d] times. *)
Definition held (curthread : Z) (d : nat) (g : gstate) : Prop :=
  ∃ h, mtx_encodes h g.(giant) ∧ room h ∧ xheld h curthread = d.

(** Programs that return 0. *)
Fixpoint returns0 (p : prog) : Prop :=
  match p with
  | Ret r => r = 0
  | Load _ k | Cmpset _ _ k | Call _ k => ∀ v, returns0 (k v)
  | Store _ _ k => returns0 k
  end.

Lemma mtx_code_returns0 o tid : returns0 (mtx_code o tid).
Proof.
  destruct o; cbn [mtx_code]; unfold mtx_lock_flags, mtx_unlock, mtx_unlock_flags, __mtx_lock, __mtx_unlock; simpl; intros v; by destruct (v =? 0).
Qed.

Lemma effect_room tid o h h' : mtx_supports o = true → effect tid o h h' → room h → Z.of_nat (xheld h tid) + 2 < 2 ^ 32 → room h'.
Proof.
  intros Ho He. unfold room. destruct He; cbn [holds xheld]; rewrite ?decide_True, ?gmultiset_size_empty by done; try done; lia.
Qed.

(** The action at which the operation takes effect; the rest of the program
    does nothing more. *)
Ltac effected Ho Hef rest :=
  let Eself := fresh in let g' := fresh "g'" in let h' := fresh "h'" in
  destruct (effect_self _ _ _ _ Hef) as [Eself _]; rewrite <- Eself;
  destruct rest as (g' & h' & ? & ? & ? & ?);
    [by eapply (effect_room _ _ _ _ Ho Hef)|match goal with o : lock_op |- _ => destruct o end; simpl in *; try done; lia|];
  exists g', h'; split_and!; try done; lia.

Section Ok.
Context (curthread : Z) (others : nat → lock → lock) (hard : nat → lock_op → lock → lock) (_mtx_assert : C gstate ()) `{!GiantUsers curthread others hard _mtx_assert}.
Context (Htid : tid_ok curthread).
Notation exec := (exec others hard).

Lemma tick_ok g h : mtx_encodes h g.(giant) → room h →
  ∃ g' h', tick others g = Done () g' ∧ mtx_encodes h' g'.(giant) ∧ room h' ∧ rely curthread h h'.
Proof.
  intros He Hr. destruct (others_ok g.(clock) h _ He Hr) as (h' & Hrel & He' & Hr').
  exists (G (others g.(clock) g.(giant)) (S g.(clock))), h'. done.
Qed.

(** A program that is safe for an operation does it, when it is not done. *)
Lemma exec_safe o p : mtx_supports o = true → returns0 p → ∀ done n h g,
  safe mtx_encodes never false o curthread p done n h → mtx_encodes h g.(giant) → room h →
  Z.of_nat (xheld h curthread) + 2 < 2 ^ 32 + (if done then 2 else 0) →
  ∃ g' h', exec p g = Done 0 g' ∧ mtx_encodes h' g'.(giant) ∧ room h' ∧
    Z.of_nat (xheld h' curthread) = Z.of_nat (xheld h curthread) + if done then 0 else dx o.
Proof.
  intros Ho. induction p as [r|x k IH|x v k IH|e v k IH|[o'| |] k IH]; intros H0 done n h g Hs He Hr Hb; cbn [Giant.exec safe returns0] in *.
  - subst r. destruct Hs as [-> _]. exists g, h. split_and!; try done. simpl. lia.
  - destruct (tick_ok g h He Hr) as (g1 & h1 & E1 & He1 & Hr1 & Hrel). rewrite (bind_done _ _ _ _ _ E1), (bind_done _ _ g1 g1 (giant g1)) by done.
    pose proof (proj1 Hrel) as Ex. rewrite Ex in *. eapply IH; eauto.
  - destruct (tick_ok g h He Hr) as (g1 & h1 & E1 & He1 & Hr1 & Hrel). rewrite (bind_done _ _ _ _ _ E1).
    rewrite (bind_done _ _ g1 (G (set_var x v g1.(giant)) g1.(clock)) ()) by done. pose proof (proj1 Hrel) as Ex. rewrite Ex in *.
    destruct (Hs h1 (giant g1) Hrel (λ _, Hr1) He1) as (done' & h2 & [[-> ->]|(-> & -> & Hef)] & He2 & Hs2); [by eapply IH|].
    effected Ho Hef (IH H0 true n h2 (G (set_var x v g1.(giant)) g1.(clock)) Hs2 He2).
  - destruct (tick_ok g h He Hr) as (g1 & h1 & E1 & He1 & Hr1 & Hrel). rewrite (bind_done _ _ _ _ _ E1), (bind_done _ _ g1 g1 (giant g1)) by done.
    specialize (Hs h1 (giant g1) Hrel (λ _, Hr1) He1). destruct (cmpset_word e v (giant g1)) as [r s'].
    rewrite (bind_done _ _ g1 (G s' g1.(clock)) ()) by done. pose proof (proj1 Hrel) as Ex. rewrite Ex in *.
    destruct Hs as (done' & h2 & [[-> ->]|(-> & -> & Hef)] & He2 & Hs2); [by eapply IH|].
    effected Ho Hef (IH _ (H0 r) true n h2 (G s' g1.(clock)) Hs2 He2).
  - destruct Hs as (-> & -> & Hp & Hs). destruct (tick_ok g h He Hr) as (g1 & h1 & E1 & He1 & Hr1 & Hrel). rewrite (bind_done _ _ _ _ _ E1).
    rewrite (bind_done _ _ g1 (G (hard g1.(clock) o g1.(giant)) g1.(clock)) ()) by done.
    destruct (hard_done g1.(clock) o h1 g1.(giant) Ho (pre_rely _ _ _ _ Hrel Hp) He1 Hr1) as (h2 & h3 & Hrel2 & Hr2 & Hef & He3).
    pose proof (rely_trans _ _ _ _ Hrel Hrel2) as Hrel3. pose proof (proj1 Hrel3) as Ex. rewrite Ex in *.
    destruct (Hs h2 0 Hrel3) as [Hs0 _].
    effected Ho Hef (IH _ (H0 0) true n h3 (G (hard g1.(clock) o g1.(giant)) g1.(clock)) (Hs0 eq_refl h3 Hef) He3).
  - eapply IH; eauto.
  - eapply IH; eauto.
Qed.
Notation held := (held curthread).

Lemma code_ok o d g : mtx_supports o = true → (match o with XUnlock => (0 < d)%nat | _ => True end) → Z.of_nat d + 2 < 2 ^ 32 → held d g →
  ∃ g', exec (mtx_code o curthread) g = Done 0 g' ∧ held (Z.to_nat (Z.of_nat d + dx o)) g'.
Proof.
  intros Ho Hp Hd (h & He & Hr & <-). assert (Hpre : pre o curthread h) by (by destruct o).
  destruct (exec_safe o _ Ho (mtx_code_returns0 o curthread) false 0 h g (mtx_code_safe _ _ _ Ho Htid Hpre) He Hr) as (g' & h' & E & He' & Hr' & Ed); [lia|].
  exists g'. split; [done|]. exists h'. split_and!; try done. lia.
Qed.

Lemma owned_ok d g : held d g → ∃ g', giant_owned curthread others g = Done (0 <? d)%nat g' ∧ held d g'.
Proof.
  intros (h & He & Hr & <-). destruct (tick_ok g h He Hr) as (g1 & h1 & E1 & He1 & Hr1 & Hrel). exists g1. split; [|by exists h1; rewrite (proj1 Hrel)].
  unfold giant_owned. rewrite (bind_done _ _ _ _ _ E1), (bind_done _ _ g1 g1 (giant g1)) by done.
  rewrite (mtx_owned_ok h1 _ _ He1 Htid), mret_done, (proj1 Hrel). f_equal. by destruct (xheld h1 curthread).
Qed.

Lemma lock_ok d g : Z.of_nat d + 2 < 2 ^ 32 → held d g → ∃ g', exec (mtx_lock curthread) g = Done 0 g' ∧ held (S d) g'.
Proof.
  intros Hd Hg. destruct (code_ok (XLock 0) d g eq_refl I Hd Hg) as (g' & E & Hg'). exists g'. split; [done|].
  simpl in Hg'. by replace (Z.to_nat (Z.of_nat d + 1)) with (S d) in Hg' by lia.
Qed.

Lemma unlock_ok d g : Z.of_nat d + 3 < 2 ^ 32 → held (S d) g → ∃ g', exec (mtx_unlock curthread) g = Done 0 g' ∧ held d g'.
Proof.
  intros Hd Hg. destruct (code_ok XUnlock (S d) g eq_refl ltac:(simpl; lia) ltac:(lia) Hg) as (g' & E & Hg'). exists g'. split; [done|].
  cbn [dx] in Hg'. by replace (Z.to_nat (Z.of_nat (S d) + -1)) with d in Hg' by lia.
Qed.

Lemma drop_loop d : ∀ cnt fuel g, (d < fuel)%nat → 0 ≤ cnt → cnt + Z.of_nat d ≤ INT_MAX → held d g →
  ∃ g', while fuel cnt (λ _giantcnt,
      b ← giant_owned curthread others;
      if b : bool then exec (mtx_unlock curthread);; n ← incr_int _giantcnt; mret (inl n) else mret (inr _giantcnt)) g =
    Done (cnt + Z.of_nat d) g' ∧ held 0 g'.
Proof.
  unfold INT_MAX. induction d as [|d IH]; intros cnt [|fuel] g Hf Hc Hm Hg; try lia; cbn [while];
    destruct (owned_ok _ _ Hg) as (g1 & E1 & Hg1); rewrite bind_assoc, (bind_done _ _ _ _ _ E1); cbn [Nat.ltb Nat.leb].
  - rewrite bind_ret, Z.add_0_r. by exists g1.
  - destruct (unlock_ok d g1) as (g2 & E2 & Hg2); [lia|done|]. rewrite bind_assoc, (bind_done _ _ _ _ _ E2), bind_assoc.
    rewrite (bind_done _ _ g2 g2 (cnt + 1)) by (unfold incr_int, INT_MAX; destruct (Z.eqb_spec cnt (2 ^ 31 - 1)); [lia|done]).
    rewrite bind_ret. destruct (IH (cnt + 1) fuel g2) as (g' & E & Hg'); [lia|lia|lia|done|]. exists g'. rewrite E. split; [f_equal; lia|done].
Qed.

Lemma drop_giant_ok d fuel g : (d < fuel)%nat → Z.of_nat d ≤ INT_MAX → held d g →
  ∃ g', DROP_GIANT curthread others hard fuel g = Done (Z.of_nat d) g' ∧ held 0 g'.
Proof.
  intros Hf Hm Hg. unfold DROP_GIANT. destruct (owned_ok _ _ Hg) as (g1 & E1 & Hg1). rewrite (bind_done _ _ _ _ _ E1).
  destruct d as [|d]; cbn [Nat.ltb Nat.leb]; [by exists g1|]. by apply (drop_loop (S d) 0).
Qed.

Lemma pickup_loop n : ∀ d fuel g, (n < fuel)%nat → Z.of_nat n + Z.of_nat d ≤ INT_MAX → held d g →
  ∃ g', while fuel (Z.of_nat n) (λ n, if c_true n then exec (mtx_lock curthread);; mret (inl (n - 1)) else mret (inr ())) g =
    Done () g' ∧ held (n + d) g'.
Proof.
  unfold INT_MAX. induction n as [|n IH]; intros d [|fuel] g Hf Hm Hg; try lia; cbn [while]; [by exists g|].
  change (c_true (Z.of_nat (S n))) with true. cbn iota. destruct (lock_ok d g) as (g1 & E1 & Hg1); [lia|done|].
  rewrite bind_assoc, (bind_done _ _ _ _ _ E1), bind_ret. replace (Z.of_nat (S n) - 1) with (Z.of_nat n) by lia.
  destruct (IH (S d) fuel g1) as (g' & E & Hg'); [lia|lia|done|]. exists g'. split; [done|]. by rewrite Nat.add_succ_comm.
Qed.

Lemma pickup_ok inv n fuel g : (n < fuel)%nat → Z.of_nat n ≤ INT_MAX → held 0 g →
  ∃ g', PICKUP_GIANT curthread others hard _mtx_assert inv fuel (Z.of_nat n) g = Done () g' ∧ held n g'.
Proof.
  intros Hf Hm Hg. unfold PICKUP_GIANT, PARTIAL_PICKUP_GIANT.
  assert (∃ g1, assert_notowned _mtx_assert inv g = Done () g1 ∧ held 0 g1) as (g1 & E1 & Hg1).
  { unfold assert_notowned. destruct inv; [|by exists g]. destruct Hg as (h & He & Hr & Hx). destruct (assert_passes g h He Hr Hx) as (g1 & h1 & E1 & H1). exists g1. split; [done|by exists h1]. }
  rewrite (bind_done _ _ _ _ _ E1). destruct n as [|n]; cbn iota; [by exists g1|].
  replace (0 <? Z.of_nat (S n)) with true by (symmetry; apply Z.ltb_lt; lia).
  destruct (pickup_loop (S n) 0 fuel g1) as (g' & E & Hg'); [lia|lia|done|]. exists g'. by rewrite Nat.add_0_r in Hg'.
Qed.
End Ok.

(** ** Properties *)

(** C33. A block between DROP_GIANT and PICKUP_GIANT: whatever other threads do to
    the mutex, and with assertions or without, a thread that holds Giant [d]
    times holds it not at all in the block and [d] times afterwards; the
    loops end, the count does not overflow and the assertion does not fail.
    UGAR gives up one hold and returns its value. *)
Theorem giant_round_trip curthread others hard _mtx_assert `{!GiantUsers curthread others hard _mtx_assert} {A} inv (body : C gstate A) d fuel g :
  tid_ok curthread → (d < fuel)%nat → Z.of_nat d ≤ INT_MAX → held curthread d g →
  (∀ g, held curthread 0 g → ∃ a g', body g = Done a g' ∧ held curthread 0 g') →
  (∃ a g0 g1 g', (n ← DROP_GIANT curthread others hard fuel; a ← body; PICKUP_GIANT curthread others hard _mtx_assert inv fuel n;; mret a) g = Done a g' ∧
    held curthread d g' ∧ DROP_GIANT curthread others hard fuel g = Done (Z.of_nat d) g0 ∧ held curthread 0 g0 ∧ body g0 = Done a g1) ∧
  (∀ c v g1, c g = Done v g1 → held curthread d g1 → (0 < d)%nat → ∃ g', UGAR curthread others hard c g = Done v g' ∧ held curthread (d - 1) g').
Proof.
  intros Ht Hf Hd Hg Hb. split.
  - destruct (drop_giant_ok curthread others hard _mtx_assert Ht d fuel g Hf Hd Hg) as (g0 & E0 & H0). destruct (Hb g0 H0) as (a & g1 & E1 & H1).
    destruct (pickup_ok curthread others hard _mtx_assert Ht inv d fuel g1 Hf Hd H1) as (g2 & E2 & H2). exists a, g0, g1, g2.
    rewrite (bind_done _ _ _ _ _ E0), (bind_done _ _ _ _ _ E1), (bind_done _ _ _ _ _ E2). done.
  - intros c v g1 Ec H1 Hp. destruct d as [|d]; [lia|]. unfold INT_MAX in Hd.
    destruct (unlock_ok curthread others hard _mtx_assert Ht d g1) as (g2 & E2 & H2); [lia|done|]. exists g2. unfold UGAR.
    rewrite (bind_done _ _ _ _ _ Ec), (bind_done _ _ _ _ _ E2). by replace (S d - 1)%nat with d by lia.
Qed.

(** Thread 32 takes the mutex whenever it is free, and gives it up when the
    thread has to wait for it; waiting sets the flag MTX_CONTESTED, and the
    recursive cases count and set or clear MTX_RECURSED. *)
Definition sample_others (n : nat) (s : lock) : lock := if s.(word) =? MTX_UNOWNED then Lock 32 s.(recurse) else s.

Definition sample_sleep (tid : Z) (n : nat) (o : lock_op) (s : lock) : lock :=
  match o with
  | XLock _ =>
      if mtx_owned tid s.(word) then Lock (Z.lor s.(word) MTX_RECURSED) (s.(recurse) + 1)
      else Lock (tid + MTX_CONTESTED) 0
  | _ =>
      if s.(recurse) =? 0 then Lock MTX_UNOWNED 0
      else if s.(recurse) =? 1 then Lock (s.(word) - MTX_RECURSED) 0
      else Lock s.(word) (s.(recurse) - 1)
  end.

Lemma sample_others_ok n h s : mtx_encodes h s → room h → ∃ h', rely 16 h h' ∧ mtx_encodes h' (sample_others n s) ∧ room h'.
Proof.
  intros He Hr. unfold sample_others. destruct (Z.eqb_spec (word s) MTX_UNOWNED) as [E|E]; [|by exists h].
  pose proof (mtx_word_free _ _ He E) as ->. destruct He as (_ & _ & Er). exists (Wr 32 1). split; [done|]. split; [|done].
  cbn [mtx_encodes recurse word]. split; [lia|]. split; [by unfold tid_ok|]. split; [by rewrite Er|]. exists 0. split; [by left|done].
Qed.

Lemma lor_recursed tid d f : tid_ok tid → (f = 0 ∨ f = MTX_CONTESTED) →
  Z.lor (tid + f + (if (1 <? S d)%nat then MTX_RECURSED else 0)) MTX_RECURSED = tid + f + MTX_RECURSED.
Proof.
  unfold MTX_RECURSED, MTX_CONTESTED. intros (q & -> & _)%tid_quot Hf. assert (∃ k, 16 * q + f = k * 2 ^ 1) as [k ->] by (destruct Hf as [-> | ->]; [exists (8 * q)|exists (8 * q + 1)]; lia).
  rewrite <- (lor_low 1 k 1) by lia. destruct d; cbn [Nat.ltb Nat.leb]; [by rewrite Z.add_0_r|].
  rewrite <- (lor_low 1 k 1) by lia. by rewrite <- Z.lor_assoc.
Qed.

(** What the function does to a mutex that the thread holds, or could take. *)
Lemma sample_sleep_effect tid n o h s : tid_ok tid → mtx_supports o = true → pre o tid h → mtx_encodes h s →
  (∀ opts, o = XLock opts → h = Rd ∅ ∨ (0 < xheld h tid)%nat) → ∃ h', effect tid o h h' ∧ mtx_encodes h' (sample_sleep tid n o s).
Proof.
  intros Ht Ho Hp He Hx. pose proof (mtx_owned_ok h s tid He Ht) as Eo. destruct o as [opts| |opts|]; try done; cbn [sample_sleep].
  - rewrite Eo. destruct (Hx opts eq_refl) as [->|Hh].
    + rewrite bool_decide_eq_false_2 by (simpl; lia). exists (Wr tid 1). split; [constructor|].
      cbn [mtx_encodes recurse word]. split; [lia|]. split; [done|]. split; [done|]. exists MTX_CONTESTED. split; [by right|]. simpl. lia.
    + rewrite bool_decide_eq_true_2 by done. destruct (owner_inv _ _ Hh) as [d ->]. destruct He as (_ & _ & Er & f & Hf & Ew).
      exists (Wr tid (S (S d))). split; [constructor|]. cbn [mtx_encodes recurse word]. rewrite Ew, Er, lor_recursed by done.
      split; [lia|]. split; [done|]. split; [lia|]. by exists f.
  - destruct (owner_inv _ _ Hp) as [d ->]. destruct He as (_ & _ & Er & f & Hf & Ew). rewrite Er, Ew. destruct d as [|[|d]].
    + exists (Rd ∅). split; [constructor|]. done.
    + exists (Wr tid 1). split; [constructor|]. cbn [mtx_encodes recurse word]. split; [lia|]. split; [done|]. split; [done|]. exists f. split; [done|]. simpl. lia.
    + exists (Wr tid (S (S d))). split; [constructor|].
      destruct (Z.eqb_spec (Z.of_nat (S (S (S d))) - 1) 0); [lia|]. destruct (Z.eqb_spec (Z.of_nat (S (S (S d))) - 1) 1); [lia|].
      cbn [mtx_encodes recurse word]. split; [lia|]. split; [done|]. split; [lia|]. by exists f.
Qed.

Lemma sample_sleep_ok n o h s : mtx_supports o = true → pre o 16 h → mtx_encodes h s → room h →
  ∃ h1 h2, rely 16 h h1 ∧ room h1 ∧ effect 16 o h1 h2 ∧ mtx_encodes h2 (sample_sleep 16 n o s).
Proof.
  intros Ho Hp He Hr. assert (Ht : tid_ok 16) by (by unfold tid_ok). destruct (decide (0 < xheld h 16)%nat) as [Hx|Hx].
  { destruct (sample_sleep_effect 16 n o h s) as (h' & Hef & He'); auto. by exists h, h'. }
  destruct o as [opts| |opts|]; try done. exists (Rd ∅). pose proof (mtx_owned_ok h s 16 He Ht) as Eo. rewrite bool_decide_eq_false_2 in Eo by done.
  destruct (sample_sleep_effect 16 n (XLock opts) (Rd ∅) (Lock MTX_UNOWNED 0)) as (h' & Hef & He'); auto; [done|]. exists h'.
  split; [split; [cbn [xheld]; lia|]; destruct h as [R|t d]; cbn [sheld]; [by destruct He as (-> & _)|done]|]. split; [done|]. split; [done|].
  cbn [sample_sleep] in *. by rewrite Eo.
Qed.

(** An assertion that panics when the thread owns the mutex. *)
Definition sample_assert : C gstate () := λ g, if mtx_owned 16 g.(giant).(word) then UB else Done () g.

#[export] Instance sample_users : GiantUsers 16 sample_others (sample_sleep 16) sample_assert.
Proof.
  constructor; [exact sample_others_ok|intros n; apply sample_sleep_ok|]. intros g h He Hr Hx. exists g, h. split; [|done].
  unfold sample_assert. rewrite (mtx_owned_ok h _ 16 He) by (by unfold tid_ok). by rewrite bool_decide_eq_false_2 by lia.
Qed.

(** As a blocking function of the threads of LockSteps.v, which waits until
    the mutex is free or its own, it meets the contract there. *)
Definition mtx_sleep (tid : Z) (o : lock_op) (s s' : lock) (res : option Z) : Prop :=
  (res = None ∧ s' = s) ∨
  (res = Some 0 ∧ s' = sample_sleep tid 0 o s ∧ ∀ opts, o = XLock opts → s.(word) = MTX_UNOWNED ∨ mtx_owned tid s.(word) = true).

Lemma mtx_sleep_ok : hard_ok (L := impl Mtx) mtx_sleep.
Proof.
  intros tid o h s s' res Ho Ht Hp Hroom He [[-> ->]|(-> & -> & Hw)]; [done|]. left. split; [done|].
  apply sample_sleep_effect; try done. intros opts E. destruct (Hw opts E) as [Ew|Eo]; [left; by eapply mtx_word_free|right].
  rewrite (mtx_owned_ok h s tid He Ht) in Eo. by apply bool_decide_eq_true in Eo.
Qed.

Lemma giant_round_trip_witness : ∃ a g', (n ← DROP_GIANT 16 sample_others (sample_sleep 16) 4; a ← mret 7; PICKUP_GIANT 16 sample_others (sample_sleep 16) sample_assert true 4 n;; mret a)
    (G (Lock 17 2) 0) = Done a g' ∧ held 16 3 g'.
Proof.
  destruct (giant_round_trip 16 sample_others (sample_sleep 16) sample_assert true (mret 7) 3 4 (G (Lock 17 2) 0)) as [(a & g0 & g1 & g' & E & Hg' & _) _].
  - split; [lia|done].
  - lia.
  - done.
  - exists (Wr 16 3). split; [|done]. split; [lia|]. split; [split; [lia|done]|]. split; [done|]. exists 0. split; [by left|done].
  - intros g Hg. by exists 7, g.
  - by exists a, g'.
Defined.
