(* ===== verification/MbufTags.v ===== *)
(** * Packet tags

    include/sys/mbuf.h: the list of tags that a packet header carries, a
    singly-linked list of queue.h.  Allocation, and the search for a tag, are
    in the kernel and are parameters. *)

From S2P Require Import Prelude.
From S2P Require Import Queue.
From S2P Require Import QueueSpec.
From S2P Require Import LinkedLists.
From S2P Require Import QueueFamily.

(** ** The code *)

(** struct m_tag without its link, which is its first member; the address of
    the function that frees it. *)
Record m_tag := Tag { m_tag_id : Z; m_tag_len : Z; m_tag_cookie : Z; m_tag_free_fn : Z }.

(** Links (those of the tags, and the heads m_pkthdr.tags) and tags. *)
Record tag_store := Store { links : cells; tags : gmap Z m_tag }.

Definition on_links {A} (c : C cells A) : C tag_store A := λ s,
  match c s.(links) with Done a m => Done a (Store m s.(tags)) | UB => UB | Timeout => Timeout end.

Definition tag_at (t : Z) : C tag_store m_tag := λ s, match s.(tags) !! t with Some x => Done x s | None => UB end.
Definition set_tag (t : Z) (f : m_tag → m_tag) : C tag_store () := λ s,
  match s.(tags) !! t with Some x => Done () (Store s.(links) (<[t := f x]> s.(tags))) | None => UB end.

Definition MTAG_ABI_COMPAT : Z := 0.

(** [tags_of m] is &m->m_pkthdr.tags. *)
Section Ops.
Context (tags_of : Z → Z).

Definition m_tag_init (m : Z) : C tag_store () := on_links (SLIST_INIT (tags_of m)).

(** The members are u_int16_t, u_int16_t and u_int32_t. *)
Definition m_tag_setup (t cookie type len : Z) : C tag_store () :=
  set_tag t (λ x, Tag (u16 type) x.(m_tag_len) x.(m_tag_cookie) x.(m_tag_free_fn));;
  set_tag t (λ x, Tag x.(m_tag_id) (u16 len) x.(m_tag_cookie) x.(m_tag_free_fn));;
  set_tag t (λ x, Tag x.(m_tag_id) x.(m_tag_len) (u32 cookie) x.(m_tag_free_fn)).

(** [call f t] calls the function at the address [f]. *)
Definition m_tag_free (call : Z → Z → C tag_store ()) (t : Z) : C tag_store () :=
  x ← tag_at t; call x.(m_tag_free_fn) t.

Definition m_tag_first (m : Z) : C tag_store Z := on_links (SLIST_FIRST (tags_of m)).
Definition m_tag_next (m t : Z) : C tag_store Z := on_links (SLIST_NEXT 0 t).
Definition m_tag_prepend (m t : Z) : C tag_store () := on_links (SLIST_INSERT_HEAD 0 (tags_of m) t).
Definition m_tag_unlink (m t : Z) : C tag_store () := on_links (SLIST_REMOVE 0 (tags_of m) t).

Definition m_tag_get (m_tag_alloc : Z → Z → Z → Z → C tag_store Z) (type length wait : Z) : C tag_store Z :=
  m_tag_alloc MTAG_ABI_COMPAT type length wait.

Definition m_tag_find (m_tag_locate : Z → Z → Z → Z → C tag_store Z) (m type start : Z) : C tag_store Z :=
  b ← on_links (SLIST_EMPTY (tags_of m));
  if b : bool then mret 0 else m_tag_locate m MTAG_ABI_COMPAT type start.
End Ops.

(** ** Tags as a list *)

(** The first tag of a list with this cookie and this type, an int. *)
Definition tag_matches (s : tag_store) (cookie type : Z) (t : Z) : Prop :=
  ∃ x, s.(tags) !! t = Some x ∧ x.(m_tag_cookie) = cookie ∧ x.(m_tag_id) = type.
#[export] Instance tag_matches_dec s cookie type t : Decision (tag_matches s cookie type t).
Proof.
  unfold tag_matches. destruct (s.(tags) !! t) as [x|] eqn:E.
  - destruct (decide (x.(m_tag_cookie) = cookie ∧ x.(m_tag_id) = type)) as [H|H]; [left; exists x; by rewrite ?E|right].
    intros (x' & Hx & H1 & H2). simplify_eq. by apply H.
  - right. by intros (x' & Hx & _).
Defined.

Definition first_match (s : tag_store) (cookie type : Z) (l : list Z) : Z := default 0 (head (filter (tag_matches s cookie type) l)).
(** The tags after [start], all of them for NULL. *)
Fixpoint after (start : Z) (l : list Z) : list Z :=
  match l with [] => [] | t :: l => if t =? start then l else after start l end.
Definition rest (start : Z) (l : list Z) : list Z := if start =? 0 then l else after start l.

Section List.
Context (tags_of : Z → Z) (packets elems : list Z).
(** Packets with the tags of each. *)
Definition tagged (s : tag_store) (m : Z) (l : list Z) : Prop := queue 0 false false elems s.(links) (tags_of m) l.
Definition tags_alive (s : tag_store) : Prop := alive 0 false false (tags_of <$> packets) elems s.(links) ∧ ∀ t, t ∈ elems → is_Some (s.(tags) !! t).

(** The kernel's search: the first tag after [start] that matches; it
    changes nothing. *)
Class Locates (m_tag_locate : Z → Z → Z → Z → C tag_store Z) : Prop := {
  locate_ok s m cookie type start l : m ∈ packets → tagged s m l → start = 0 ∨ start ∈ l →
    m_tag_locate m cookie type start s = Done (first_match s cookie type (rest start l)) s }.

Hypothesis W : world 0 false false (tags_of <$> packets) elems.

Lemma head_in m : m ∈ packets → tags_of m ∈ tags_of <$> packets.
Proof. apply list_elem_of_fmap_2. Qed.

(** An operation on the links of a packet, as an operation of this store. *)
Lemma on_links_result (c : C cells ()) s m l l' : tags_alive s →
  (∃ m', c s.(links) = Done () m' ∧ result 0 false false (tags_of <$> packets) elems s.(links) (tags_of m) l l' m') →
  ∃ s', on_links c s = Done () s' ∧ tagged s' m l' ∧ tags_alive s' ∧ s'.(tags) = s.(tags) ∧
    ∀ a, ¬ owned 0 false false (tags_of m) l a → s'.(links) !! a = s.(links) !! a.
Proof.
  intros [Ha Ht] (m' & E & [Hq Hal Hf]). exists (Store m' s.(tags)). unfold on_links. by rewrite E.
Qed.

Lemma tag_prepend_ok s m l t : m ∈ packets → tags_alive s → tagged s m l → t ∈ elems → t ∉ l →
  ∃ s', m_tag_prepend tags_of m t s = Done () s' ∧ tagged s' m (t :: l) ∧ tags_alive s' ∧ s'.(tags) = s.(tags) ∧
    ∀ a, ¬ owned 0 false false (tags_of m) (t :: l) a → s'.(links) !! a = s.(links) !! a.
Proof. intros Hm Hs Hl Ht Hn. apply on_links_result; [done|]. apply slist_insert_head; try done; [by apply head_in|apply Hs]. Qed.

Lemma tag_unlink_ok s m l1 t l2 : m ∈ packets → tags_alive s → tagged s m (l1 ++ t :: l2) →
  ∃ s', m_tag_unlink tags_of m t s = Done () s' ∧ tagged s' m (l1 ++ l2) ∧ tags_alive s' ∧ s'.(tags) = s.(tags) ∧
    ∀ a, ¬ owned 0 false false (tags_of m) (l1 ++ t :: l2) a → s'.(links) !! a = s.(links) !! a.
Proof. intros Hm Hs Hl. apply on_links_result; [done|]. apply slist_remove; try done; [by apply head_in|apply Hs]. Qed.

Lemma tag_init_ok s m l : m ∈ packets → tags_alive s → tagged s m l →
  ∃ s', m_tag_init tags_of m s = Done () s' ∧ tagged s' m [] ∧ tags_alive s' ∧ s'.(tags) = s.(tags) ∧
    ∀ a, ¬ owned 0 false false (tags_of m) l a → s'.(links) !! a = s.(links) !! a.
Proof. intros Hm Hs Hl. apply on_links_result; [done|]. apply slist_init; try done; [by apply head_in|apply Hs]. Qed.

Lemma setup_ok s t cookie type len : is_Some (s.(tags) !! t) → ∃ f,
  m_tag_setup t cookie type len s = Done () (Store s.(links) (<[t := Tag (u16 type) (u16 len) (u32 cookie) f]> s.(tags))).
Proof.
  intros [x Hx]. exists x.(m_tag_free_fn). unfold m_tag_setup, set_tag, mbind, C_bind. rewrite Hx. cbn [tags links m_tag_id m_tag_len m_tag_cookie m_tag_free_fn].
  rewrite !lookup_insert_eq. cbn [tags links m_tag_id m_tag_len m_tag_cookie m_tag_free_fn]. by rewrite !lookup_insert_eq, !insert_insert_eq.
Qed.

(** First and next. *)
Lemma on_links_read {A} (c : C cells A) s a : c s.(links) = Done a s.(links) → on_links c s = Done a s.
Proof. unfold on_links. intros ->. by destruct s. Qed.

Lemma follows_head m v l : follows (λ e, rd_at e 0) m v l → v = default 0 (head l).
Proof. destruct l; simpl; [done|]. by intros [-> _]. Qed.

Lemma follows_next m v l1 t l2 : follows (λ e, rd_at e 0) m v (l1 ++ t :: l2) → rd_at t 0 m = Done (default 0 (head l2)) m.
Proof.
  revert v. induction l1 as [|e l1 IH]; intros v; simpl.
  - intros (-> & _ & v' & E & H). by rewrite E, (follows_head _ _ _ H).
  - intros (_ & _ & v' & _ & H). by eapply IH.
Qed.

Lemma tag_first_ok s m l : m ∈ packets → tagged s m l → m_tag_first tags_of m s = Done (default 0 (head l)) s.
Proof.
  intros Hm Hl. destruct (queue_follows _ _ _ _ _ _ _ _ W (head_in m Hm) Hl) as (v & E & Hv). rewrite <- (follows_head _ _ _ Hv).
  by apply on_links_read.
Qed.

Lemma tag_next_ok s m l1 t l2 : m ∈ packets → tagged s m (l1 ++ t :: l2) → m_tag_next m t s = Done (default 0 (head l2)) s.
Proof.
  intros Hm Hl. destruct (queue_follows _ _ _ _ _ _ _ _ W (head_in m Hm) Hl) as (v & _ & Hv). apply on_links_read. by eapply follows_next.
Qed.

Lemma tag_find_ok locate `{!Locates locate} s m type start l : m ∈ packets → tagged s m l → start = 0 ∨ start ∈ l →
  m_tag_find tags_of locate m type start s = Done (first_match s MTAG_ABI_COMPAT type (rest start l)) s.
Proof.
  intros Hm Hl Hst. unfold m_tag_find. pose proof (tag_first_ok s m l Hm Hl) as E. destruct (queue_follows _ _ _ _ _ _ _ _ W (head_in m Hm) Hl) as (v & Ev & Hv).
  rewrite (bind_done _ _ s s (v =? 0)) by (apply on_links_read; unfold SLIST_EMPTY, SLIST_FIRST; by rewrite (bind_done _ _ _ _ _ Ev)).
  destruct l as [|t l]; simpl in Hv; [subst v|].
  - by destruct Hst as [->|?%elem_of_nil].
  - destruct Hv as (-> & Ht & _). rewrite (proj2 (Z.eqb_neq t 0)) by done. by apply locate_ok.
Qed.
End List.

Lemma first_match_cons s cookie type t l : first_match s cookie type (t :: l) = if decide (tag_matches s cookie type t) then t else first_match s cookie type l.
Proof. unfold first_match. rewrite filter_cons. by case_decide. Qed.

Lemma first_match_ext s s' cookie type l : (∀ t, t ∈ l → s.(tags) !! t = s'.(tags) !! t) → first_match s cookie type l = first_match s' cookie type l.
Proof.
  induction l as [|t l IH]; intros H; [done|]. rewrite !first_match_cons, IH by (intros; apply H; set_solver).
  assert (E : tag_matches s cookie type t ↔ tag_matches s' cookie type t) by (unfold tag_matches; by rewrite (H t) by set_solver).
  do 2 case_decide; tauto.
Qed.

(** ** Properties *)

(** The tags of a packet are a list.  m_tag_init empties it, m_tag_prepend puts
    a tag in front, m_tag_unlink takes one out wherever it is, m_tag_first and
    m_tag_next go through it and end in NULL; no other link changes.  A tag
    that is set up and prepended is what m_tag_find finds by its type, if the
    type fits into the 16 bits of m_tag_id; with a larger type it is never
    found. *)
Theorem packet_tags tags_of packets elems locate `{!Locates tags_of packets elems locate} s m l :
  world 0 false false (tags_of <$> packets) elems → m ∈ packets → tags_alive tags_of packets elems s → tagged tags_of elems s m l →
  (∃ s', m_tag_init tags_of m s = Done () s' ∧ tagged tags_of elems s' m [] ∧ tags_alive tags_of packets elems s' ∧ s'.(tags) = s.(tags)) ∧
  (∀ l1 t l2, l = l1 ++ t :: l2 → m_tag_next m t s = Done (default 0 (head l2)) s ∧
    ∃ s', m_tag_unlink tags_of m t s = Done () s' ∧ tagged tags_of elems s' m (l1 ++ l2) ∧ tags_alive tags_of packets elems s' ∧ s'.(tags) = s.(tags) ∧
      ∀ a, ¬ owned 0 false false (tags_of m) l a → s'.(links) !! a = s.(links) !! a) ∧
  m_tag_first tags_of m s = Done (default 0 (head l)) s ∧
  (∀ t type len, t ∈ elems → t ∉ l → ∃ s',
    (m_tag_setup t MTAG_ABI_COMPAT type len;; m_tag_prepend tags_of m t) s = Done () s' ∧ tagged tags_of elems s' m (t :: l) ∧ tags_alive tags_of packets elems s' ∧
    m_tag_find tags_of locate m type 0 s' = Done (if decide (0 ≤ type < 2 ^ 16) then t else first_match s MTAG_ABI_COMPAT type l) s').
Proof.
  intros W Hm Hs Hl. split_and!.
  - destruct (tag_init_ok tags_of packets elems W s m l Hm Hs Hl) as (s' & E & H1 & H2 & H3 & _). by exists s'.
  - intros l1 t l2 ->. split; [by eapply tag_next_ok|]. by apply tag_unlink_ok.
  - by eapply tag_first_ok.
  - intros t type len Ht Hn. destruct (setup_ok s t MTAG_ABI_COMPAT type len (proj2 Hs t Ht)) as [f E1]. set (s1 := Store _ _) in E1.
    assert (A1 : tags_alive tags_of packets elems s1).
    { split; [apply Hs|]. intros x Hx. cbn [s1 tags]. destruct (decide (t = x)) as [->|]; [by rewrite lookup_insert_eq|rewrite lookup_insert_ne by done; by apply Hs]. }
    destruct (tag_prepend_ok tags_of packets elems W s1 m l t Hm A1 Hl Ht Hn) as (s' & E & H1 & H2 & H3 & _). exists s'.
    rewrite (bind_done _ _ _ _ _ E1). split_and!; try done. rewrite (tag_find_ok tags_of packets elems W locate s' m type 0 (t :: l)) by (try done; by left).
    f_equal. cbn [rest Z.eqb]. rewrite first_match_cons. pose proof (u16_range type). case_decide as D1; case_decide as D2.
    + done.
    + exfalso. destruct D1 as (x & Hx & _ & E2). rewrite H3 in Hx. cbn [s1 tags] in Hx. rewrite lookup_insert_eq in Hx. injection Hx as <-. cbn [m_tag_id] in E2. lia.
    + exfalso. apply D1. exists (Tag (u16 type) (u16 len) (u32 MTAG_ABI_COMPAT) f). rewrite H3. cbn [s1 tags]. rewrite lookup_insert_eq. split_and!; try done. by apply u16_small.
    + apply first_match_ext. intros x Hx. rewrite H3. cbn [s1 tags]. rewrite lookup_insert_ne by set_solver. done.
Qed.

(** A packet with no tags, and two tags. *)
Definition sample_locate (m cookie type start : Z) : C tag_store Z := λ s,
  Done (first_match s cookie type (rest start (if s.(links) !! (m + 40) is Some 0x1000 then [0x1000] else []))) s.

Definition sample_store : tag_store := Store {[ 0x128 := 0; 0x1000 := 0 ]} {[ 0x1000 := Tag 0 0 0 0 ]}.

Lemma tags_world : world 0 false false ((λ m, m + 40) <$> [0x100]) [0x1000].
Proof. split; unfold esize, hsize; cbn; intros; repeat (match goal with H : _ ∈ _ |- _ => apply elem_of_cons in H as [->|H] || by apply elem_of_nil in H end); try lia; set_solver. Qed.

#[export] Instance sample_locates : Locates (λ m, m + 40) [0x100] [0x1000] sample_locate.
Proof.
  constructor. intros s m cookie type start l Hm Hl _. unfold sample_locate. repeat f_equal. destruct Hl as [He Hn Hs _].
  assert (Hin : ∀ x, x ∈ l → x = 0x1000) by (intros x Hx; apply list_elem_of_singleton; by apply He).
  destruct l as [|t [|t' l]]; cbn in Hs.
  - by rewrite Hs.
  - rewrite (Hin t) in Hs |- * by left. destruct Hs as [-> _]. done.
  - exfalso. apply NoDup_cons in Hn as [Hn _]. apply Hn. rewrite (Hin t), (Hin t') by (by left || (right; left)). left.
Qed.

Lemma packet_tags_witness : ∃ s', (m_tag_setup 0x1000 MTAG_ABI_COMPAT 15 8;; m_tag_prepend (λ m, m + 40) 0x100 0x1000) sample_store = Done () s' ∧
  m_tag_find (λ m, m + 40) sample_locate 0x100 15 0 s' = Done 0x1000 s'.
Proof.
  destruct (packet_tags (λ m, m + 40) [0x100] [0x1000] sample_locate sample_store 0x100 []) as (_ & _ & _ & H).
  - exact tags_world.
  - set_solver.
  - split; [split; intros x Hx; try done; cbn in Hx; apply list_elem_of_singleton in Hx as ->; by vm_compute; eexists|].
    intros t ->%list_elem_of_singleton. by vm_compute; eexists.
  - split; [set_solver|constructor|by vm_compute|done].
  - destruct (H 0x1000 15 8) as (s' & E & _ & _ & F); [set_solver|set_solver|]. exists s'. split; [exact E|]. rewrite F. by rewrite decide_True by lia.
Defined.
