(* ===== verification/Jail.v ===== *)
(** * The tree of prisons

    include/sys/jail.h: the loops over all descendants of a prison.  A prison
    is in the list of its parent's children and points to its parent; the
    loops walk these links without a stack, visit a prison before its
    children, leave out what is below a prison if the body clears [descend],
    and, in two of the three forms, hold the locks of the prisons on the way
    down to the one that is visited. *)

From S2P Require Import Prelude.
From S2P Require Import Queue.
From S2P Require Import QueueSpec.
From S2P Require Import QueueFamily.

(** ** The code *)

(** Offsets of struct prison: after the tail queue entry and four ints. *)
Definition pr_children (pr : Z) : Z := pr + 32.
Definition pr_sibling : Z := 40.
Definition pr_parent : Z := 56.

(** The pointers of the prisons; the prisons whose pr_mtx the thread holds, the
    last one first; the variable [level] of the third loop. *)
Record prison_state := Prisons { links : cells; locked : list Z; level : Z }.

Definition on_links {A} (c : C cells A) : C prison_state A := λ s,
  match c s.(links) with Done a m => Done a (Prisons m s.(locked) s.(level)) | UB => UB | Timeout => Timeout end.

(** These mutexes do not recurse; one that is not held is not released. *)
Definition prison_lock (pr : Z) : C prison_state () := λ s,
  if bool_decide (pr ∈ s.(locked)) then UB else Done () (Prisons s.(links) (pr :: s.(locked)) s.(level)).
Definition prison_unlock (pr : Z) : C prison_state () := λ s,
  if bool_decide (pr ∈ s.(locked)) then Done () (Prisons s.(links) (remove pr s.(locked)) s.(level)) else UB.

(** [level++] and [level--] on an int. *)
Definition set_level (n : Z) : C prison_state () := modifyS (λ s, Prisons s.(links) s.(locked) n).
Definition level_up : C prison_state () := n ← gets level; if n =? INT_MAX then ub else set_level (n + 1).
Definition level_down : C prison_state () := n ← gets level; set_level (n - 1).

(** FOREACH_PRISON_CHILD *)
Definition FOREACH_PRISON_CHILD {A} (ppr : Z) (acc : A) (body : Z → A → C cells A) : C prison_state A :=
  on_links (LIST_FOREACH pr_sibling (pr_children ppr) acc body).

Section Loops.
Context {A : Type}.
(** The three loops are one text with different effects on the way: [unlock]
    before a prison is left, [lock] when one is entered, [down] and [up] when
    the level changes. *)
Context (lock unlock : Z → C prison_state ()) (down up : C prison_state ()).

(** The condition of the for statement: the new [cpr] and [descend]. *)
Definition next_prison (ppr cpr : Z) (descend : bool) : C prison_state (Z * bool) :=
  empty ← (if descend then on_links (LIST_EMPTY (pr_children cpr)) else mret true);
  if negb empty then
    down;; c ← on_links (LIST_FIRST (pr_children cpr)); mret (c, descend)
  else if cpr =? ppr then mret (0, descend)
  else
    unlock cpr;;
    n ← on_links (LIST_NEXT pr_sibling cpr);
    let descend := negb (n =? 0) in
    if descend then n ← on_links (LIST_NEXT pr_sibling cpr); mret (n, descend)
    else up;; p ← on_links (rd_at cpr pr_parent); mret (p, descend).

(** The block after the macro gets the prison and may clear [descend], which
    is true when it runs. *)
Definition descendants (fuel : nat) (ppr : Z) (acc : A) (body : Z → A → C prison_state (A * bool)) : C prison_state A :=
  while fuel (ppr, true, acc) (λ '(cpr, descend, acc),
    x ← next_prison ppr cpr descend;
    let '(cpr, descend) := x in
    if cpr =? 0 then mret (inr acc) else
    if negb descend then mret (inl (cpr, descend, acc)) else
    lock cpr;;
    y ← body cpr acc;
    let '(acc, descend) := y in
    mret (inl (cpr, descend, acc))).
End Loops.

Definition nothing (pr : Z) : C prison_state () := mret ().

Definition FOREACH_PRISON_DESCENDANT {A} (fuel : nat) (ppr : Z) (acc : A) (body : Z → A → C prison_state (A * bool)) : C prison_state A :=
  descendants nothing nothing (mret ()) (mret ()) fuel ppr acc body.

Definition FOREACH_PRISON_DESCENDANT_LOCKED {A} (fuel : nat) (ppr : Z) (acc : A) (body : Z → A → C prison_state (A * bool)) : C prison_state A :=
  descendants prison_lock prison_unlock (mret ()) (mret ()) fuel ppr acc body.

Definition FOREACH_PRISON_DESCENDANT_LOCKED_LEVEL {A} (fuel : nat) (ppr : Z) (acc : A) (body : Z → A → C prison_state (A * bool)) : C prison_state A :=
  set_level 0;; descendants prison_lock prison_unlock level_up level_down fuel ppr acc body.

(** ** Trees of prisons *)

Inductive jail := Jail (p : Z) (children : list jail).

Definition root (t : jail) : Z := match t with Jail p _ => p end.
Definition children (t : jail) : list jail := match t with Jail _ cs => cs end.

Lemma jail_forall (P : jail → Prop) : (∀ p cs, Forall P cs → P (Jail p cs)) → ∀ t, P t.
Proof. intros H. fix IH 1. intros [p cs]. apply H. induction cs as [|c cs IHcs]; constructor; [apply IH|exact IHcs]. Qed.

(** How many there are, their addresses in preorder, and how deep they are. *)
Fixpoint jails (t : jail) : nat := match t with Jail _ cs => S (sum_list_with jails cs) end.
Fixpoint preorder (t : jail) : list Z := match t with Jail p cs => p :: flat_map preorder cs end.
Fixpoint depth (t : jail) : nat := match t with Jail _ cs => foldr (λ c n, Nat.max (S (depth c)) n) 0%nat cs end.

(** The links of a tree: children in the list of their parent, and back. *)
Fixpoint linked (m : cells) (t : jail) : Prop :=
  match t with
  | Jail p cs => 0 < p ∧ seg pr_sibling true m (pr_children p) (root <$> cs) 0 ∧
      foldr (λ c P, (m !! (root c + pr_parent) = Some p ∧ linked m c) ∧ P) True cs
  end.

Lemma linked_inv m p cs : linked m (Jail p cs) → 0 < p ∧ seg pr_sibling true m (pr_children p) (root <$> cs) 0 ∧
  Forall (λ c, m !! (root c + pr_parent) = Some p ∧ linked m c) cs.
Proof.
  intros (Hp & Hs & H). split_and!; try done. clear Hs. induction cs as [|c cs IH]; [constructor|]. destruct H as [Hc H]. constructor; [done|by apply IH].
Qed.

(** What a traversal should do: [f level held p acc] is the body, with what it
    can see of the state. *)
Section Visit.
Context {A : Type} (f : Z → list Z → Z → A → A * bool) (lk lv : bool).

Definition held (p : Z) (path : list Z) : list Z := if lk then p :: path else path.
Definition below (n : Z) : Z := if lv then n + 1 else n.

Fixpoint visit (n : Z) (path : list Z) (t : jail) (acc : A) : A :=
  match t with
  | Jail p cs =>
      let '(acc, descend) := f n (held p path) p acc in
      if descend : bool then fold_left (λ acc c, visit (below n) (held p path) c acc) cs acc else acc
  end.

Definition visit_all (n : Z) (path : list Z) (cs : list jail) (acc : A) : A := fold_left (λ acc c, visit n path c acc) cs acc.
End Visit.

(** What the effects on the way do to locks and level. *)
Class Effects (lk lv : bool) (lock unlock : Z → C prison_state ()) (down up : C prison_state ()) : Prop := {
  lock_ok m q n p : p ∉ q → lock p (Prisons m q n) = Done () (Prisons m (held lk p q) n);
  unlock_ok m q n p : p ∉ q → unlock p (Prisons m (held lk p q) n) = Done () (Prisons m q n);
  down_ok m q n : n < INT_MAX → down (Prisons m q n) = Done () (Prisons m q (below lv n));
  up_ok m q n : up (Prisons m q (below lv n)) = Done () (Prisons m q n) }.

#[export] Instance no_effects : Effects false false nothing nothing (mret ()) (mret ()).
Proof. by split. Qed.

Lemma prison_lock_ok m q n p : p ∉ q → prison_lock p (Prisons m q n) = Done () (Prisons m (p :: q) n).
Proof. intros Hp. unfold prison_lock. cbn [locked links level]. by rewrite bool_decide_eq_false_2. Qed.
Lemma prison_unlock_ok m q n p : prison_unlock p (Prisons m (p :: q) n) = Done () (Prisons m q n).
Proof. unfold prison_unlock. cbn [locked links level remove]. rewrite bool_decide_eq_true_2 by set_solver. by rewrite Z.eqb_refl. Qed.

#[export] Instance locked_effects : Effects true false prison_lock prison_unlock (mret ()) (mret ()).
Proof. split; intros; [by apply prison_lock_ok|apply prison_unlock_ok|done|done]. Qed.

#[export] Instance level_effects : Effects true true prison_lock prison_unlock level_up level_down.
Proof.
  split; intros; [by apply prison_lock_ok|apply prison_unlock_ok| |]; unfold level_up, level_down, gets, set_level, modifyS, mbind, C_bind; cbn [level links locked below].
  - by rewrite (proj2 (Z.eqb_neq n INT_MAX)) by lia.
  - by rewrite Z.add_simpl_r.
Qed.

Section Walk.
Context {A : Type} (lk lv : bool) (lock unlock : Z → C prison_state ()) (down up : C prison_state ()) `{!Effects lk lv lock unlock down up}.
Context (f : Z → list Z → Z → A → A * bool) (body : Z → A → C prison_state (A * bool)).
Hypothesis Hbody : ∀ p acc s, body p acc s = Done (f s.(level) s.(locked) p acc) s.
Context (m : cells) (ppr : Z).

Notation go := (λ fuel x, while fuel x (λ '(cpr, descend, acc),
    x ← next_prison unlock down up ppr cpr descend;
    let '(cpr, descend) := x in
    if cpr =? 0 then mret (inr acc) else
    if negb descend then mret (inl (cpr, descend, acc)) else
    lock cpr;;
    y ← body cpr acc;
    let '(acc, descend) := y in
    mret (inl (cpr, descend, acc)))).
Notation S := (Prisons m).

(** Reading the links. *)
Lemma links_read {B} (c : C cells B) b q n : c m = Done b m → on_links c (S q n) = Done b (S q n).
Proof. unfold on_links. cbn [links]. by intros ->. Qed.

Lemma seg_first pp l : seg pr_sibling true m pp l 0 → m !! pp = Some (first 0 l).
Proof. destruct l; [done|]. by intros [H _]. Qed.

Lemma read_first p l q n : 0 < p → seg pr_sibling true m (pr_children p) l 0 →
  on_links (LIST_FIRST (pr_children p)) (S q n) = Done (first 0 l) (S q n).
Proof. intros Hp Hl. apply links_read. apply rd_at_0; [unfold pr_children; lia|by apply seg_first]. Qed.

Lemma read_empty p l q n : 0 < p → seg pr_sibling true m (pr_children p) l 0 →
  on_links (LIST_EMPTY (pr_children p)) (S q n) = Done (first 0 l =? 0) (S q n).
Proof.
  intros Hp Hl. apply links_read. unfold LIST_EMPTY, LIST_FIRST. rewrite (bind_done _ _ m m (first 0 l)); [done|].
  apply rd_at_0; [unfold pr_children; lia|by apply seg_first].
Qed.

Lemma read_next c l q n : c ≠ 0 → seg pr_sibling true m (c + pr_sibling) l 0 → on_links (LIST_NEXT pr_sibling c) (S q n) = Done (first 0 l) (S q n).
Proof. intros Hc Hl. apply links_read. apply rd_at_ok; [done|by apply seg_first]. Qed.

(** A prison is entered. *)
Definition enter (c : Z) (acc : A) : C prison_state ((Z * bool * A) + A) :=
  lock c;; y ← body c acc; let '(acc, descend) := y in mret (inl (c, descend, acc)).

Lemma enter_ok c acc q n : c ∉ q → enter c acc (S q n) =
  Done (inl (c, (f n (held lk c q) c acc).2, (f n (held lk c q) c acc).1)) (S (held lk c q) n).
Proof.
  intros Hc. unfold enter. rewrite (bind_done _ _ _ _ _ (lock_ok m q n c Hc)), (bind_done _ _ _ _ _ (Hbody _ _ _)).
  cbn [level locked]. by destruct (f n (held lk c q) c acc).
Qed.

(** A round of the loop. *)
Lemma go_step fuel cpr d acc s cpr' d' s' : next_prison unlock down up ppr cpr d s = Done (cpr', d') s' → cpr' ≠ 0 →
  go (Datatypes.S fuel) (cpr, d, acc) s =
    if d' then (x ← enter cpr' acc; match x with inl x => go fuel x | inr r => mret r end) s' else go fuel (cpr', false, acc) s'.
Proof.
  intros E Hc. cbn [while]. rewrite bind_assoc, (bind_done _ _ _ _ _ E), (proj2 (Z.eqb_neq cpr' 0)) by done.
  destruct d'; cbn [negb]; [done|by rewrite bind_ret].
Qed.

(** Down to the first child; on to the next one; up to the parent. *)
Lemma step_down p c l q n : 0 < p → c ≠ 0 → n < INT_MAX → seg pr_sibling true m (pr_children p) (c :: l) 0 →
  next_prison unlock down up ppr p true (S q n) = Done (c, true) (S q (below lv n)).
Proof.
  intros Hp Hc Hn Hl. unfold next_prison. rewrite (bind_done _ _ _ _ _ (read_empty p _ q n Hp Hl)). cbn [first].
  rewrite (proj2 (Z.eqb_neq c 0)) by done. cbn [negb]. rewrite (bind_done _ _ _ _ _ (down_ok m q n Hn)).
  by rewrite (bind_done _ _ _ _ _ (read_first p _ q _ Hp Hl)).
Qed.

Lemma step_next p c l q n : p ≠ ppr → 0 < p → p ∉ q → c ≠ 0 → seg pr_sibling true m (p + pr_sibling) (c :: l) 0 →
  next_prison unlock down up ppr p false (S (held lk p q) n) = Done (c, true) (S q n).
Proof.
  intros Hpp Hp Hq Hc Hl. unfold next_prison. rewrite bind_ret. cbn [negb]. rewrite (proj2 (Z.eqb_neq p ppr)) by done.
  rewrite (bind_done _ _ _ _ _ (unlock_ok m q n p Hq)). rewrite (bind_done _ _ _ _ _ (read_next p _ q n ltac:(lia) Hl)). cbn [first].
  rewrite (proj2 (Z.eqb_neq c 0)) by done. cbn [negb]. by rewrite (bind_done _ _ _ _ _ (read_next p _ q n ltac:(lia) Hl)).
Qed.

Lemma step_up p pp q n : p ≠ ppr → 0 < p → p ∉ q → seg pr_sibling true m (p + pr_sibling) [] 0 → m !! (p + pr_parent) = Some pp →
  next_prison unlock down up ppr p false (S (held lk p q) (below lv n)) = Done (pp, false) (S q n).
Proof.
  intros Hpp Hp Hq Hl Hpar. unfold next_prison. rewrite bind_ret. cbn [negb]. rewrite (proj2 (Z.eqb_neq p ppr)) by done.
  rewrite (bind_done _ _ _ _ _ (unlock_ok m q _ p Hq)). rewrite (bind_done _ _ _ _ _ (read_next p _ q _ ltac:(lia) Hl)). cbn [first Z.eqb negb].
  rewrite (bind_done _ _ _ _ _ (up_ok m q n)). by rewrite (bind_done _ _ (S q n) (S q n) pp) by (apply links_read, rd_at_ok; [lia|done]).
Qed.

(** With no children, [descend] makes no difference. *)
Lemma go_leaf fuel p acc q n : 0 < p → seg pr_sibling true m (pr_children p) [] 0 → go fuel (p, true, acc) (S q n) = go fuel (p, false, acc) (S q n).
Proof.
  intros Hp Hl. destruct fuel as [|fuel]; [done|]. cbn [while]. rewrite !bind_assoc. unfold next_prison.
  rewrite bind_assoc, (bind_done _ _ _ _ _ (read_empty p _ q n Hp Hl)). rewrite (bind_assoc (mret true)), bind_ret. cbn [first Z.eqb negb].
  destruct (p =? ppr); [|done]. by rewrite !bind_ret.
Qed.

(** What is below [p] has been visited when [p] is left. *)
Definition walked (p : Z) (cs : list jail) : Prop := ∀ q n d acc, linked m (Jail p cs) → NoDup (flat_map preorder cs) → ppr ∉ flat_map preorder cs →
  (∀ x, x ∈ flat_map preorder cs → x ∉ q) → n + Z.of_nat (depth (Jail p cs)) ≤ INT_MAX →
  ∃ k, (k + 2 ≤ 2 * jails (Jail p cs))%nat ∧ ∀ fuel, go (k + fuel)%nat (p, d, acc) (S q n) =
    go fuel (p, false, if d : bool then visit_all f lk lv (below lv n) q cs acc else acc) (S q n).

(** The conditions for a prison among its siblings. *)
Record fits (p : Z) (q : list Z) (n : Z) (cs : list jail) : Prop := {
  ft_linked : Forall (λ c, m !! (root c + pr_parent) = Some p ∧ linked m c) cs;
  ft_nodup : NoDup (flat_map preorder cs);
  ft_top : ppr ∉ flat_map preorder cs;
  ft_free x : x ∈ flat_map preorder cs → x ∉ q;
  ft_depth : Forall (λ c, below lv n + Z.of_nat (depth c) ≤ INT_MAX) cs }.

Lemma root_in t : root t ∈ preorder t.
Proof. destruct t. left. Qed.
Lemma preorder_cons t : preorder t = root t :: flat_map preorder (children t).
Proof. by destruct t. Qed.

Lemma fits_cons p q n c cs : fits p q n (c :: cs) → fits p q n cs ∧
  (0 < root c ∧ root c ≠ ppr ∧ root c ∉ q ∧ m !! (root c + pr_parent) = Some p ∧ linked m (Jail (root c) (children c))) ∧
  NoDup (flat_map preorder (children c)) ∧ ppr ∉ flat_map preorder (children c) ∧
  (∀ x, x ∈ flat_map preorder (children c) → x ∉ held lk (root c) q) ∧ below lv n + Z.of_nat (depth (Jail (root c) (children c))) ≤ INT_MAX.
Proof.
  intros [Hl Hn Ht Hf Hd]. apply Forall_cons in Hl as [[Hpar Hc] Hl]. apply Forall_cons in Hd as [Hdc Hd]. cbn [flat_map] in *.
  apply NoDup_app in Hn as (Hn1 & Hn2 & Hn3). rewrite preorder_cons in *. apply NoDup_cons in Hn1 as [Hr Hn1].
  assert (E : Jail (root c) (children c) = c) by (by destruct c). rewrite E. split; [split; try done; set_solver|]. split.
  - split_and!; try done; [destruct c; apply Hc|set_solver|apply Hf; set_solver].
  - split_and!; try done; [set_solver|]. intros x Hx. unfold held. destruct lk; [|apply Hf; set_solver].
    intros [->|Hin]%elem_of_cons; [done|]. revert Hin. apply Hf. set_solver.
Qed.

Lemma visit_root n q c acc : visit f lk lv n q c acc =
  let '(a, d) := f n (held lk (root c) q) (root c) acc in if d : bool then visit_all f lk lv (below lv n) (held lk (root c) q) (children c) a else a.
Proof. by destruct c. Qed.

(** From a child that has been entered, through its siblings, back to [p]. *)
Lemma siblings p q n cs : 0 < p → ∀ c acc d, Forall (λ c, walked (root c) (children c)) (c :: cs) →
  seg pr_sibling true m (root c + pr_sibling) (root <$> cs) 0 → fits p q n (c :: cs) →
  ∃ k, (k + length (c :: cs) ≤ 2 * sum_list_with jails (c :: cs))%nat ∧ ∀ fuel,
    go (k + fuel)%nat (root c, d, acc) (S (held lk (root c) q) (below lv n)) =
    go fuel (p, false, visit_all f lk lv (below lv n) q cs (if d : bool then visit_all f lk lv (below lv (below lv n)) (held lk (root c) q) (children c) acc else acc)) (S q n).
Proof.
  intros Hp. induction cs as [|c2 cs IH]; intros c acc d Hw Hs Hf; apply Forall_cons in Hw as [Hwc Hw];
    destruct (fits_cons _ _ _ _ _ Hf) as (Hf2 & (Hr & Hrp & Hrq & Hpar & Hlc) & H1 & H2 & H3 & H4);
    destruct (Hwc (held lk (root c) q) (below lv n) d acc Hlc H1 H2 H3 H4) as (k1 & Hk1 & E1); clear Hwc;
    set (a := if d then _ else _) in *; assert (Ej : jails (Jail (root c) (children c)) = jails c) by (by destruct c); rewrite Ej in Hk1.
  - exists (k1 + 1)%nat. split; [simpl; lia|]. intros fuel. rewrite <- Nat.add_assoc, E1.
    change (1 + fuel)%nat with (Datatypes.S fuel). rewrite (go_step _ _ _ _ _ _ _ _ (step_up (root c) p q n Hrp Hr Hrq Hs Hpar)) by lia. done.
  - pose proof Hs as (Hs1 & Hne & _ & Hs2).
    destruct (fits_cons _ _ _ _ _ Hf2) as (_ & (_ & _ & Hrq2 & _) & _).
    set (r := f (below lv n) (held lk (root c2) q) (root c2) a).
    destruct (IH c2 r.1 r.2 Hw Hs2 Hf2) as (k2 & Hk2 & E2). exists (k1 + (1 + k2))%nat. split; [simpl in *; lia|]. intros fuel.
    rewrite <- Nat.add_assoc, E1. change (1 + k2 + fuel)%nat with (Datatypes.S (k2 + fuel)).
    rewrite (go_step _ _ _ _ _ _ _ _ (step_next (root c) (root c2) (fmap (M:=list) root cs) q (below lv n) Hrp Hr Hrq Hne Hs)) by done.
    rewrite (bind_done _ _ _ _ _ (enter_ok (root c2) a q (below lv n) Hrq2)). fold r. rewrite E2. f_equal. f_equal.
    cbn [visit_all fold_left]. rewrite visit_root. fold r. by destruct r.
Qed.

Lemma walk t : walked (root t) (children t).
Proof.
  induction t as [p cs IH] using jail_forall. cbn [root children]. intros q n d acc Hl Hn Ht Hq Hd.
  destruct (linked_inv _ _ _ Hl) as (Hp & Hs & Hcs). destruct d; [|exists 0%nat; split; [simpl; lia|done]]. destruct cs as [|c cs].
  { exists 0%nat. split; [simpl; lia|]. intros fuel. by apply go_leaf. }
  pose proof Hs as (_ & Hne & _ & Hs2).
  assert (Hf : fits p q n (c :: cs)).
  { split; try done. apply Forall_forall. intros x Hx. revert Hd. clear -Hx. unfold below. induction (c :: cs) as [|y l IHl]; [by apply elem_of_nil in Hx|].
    cbn [depth foldr] in *. apply elem_of_cons in Hx as [->|Hx]; intros Hd; [destruct lv; lia|]. apply IHl; [done|lia]. }
  destruct (fits_cons _ _ _ _ _ Hf) as (_ & (_ & _ & Hcq & _) & _). set (r := f (below lv n) (held lk (root c) q) (root c) acc).
  destruct (siblings p q n cs Hp c r.1 r.2 IH Hs2 Hf) as (k & Hk & E). exists (Datatypes.S k). split; [cbn [jails]; cbn [length] in Hk; lia|]. intros fuel.
  assert (Hlt : n < INT_MAX) by (cbn [depth foldr] in Hd; lia).
  cbn [Nat.add]. rewrite (go_step _ _ _ _ _ _ _ _ (step_down p (root c) (fmap (M:=list) root cs) q n Hp Hne Hlt Hs)) by done.
  rewrite (bind_done _ _ _ _ _ (enter_ok (root c) acc q (below lv n) Hcq)). fold r. rewrite E. f_equal. f_equal.
  cbn [visit_all fold_left]. rewrite visit_root. fold r. by destruct r.
Qed.

Lemma descendants_ok fuel cs q n acc : linked m (Jail ppr cs) → NoDup (preorder (Jail ppr cs)) → (∀ x, x ∈ flat_map preorder cs → x ∉ q) →
  n + Z.of_nat (depth (Jail ppr cs)) ≤ INT_MAX → (2 * jails (Jail ppr cs) ≤ fuel)%nat →
  descendants lock unlock down up fuel ppr acc body (S q n) = Done (visit_all f lk lv (below lv n) q cs acc) (S q n).
Proof.
  intros Hl Hn Hq Hd Hfuel. cbn [preorder] in Hn. apply NoDup_cons in Hn as [Ht Hn].
  destruct (walk (Jail ppr cs) q n true acc Hl Hn Ht Hq Hd) as (k & Hk & E). cbn [root] in Hk.
  unfold descendants. replace fuel with (k + Datatypes.S (fuel - k - 1))%nat by (cbn [root children] in Hk; lia). rewrite E. cbn [while children].
  rewrite bind_assoc. unfold next_prison. rewrite bind_assoc, bind_ret. cbn [negb]. rewrite Z.eqb_refl, bind_ret. done.
Qed.
End Walk.

(** ** Properties *)

(** The preorder: the prisons below the roots, as often as the body does not
    clear [descend]. *)
Lemma visit_preorder lk lv n q t acc : visit (λ _ _ p (acc : list Z), (acc ++ [p], true)) lk lv n q t acc = acc ++ preorder t.
Proof.
  revert n q acc. induction t as [p cs IH] using jail_forall. intros n q acc. cbn [visit preorder].
  assert (G : ∀ n q acc, fold_left (λ acc c, visit (λ _ _ p (acc : list Z), (acc ++ [p], true)) lk lv n q c acc) cs acc = acc ++ flat_map preorder cs); [|by rewrite G, <- app_assoc].
  induction IH as [|c cs Hc _ IH]; intros n' q' acc'; cbn [fold_left flat_map]; [by rewrite app_nil_r|]. rewrite IH, Hc. by rewrite <- app_assoc.
Qed.

(** C28. The loops over the descendants of [ppr] end, and visit them in preorder,
    each before its children and siblings in the order of the list, leaving
    out what is below a prison at which the body clears [descend].  In the
    forms with locks the body runs with the locks of the prison and of its
    ancestors below [ppr], and with no others but those that were held before,
    and in the third form with its depth in [level]; afterwards locks and
    level are as at the beginning.  Nothing is locked twice or unlocked
    without being locked. *)
Theorem prison_descendants_preorder {A} f (body : Z → A → C prison_state (A * bool)) m ppr cs q n acc fuel :
  (∀ p acc s, body p acc s = Done (f s.(level) s.(locked) p acc) s) →
  linked m (Jail ppr cs) → NoDup (preorder (Jail ppr cs)) → (∀ x, x ∈ flat_map preorder cs → x ∉ q) →
  Z.of_nat (depth (Jail ppr cs)) ≤ INT_MAX → n + Z.of_nat (depth (Jail ppr cs)) ≤ INT_MAX → (2 * jails (Jail ppr cs) ≤ fuel)%nat →
  FOREACH_PRISON_DESCENDANT fuel ppr acc body (Prisons m q n) = Done (visit_all f false false n q cs acc) (Prisons m q n) ∧
  FOREACH_PRISON_DESCENDANT_LOCKED fuel ppr acc body (Prisons m q n) = Done (visit_all f true false n q cs acc) (Prisons m q n) ∧
  FOREACH_PRISON_DESCENDANT_LOCKED_LEVEL fuel ppr acc body (Prisons m q n) = Done (visit_all f true true 1 q cs acc) (Prisons m q 0).
Proof.
  intros Hb Hl Hn Hq Hd Hnd Hf. split_and!.
  - by apply (descendants_ok false false _ _ _ _ f body Hb).
  - by apply (descendants_ok true false _ _ _ _ f body Hb).
  - unfold FOREACH_PRISON_DESCENDANT_LOCKED_LEVEL. rewrite (bind_done _ _ _ (Prisons m q 0) ()) by done.
    by apply (descendants_ok true true _ _ _ _ f body Hb m ppr fuel cs q 0).
Qed.

(** Prison 0x1000 has the children 0x2000, with two of its own, and 0x5000. *)
Definition sample_prisons : cells := list_to_map
  [(0x1020, 0x2000);
   (0x2020, 0x3000); (0x2028, 0x5000); (0x2030, 0x1020); (0x2038, 0x1000);
   (0x3020, 0); (0x3028, 0x4000); (0x3030, 0x2020); (0x3038, 0x2000);
   (0x4020, 0); (0x4028, 0); (0x4030, 0x3028); (0x4038, 0x2000);
   (0x5020, 0); (0x5028, 0); (0x5030, 0x2028); (0x5038, 0x1000)].

Definition sample_children : list jail := [Jail 0x2000 [Jail 0x3000 []; Jail 0x4000 []]; Jail 0x5000 []].

(** The body notes the prison with the level and the locks. *)
Definition note_prison (p : Z) (acc : list (Z * Z * list Z)) : C prison_state (list (Z * Z * list Z) * bool) := λ s,
  Done (acc ++ [(p, s.(level), s.(locked))], true) s.

Lemma sample_linked : linked sample_prisons (Jail 0x1000 sample_children).
Proof. cbn [linked sample_children foldr root fmap list_fmap seg first]. repeat split; try done; intros _; vm_compute; reflexivity. Qed.

Lemma prison_descendants_preorder_witness :
  FOREACH_PRISON_DESCENDANT_LOCKED_LEVEL 10 0x1000 [] note_prison (Prisons sample_prisons [] 0) =
  Done [(0x2000, 1, [0x2000]); (0x3000, 2, [0x3000; 0x2000]); (0x4000, 2, [0x4000; 0x2000]); (0x5000, 1, [0x5000])] (Prisons sample_prisons [] 0).
Proof.
  destruct (prison_descendants_preorder (λ n h p acc, (acc ++ [(p, n, h)], true)) note_prison sample_prisons 0x1000 sample_children [] 0 [] 10) as (_ & _ & E).
  - reflexivity.
  - exact sample_linked.
  - apply (bool_decide_unpack _). vm_compute. exact I.
  - intros x _. apply not_elem_of_nil.
  - vm_compute. discriminate.
  - vm_compute. discriminate.
  - simpl. lia.
  - exact E.
Defined.
