(* ===== verification/Brackets.v ===== *)
(** * Sections that change a thread's state and put it back

    Pairs of inline functions and macros of which the first changes a part of
    the state of the running thread and returns, or keeps, what the second
    needs to restore it: intr_disable and intr_restore of
    include/machine/cpufunc.h, curthread_pflags_set and
    curthread_pflags_restore of include/sys/proc.h, sched_pin and sched_unpin
    of include/sys/sched.h, CURVNET_SET and CURVNET_RESTORE of
    include/net/vnet.h. *)

From S2P Require Import Prelude.

(** ** The code *)

(** The flags register; members of curthread (flags, how often it is pinned,
    its network stack and the function that set it); vnet_magic_n of the
    network stacks. *)
Record kthread := KThread {
  rflags : Z; td_pflags : Z; td_pinned : Z; td_vnet : Z; td_vnet_lpush : Z; vnet_magic_n : gmap Z Z }.

Definition with_rflags (f : Z) (s : kthread) : kthread := KThread f s.(td_pflags) s.(td_pinned) s.(td_vnet) s.(td_vnet_lpush) s.(vnet_magic_n).
Definition with_pflags (f : Z) (s : kthread) : kthread := KThread s.(rflags) f s.(td_pinned) s.(td_vnet) s.(td_vnet_lpush) s.(vnet_magic_n).
Definition with_pinned (n : Z) (s : kthread) : kthread := KThread s.(rflags) s.(td_pflags) n s.(td_vnet) s.(td_vnet_lpush) s.(vnet_magic_n).
Definition with_vnet (v : Z) (s : kthread) : kthread := KThread s.(rflags) s.(td_pflags) s.(td_pinned) v s.(td_vnet_lpush) s.(vnet_magic_n).
Definition with_lpush (p : Z) (s : kthread) : kthread := KThread s.(rflags) s.(td_pflags) s.(td_pinned) s.(td_vnet) p s.(vnet_magic_n).

(** *** Interrupts *)

(** include/machine/psl.h *)
Definition PSL_C : Z := 0x00000001.
Definition PSL_PF : Z := 0x00000004.
Definition PSL_AF : Z := 0x00000010.
Definition PSL_Z : Z := 0x00000040.
Definition PSL_N : Z := 0x00000080.
Definition PSL_T : Z := 0x00000100.
Definition PSL_I : Z := 0x00000200.
Definition PSL_D : Z := 0x00000400.
Definition PSL_V : Z := 0x00000800.
Definition PSL_IOPL : Z := 0x00003000.
Definition PSL_NT : Z := 0x00004000.
Definition PSL_RF : Z := 0x00010000.
Definition PSL_AC : Z := 0x00040000.
Definition PSL_ID : Z := 0x00200000.
Definition PSL_RESERVED_DEFAULT : Z := 0x00000002.

(** What popfq loads in the kernel; the resume flag is cleared, and pushfq does
    not store it. *)
Definition popf_mask : Z := foldr Z.lor 0 [PSL_C; PSL_PF; PSL_AF; PSL_Z; PSL_N; PSL_T; PSL_I; PSL_D; PSL_V; PSL_IOPL; PSL_NT; PSL_AC; PSL_ID].
Definition pushfq : C kthread Z := s ← getS; mret (Z.land s.(rflags) (Z.lnot PSL_RF)).
Definition popfq (v : Z) : C kthread () := modifyS (with_rflags (Z.lor (Z.land v popf_mask) PSL_RESERVED_DEFAULT)).
Definition cli : C kthread () := modifyS (λ s, with_rflags (Z.land s.(rflags) (Z.lnot PSL_I)) s).
Definition sti : C kthread () := modifyS (λ s, with_rflags (Z.lor s.(rflags) PSL_I) s).

Definition disable_intr : C kthread () := cli.
Definition enable_intr : C kthread () := sti.
Definition read_rflags : C kthread Z := rf ← pushfq; mret rf.
Definition write_rflags (rf : Z) : C kthread () := popfq rf.

Definition intr_disable : C kthread Z := rflags ← read_rflags; disable_intr;; mret rflags.
Definition intr_restore (rflags : Z) : C kthread () := write_rflags rflags.

(** *** Flags of the thread *)

(** Operations on ints: with two's complement they are those on integers. *)
Definition curthread_pflags_set (flags : Z) : C kthread Z :=
  td ← getS;
  let save := Z.lor (Z.lnot flags) (Z.land td.(td_pflags) flags) in
  modifyS (λ s, with_pflags (Z.lor s.(td_pflags) flags) s);;
  mret save.
Definition curthread_pflags_restore (save : Z) : C kthread () := modifyS (λ s, with_pflags (Z.land s.(td_pflags) save) s).

(** *** Pinning *)

Definition sched_pin : C kthread () := s ← getS; if s.(td_pinned) =? INT_MAX then ub else modifyS (with_pinned (s.(td_pinned) + 1)).
Definition sched_unpin : C kthread () := s ← getS; if s.(td_pinned) =? - 2 ^ 31 then ub else modifyS (with_pinned (s.(td_pinned) - 1)).

(** *** Network stacks *)

Definition VNET_MAGIC_N : Z := 0x3e0d8f29.

Section Vnet.
(** Without VIMAGE ([vimage]) the macros are empty.  Kernels with INVARIANTS
    or VNET_DEBUG panic when an assertion fails; those with VNET_DEBUG
    ([debug]) also note the function ([__func__]). *)
Context (vimage invariants debug : bool).

Definition VNET_ASSERT (exp : C kthread bool) : C kthread () :=
  if vimage && (invariants || debug) then b ← exp; (if b : bool then mret () else ub) else mret ().

(** [p->vnet_magic_n == VNET_MAGIC_N] *)
Definition vnet_has_magic (p : Z) : C kthread bool := λ s,
  match s.(vnet_magic_n) !! p with Some n => Done (n =? VNET_MAGIC_N) s | None => UB end.

(** The variables that the macro declares. *)
Definition CURVNET_SET_QUIET (arg func : Z) : C kthread (Z * Z) :=
  if negb vimage then mret (0, 0) else
  VNET_ASSERT (if negb (arg =? 0) then vnet_has_magic arg else mret false);;
  saved_vnet ← gets td_vnet;
  saved_vnet_lpush ← gets td_vnet_lpush;
  modifyS (with_vnet arg);;
  (if debug then modifyS (with_lpush func) else mret ());;
  mret (saved_vnet, saved_vnet_lpush).

(** vnet_log_recursion only reports. *)
Definition CURVNET_SET (arg func : Z) : C kthread (Z * Z) := CURVNET_SET_QUIET arg func.

Definition CURVNET_RESTORE (saved : Z * Z) : C kthread () :=
  if negb vimage then mret () else
  let '(saved_vnet, saved_vnet_lpush) := saved in
  VNET_ASSERT (v ← gets td_vnet; if v =? 0 then mret false else if saved_vnet =? 0 then mret true else vnet_has_magic saved_vnet);;
  modifyS (with_vnet saved_vnet);;
  (if debug then modifyS (with_lpush saved_vnet_lpush) else mret ()).
End Vnet.

(** ** Programs of nested sections *)

(** A kind of section with the argument of its first half. *)
Inductive bracket := NoInterrupts | PFlags (flags : Z) | Pinned | Vnet (arg func : Z).

Definition token := (Z * Z)%type.

Section Programs.
Context (vimage invariants debug : bool).

Definition enter (x : bracket) : C kthread token :=
  match x with
  | NoInterrupts => f ← intr_disable; mret (f, 0)
  | PFlags flags => v ← curthread_pflags_set flags; mret (v, 0)
  | Pinned => sched_pin;; mret (0, 0)
  | Vnet arg func => CURVNET_SET vimage invariants debug arg func
  end.

Definition leave (x : bracket) (t : token) : C kthread () :=
  match x with
  | NoInterrupts => intr_restore t.1
  | PFlags _ => curthread_pflags_restore t.1
  | Pinned => sched_unpin
  | Vnet _ _ => CURVNET_RESTORE vimage invariants debug t
  end.

(** Code: something else, or a section with code in it. *)
Inductive code := Other (k : Z) | Within (x : bracket) (p : list code).

(** What the rest of the code does, and what it sees. *)
Context {V : Type} (other : Z → kthread → kthread) (see : kthread → V).

Fixpoint run (c : code) : C kthread (list (Z * V)) :=
  match c with
  | Other k => v ← gets see; modifyS (other k);; mret [(k, v)]
  | Within x p =>
      t ← enter x;
      l ← (fix runs (p : list code) : C kthread (list (Z * V)) :=
             match p with [] => mret [] | c :: p => l ← run c; l' ← runs p; mret (l ++ l') end) p;
      leave x t;;
      mret l
  end.

Fixpoint runs (p : list code) : C kthread (list (Z * V)) :=
  match p with [] => mret [] | c :: p => l ← run c; l' ← runs p; mret (l ++ l') end.
End Programs.

(** ** What the sections promise *)

(** Whether interrupts are enabled, and the members. *)
Record view := View { v_intr : bool; v_pflags : Z; v_pinned : Z; v_vnet : Z; v_lpush : Z; v_magic : gmap Z Z }.

Definition view_of (s : kthread) : view :=
  View (Z.testbit s.(rflags) 9) s.(td_pflags) s.(td_pinned) s.(td_vnet) s.(td_vnet_lpush) s.(vnet_magic_n).

Section Spec.
Context (vimage invariants debug : bool).

Definition inside (x : bracket) (v : view) : view :=
  match x with
  | NoInterrupts => View false v.(v_pflags) v.(v_pinned) v.(v_vnet) v.(v_lpush) v.(v_magic)
  | PFlags flags => View v.(v_intr) (Z.lor v.(v_pflags) flags) v.(v_pinned) v.(v_vnet) v.(v_lpush) v.(v_magic)
  | Pinned => View v.(v_intr) v.(v_pflags) (v.(v_pinned) + 1) v.(v_vnet) v.(v_lpush) v.(v_magic)
  | Vnet arg func =>
      if vimage then View v.(v_intr) v.(v_pflags) v.(v_pinned) arg (if debug then func else v.(v_lpush)) v.(v_magic) else v
  end.

(** When a section may be entered: pinning does not overflow, and network
    stacks are stacks. *)
Definition may_enter (x : bracket) (v : view) : Prop :=
  match x with
  | Pinned => 0 ≤ v.(v_pinned) < INT_MAX
  | Vnet arg _ => vimage = true → arg ≠ 0 ∧ v.(v_magic) !! arg = Some VNET_MAGIC_N ∧ (v.(v_vnet) = 0 ∨ v.(v_magic) !! v.(v_vnet) = Some VNET_MAGIC_N)
  | _ => True
  end.

Fixpoint sees (v : view) (c : code) : list (Z * view) :=
  match c with Other k => [(k, v)] | Within x p => flat_map (sees (inside x v)) p end.

Fixpoint entered (v : view) (c : code) : Prop :=
  match c with
  | Other _ => True
  | Within x p => may_enter x v ∧ foldr (λ c P, entered (inside x v) c ∧ P) True p
  end.

(** The two halves of each kind of section. *)
Lemma popf_intr v : Z.testbit (Z.lor (Z.land (Z.land v (Z.lnot PSL_RF)) popf_mask) PSL_RESERVED_DEFAULT) 9 = Z.testbit v 9.
Proof.
  rewrite Z.lor_spec, !Z.land_spec, Z.lnot_spec by lia. change (Z.testbit PSL_RF 9) with false. change (Z.testbit popf_mask 9) with true.
  change (Z.testbit PSL_RESERVED_DEFAULT 9) with false. cbn [negb]. by rewrite !andb_true_r, orb_false_r.
Qed.

Lemma cli_intr v : Z.testbit (Z.land v (Z.lnot PSL_I)) 9 = false.
Proof. rewrite Z.land_spec, Z.lnot_spec by lia. change (Z.testbit PSL_I 9) with true. by rewrite andb_false_r. Qed.

Lemma pflags_back v flags : Z.land (Z.lor v flags) (Z.lor (Z.lnot flags) (Z.land v flags)) = v.
Proof.
  apply Z.bits_inj'. intros i Hi. rewrite Z.land_spec, !Z.lor_spec, Z.land_spec, Z.lnot_spec by done.
  by destruct (Z.testbit v i), (Z.testbit flags i).
Qed.

Lemma vnet_assert_ok c s : (vimage && (invariants || debug) = true → c s = Done true s) → VNET_ASSERT vimage invariants debug c s = Done () s.
Proof. unfold VNET_ASSERT. intros H. destruct (vimage && (invariants || debug)); [|done]. by rewrite (bind_done _ _ _ _ _ (H eq_refl)). Qed.

Lemma vnet_has_magic_ok p s : s.(vnet_magic_n) !! p = Some VNET_MAGIC_N → vnet_has_magic p s = Done true s.
Proof. unfold vnet_has_magic. by intros ->. Qed.

Lemma curvnet_set arg func s : vimage = true → arg ≠ 0 → s.(vnet_magic_n) !! arg = Some VNET_MAGIC_N →
  CURVNET_SET vimage invariants debug arg func s =
  Done (s.(td_vnet), s.(td_vnet_lpush)) (if debug then with_lpush func (with_vnet arg s) else with_vnet arg s).
Proof.
  intros Hvi Ha Hm. unfold CURVNET_SET, CURVNET_SET_QUIET. replace (negb vimage) with false by (by rewrite Hvi).
  rewrite (proj2 (Z.eqb_neq arg 0)) by done. cbn [negb].
  rewrite (bind_done _ _ s s ()) by (apply vnet_assert_ok; intros _; by apply vnet_has_magic_ok). by destruct debug.
Qed.

Lemma curvnet_restore v l s : vimage = true → s.(td_vnet) ≠ 0 → v = 0 ∨ s.(vnet_magic_n) !! v = Some VNET_MAGIC_N →
  CURVNET_RESTORE vimage invariants debug (v, l) s = Done () (if debug then with_lpush l (with_vnet v s) else with_vnet v s).
Proof.
  intros Hvi Ha Hm. unfold CURVNET_RESTORE. replace (negb vimage) with false by (by rewrite Hvi). rewrite (bind_done _ _ s s ()); [by destruct debug|]. apply vnet_assert_ok. intros _.
  rewrite (bind_done _ _ s s s.(td_vnet)) by done. rewrite (proj2 (Z.eqb_neq _ 0)) by done. destruct (Z.eqb_spec v 0) as [->|Hv]; [done|].
  destruct Hm as [?|Hm]; [done|]. by apply vnet_has_magic_ok.
Qed.

Lemma view_inv s i p n v l m : view_of s = View i p n v l m → s = KThread s.(rflags) p n v l m ∧ Z.testbit s.(rflags) 9 = i.
Proof. intros H. split; [|exact (f_equal v_intr H)]. destruct s. unfold view_of in H. by simplify_eq/=. Qed.

Lemma enter_leave x s : may_enter x (view_of s) → ∃ t s', enter vimage invariants debug x s = Done t s' ∧ view_of s' = inside x (view_of s) ∧
  ∀ s2, view_of s2 = inside x (view_of s) → ∃ s3, leave vimage invariants debug x t s2 = Done () s3 ∧ view_of s3 = view_of s.
Proof.
  destruct s as [rf pf pn vn lp mg]. destruct x as [|flags| |arg func]; unfold view_of; cbn [may_enter inside rflags td_pflags td_pinned td_vnet td_vnet_lpush vnet_magic_n v_intr v_pflags v_pinned v_vnet v_lpush v_magic].
  - intros _. exists (Z.land rf (Z.lnot PSL_RF), 0), (KThread (Z.land rf (Z.lnot PSL_I)) pf pn vn lp mg). split; [done|].
    cbn [rflags td_pflags td_pinned td_vnet td_vnet_lpush vnet_magic_n]. split; [by rewrite cli_intr|].
    intros s2 [-> _]%view_inv. generalize (rflags s2) as rf2. intros rf2. eexists. split; [done|].
    cbn [with_rflags rflags td_pflags td_pinned td_vnet td_vnet_lpush vnet_magic_n fst]. by rewrite popf_intr.
  - intros _. eexists _, _. split; [done|]. split; [done|].
    intros s2 [-> Hi]%view_inv. cbn [rflags] in Hi. revert Hi. generalize (rflags s2) as rf2. intros rf2 Hi. eexists. split; [done|].
    cbn [with_pflags rflags td_pflags td_pinned td_vnet td_vnet_lpush vnet_magic_n fst]. by rewrite pflags_back, Hi.
  - intros Hn. exists (0, 0), (KThread rf pf (pn + 1) vn lp mg). split; [unfold enter, sched_pin, getS, mbind, C_bind; cbn; by rewrite (proj2 (Z.eqb_neq pn INT_MAX)) by lia|]. split; [done|].
    intros s2 [-> Hi]%view_inv. cbn [rflags] in Hi. revert Hi. generalize (rflags s2) as rf2. intros rf2 Hi.
    exists (KThread rf2 pf pn vn lp mg). split; [|cbn [rflags td_pflags td_pinned td_vnet td_vnet_lpush vnet_magic_n]; by rewrite Hi]. unfold leave, sched_unpin, getS, mbind, C_bind. cbn [td_pinned].
    rewrite (proj2 (Z.eqb_neq (pn + 1) (- 2 ^ 31))) by lia. unfold modifyS, with_pinned. cbn. by rewrite Z.add_simpl_r.
  - destruct (bool_dec vimage true) as [Hvi|Hvi%not_true_is_false].
    2: { intros _. unfold enter, leave, CURVNET_SET, CURVNET_SET_QUIET, CURVNET_RESTORE. rewrite !Hvi. cbn [negb].
      eexists _, _. split; [done|]. split; [done|]. intros s2 Hs2. by exists s2. }
    intros Hen. destruct (Hen Hvi) as (Ha & Hm & Hv). eexists _, _. split; [by apply curvnet_set|]. rewrite !Hvi.
    split; [by destruct debug|]. intros s2 [-> Hi]%view_inv. cbn [rflags] in Hi. revert Hi. generalize (rflags s2) as rf2. intros rf2 Hi.
    eexists. split; [rewrite <- Hvi; by apply curvnet_restore|]. destruct debug; cbn [with_lpush with_vnet rflags td_pflags td_pinned td_vnet td_vnet_lpush vnet_magic_n]; by rewrite Hi.
Qed.

Lemma code_forall (P : code → Prop) : (∀ k, P (Other k)) → (∀ x p, Forall P p → P (Within x p)) → ∀ c, P c.
Proof. intros H1 H2. fix IH 1. intros [k|x p]; [apply H1|]. apply H2. induction p as [|c p IHp]; constructor; [apply IH|exact IHp]. Qed.

Context (other : Z → kthread → kthread).
Hypothesis Hother : ∀ k s, view_of (other k s) = view_of s.
Notation run := (run vimage invariants debug other view_of).
Notation runs := (runs vimage invariants debug other view_of).

Definition run_ok (c : code) : Prop := ∀ s, entered (view_of s) c → ∃ s', run c s = Done (sees (view_of s) c) s' ∧ view_of s' = view_of s.

Lemma code_runs_ok p : Forall run_ok p → ∀ s, foldr (λ c P, entered (view_of s) c ∧ P) True p →
  ∃ s', runs p s = Done (flat_map (sees (view_of s)) p) s' ∧ view_of s' = view_of s.
Proof.
  induction 1 as [|c p Hc _ IH]; intros s He; cbn [Brackets.runs flat_map foldr] in *; [by exists s|]. destruct He as [Hec Hep].
  destruct (Hc s Hec) as (s1 & E1 & V1). rewrite <- V1 in Hep. destruct (IH s1 Hep) as (s2 & E2 & V2). exists s2.
  rewrite (bind_done _ _ _ _ _ E1), (bind_done _ _ _ _ _ E2). by rewrite V1 in *.
Qed.

Lemma run_within x p s : run (Within x p) s = (t ← enter vimage invariants debug x; l ← runs p; leave vimage invariants debug x t;; mret l) s.
Proof.
  cbn [Brackets.run]. f_equal.
Qed.

Lemma all_ok c : run_ok c.
Proof.
  induction c as [k|x p IH] using code_forall; intros s He.
  - exists (other k s). split; [done|apply Hother].
  - cbn [entered] in He. destruct He as [Hm Hp]. destruct (enter_leave x s Hm) as (t & s1 & E1 & V1 & Hl). rewrite run_within, (bind_done _ _ _ _ _ E1).
    rewrite <- V1 in Hp. destruct (code_runs_ok p IH s1 Hp) as (s2 & E2 & V2). rewrite (bind_done _ _ _ _ _ E2).
    rewrite V1 in V2. destruct (Hl s2 V2) as (s3 & E3 & V3). rewrite (bind_done _ _ _ _ _ E3). exists s3. cbn [sees]. by rewrite V1.
Qed.
End Spec.

(** Inside a section, at any depth: no section enables interrupts or clears
    flags. *)
Lemma sees_below vimage debug v c k w : (k, w) ∈ sees vimage debug v c →
  (v.(v_intr) = false → w.(v_intr) = false) ∧ (∀ flags, Z.land v.(v_pflags) flags = flags → Z.land w.(v_pflags) flags = flags) ∧ v.(v_pinned) ≤ w.(v_pinned).
Proof.
  revert v. induction c as [j|x p IH] using code_forall; intros v; cbn [sees].
  - intros [= -> ->]%list_elem_of_singleton. split_and!; [done|done|lia].
  - intros (c & Hc & Hin)%list_elem_of_In%in_flat_map. apply list_elem_of_In in Hc, Hin. rewrite Forall_forall in IH.
    destruct (IH c Hc _ Hin) as (H1 & H2 & H3). destruct x as [|flags| |arg func]; [..|destruct vimage];
      cbn [inside v_intr v_pflags v_pinned] in *; split_and!; auto; try lia.
    intros g Hg. apply H2. rewrite Z.land_lor_distr_l, Hg. apply Z.bits_inj'. intros i Hi. rewrite Z.lor_spec, Z.land_spec by done.
    by destruct (Z.testbit g i), (Z.testbit flags i).
Qed.

(** ** Properties *)

(** C36. Code with sections of the four kinds, nested in any way, in kernels with
    and without virtual network stacks and assertions: every piece sees the
    state that the sections around it make, and afterwards interrupts, flags, pin count and network
    stack are as before.  In a section without interrupts they stay disabled,
    and in one with flags these stay set, whatever sections are nested in it;
    no assertion fails and no count overflows. *)
Theorem sections_restore vimage invariants debug other p s :
  (∀ k s, view_of (other k s) = view_of s) →
  foldr (λ c P, entered vimage debug (view_of s) c ∧ P) True p →
  (∃ s', runs vimage invariants debug other view_of p s = Done (flat_map (sees vimage debug (view_of s)) p) s' ∧
     view_of s' = view_of s) ∧
  (∀ q k w v, (k, w) ∈ sees vimage debug v (Within NoInterrupts q) → w.(v_intr) = false) ∧
  (∀ q k w v flags, (k, w) ∈ sees vimage debug v (Within (PFlags flags) q) → Z.land w.(v_pflags) flags = flags).
Proof.
  intros Ho He. split_and!.
  - apply code_runs_ok; [|done]. apply Forall_forall. intros c _. by apply all_ok.
  - intros q k w v (c & _ & Hin)%list_elem_of_In%in_flat_map. apply list_elem_of_In in Hin. by apply (sees_below _ _ _ _ _ _ Hin).
  - intros q k w v flags (c & _ & Hin)%list_elem_of_In%in_flat_map. apply list_elem_of_In in Hin. apply (sees_below _ _ _ _ _ _ Hin).
    cbn [inside v_pflags]. apply Z.bits_inj'. intros i Hi. rewrite Z.land_spec, Z.lor_spec by done. by destruct (Z.testbit _ i), (Z.testbit flags i).
Qed.

Definition sample_kthread : kthread := KThread 0x202 0x4 0 0 0 {[0x1000 := VNET_MAGIC_N]}.
Definition sample_code : list code :=
  [Within NoInterrupts [Other 1; Within (PFlags 0x6) [Other 2; Within NoInterrupts [Other 3]]; Within Pinned [Within (Vnet 0x1000 7) [Other 4]]]; Other 5].

Lemma sections_restore_witness :
  ∃ s', runs true true true (λ _ s, s) view_of sample_code sample_kthread = Done (flat_map (sees true true (view_of sample_kthread)) sample_code) s' ∧
    view_of s' = View true 4 0 0 0 {[0x1000 := VNET_MAGIC_N]}.
Proof.
  destruct (sections_restore true true true (λ _ s, s) sample_code sample_kthread) as [(s' & E & V) _].
  - reflexivity.
  - cbn. repeat split; try lia; try (by vm_compute); try (by left). 
  - exists s'. split; [exact E|]. rewrite V. reflexivity.
Defined.
