(* ===== verification/Percpu.v ===== *)
(** * Variables of a CPU

    Dynamic per-CPU variables and their sums over all CPUs
    (include/sys/pcpu.h), on the enumeration of the CPUs of Smp.v; registers of
    a CPU that are read and written in two halves (include/machine/cpufunc.h);
    the flags of a process control block (include/machine/pcb.h). *)

From S2P Require Import Prelude.
From S2P Require Import BitSet.
From S2P Require Import CpuSet.
From S2P Require Import Smp.

(** ** Per-CPU variables *)

(** The copies of a variable, unsigned integers of [w] bits, by address; a copy
    that is not mapped is an error. *)
Section Dpcpu.
Context (w : Z) (dpcpu_off : Z → Z) (pc_dynamic : Z).

Definition _DPCPU_PTR (b n : Z) : Z := u64 (b + n).
Definition _DPCPU_GET (b n : Z) : C (gmap Z Z) Z := λ m, match m !! _DPCPU_PTR b n with Some v => Done v m | None => UB end.
Definition _DPCPU_SET (b n v : Z) : C (gmap Z Z) () := λ m,
  match m !! _DPCPU_PTR b n with Some _ => Done () (<[_DPCPU_PTR b n := v mod 2 ^ w]> m) | None => UB end.
Definition DPCPU_PTR (n : Z) : Z := _DPCPU_PTR pc_dynamic n.
Definition DPCPU_GET (n : Z) : C (gmap Z Z) Z := _DPCPU_GET pc_dynamic n.
Definition DPCPU_SET (n v : Z) : C (gmap Z Z) () := _DPCPU_SET pc_dynamic n v.
Definition DPCPU_ID_PTR (i n : Z) : Z := _DPCPU_PTR (dpcpu_off i) n.
Definition DPCPU_ID_GET (i n : Z) : C (gmap Z Z) Z := _DPCPU_GET (dpcpu_off i) n.
Definition DPCPU_ID_SET (i n v : Z) : C (gmap Z Z) () := _DPCPU_SET (dpcpu_off i) n v.

(** The sum has the type of the variable. *)
Definition DPCPU_SUM (mp_maxid n : Z) (m : gmap Z Z) : C words (option Z) :=
  CPU_FOREACH mp_maxid (Some 0) (λ sum _i,
    match sum, m !! DPCPU_ID_PTR _i n with Some s, Some v => Some ((s + v) mod 2 ^ w) | _, _ => None end).

(** The same for a member at the offset [var]. *)
Definition DPCPU_VARSUM (mp_maxid n var : Z) (m : gmap Z Z) : C words (option Z) :=
  CPU_FOREACH mp_maxid (Some 0) (λ sum _i,
    match sum, m !! (DPCPU_ID_PTR _i n + var) with Some s, Some v => Some ((s + v) mod 2 ^ w) | _, _ => None end).

Definition DPCPU_ZERO (mp_maxid n : Z) (m : gmap Z Z) : C words (option (gmap Z Z)) :=
  CPU_FOREACH mp_maxid (Some m) (λ om _i,
    match om with Some m => match m !! DPCPU_ID_PTR _i n with Some _ => Some (<[DPCPU_ID_PTR _i n := 0]> m) | None => None end | None => None end).
End Dpcpu.

(** ** Registers in two halves *)

(** The instructions take and give the halves in eax and edx. *)
Abbreviation msrs := (gmap Z Z).
Definition rdmsr_insn (msr : Z) : C msrs (Z * Z) := λ r, match r !! msr with Some v => Done (v mod 2 ^ 32, v / 2 ^ 32) r | None => UB end.
Definition wrmsr_insn (msr low high : Z) : C msrs () := λ r,
  match r !! msr with Some _ => Done () (<[msr := high * 2 ^ 32 + low]> r) | None => UB end.

Definition rdmsr (msr : Z) : C msrs Z := x ← rdmsr_insn msr; let '(low, high) := x in mret (Z.lor low (u64 (Z.shiftl high 32))).
Definition wrmsr (msr newval : Z) : C msrs () :=
  let low := u32 newval in
  let high := u32 (Z.shiftr newval 32) in
  wrmsr_insn msr low high.

(** The time stamp counter [tsc]. *)
Definition rdtsc (tsc : Z) : Z := Z.lor (tsc mod 2 ^ 32) (u64 (Z.shiftl (tsc / 2 ^ 32) 32)).
Definition rdtsc32 (tsc : Z) : Z := tsc mod 2 ^ 32.

(** ** Flags of a process control block *)

Definition set_pcb_flags (flags : Z) : C Z () := modifyS (λ pcb_flags, Z.lor pcb_flags flags).
Definition clear_pcb_flags (flags : Z) : C Z () := modifyS (λ pcb_flags, Z.land pcb_flags (u32 (Z.lnot flags))).

(** ** Lemmas *)

Section Sums.
Context (w : Z) (dpcpu_off : Z → Z).
Hypothesis Hw : 0 < w.

Lemma fold_sum (addr : Z → Z) (m : gmap Z Z) l acc : Forall (λ i, is_Some (m !! addr i)) l →
  foldl (λ sum i, match sum, m !! addr i with Some s, Some v => Some ((s + v) mod 2 ^ w) | _, _ => None end) (Some (acc mod 2 ^ w)) l =
  Some ((acc + foldr (λ i s, default 0 (m !! addr i) + s) 0 l) mod 2 ^ w).
Proof.
  intros H. revert acc. induction H as [|i l [v Hv] _ IH]; intros acc; cbn [foldl foldr]; [by rewrite Z.add_0_r|]. rewrite Hv.
  cbn [default]. rewrite Zplus_mod_idemp_l. rewrite IH. unfold id. do 2 f_equal. lia.
Qed.

Definition zero_all (addr : Z → Z) (l : list Z) (m : gmap Z Z) : gmap Z Z := foldl (λ m i, <[addr i := 0]> m) m l.

Lemma fold_zero (addr : Z → Z) l (m : gmap Z Z) : Forall (λ i, is_Some (m !! addr i)) l →
  foldl (λ om i, match om with Some m => match m !! addr i with Some _ => Some (<[addr i := 0]> m) | None => None end | None => None end) (Some m) l =
  Some (zero_all addr l m).
Proof.
  revert m. induction l as [|i l IH]; intros m H; [done|]. apply Forall_cons in H as [[v Hv] H]. cbn [foldl zero_all]. rewrite Hv. apply IH.
  eapply Forall_impl; [exact H|]. intros j Hj. by apply lookup_insert_is_Some'; right.
Qed.

Lemma zero_all_lookup (addr : Z → Z) l m a : zero_all addr l m !! a = if decide (a ∈ addr <$> l) then Some 0 else m !! a.
Proof.
  unfold zero_all. revert m. induction l as [|i l IH]; intros m; [done|]. cbn [foldl fmap list_fmap]. rewrite IH.
  destruct (decide (a ∈ addr <$> l)) as [Hin|Hin].
  - by rewrite decide_True by (by right).
  - destruct (decide (a = addr i)) as [->|Hne].
    + rewrite lookup_insert_eq, decide_True by left. done.
    + rewrite lookup_insert_ne by done. rewrite decide_False; [done|]. intros [?|?]%elem_of_cons; done.
Qed.
End Sums.

Lemma msr_halves low high : 0 ≤ low < 2 ^ 32 → 0 ≤ high < 2 ^ 32 → Z.lor low (u64 (Z.shiftl high 32)) = high * 2 ^ 32 + low.
Proof. intros Hl Hh. rewrite Z.shiftl_mul_pow2 by lia. rewrite u64_small by lia. rewrite Z.lor_comm. by apply lor_low. Qed.

(** ** Properties *)

(** Sums over all CPUs: with every copy mapped, DPCPU_SUM is the sum of the
    copies of the CPUs that are present, modulo the width of the variable;
    after DPCPU_ZERO it is 0, and no other variable has changed. *)
Theorem percpu_sums w dpcpu_off l mp_maxid n m :
  0 < w → cpus_ok l → 0 ≤ mp_maxid < CPU_SETSIZE →
  Forall (λ i, is_Some (m !! DPCPU_ID_PTR dpcpu_off i n)) (cpu_list l mp_maxid) →
  DPCPU_SUM w dpcpu_off mp_maxid n m l =
    Done (Some (foldr (λ i s, default 0 (m !! DPCPU_ID_PTR dpcpu_off i n) + s) 0 (cpu_list l mp_maxid) mod 2 ^ w)) l ∧
  ∃ m', DPCPU_ZERO dpcpu_off mp_maxid n m l = Done (Some m') l ∧ DPCPU_SUM w dpcpu_off mp_maxid n m' l = Done (Some 0) l ∧
    ∀ a, a ∉ (λ i, DPCPU_ID_PTR dpcpu_off i n) <$> cpu_list l mp_maxid → m' !! a = m !! a.
Proof.
  intros Hw Hl Hmax Hm. set (addr := λ i, DPCPU_ID_PTR dpcpu_off i n).
  assert (S : ∀ m, Forall (λ i, is_Some (m !! addr i)) (cpu_list l mp_maxid) → DPCPU_SUM w dpcpu_off mp_maxid n m l =
    Done (Some (foldr (λ i s, default 0 (m !! addr i) + s) 0 (cpu_list l mp_maxid) mod 2 ^ w)) l).
  { intros m0 H0. unfold DPCPU_SUM. rewrite cpu_foreach_ok by done. f_equal. rewrite <- (Z.mod_0_l (2 ^ w)) at 1 by lia. by rewrite (fold_sum w addr m0). }
  split; [by apply S|]. exists (zero_all addr (cpu_list l mp_maxid) m). split_and!.
  - unfold DPCPU_ZERO. rewrite cpu_foreach_ok by done. by rewrite (fold_zero addr).
  - rewrite S.
    + f_equal. f_equal. rewrite <- (Z.mod_0_l (2 ^ w)) by lia. f_equal. assert (G : ∀ k, k ⊆ cpu_list l mp_maxid →
        foldr (λ i s, default 0 (zero_all addr (cpu_list l mp_maxid) m !! addr i) + s) 0 k = 0); [|by apply G].
      induction k as [|i k IH]; intros Hk; [done|]. cbn [foldr]. rewrite IH by set_solver. rewrite zero_all_lookup, decide_True; [done|].
      apply (list_elem_of_fmap_2 addr), Hk. left.
    + eapply Forall_impl; [exact Hm|]. intros i Hi. rewrite zero_all_lookup. by case_decide.
  - intros a Ha. rewrite zero_all_lookup, decide_False; done.
Qed.

(** What wrmsr writes rdmsr reads, and other registers are not touched; the two
    reads of the time stamp counter agree; clearing flags of a control block
    undoes setting them where they were not set. *)
Theorem halves_roundtrip msr newval r tsc pcb flags :
  0 ≤ newval < 2 ^ 64 → is_Some (r !! msr) → 0 ≤ tsc < 2 ^ 64 → 0 ≤ pcb < 2 ^ 32 → 0 ≤ flags < 2 ^ 32 → Z.land pcb flags = 0 →
  (∃ r', wrmsr msr newval r = Done () r' ∧ rdmsr msr r' = Done newval r' ∧ ∀ x, x ≠ msr → r' !! x = r !! x) ∧
  rdtsc tsc = tsc ∧ rdtsc32 tsc = u32 (rdtsc tsc) ∧
  (set_pcb_flags flags;; clear_pcb_flags flags) pcb = Done () pcb.
Proof.
  intros Hv [old Hr] Ht Hp Hf Hd.
  assert (G : ∀ v, 0 ≤ v < 2 ^ 64 → Z.lor (v mod 2 ^ 32) (u64 (Z.shiftl (v / 2 ^ 32) 32)) = v).
  { intros v Hv'. rewrite msr_halves by (Z.div_mod_to_equations; lia).
    rewrite Z.mul_comm. symmetry. by apply Z.div_mod. }
  split_and!.
  - exists (<[msr := newval]> r). unfold wrmsr, wrmsr_insn. rewrite Hr. rewrite Z.shiftr_div_pow2 by lia.
    assert (E : u32 (newval / 2 ^ 32) * 2 ^ 32 + u32 newval = newval).
    { rewrite (u32_small (newval / 2 ^ 32)) by (split; [apply Z.div_pos|apply Z.div_lt_upper_bound]; lia). rewrite Z.mul_comm. symmetry. by apply Z.div_mod. }
    rewrite E. split_and!; [done| |].
    + unfold rdmsr. rewrite (bind_done _ _ _ _ _ (ltac:(unfold rdmsr_insn; by rewrite lookup_insert_eq) : rdmsr_insn msr (<[msr := newval]> r) = Done (newval mod 2 ^ 32, newval / 2 ^ 32) (<[msr := newval]> r))).
      by rewrite mret_done, G.
    + intros x Hx. by rewrite lookup_insert_ne.
  - by apply G.
  - unfold rdtsc32, rdtsc. by rewrite G.
  - unfold set_pcb_flags, clear_pcb_flags, modifyS, mbind, C_bind. f_equal. apply Z.bits_inj'. intros i Hi.
    rewrite Z.land_spec, Z.lor_spec. unfold u32. pose proof (f_equal (λ z, Z.testbit z i) Hd) as Hb. cbn beta in Hb. rewrite Z.land_spec, Z.bits_0 in Hb.
    destruct (decide (i < 32)) as [Hlt|Hge].
    + rewrite Z.mod_pow2_bits_low, Z.lnot_spec by lia. by destruct (Z.testbit pcb i), (Z.testbit flags i).
    + rewrite Z.mod_pow2_bits_high, andb_false_r by lia. symmetry. apply (Z.testbit_false pcb i Hi).
      rewrite Z.div_small; [done|]. split; [lia|]. apply Z.lt_le_trans with (2 ^ 32); [lia|]. apply Z.pow_le_mono_r; lia.
Qed.
